(* ===== verification/_CoqProject ===== *)
-Q . S2P
Prelude.v
Heap.v
Binary64.v
DoubleArith.v
Bson.v
PgbsonElement.v
StringView.v
Traversal.v
Decimal128.v
Collation.v
BsonCompare.v
ComparableTerm.v
Arithmetic.v
ArithmeticExpr.v
GinIndexTerm.v
BsonHash.v
QueryOperators.v
QuerySets.v
BitOperators.v
NumericAggregates.v
UpdateOperators.v
UpdateTree.v
UpdateApply.v
UpdateBuild.v
UpdateArrays.v
UpdateDocument.v
JsonSchemaTree.v
JsonSchemaValidator.v
JsonSchemaSpec.v
JsonSchemaBuild.v
JsonSchemaCorrect.v
JsonSchemaUnique.v
RumPosting.v
RumDataPage.v
RumLeafPage.v
RumSplit.v
RumInner.v
RumTree.v
RumTreeInsert.v
MaxMinN.v
