(* ===== verification/Prelude.v ===== *)
(** * Verification of DocumentDB: prelude and overview

    DocumentDB stores and queries BSON documents inside PostgreSQL.  Its core
    is C code under [src/pg_documentdb_core] (the bson type) and
    [src/pg_documentdb] (queries, indexes, aggregation), with an index access
    method under [src/pg_documentdb_extended_rum].  This library models the
    parts of it that define what a document means to the database: the order
    and the hashes of values, the terms that the index stores, the query
    operators, the update operators and the update of a document, the validation
    of a document against a JSON schema, the arithmetic and some accumulators;
    and the trees in which the index keeps the rows of a term.

    ** Parts of the program and their files

    The base:
    - [Prelude] (this file): errors, machine integers with their wrap-around,
      bytes and [memcmp], the tactics and the lemmas that the others share.
    - [Binary64], [DoubleArith]: the C type [double] as its bit pattern, with
      comparison, conversion, rounding and arithmetic.
    - [Bson]: [bson_type_t], [bson_value_t] and well-formedness.

    The bson type ([pg_documentdb_core/src]):
    - [StringView]: [types/string_view.c], [include/utils/string_view.h].
    - [PgbsonElement]: [io/pgbsonelement.c], the readers of documents with one
      element.
    - [Traversal]: [TraverseBsonCore] of [io/pgbson_utils.c] and
      [include/io/bson_traversal.h], the walk along a dotted path that calls
      back into an operator.
    - [Decimal128]: [types/decimal128.c], conversions, tests, comparison.
    - [Collation]: [collation/collation.c], the collator cache, collated
      comparison and sort keys.
    - [BsonCompare]: [query/bson_compare.c], the order of values, the B-tree
      operator class and the numeric conversions.
    - [BsonHash]: [query/bson_hash.c], the hash operator class and the hashes
      of shard keys and sets.
    - [Arithmetic]: the arithmetic of [io/pgbson_utils.c] and
      [types/decimal128.c], and [GetRemainderFromModBsonValues].

    The database ([pg_documentdb/src]):
    - [ComparableTerm]: [opclass/comparable_index_term.c], index terms whose
      bytes order like their values.
    - [GinIndexTerm]: [opclass/gin_index_term.c], the terms of the index and
      the comparison function of its operator class.
    - [QueryOperators], [QuerySets]: the comparison operators, $in, $nin, $all,
      $range, $exists, $size, $type and $regex of
      [query/bson_dollar_operators.c], the hash set of [utils/hashset_utils.c]
      and the range parameters of [aggregation/bson_query_common.c].
    - [BitOperators]: the bitwise operators and $mod, with the preparation of
      their arguments in [query/query_operator.c].
    - [ArithmeticExpr]: the arithmetic expressions of
      [operators/bson_expression_arithmetic_operators.c].
    - [NumericAggregates]: $sum and $avg of [aggregation/bson_aggregates.c].
    - [UpdateOperators]: [update/bson_update_operators.c], [utils/sort_utils.c]
      and the evaluation of expressions on arrays in [query/bson_expr_eval.c].
    - [UpdateTree]: [update/bson_update_operators_workflow.c] and the part of
      [aggregation/bson_tree.c] that it uses; [UpdateApply] and [UpdateBuild] hold
      the theorems about applying and building the tree, [UpdateArrays] those
      about the operators on arrays.
    - [UpdateDocument]: [update/bson_update.c].
    - [JsonSchemaTree]: [jsonschema/bson_json_schema_tree.c] and
      [include/jsonschema/bson_json_schema_tree.h], the tree of a schema;
      [JsonSchemaValidator]: [jsonschema/bson_json_schema_validator.c], the
      operator $jsonSchema.  [JsonSchemaSpec] states when a schema is accepted
      and what its keywords mean, without a tree; [JsonSchemaBuild],
      [JsonSchemaCorrect] and [JsonSchemaUnique] hold the theorems about building
      the tree, about validating with it and about "uniqueItems".
    - [Heap], [MaxMinN]: [utils/heap_utils.c] and the accumulators $maxN and
      $minN of [aggregation/bson_aggregates.c].

    The access method ([pg_documentdb_extended_rum/core]):
    - [RumPosting]: the encoding of posting lists, in
      [include/pg_documentdb_rum.h] and [src/rumdatapage.c].
    - [RumDataPage]: the pages of a posting tree and their operations, all of
      [src/rumdatapage.c]; [RumLeafPage], [RumSplit] and [RumInner] hold the
      theorems about leaves, the split of a leaf and inner pages.
    - [RumTree]: the descent and the insertion of [src/rumbtree.c] over a store
      of pages; [RumTreeInsert] holds the invariant of a whole posting tree and
      the theorems about search and insertion.

    The parts interact as in the code: a query operator walks the document with
    [Traversal] and compares with [BsonCompare], which compares numbers through
    [Decimal128] and strings through [Collation]; an index term is read with
    [PgbsonElement] or [ComparableTerm] and compared with [BsonCompare]; the
    accumulators compare with [BsonCompare] or add with [Arithmetic]; an update
    builds a tree of its paths with [UpdateTree], which calls [UpdateOperators] for
    each leaf, and these calculate with [Arithmetic], compare with [BsonCompare]
    and look elements up by the hashes of [BsonHash].  The schema validator calls
    [BsonCompare] for bounds and enumerations, [Arithmetic] for "multipleOf",
    [StringView] for lengths and the hash sets of [QuerySets] for unique items.

    ** How the model corresponds to the code

    A C function is the definition of the same name; a static helper or a loop
    that has no name in C has a lower-case name ([composite_loop]).  An error
    raised with [ereport(ERROR)] is [Err] of its code in the type [result]; a
    function that may also read or write outside its memory, or run out of
    depth, returns [outcome], an [option result] whose [None] is that failure.
    Output parameters are components of the result, and what a call leaves in
    them.  Integers are [Z] with the wrap-around of their C type written out
    ([int32], [uint64], ...); strings and buffers are lists of bytes; a document
    is the sequence of its elements, in order, duplicate keys included.

    Code outside of [src/] is a type class, with its documented behaviour as
    the laws of a second class, and an instance that shows the laws can hold:
    - the Intel decimal library: [BidLib]/[BidLaws] ([ExactBid]) and
      [BidMath]/[BidMathLaws] ([ZeroMath]);
    - ICU: [Icu]/[IcuLaws] ([FoldCase]);
    - libbson's search for a key: [FindField]/[FindFieldLaws] ([FindFirst]),
      and its reader of nested documents: [DocumentReader];
    - PostgreSQL's byte hashes: [PgHash], without laws; its hash tables:
      [DynaHash]/[DynaHashLaws] ([scan_keys]), and for sets of strings
      [StringTable]/[StringTableLaws] ([scan_strings]);
    - the allocation of index blocks: [NewBuffer]/[NewBufferLaws]
      ([extend_index]);
    - PCRE: [Pcre], without laws; the evaluation of $elemMatch inside $all:
      [ExprEval], without laws;
    - PostgreSQL's evaluation of a compiled expression: [QueryExpression]
      ([value_expression]), and of a query for the operator $: [PositionalQuery]
      ([no_match]), without laws; its sort: [QSort]/[QSortLaws]
      ([sort_by_insertion]); libbson's search along a path: [FindDescendant]
      ([search_documents]), without laws; its validation is an argument.

    Configuration variables that change the behaviour ([EnableCollation],
    [EnableExistentialNullArrayMatch], [EnableSchemaEnforcementForCSFLE],
    [EnableBsonTypeArgumentValidation]) are section variables.

    ** What the theorems show

    - Order: [compare_refines_order] relates the comparison to a specified
      order, [compare_total_preorder] and [bson_operator_class] give the contract
      of the B-tree operator class.
    - Hashes: equal values and documents have equal hashes
      ([hash_respects_comparison], [hash_operator_class], [value_hash_numbers]).
    - Index terms: [gin_compare_refines_term_order], [composite_compare_columnwise]
      and [gin_compare_total_preorder] show that serialized terms in any mix of
      forms are ordered as their decoded values; the encodings are monotone and
      invertible ([sortable_double_monotone], [comparable_term_roundtrip],
      [composite_term_roundtrip], [element_reader_roundtrip]).
    - Queries: [path_values] of [Traversal] defines the values that a path
      denotes, and each operator is shown to ask for one of them
      ([comparison_operators_correct], [exists_and_size_correct],
      [bits_operators_correct], [mod_operator_correct]); $all is a conjunction
      and $in a disjunction of $eq ([all_is_conjunction], [in_is_disjunction]),
      $range implies its bounds ([range_operator_correct]); the shortcut on the
      [_id] changes no answer ([object_id_shortcut]).
    - Updates: an update is a list of paths with operators ([entries_of]); its
      tree has these as leaves, or it fails with a conflict ([update_tree_built]);
      applied to a document it changes the values at these paths and nothing else
      ([update_correct]), keeps the places of array elements
      ([array_update_correct]) and never changes the [_id]
      ([update_document_keeps_id]); a replacement is the [_id] and the new fields
      ([replace_correct]).  On arrays $pull, $pullAll and $pop are filters
      ([array_removals]), $addToSet adds each missing element once
      ([add_to_set_correct]), and $push inserts, sorts and slices
      ([push_correct]).
    - Schemas: building the tree and validating with it together decide the
      conjunction of the conditions of the keywords ([satisfies]), or report that
      the schema is not [accepted], and follow no pointer that is not set
      ([json_schema_correct]); the hash set and the sorted lists of fields find
      exactly the repeated elements ([unique_items_correct]).
    - Arithmetic: exact on integers as far as 64 bits reach, with no silent
      overflow ([integer_arithmetic_exact], [remainder_exact]), closed on
      numbers ([arithmetic_closed]); constant folding of $add changes nothing
      ([add_parse_run_agree]).
    - Accumulators: sums of groups, of parts of groups and of moving windows
      ([group_sum_correct], [window_sum_invariant]); $maxN and $minN deliver the
      N best values whatever the order of transitions and combinations, and stay
      within their memory ([maxminn_selects_best], [maxminn_calls_safe],
      [heap_priority_queue]).
    - Posting trees: a page represents an ordered list of items ([leaf_page]) or
      a list of children with their greatest items ([inner_page]).  What is
      written is read back ([posting_roundtrip]); search, insertion and split of
      leaves implement search, merge and division of that list
      ([leaf_search_correct], [leaf_insert_correct], [leaf_insert_progress],
      [leaf_split_correct]); on inner pages the search, the entry of the halves of
      a split child and the split send every key to the right child
      ([inner_search_correct], [inner_insert_correct], [inner_split_correct]).
      A tree of such pages ([tree]) represents the ordered list of the items in
      its leaves: a search from the root decides membership in that list
      ([posting_tree_search]), and the insertion of an item, with every split up
      to a new root, is the insertion into that list ([posting_tree_insert]).
    - Where the code departs from what it means to do, a theorem states the
      departure on a concrete input ([two_63_sorted_before_smaller_integer],
      [positive_integer_overflow_accepted], [range_stricter_than_conjunction],
      [in_misses_equal_documents], [duplicate_bit_positions],
      [remainder_loses_precision], [window_sum_after_infinity],
      [add_constant_date_null], [subtract_dates_overflow],
      [split_passes_right_bound], [build_split_reads_past_children],
      [rename_loses_value], [unset_shifts_array], [unset_accepts_trailing_dot],
      [no_operation_creates_documents], [pull_pads_array], [max_items_wraps],
      [max_length_wraps], [additional_items_overwritten],
      [key_type_names_swapped] and others).

    ** Fuel and bounds

    [TraverseBson] gives [TraverseBsonCore] one more unit of fuel than the path
    has characters; each call removes at least one character, and
    [traversal_terminates] shows that this is enough and that more changes
    nothing.  Updates recurse on the path, on the tree and on the fields of the
    document, without fuel; the keys of array elements are written with at most
    ten digits, which is enough for a 32-bit index.  Building and validating a
    schema take the nesting depth of the schema as fuel, comparing the elements
    of an array that of the array; [json_schema_correct] and
    [unique_items_correct] show that they return.  The comparison and the hash of
    nested values recurse on the value itself, the loops on their lists; the heap loops take the number of cells as
    fuel, and [heap_priority_queue] shows that they return.  The variable-length
    integers have at most seven bytes for a block number and three for an
    offset.  The loop that merges items into a leaf gets a round for every item
    and two more ([leaf_insert_correct] shows that it returns), the binary
    search of an inner page one for every child ([inner_search_correct]).  The
    descent in a tree and the way back take one unit of fuel for each level, so
    more than the height of the tree is enough ([posting_tree_insert]).

    ** Not modelled

    PostgreSQL's own interfaces (function managers, memory contexts, SPI,
    catalogs, planner and executor nodes), libbson's writers and JSON
    conversion, geospatial and vector search (PostGIS, pgvector), the vendored
    roaring bitmaps, background jobs and the gateway; the document that an upsert
    starts from, updates by an aggregation pipeline and the hooks of change
    streams; the use of schemas by the commands
    ([schema_validation/schema_validation.c]); of the access method the
    entry tree, buffers, locks, the log, the repair of unfinished splits, scans
    and vacuum.  Within the modelled
    files: the unary and trigonometric decimal operations, which only call the
    Intel library; parsing of collation documents; the truncation of large
    index terms; $expr, $elemMatch, $text and the order-by operators; roots and
    logarithms among the expressions; the accumulators other than $sum, $avg,
    $maxN and $minN.

    ** Plan

    Next in order: the order-by operators of [bson_dollar_operators.c], the
    remaining accumulators, the truncation of index terms and the generation of
    terms from documents, the repair of unfinished splits and the scan of a
    posting tree, shard keys, the rest of the path trees (projections and updates
    by a pipeline), and the comparison, boolean, set, array and string expressions. *)

From stdpp Require Import base numbers list option.
From Stdlib Require Import ZArith Lia.
From Stdlib Require Ascii String.

#[export] Set Default Goal Selector "!".

Open Scope Z_scope.

(** ** Errors

    [ereport(ERROR, ...)] leaves the C function with a [longjmp]; the model
    returns [Err] with the error code.  A call that names no [errcode] raises
    PostgreSQL's default [ERRCODE_INTERNAL_ERROR]. *)

Inductive errcode : Set :=
| ERRCODE_INTERNAL_ERROR
| ERRCODE_FEATURE_NOT_SUPPORTED
| ERRCODE_INDEX_CORRUPTED
| ERRCODE_DOCUMENTDB_INTERNALERROR
| ERRCODE_DOCUMENTDB_BADVALUE
| ERRCODE_DOCUMENTDB_CONVERSIONFAILURE
| ERRCODE_DOCUMENTDB_TYPEMISMATCH
| ERRCODE_DOCUMENTDB_COMMANDNOTSUPPORTED
| ERRCODE_DOCUMENTDB_LOCATION16004
| ERRCODE_DOCUMENTDB_LOCATION16006
| ERRCODE_DOCUMENTDB_LOCATION31109
| ERRCODE_DOCUMENTDB_INTERMEDIATERESULTTOOLARGE
| ERRCODE_DOCUMENTDB_LOCATION5787902
| ERRCODE_DOCUMENTDB_LOCATION5787903
| ERRCODE_DOCUMENTDB_LOCATION5787908
| ERRCODE_DOCUMENTDB_LOCATION5429513
| ERRCODE_DOCUMENTDB_LOCATION5429414
| ERRCODE_DOCUMENTDB_INDEXNOTFOUND
| ERRCODE_DOCUMENTDB_FAILEDTOPARSE
| ERRCODE_DOCUMENTDB_DOLLARMODONLYNUMERIC
| ERRCODE_DOCUMENTDB_DOLLARMODBYZEROPROHIBITED
| ERRCODE_DOCUMENTDB_OVERFLOW
| ERRCODE_DOCUMENTDB_LOCATION28765
| ERRCODE_DOCUMENTDB_DOLLARADDONLYONEDATE
| ERRCODE_DOCUMENTDB_DOLLARABSCANTTAKELONGMINVALUE
| ERRCODE_DOCUMENTDB_DOLLARPOWBASEMUSTBENUMERIC
| ERRCODE_DOCUMENTDB_DOLLARPOWEXPONENTMUSTBENUMERIC
| ERRCODE_DOCUMENTDB_DOLLARPOWEXPONENTINVALIDFORZEROBASE
| ERRCODE_DOCUMENTDB_DOLLARROUNDFIRSTARGMUSTBENUMERIC
| ERRCODE_DOCUMENTDB_DOLLARROUNDPRECISIONMUSTBEINTEGRAL
| ERRCODE_DOCUMENTDB_DOLLARROUNDPRECISIONOUTOFRANGE
| ERRCODE_DOCUMENTDB_DOLLARROUNDOVERFLOWINT64
| ERRCODE_DOCUMENTDB_EMPTYFIELDNAME
| ERRCODE_DOCUMENTDB_PATHNOTVIABLE
| ERRCODE_DOCUMENTDB_CANNOTBACKFILLARRAY
| ERRCODE_DOCUMENTDB_CONFLICTINGUPDATEOPERATORS
| ERRCODE_DOCUMENTDB_IMMUTABLEFIELD
| ERRCODE_DOCUMENTDB_NOTSINGLEVALUEFIELD
| ERRCODE_DOCUMENTDB_DOCUMENTTOUPSERTLARGERTHANMAXSIZE
| ERRCODE_DOCUMENTDB_DOCUMENTAFTERUPDATELARGERTHANMAXSIZE
| ERRCODE_DOCUMENTDB_DOLLARPREFIXEDFIELDNAME
| ERRCODE_DOCUMENTDB_LOCATION31250
| ERRCODE_DOCUMENTDB_UNKNOWNBSONFIELD.

#[export] Instance errcode_eq_dec : EqDecision errcode.
Proof. solve_decision. Defined.

Inductive result (A : Type) : Type :=
| Ok (a : A)
| Err (e : errcode).
Arguments Ok {A} a.
Arguments Err {A} e.

Definition result_bind {A B} (m : result A) (k : A -> result B) : result B :=
  match m with
  | Ok a => k a
  | Err e => Err e
  end.

Declare Scope docdb_scope.
Delimit Scope docdb_scope with docdb.

Notation "'let!' x ':=' m 'in' k" := (result_bind m (fun x => k))
  (at level 10, x pattern, m at level 100, k at level 200) : docdb_scope.
Open Scope docdb_scope.

(** Calls that may not return: [None] is an access outside an allocated object,
    or a loop that has used up the rounds it was given; otherwise the call
    returns or raises an error. *)
Definition outcome (A : Type) : Type := option (result A).

Definition out_bind {A B} (m : outcome A) (k : A -> outcome B) : outcome B :=
  match m with
  | None => None
  | Some (Err e) => Some (Err e)
  | Some (Ok a) => k a
  end.

Notation "'out!' x ':=' m 'in' k" := (out_bind m (fun x => k))
  (at level 10, x pattern, m at level 100, k at level 200) : docdb_scope.

(** ** Machine integers

    A w-bit integer is a [Z]; [wrap_u] and [wrap_s] are the C conversions to
    an unsigned and to a two's complement signed type (PostgreSQL compiles
    with [-fwrapv], so signed arithmetic wraps as well). *)

Definition wrap_u (w z : Z) : Z := z mod 2 ^ w.
Definition wrap_s (w z : Z) : Z := (z + 2 ^ (w - 1)) mod 2 ^ w - 2 ^ (w - 1).

Abbreviation uint8 := (wrap_u 8).
Abbreviation uint32 := (wrap_u 32).
Abbreviation uint64 := (wrap_u 64).
Abbreviation int32 := (wrap_s 32).
Abbreviation int64 := (wrap_s 64).

Definition INT32_MIN : Z := - 2 ^ 31.
Definition INT32_MAX : Z := 2 ^ 31 - 1.
Definition INT64_MIN : Z := - 2 ^ 63.
Definition INT64_MAX : Z := 2 ^ 63 - 1.

Definition in_int32 (z : Z) : bool := (INT32_MIN <=? z) && (z <=? INT32_MAX).
Definition in_int64 (z : Z) : bool := (INT64_MIN <=? z) && (z <=? INT64_MAX).

Lemma wrap_u_small w z : 0 <= z < 2 ^ w -> wrap_u w z = z.
Proof. intros. unfold wrap_u. apply Z.mod_small. lia. Qed.

Lemma wrap_u_range w z : 0 <= w -> 0 <= wrap_u w z < 2 ^ w.
Proof. intros. unfold wrap_u. apply Z.mod_pos_bound. lia. Qed.

Lemma wrap_s_small w z : 0 < w -> - 2 ^ (w - 1) <= z < 2 ^ (w - 1) -> wrap_s w z = z.
Proof.
  intros Hw Hz. unfold wrap_s.
  assert (2 ^ w = 2 * 2 ^ (w - 1)) as E.
  { rewrite <- Z.pow_succ_r by lia. f_equal. lia. }
  rewrite E, Z.mod_small; lia.
Qed.

Lemma wrap_s_range w z : 0 < w -> - 2 ^ (w - 1) <= wrap_s w z < 2 ^ (w - 1).
Proof.
  intros Hw. unfold wrap_s.
  assert (2 ^ w = 2 * 2 ^ (w - 1)) as E.
  { rewrite <- Z.pow_succ_r by lia. f_equal. lia. }
  pose proof (Z.mod_pos_bound (z + 2 ^ (w - 1)) (2 ^ w)). lia.
Qed.

(** A difference of two 32-bit lengths, returned as an [int]. *)
Lemma int32_uint32 z : - 2 ^ 31 <= z < 2 ^ 31 -> int32 (uint32 z) = z.
Proof.
  intros Hz. unfold wrap_s, wrap_u. rewrite Zplus_mod_idemp_l.
  change (2 ^ (32 - 1)) with (2 ^ 31). rewrite Z.mod_small; lia.
Qed.

Lemma int64_uint64 z : - 2 ^ 63 <= z < 2 ^ 63 -> int64 (uint64 z) = z.
Proof.
  intros Hz. unfold wrap_s, wrap_u. rewrite Zplus_mod_idemp_l.
  change (2 ^ (64 - 1)) with (2 ^ 63). rewrite Z.mod_small; lia.
Qed.

(** ** Byte strings and the C string functions *)

Abbreviation bytes := (list Z).

(** [memcmp] over two buffers of the same length: the difference of the first
    bytes that differ.  C only specifies its sign, and every theorem below
    uses only the sign. *)
Fixpoint memcmp (l r : bytes) : Z :=
  match l, r with
  | a :: l', b :: r' => if a =? b then memcmp l' r' else a - b
  | _, _ => 0
  end.

(** The sequence of bytes before the first NUL. *)
Fixpoint cstring (l : bytes) : bytes :=
  match l with
  | [] => []
  | a :: l' => if a =? 0 then [] else a :: cstring l'
  end.

(** The bytes of a string literal. *)
Definition str (s : String.string) : bytes :=
  map (fun c => Z.of_N (Ascii.N_of_ascii c)) (String.list_ascii_of_string s).
Arguments str s%_string_scope.

Definition strlen (l : bytes) : Z := Z.of_nat (length (cstring l)).

(** [strcmp] of two NUL-terminated strings, given by their bytes before (or
    including) the terminator. *)
Fixpoint strcmp (l r : bytes) : Z :=
  match l, r with
  | [], [] => 0
  | [], b :: _ => 0 - b
  | a :: _, [] => a - 0
  | a :: l', b :: r' =>
      if a =? b then (if a =? 0 then 0 else strcmp l' r') else a - b
  end.

(** [strncmp(l, r, n)] where both buffers hold at least [n] bytes. *)
Fixpoint strncmp (l r : bytes) (n : nat) : Z :=
  match n, l, r with
  | S n', a :: l', b :: r' =>
      if a =? b then (if a =? 0 then 0 else strncmp l' r' n') else a - b
  | _, _, _ => 0
  end.

Definition blen (l : bytes) : Z := Z.of_nat (length l).

Definition byteb (b : Z) : bool := (0 <=? b) && (b <? 256).
Definition bytesb (l : bytes) : bool := forallb byteb l.

(** ** Total preorders as comparison functions

    The comparison routines of the code return an [int] whose sign is the
    answer.  [TotalCmp] is what an index, a sort or a B-tree needs of such a
    routine: it is antisymmetric, its equality is a congruence and its strict
    part is transitive. *)

Definition sgn_cmp (z : Z) : comparison := z ?= 0.

Class TotalCmp {A} (cmp : A -> A -> comparison) : Prop := {
  cmp_antisym : forall x y, cmp y x = CompOpp (cmp x y);
  cmp_eq_l : forall x y z, cmp x y = Eq -> cmp x z = cmp y z;
  cmp_lt_trans : forall x y z, cmp x y = Lt -> cmp y z = Lt -> cmp x z = Lt;
}.

Arguments cmp_antisym {A} cmp {_} x y.
Arguments cmp_eq_l {A} cmp {_} x y z.
Arguments cmp_lt_trans {A} cmp {_} x y z.

Section total_cmp_facts.
Context {A : Type} (cmp : A -> A -> comparison) {T : TotalCmp cmp}.

Lemma cmp_refl x : cmp x x = Eq.
Proof. pose proof (cmp_antisym cmp x x). by destruct (cmp x x). Qed.

Lemma cmp_eq_r x y z : cmp y z = Eq -> cmp x y = cmp x z.
Proof.
  intros H. rewrite (cmp_antisym cmp y x), (cmp_antisym cmp z x). f_equal.
  by apply cmp_eq_l.
Qed.

Lemma cmp_eq_sym x y : cmp x y = Eq -> cmp y x = Eq.
Proof. intros H. by rewrite (cmp_antisym cmp x y), H. Qed.

Lemma cmp_gt_lt x y : cmp x y = Gt <-> cmp y x = Lt.
Proof. rewrite (cmp_antisym cmp x y). by destruct (cmp x y). Qed.

(** The reflexive order. *)
Definition cmp_le x y : Prop := cmp x y <> Gt.

Lemma cmp_le_refl x : cmp_le x x.
Proof. unfold cmp_le. by rewrite cmp_refl. Qed.

Lemma cmp_le_trans x y z : cmp_le x y -> cmp_le y z -> cmp_le x z.
Proof.
  unfold cmp_le. intros Hxy Hyz. destruct (cmp x y) eqn:E; [|clear Hxy|done].
  - by rewrite (cmp_eq_l cmp x y z E).
  - destruct (cmp y z) eqn:F; [|by rewrite (cmp_lt_trans cmp x y z)|done].
    by rewrite <- (cmp_eq_r x y z F), E.
Qed.

Lemma cmp_not_lt_le x y : cmp x y <> Lt -> cmp_le y x.
Proof. unfold cmp_le. rewrite (cmp_antisym cmp x y). by destruct (cmp x y). Qed.

Lemma cmp_lt_le x y : cmp x y = Lt -> cmp_le x y.
Proof. unfold cmp_le. by intros ->. Qed.
End total_cmp_facts.

(** Combinators that build a [TotalCmp] from others. *)

Definition cmp_on {A B} (f : A -> B) (c : B -> B -> comparison) (x y : A) : comparison :=
  c (f x) (f y).

Definition cmp_lex {A} (c1 c2 : A -> A -> comparison) (x y : A) : comparison :=
  match c1 x y with Eq => c2 x y | c => c end.

Definition cmp_opp {A} (c : A -> A -> comparison) (x y : A) : comparison :=
  CompOpp (c x y).

Fixpoint cmp_list {A} (c : A -> A -> comparison) (l r : list A) : comparison :=
  match l, r with
  | [], [] => Eq
  | [], _ :: _ => Lt
  | _ :: _, [] => Gt
  | x :: l', y :: r' => match c x y with Eq => cmp_list c l' r' | o => o end
  end.

#[export] Instance Zcompare_total : TotalCmp Z.compare.
Proof.
  split.
  - intros x y. apply Z.compare_antisym.
  - intros x y z ->%Z.compare_eq. done.
  - intros x y z. rewrite !Z.compare_lt_iff. lia.
Qed.

Lemma total_cmp_ext {A} (c d : A -> A -> comparison) :
  (forall x y, c x y = d x y) -> TotalCmp d -> TotalCmp c.
Proof.
  intros E T. split; intros x y; rewrite ?E; [apply (cmp_antisym d)|..]; intros z; rewrite !E;
    [apply (cmp_eq_l d)|apply (cmp_lt_trans d)].
Qed.

#[export] Instance cmp_const_total {A} : TotalCmp (fun _ _ : A => Eq).
Proof. split; done. Qed.

#[export] Instance cmp_on_total {A B} (f : A -> B) c :
  TotalCmp c -> TotalCmp (cmp_on f c).
Proof.
  intros T. unfold cmp_on. split; intros.
  - apply (cmp_antisym c).
  - by apply (cmp_eq_l c).
  - by eapply (cmp_lt_trans c).
Qed.

#[export] Instance cmp_opp_total {A} (c : A -> A -> comparison) :
  TotalCmp c -> TotalCmp (cmp_opp c).
Proof.
  intros T. unfold cmp_opp. split; intros x y.
  - by rewrite (cmp_antisym c x y).
  - intros z H. f_equal. apply (cmp_eq_l c). by destruct (c x y).
  - intros z. rewrite <- !(cmp_antisym c). intros H1 H2.
    by eapply (cmp_lt_trans c).
Qed.

#[export] Instance cmp_lex_total {A} (c1 c2 : A -> A -> comparison) :
  TotalCmp c1 -> TotalCmp c2 -> TotalCmp (cmp_lex c1 c2).
Proof.
  intros T1 T2. unfold cmp_lex. split; intros x y.
  - rewrite (cmp_antisym c1 x y), (cmp_antisym c2 x y). by destruct (c1 x y).
  - intros z. destruct (c1 x y) eqn:E1; try done. intros E2.
    by rewrite (cmp_eq_l c1 x y z E1), (cmp_eq_l c2 x y z E2).
  - intros z. destruct (c1 x y) eqn:E1; try done.
    + intros E2. rewrite (cmp_eq_l c1 x y z E1).
      destruct (c1 y z); try done. by apply (cmp_lt_trans c2).
    + intros _. destruct (c1 y z) eqn:E3; try done; intros _.
      * by rewrite <- (cmp_eq_r c1 x y z E3), E1.
      * by rewrite (cmp_lt_trans c1 x y z E1 E3).
Qed.

#[export] Instance cmp_list_total {A} (c : A -> A -> comparison) :
  TotalCmp c -> TotalCmp (cmp_list c).
Proof.
  intros T. split; intros x; induction x as [|a x IH].
  - by intros [|b y].
  - intros [|b y]; simpl; [done|].
    rewrite (cmp_antisym c a b). destruct (c a b); simpl; auto.
  - by intros [|b y].
  - intros [|b y] [|d z]; simpl; try done.
    destruct (c a b) eqn:E; try done. intros H.
    by rewrite (cmp_eq_l c a b d E), (IH y z H).
  - by intros [|b y] [|d z].
  - intros [|b y] [|d z]; simpl; try done.
    destruct (c a b) eqn:E; try done.
    + rewrite (cmp_eq_l c a b d E). destruct (c b d); eauto.
    + intros _. destruct (c b d) eqn:E2; try done; intros _.
      * by rewrite <- (cmp_eq_r c a b d E2), E.
      * by rewrite (cmp_lt_trans c a b d E E2).
Qed.

(** The elements with [p] first, each part by its own order. *)
Definition cmp_sum {A} (p : A -> bool) (c1 c2 : A -> A -> comparison) (x y : A) : comparison :=
  match p x, p y with
  | true, true => c1 x y
  | true, false => Lt
  | false, true => Gt
  | false, false => c2 x y
  end.

#[export] Instance cmp_sum_total {A} (p : A -> bool) (c1 c2 : A -> A -> comparison) :
  TotalCmp c1 -> TotalCmp c2 -> TotalCmp (cmp_sum p c1 c2).
Proof.
  intros T1 T2. unfold cmp_sum. split; intros x y.
  - destruct (p x), (p y); try done; [apply (cmp_antisym c1)|apply (cmp_antisym c2)].
  - intros z. destruct (p x), (p y), (p z); try done; [apply (cmp_eq_l c1)|apply (cmp_eq_l c2)].
  - intros z. destruct (p x), (p y), (p z); try done;
      [apply (cmp_lt_trans c1)|apply (cmp_lt_trans c2)].
Qed.

(** The order of byte strings: lexicographic, a proper prefix first. *)
Definition bytes_cmp : bytes -> bytes -> comparison := cmp_list Z.compare.

#[export] Instance bytes_cmp_total : TotalCmp bytes_cmp.
Proof. unfold bytes_cmp. apply _. Qed.

(** ** The C comparisons decide the order of byte strings *)

Lemma sgn_cmp_sub a b : sgn_cmp (a - b) = (a ?= b).
Proof. unfold sgn_cmp. destruct (Z.compare_spec a b); [rewrite Z.compare_eq_iff
  | rewrite Z.compare_lt_iff | rewrite Z.compare_gt_iff]; lia. Qed.

Lemma blen_cons a l : blen (a :: l) = 1 + blen l.
Proof. unfold blen. simpl. lia. Qed.

Lemma blen_nonneg l : 0 <= blen l.
Proof. unfold blen. lia. Qed.

Lemma blen_app l r : blen (l ++ r) = blen l + blen r.
Proof. unfold blen. rewrite length_app. lia. Qed.

Lemma sgn_cmp_opp z : sgn_cmp (- z) = CompOpp (sgn_cmp z).
Proof. unfold sgn_cmp. by destruct z. Qed.

(** ** Automation *)

(** [docdb] resolves the side conditions of the readers and comparisons;
    [blen] computes lengths of concatenations. *)
Create HintDb docdb.
Create Rewrite HintDb blen.
#[export] Hint Resolve blen_nonneg wrap_u_range wrap_s_range : docdb.
#[export] Hint Rewrite blen_app blen_cons : blen.

(** Every length in sight is not negative. *)
Ltac blen_fact l :=
  lazymatch goal with
  | _ : 0 <= blen l |- _ => fail
  | _ => pose proof (blen_nonneg l)
  end.

Ltac blens :=
  repeat match goal with
  | |- context [blen ?l] => blen_fact l
  | _ : context [blen ?l] |- _ => blen_fact l
  end.

(** Linear arithmetic over lengths. *)
Ltac blen_lia := autorewrite with blen in *; change (blen []) with 0 in *; blens; lia.

(** The cases of a byte [m] that the goal compares with constants: [tac]
    solves the goal for each constant, and the case of no constant is left. *)
Ltac by_constants m tac :=
  repeat match goal with
  | |- context [m =? ?k] => destruct (Z.eqb_spec m k) as [->|?]; [tac|cbn [orb]]
  end.

(** [memcmp] of the common prefix, then the difference of the lengths. *)
Lemma memcmp_then_length l r :
  sgn_cmp (if memcmp l r =? 0 then blen l - blen r else memcmp l r) = bytes_cmp l r.
Proof.
  unfold bytes_cmp. revert r. induction l as [|a l IH]; intros [|b r];
    cbn [memcmp cmp_list]; rewrite ?Z.eqb_refl.
  - done.
  - rewrite sgn_cmp_sub, blen_cons. apply Z.compare_lt_iff.
    blen_lia.
  - rewrite sgn_cmp_sub, blen_cons. apply Z.compare_gt_iff.
    blen_lia.
  - destruct (Z.eqb_spec a b) as [->|Hne].
    + rewrite Z.compare_refl, !blen_cons.
      replace (1 + blen l - (1 + blen r)) with (blen l - blen r) by lia. apply IH.
    + replace (a - b =? 0) with false by lia. rewrite sgn_cmp_sub.
      destruct (Z.compare_spec a b); done.
Qed.

Lemma memcmp_same_length l r :
  length l = length r -> sgn_cmp (memcmp l r) = bytes_cmp l r.
Proof.
  intros H. rewrite <- memcmp_then_length.
  replace (blen l - blen r) with 0 by (unfold blen; lia).
  by destruct (Z.eqb_spec (memcmp l r) 0) as [->|].
Qed.

Lemma memcmp_take l r n :
  (length l <= n \/ length r <= n)%nat -> memcmp (take n l) (take n r) = memcmp l r.
Proof.
  revert r n. induction l as [|a l IH]; intros [|b r] [|n] Hn; simpl in *; try done.
  - lia.
  - rewrite IH by lia. done.
Qed.

Lemma bytes_cmp_eq l r : bytes_cmp l r = Eq <-> l = r.
Proof.
  unfold bytes_cmp. revert r. induction l as [|a l IH]; intros [|b r]; simpl; try done.
  destruct (Z.compare_spec a b) as [->|H|H].
  - rewrite IH. split; [by intros ->|by intros [= ->]].
  - split; [done|]. intros [= ->]. lia.
  - split; [done|]. intros [= ->]. lia.
Qed.

Definition nul_free (l : bytes) : Prop := Forall (fun b => 0 < b) l.

Lemma strncmp_memcmp l r n :
  nul_free l -> strncmp l r n = memcmp (take n l) (take n r).
Proof.
  intros Hl. revert r n. induction Hl as [|a l Ha Hl IH]; intros [|b r] [|n];
    simpl; try done.
  destruct (a =? b); [|done]. replace (a =? 0) with false by lia. apply IH.
Qed.

Lemma strncmp_take l r n : strncmp l r n = strncmp (take n l) r n.
Proof.
  revert l r. induction n as [|n IH]; intros [|a l] [|b r]; simpl; try done.
  by rewrite <- IH.
Qed.

Lemma strcmp_cmp l r :
  nul_free l -> nul_free r -> sgn_cmp (strcmp l r) = bytes_cmp l r.
Proof.
  unfold bytes_cmp. intros Hl. revert r.
  induction Hl as [|a l Ha Hl IH]; intros r Hr; destruct Hr as [|b r Hb Hr];
    simpl; try done.
  - unfold sgn_cmp. apply Z.compare_lt_iff. lia.
  - unfold sgn_cmp. apply Z.compare_gt_iff. lia.
  - destruct (Z.eqb_spec a b) as [->|Hne].
    + replace (b =? 0) with false by lia. rewrite Z.compare_refl. by apply IH.
    + rewrite sgn_cmp_sub. destruct (Z.compare_spec a b); done.
Qed.

(** ** Bit operations as arithmetic *)

Lemma testbit_high z n i : 0 <= z < 2 ^ n -> n <= i -> Z.testbit z i = false.
Proof.
  intros Hz Hi. destruct (Z.eq_dec z 0) as [->|Hne]; [apply Z.bits_0|].
  destruct (Z_lt_le_dec n 0); [rewrite Z.pow_neg_r in Hz by lia; lia|].
  apply Z.bits_above_log2; [lia|].
  apply Z.lt_le_trans with n; [|done]. apply Z.log2_lt_pow2; lia.
Qed.

(** [or] of a multiple of 2^n and a number below 2^n is their sum. *)
Lemma lor_disjoint a b n : 0 <= n -> 0 <= b < 2 ^ n -> Z.lor (a * 2 ^ n) b = a * 2 ^ n + b.
Proof.
  intros Hn Hb.
  assert (Z.land (a * 2 ^ n) b = 0) as E.
  { apply Z.bits_inj'. intros i Hi. rewrite Z.land_spec, Z.bits_0.
    destruct (Z_lt_le_dec i n) as [H|H].
    - by rewrite Z.mul_pow2_bits_low by lia.
    - rewrite (testbit_high b n i) by done. apply andb_false_r. }
  rewrite <- Z.lxor_lor by done. symmetry. by apply Z.add_nocarry_lxor.
Qed.

(** A property of one byte holds when it holds of the 256 bytes. *)
Lemma byte_forall (P : Z -> bool) :
  forallb (fun n => P (Z.of_nat n)) (seq 0 256) = true ->
  forall b, 0 <= b < 256 -> P b = true.
Proof.
  intros H b Hb. rewrite forallb_forall in H.
  rewrite <- (Z2Nat.id b) by lia. apply H. apply in_seq. lia.
Qed.

Lemma land_255 z : Z.land z 0xFF = z mod 256.
Proof. change 0xFF with (Z.ones 8). by rewrite Z.land_ones. Qed.

Lemma shiftl_mul z n : 0 <= n -> Z.shiftl z n = z * 2 ^ n.
Proof. apply Z.shiftl_mul_pow2. Qed.

(** Flipping the sign bit of a 64-bit pattern. *)
Lemma lxor_msb z : 0 <= z < 2 ^ 64 ->
  Z.lxor z (2 ^ 63) = if z <? 2 ^ 63 then z + 2 ^ 63 else z - 2 ^ 63.
Proof.
  intros Hz. assert (forall a, 0 <= a < 2 ^ 63 -> Z.lxor a (2 ^ 63) = a + 2 ^ 63) as H.
  { intros a Ha. rewrite Z.add_nocarry_lxor; [done|].
    apply Z.bits_inj'. intros i Hi. rewrite Z.land_spec, Z.bits_0.
    destruct (Z.eq_dec i 63) as [->|Hne].
    - by rewrite (testbit_high a 63 63) by lia.
    - rewrite Z.pow2_bits_false by done. apply andb_false_r. }
  destruct (Z.ltb_spec z (2 ^ 63)); [apply H; lia|].
  replace z with ((z - 2 ^ 63) + 2 ^ 63) at 1 by lia.
  rewrite <- H by lia. by rewrite Z.lxor_assoc, Z.lxor_nilpotent, Z.lxor_0_r.
Qed.

(** ** Comparison of concatenations *)

Lemma bytes_cmp_app l1 r1 l2 r2 :
  length l1 = length r1 ->
  bytes_cmp (l1 ++ l2) (r1 ++ r2) =
  match bytes_cmp l1 r1 with Eq => bytes_cmp l2 r2 | Lt => Lt | Gt => Gt end.
Proof.
  unfold bytes_cmp. revert r1. induction l1 as [|a l1 IH]; intros [|b r1]; simpl; try done.
  intros [= H]. destruct (Z.compare a b); [by apply IH|done|done].
Qed.

(** A terminating zero keeps the order. *)
Lemma bytes_cmp_terminated l r :
  bytesb l = true -> bytesb r = true -> bytes_cmp (l ++ [0]) (r ++ [0]) = bytes_cmp l r.
Proof.
  unfold bytes_cmp, bytesb. revert r.
  induction l as [|a l IH]; intros [|b r]; cbn [forallb app cmp_list];
    rewrite ?andb_true_iff; unfold byteb; [done|..].
  - intros _ [Hb _]. destruct (Z.compare_spec 0 b); try done; [by destruct r|lia].
  - intros [Ha _] _. destruct (Z.compare_spec a 0); try done; [by destruct l|lia].
  - intros [_ Hl] [_ Hr]. destruct (Z.compare a b); [by apply IH|done|done].
Qed.
