(* ===== verification/Heap.v ===== *)
(** * Binary heaps: [pg_documentdb/src/utils/heap_utils.c]

    The dynamic heap of the accumulators $maxN and $minN.  A heap is an array
    of [heapSpace] cells of which the first [heapSize] hold values; the model
    keeps the values, [heapSize] is their number.  The comparator may raise an
    error.  The theorems show that pushing and popping keep the heap property
    and the capacity invariant, so that no cell outside the array is touched,
    and that a pop delivers a value that no other value precedes. *)

From stdpp Require Import base numbers list option.
From Stdlib Require Import ZArith Lia.
From S2P Require Import Prelude.

Record BinaryHeap (A : Type) : Type := mk_heap {
  heapNodes : list A;
  heapSpace : Z;
  maximumHeapSpace : Z;
}.
Arguments mk_heap {A} _ _ _.
Arguments heapNodes {A} _.
Arguments heapSpace {A} _.
Arguments maximumHeapSpace {A} _.

Section heap.
Context {A : Type} (heapComparator : A -> A -> result bool).

Definition heapSize (heap : BinaryHeap A) : Z := Z.of_nat (length (heapNodes heap)).

Definition Swap (array : list A) (i j : nat) : list A :=
  match array !! i, array !! j with
  | Some a, Some b => <[i := b]> (<[j := a]> array)
  | _, _ => array
  end.

Definition parent (index : nat) : nat := ((index - 1) / 2)%nat.

(** Whether the cell [i] comes before the cell [j]; both are in the array. *)
Definition comparator_at (array : list A) (i j : nat) : result bool :=
  match array !! i, array !! j with
  | Some a, Some b => heapComparator a b
  | _, _ => Err ERRCODE_INTERNAL_ERROR
  end.

(** The loop of [PushToDynamicHeapCommon]: the index at least halves, so it
    bounds the rounds. *)
Fixpoint percolate (fuel : nat) (array : list A) (index : nat) : result (list A) :=
  match fuel with
  | O => Ok array
  | S fuel' =>
      if (index =? 0)%nat then Ok array
      else
        let! ordered := comparator_at array (parent index) index in
        if ordered : bool then Ok array
        else percolate fuel' (Swap array (parent index) index) (parent index)
  end.

Definition PushToDynamicHeapCommon (nodes : list A) (value : A) : result (list A) :=
  let index := length nodes in
  percolate index (nodes ++ [value]) index.

(** The recursion goes to a larger index below [itemsInArray]. *)
Fixpoint Heapify (fuel : nat) (array : list A) (itemsInArray index : nat) : result (list A) :=
  match fuel with
  | O => Ok array
  | S fuel' =>
      let leftIndex := (2 * index + 1)%nat in
      let rightIndex := (2 * index + 2)%nat in
      let! limit :=
        if (leftIndex <? itemsInArray)%nat then
          let! before := comparator_at array leftIndex index in
          Ok (if before : bool then leftIndex else index)
        else Ok index in
      let! limit :=
        if (rightIndex <? itemsInArray)%nat then
          let! before := comparator_at array rightIndex limit in
          Ok (if before : bool then rightIndex else limit)
        else Ok limit in
      if negb (limit =? index)%nat then Heapify fuel' (Swap array index limit) itemsInArray limit
      else Ok array
  end.

(** An access outside the array has no defined outcome: [None]. *)

Definition TopHeap (heap : BinaryHeap A) : option A := heapNodes heap !! 0%nat.

Definition InitHeapFields (space maximumSpace : Z) : BinaryHeap A := mk_heap [] space maximumSpace.

Definition AllocateDynamicHeap (initialCapacity maximumCapacity : Z) : BinaryHeap A :=
  InitHeapFields initialCapacity maximumCapacity.

Definition PushToDynamicHeap (heap : BinaryHeap A) (value : A) : option (result (BinaryHeap A)) :=
  if maximumHeapSpace heap <=? heapSize heap then Some (Err ERRCODE_DOCUMENTDB_INTERNALERROR)
  else
    let space :=
      if heapSpace heap <=? heapSize heap
      then Z.min (int64 (heapSpace heap * 2)) (maximumHeapSpace heap)
      else heapSpace heap in
    if space <=? heapSize heap then None
    else
      Some (let! nodes := PushToDynamicHeapCommon (heapNodes heap) value in
            Ok (mk_heap nodes space (maximumHeapSpace heap))).

Definition PopFromDynamicHeap (heap : BinaryHeap A) : option (result (A * BinaryHeap A)) :=
  match heapNodes heap with
  | [] => None
  | [top] => Some (Ok (top, mk_heap [] (heapSpace heap) (maximumHeapSpace heap)))
  | top :: rest =>
      let size := length rest in
      Some
        (let! nodes :=
           match heapNodes heap !! size with
           | Some bottom => Heapify (S size) (bottom :: take (size - 1) rest) size 0
           | None => Ok rest
           end in
         let space :=
           if (1 <? heapSpace heap) && (Z.of_nat size <? heapSpace heap / 2)
           then Z.max (Z.max 1 (heapSpace heap / 2)) (Z.of_nat size)
           else heapSpace heap in
         Ok (top, mk_heap nodes space (maximumHeapSpace heap)))
  end.
End heap.

(** ** Invariants *)

Section invariants.
Context {A : Type} (heapComparator : A -> A -> result bool).

(** The comparator decides the strict part of an order on the values at hand. *)
Context (order : A -> A -> comparison) {T : TotalCmp order} (valid : A -> Prop).
Hypothesis comparator_decides : forall a b, valid a -> valid b ->
  heapComparator a b = Ok (match order a b with Lt => true | _ => false end).

Abbreviation le := (cmp_le order).

(** The heap property of the edge above [j]. *)
Definition edge (array : list A) (i j : nat) : Prop :=
  forall a b, array !! i = Some a -> array !! j = Some b -> le a b.

Definition heap_ordered (array : list A) : Prop :=
  forall j, (0 < j < length array)%nat -> edge array (parent j) j.

Lemma parent_lt j : (0 < j)%nat -> (parent j < j)%nat.
Proof. intros. unfold parent. apply Nat.Div0.div_lt_upper_bound. lia. Qed.

Lemma parent_child i j :
  (0 < j)%nat -> parent j = i -> j = (2 * i + 1)%nat \/ j = (2 * i + 2)%nat.
Proof.
  intros Hj <-. unfold parent. pose proof (Nat.div_mod_eq (j - 1) 2).
  pose proof (Nat.mod_upper_bound (j - 1) 2). lia.
Qed.

Lemma parent_left i : parent (2 * i + 1) = i.
Proof. unfold parent. replace (2 * i + 1 - 1)%nat with (i * 2)%nat by lia. by rewrite Nat.div_mul. Qed.

Lemma parent_right i : parent (2 * i + 2) = i.
Proof.
  unfold parent. replace (2 * i + 2 - 1)%nat with (1 + i * 2)%nat by lia.
  by rewrite Nat.div_add by lia.
Qed.

Lemma Swap_length (l : list A) i j : length (Swap l i j) = length l.
Proof. unfold Swap. repeat case_match; by rewrite ?length_insert. Qed.

Lemma Swap_lookup (l : list A) i j k :
  (i < length l)%nat -> (j < length l)%nat ->
  Swap l i j !! k = if decide (k = i) then l !! j else if decide (k = j) then l !! i else l !! k.
Proof.
  intros Hi Hj. destruct (lookup_lt_is_Some_2 l i Hi) as [a Ea], (lookup_lt_is_Some_2 l j Hj) as [b Eb].
  unfold Swap. rewrite Ea, Eb. destruct (decide (k = i)) as [->|Hki].
  - rewrite list_lookup_insert_eq; [done|]. by rewrite length_insert.
  - rewrite list_lookup_insert_ne by done. destruct (decide (k = j)) as [->|Hkj].
    + by rewrite list_lookup_insert_eq.
    + by rewrite list_lookup_insert_ne.
Qed.

Lemma Swap_permutation (l : list A) i j : Swap l i j ≡ₚ l.
Proof.
  destruct (decide (i < length l)%nat) as [Hi|Hi], (decide (j < length l)%nat) as [Hj|Hj];
    try (unfold Swap; rewrite ?(lookup_ge_None_2 l i), ?(lookup_ge_None_2 l j) by lia;
         repeat case_match; done).
  apply Permutation_inj. split; [apply Swap_length|].
  exists (fun k => if decide (k = i) then j else if decide (k = j) then i else k). split.
  - intros x y. repeat case_decide; congruence.
  - intros k. rewrite Swap_lookup by done. repeat case_decide; congruence.
Qed.

Lemma comparator_at_spec l i j :
  Forall valid l -> (i < length l)%nat -> (j < length l)%nat ->
  exists a b, l !! i = Some a /\ l !! j = Some b /\
    comparator_at heapComparator l i j = Ok (match order a b with Lt => true | _ => false end).
Proof.
  intros Hv Hi Hj. destruct (lookup_lt_is_Some_2 l i Hi) as [a Ea], (lookup_lt_is_Some_2 l j Hj) as [b Eb].
  exists a, b. split_and!; [done..|]. unfold comparator_at. rewrite Ea, Eb.
  rewrite Forall_lookup in Hv. eauto.
Qed.

(** What the loop of a push maintains: only the edge above [i] may be wrong. *)
Definition up_ordered (l : list A) (i : nat) : Prop :=
  (forall j, (0 < j < length l)%nat -> j <> i -> edge l (parent j) j) /\
  (forall j, (0 < j < length l)%nat -> parent j = i -> (0 < i)%nat -> edge l (parent i) j).

Lemma up_swap l i a b :
  (0 < i < length l)%nat -> l !! parent i = Some a -> l !! i = Some b -> le b a ->
  up_ordered l i -> up_ordered (Swap l (parent i) i) (parent i).
Proof.
  intros Hi Ea Eb Hle [H1 H2]. pose proof (parent_lt i ltac:(lia)) as Hp.
  unfold up_ordered. rewrite Swap_length. split.
  - intros j Hj Hne x y. pose proof (parent_lt j ltac:(lia)) as Hpj.
    rewrite !Swap_lookup by lia. specialize (H1 j Hj). specialize (H2 j Hj). unfold edge in *.
    destruct (decide (j = parent i)); [done|]. destruct (decide (j = i)) as [->|Hji].
    + rewrite decide_True by done. intros. simplify_eq. done.
    + destruct (decide (parent j = parent i)) as [Ep|Np].
      * rewrite Eb. intros [= <-] Ey. apply (cmp_le_trans order b a y); [done|].
        apply H1; [done|by rewrite Ep|done].
      * destruct (decide (parent j = i)) as [Ej|Nj].
        -- rewrite Ea. intros [= <-] Ey. apply H2; [done|lia|done|done].
        -- auto.
  - intros j Hj Ep Hpp x y. pose proof (parent_lt (parent i) Hpp).
    rewrite !Swap_lookup by lia. rewrite decide_False by lia. rewrite decide_False by lia.
    intros Ex. assert (le x a) as Hxa by (apply (H1 (parent i)); [lia|lia|done|done]).
    pose proof (parent_lt j ltac:(lia)). rewrite decide_False by lia.
    destruct (decide (j = i)) as [->|Hji]; [intros; simplify_eq; done|].
    intros Ey. apply (cmp_le_trans order x a y); [done|].
    apply (H1 j Hj Hji); [by rewrite Ep|done].
Qed.

Lemma percolate_ordered fuel l i :
  (i <= fuel)%nat -> (i < length l)%nat -> Forall valid l -> up_ordered l i ->
  exists l', percolate heapComparator fuel l i = Ok l' /\ l' ≡ₚ l /\ heap_ordered l'.
Proof.
  revert l i. induction fuel as [|fuel IH]; intros l i Hf Hi Hv Hu.
  { exists l. split_and!; [done..|]. intros j Hj. apply Hu; lia. }
  cbn [percolate]. destruct (Nat.eqb_spec i 0) as [->|Hne].
  { exists l. split_and!; [done..|]. intros j Hj. apply Hu; lia. }
  pose proof (parent_lt i ltac:(lia)) as Hp.
  destruct (comparator_at_spec l (parent i) i) as (a & b & Ea & Eb & ->); [done|lia|done|].
  cbn [result_bind]. destruct (order a b) eqn:E.
  2:{ exists l. split_and!; [done..|]. intros j Hj. destruct (decide (j = i)) as [->|]; [|by apply Hu].
      intros x y Ex Ey. simplify_eq. by apply cmp_lt_le. }
  all: destruct (IH (Swap l (parent i) i) (parent i)) as (l' & Hl & Hperm & Ho);
    [lia|rewrite Swap_length; lia|by rewrite Swap_permutation
    |apply (up_swap l i a b); [lia|done|done| |done]; apply cmp_not_lt_le; [apply T|congruence]|].
  all: exists l'; split_and!; [done| |done]; by rewrite Hperm, Swap_permutation.
Qed.

(** What [Heapify] maintains: only the edges below [i] may be wrong. *)
Definition down_ordered (l : list A) (i : nat) : Prop :=
  (forall j, (0 < j < length l)%nat -> parent j <> i -> edge l (parent j) j) /\
  (forall j, (0 < j < length l)%nat -> parent j = i -> (0 < i)%nat -> edge l (parent i) j).

(** The cell chosen among a node and its children precedes the three. *)
Definition least_of (l : list A) (i m : nat) : Prop :=
  edge l m i /\ forall j, (0 < j < length l)%nat -> parent j = i -> edge l m j.

Lemma down_swap l i m :
  (m < length l)%nat -> (0 < m)%nat -> parent m = i -> least_of l i m ->
  down_ordered l i -> down_ordered (Swap l i m) m.
Proof.
  intros Hm Hm0 Ep [Lm Lj] [H1 H2]. pose proof (parent_lt m Hm0) as Hi.
  unfold down_ordered. rewrite Swap_length. split.
  - intros j Hj Hne x y. pose proof (parent_lt j ltac:(lia)) as Hpj.
    rewrite !Swap_lookup by lia. destruct (decide (j = i)) as [->|Nji].
    + rewrite !decide_False by lia. apply (H2 m); [lia|done|lia].
    + destruct (decide (j = m)) as [->|Njm].
      * rewrite decide_True by done. intros Ex Ey. by apply Lm.
      * destruct (decide (parent j = i)) as [Ej|Nj].
        -- intros Ex Ey. by apply (Lj j).
        -- rewrite decide_False by done. by apply H1.
  - intros j Hj Ej _ x y. pose proof (parent_lt j ltac:(lia)) as Hpj.
    rewrite !Swap_lookup by lia. rewrite decide_True by done. rewrite !decide_False by lia.
    rewrite <- Ej. apply H1; [done|lia].
Qed.

(** One step of the choice: [child] replaces the best so far if it precedes it. *)
Lemma choose_spec l best child :
  Forall valid l -> (best < length l)%nat -> (child < length l)%nat ->
  exists m, (let! before := comparator_at heapComparator l child best in
             Ok (if before : bool then child else best)) = Ok m /\
    (m = best \/ m = child) /\ edge l m best /\ edge l m child.
Proof.
  intros Hv Hb Hc. destruct (comparator_at_spec l child best) as (a & b & Ea & Eb & ->); [done..|].
  cbn [result_bind]. eexists. split; [done|].
  assert (forall k, edge l k k) as Hrefl by (intros k x y Ex Ey; simplify_eq; by apply cmp_le_refl).
  destruct (order a b) eqn:E; (split; [auto|]); (split; [|]); auto; intros x y Ex Ey; simplify_eq.
  - apply cmp_not_lt_le; [apply T|congruence].
  - by apply cmp_lt_le.
  - apply cmp_not_lt_le; [apply T|congruence].
Qed.

Lemma choose_least l i :
  Forall valid l -> (i < length l)%nat ->
  exists m,
    (let! limit :=
       if (2 * i + 1 <? length l)%nat then
         let! before := comparator_at heapComparator l (2 * i + 1) i in
         Ok (if before : bool then (2 * i + 1)%nat else i)
       else Ok i in
     if (2 * i + 2 <? length l)%nat then
       let! before := comparator_at heapComparator l (2 * i + 2) limit in
       Ok (if before : bool then (2 * i + 2)%nat else limit)
     else Ok limit) = Ok m /\
    (m = i \/ (0 < m < length l)%nat /\ parent m = i) /\ least_of l i m.
Proof.
  intros Hv Hi.
  assert (forall k, edge l k k) as Hrefl by (intros k x y Ex Ey; simplify_eq; by apply cmp_le_refl).
  assert (forall m1 m2 k, (m1 < length l)%nat -> edge l m2 m1 -> edge l m1 k -> edge l m2 k) as Htr.
  { intros m1 m2 k Hm1 E1 E2 x z Ex Ez. destruct (lookup_lt_is_Some_2 l m1 Hm1) as [y Ey].
    apply (cmp_le_trans order x y z); [by apply E1|by apply E2]. }
  assert (forall m, edge l m i -> ((2 * i + 1 < length l)%nat -> edge l m (2 * i + 1)) ->
    ((2 * i + 2 < length l)%nat -> edge l m (2 * i + 2)) -> least_of l i m) as Hleast.
  { intros m E0 E1 E2. split; [done|]. intros j Hj Ej.
    destruct (parent_child i j) as [-> | ->]; [lia|done|apply E1; lia|apply E2; lia]. }
  destruct (Nat.ltb_spec (2 * i + 1) (length l)) as [Hl|Hl].
  - destruct (choose_spec l i (2 * i + 1)) as (m1 & -> & Hm1 & E1i & E1l); [done..|].
    cbn [result_bind]. assert (m1 < length l)%nat by (destruct Hm1; lia).
    assert (m1 = i \/ (0 < m1 < length l)%nat /\ parent m1 = i) as Hm1'.
    { destruct Hm1 as [-> | ->]; [auto|]. right. rewrite parent_left. lia. }
    destruct (Nat.ltb_spec (2 * i + 2) (length l)) as [Hr|Hr].
    + destruct (choose_spec l m1 (2 * i + 2)) as (m2 & -> & Hm2 & E2m & E2r); [done..|].
      exists m2. split_and!; [done| |apply Hleast; eauto].
      destruct Hm2 as [-> | ->]; [done|]. right. rewrite parent_right. lia.
    + exists m1. split_and!; [done|done|apply Hleast; auto; lia].
  - cbn [result_bind]. rewrite (proj2 (Nat.ltb_ge _ _)) by lia.
    exists i. split_and!; [done|auto|apply Hleast; auto; lia].
Qed.

Lemma Heapify_ordered fuel l i :
  (length l <= i + fuel)%nat -> (i < length l)%nat -> Forall valid l -> down_ordered l i ->
  exists l', Heapify heapComparator fuel l (length l) i = Ok l' /\ l' ≡ₚ l /\ heap_ordered l'.
Proof.
  revert l i. induction fuel as [|fuel IH]; intros l i Hf Hi Hv Hd; [lia|].
  cbn [Heapify]. destruct (choose_least l i Hv Hi) as (m & Em & Hm & Hleast).
  match goal with |- context [result_bind ?a ?k] =>
    match type of Em with result_bind a ?k' = _ =>
      assert (result_bind a k = if negb (m =? i)%nat then Heapify heapComparator fuel (Swap l i m) (length l) m else Ok l) as ->
    end end.
  { destruct (if (2 * i + 1 <? length l)%nat then _ else _) as [lim|e]; cbn [result_bind] in *; [|done].
    rewrite Em. done. }
  destruct (Nat.eqb_spec m i) as [->|Hne]; cbn [negb].
  { exists l. split_and!; [done..|]. intros j Hj. destruct (decide (parent j = i)) as [Ej|Nj].
    - rewrite Ej. by apply Hleast.
    - by apply Hd. }
  destruct Hm as [->|[Hm Ep]]; [done|]. pose proof (parent_lt m ltac:(lia)).
  destruct (IH (Swap l i m) m) as (l' & Hl & Hperm & Ho);
    [rewrite Swap_length; lia|rewrite Swap_length; lia|by rewrite Swap_permutation
    |by apply down_swap; [lia|lia|..]|].
  rewrite Swap_length in Hl. exists l'. split_and!; [done| |done]. by rewrite Hperm, Swap_permutation.
Qed.

(** The top of a heap precedes every value in it. *)
Lemma top_least l top j x :
  heap_ordered l -> l !! 0%nat = Some top -> l !! j = Some x -> le top x.
Proof.
  intros Ho E0. revert x. induction j as [j IH] using lt_wf_ind. intros x Ex.
  destruct (decide (j = 0%nat)) as [->|Hj].
  - simplify_eq. apply cmp_le_refl. apply T.
  - pose proof (parent_lt j ltac:(lia)) as Hp. apply lookup_lt_Some in Ex as Hl.
    destruct (lookup_lt_is_Some_2 l (parent j) ltac:(lia)) as [y Ey].
    apply (cmp_le_trans order top y x); [by apply (IH (parent j))|].
    apply (Ho j ltac:(lia)); done.
Qed.

(** ** The operations *)

(** The values are in heap order, and fit the allocated cells. *)
Definition wf_heap (h : BinaryHeap A) : Prop :=
  heap_ordered (heapNodes h) /\ Forall valid (heapNodes h) /\
  1 <= heapSpace h /\ heapSize h <= heapSpace h.

Lemma heap_ordered_snoc l v : heap_ordered l -> up_ordered (l ++ [v]) (length l).
Proof.
  intros Ho. unfold up_ordered. rewrite length_app. simpl length. split.
  - intros j Hj Hne a b. pose proof (parent_lt j ltac:(lia)).
    rewrite !lookup_app_l by lia. apply Ho. lia.
  - intros j Hj Ep Hl. pose proof (parent_lt j ltac:(lia)). lia.
Qed.

Lemma push_common l v :
  heap_ordered l -> Forall valid l -> valid v ->
  exists l', PushToDynamicHeapCommon heapComparator l v = Ok l' /\ l' ≡ₚ v :: l /\ heap_ordered l'.
Proof.
  intros Ho Hv Hval. unfold PushToDynamicHeapCommon.
  destruct (percolate_ordered (length l) (l ++ [v]) (length l)) as (l' & E & Hp & Ho');
    [lia|rewrite length_app; simpl; lia|by apply Forall_app_2; [|constructor]
    |by apply heap_ordered_snoc|].
  exists l'. split_and!; [done| |done]. by rewrite Hp, Permutation_app_comm.
Qed.

Lemma push_ok h v :
  wf_heap h -> valid v -> heapSize h < maximumHeapSpace h -> heapSpace h < 2 ^ 62 ->
  exists h', PushToDynamicHeap heapComparator h v = Some (Ok h') /\ wf_heap h' /\
    heapNodes h' ≡ₚ v :: heapNodes h /\ maximumHeapSpace h' = maximumHeapSpace h /\
    (heapSpace h' = heapSpace h \/ heapSpace h' <= 2 * heapSize h).
Proof.
  intros (Ho & Hv & Hs1 & Hs) Hval Hmax Hbig. unfold PushToDynamicHeap.
  rewrite (proj2 (Z.leb_gt _ _)) by lia.
  destruct (push_common (heapNodes h) v) as (l' & E & Hp & Ho'); [done..|]. rewrite E.
  assert (heapSize (mk_heap l' 0 0) = heapSize h + 1) as Hsize.
  { unfold heapSize. simpl. rewrite Hp. simpl. lia. }
  unfold heapSize in Hsize. cbn [heapNodes] in Hsize.
  assert (Forall valid l') as Hv' by (rewrite Hp; by constructor).
  rewrite (wrap_s_small 64) by (change (2 ^ (64 - 1)) with (2 ^ 63); lia).
  destruct (Z.leb_spec (heapSpace h) (heapSize h)).
  - rewrite (proj2 (Z.leb_gt _ _)) by lia. eexists. split; [done|].
    unfold wf_heap, heapSize at 1. cbn [heapNodes heapSpace maximumHeapSpace].
    split_and!; try done; unfold heapSize in *; lia.
  - rewrite (proj2 (Z.leb_gt _ _)) by lia. eexists. split; [done|].
    unfold wf_heap, heapSize at 1. cbn [heapNodes heapSpace maximumHeapSpace].
    split_and!; try done; unfold heapSize in *; try lia; by left.
Qed.

Lemma heap_ordered_take l bottom n :
  heap_ordered l -> (n <= length l)%nat ->
  down_ordered (bottom :: take (n - 1) (drop 1 l)) 0.
Proof.
  intros Ho Hn. split; [|lia]. intros j Hj Hne a b. pose proof (parent_lt j ltac:(lia)).
  assert (forall k, (0 < k)%nat -> (bottom :: take (n - 1) (drop 1 l)) !! k =
            if decide (k < n)%nat then l !! k else None) as Hk.
  { intros k Hk. destruct k as [|k]; [lia|].
    change (take (n - 1) (drop 1 l) !! k = if decide (S k < n)%nat then l !! S k else None).
    case_decide; [rewrite lookup_take_lt by lia; apply lookup_drop|apply lookup_take_ge; lia]. }
  rewrite !Hk by lia. repeat case_decide; try done. intros Ea Eb.
  apply lookup_lt_Some in Eb as Hl. apply (Ho j ltac:(lia)); done.
Qed.

Lemma pop_ok h :
  wf_heap h -> heapNodes h <> [] ->
  exists top h', PopFromDynamicHeap heapComparator h = Some (Ok (top, h')) /\ wf_heap h' /\
    TopHeap h = Some top /\ heapNodes h ≡ₚ top :: heapNodes h' /\
    Forall (le top) (heapNodes h) /\ maximumHeapSpace h' = maximumHeapSpace h /\
    heapSpace h' <= heapSpace h.
Proof.
  intros (Ho & Hv & Hs1 & Hs) Hne. unfold PopFromDynamicHeap, TopHeap.
  destruct h as [nodes space maximum]. unfold heapSize in Hs. cbn [heapNodes heapSpace maximumHeapSpace] in *.
  destruct nodes as [|top rest]; [done|].
  assert (Forall (le top) (top :: rest)) as Hle.
  { apply Forall_lookup. intros j x Ex. by apply (top_least (top :: rest) top j x). }
  destruct rest as [|x rest].
  { eexists _, _. split; [done|]. unfold wf_heap, heapSize. cbn [heapNodes heapSpace length] in *.
    split_and!; try done; lia. }
  set (r := x :: rest) in *. set (size := length r).
  destruct (lookup_lt_is_Some_2 (top :: r) size) as [bottom Eb]; [cbn [length]; unfold size; lia|].
  rewrite Eb.
  assert (r = take (size - 1) r ++ [bottom]) as Er.
  { rewrite <- (take_drop (size - 1) r) at 1. f_equal.
    assert (r !! (size - 1)%nat = Some bottom) as E1.
    { unfold size, r in *. simpl in *. by rewrite Nat.sub_0_r. }
    rewrite (drop_S r bottom (size - 1)) by done. f_equal. apply drop_ge. unfold size, r. cbn [length]. lia. }
  assert (length (bottom :: take (size - 1) r) = size) as El.
  { cbn [length]. rewrite length_take. unfold size, r. cbn [length]. lia. }
  assert (bottom :: take (size - 1) r ≡ₚ r) as Hpr.
  { rewrite Er at 2. by rewrite Permutation_app_comm. }
  destruct (Heapify_ordered (S size) (bottom :: take (size - 1) r) 0) as (l' & E & Hp & Ho').
  - lia.
  - rewrite El. unfold size, r. cbn [length]. lia.
  - rewrite Hpr. by inversion Hv.
  - apply (heap_ordered_take (top :: r) bottom size Ho). cbn [length]. unfold size. lia.
  - rewrite El in E. rewrite E. cbn [result_bind]. eexists _, _. split; [done|].
    assert (l' ≡ₚ r) as Hlr by by rewrite Hp.
    assert (Z.of_nat (length l') = Z.of_nat size) as Hlen by by rewrite Hlr.
    unfold wf_heap, heapSize. cbn [heapNodes heapSpace maximumHeapSpace].
    change (length (top :: r)) with (S size) in Hs.
    assert (1 <= Z.of_nat size) by (unfold size, r; cbn [length]; lia).
    pose proof (Z.div_lt space 2). 
    split_and!; try done.
    + rewrite Hlr. by inversion Hv.
    + destruct (_ && _) eqn:Eb2; lia.
    + destruct (_ && _) eqn:Eb2; lia.
    + by rewrite Hlr.
    + destruct (_ && _) eqn:Eb2; [|lia]. rewrite andb_true_iff, !Z.ltb_lt in Eb2.
      pose proof (Z.div_le_upper_bound space 2 space). lia.
Qed.

(** C39: A dynamic heap is a priority queue of bounded size.  From any heap that
    satisfies the invariant (heap order, values within the allocated cells): a
    push below the maximum succeeds without writing outside the array, adds
    exactly the value and keeps the invariant; a push at the maximum raises an
    error; a pop of a heap that is not empty removes exactly its top, which
    precedes every value in the heap, and keeps the invariant. *)
Theorem heap_priority_queue (h : BinaryHeap A) :
  wf_heap h ->
  (forall v, valid v -> heapSize h < maximumHeapSpace h -> heapSpace h < 2 ^ 62 ->
     exists h', PushToDynamicHeap heapComparator h v = Some (Ok h') /\ wf_heap h' /\
       heapNodes h' ≡ₚ v :: heapNodes h) /\
  (forall v, maximumHeapSpace h <= heapSize h ->
     PushToDynamicHeap heapComparator h v = Some (Err ERRCODE_DOCUMENTDB_INTERNALERROR)) /\
  (heapNodes h <> [] ->
     exists top h', PopFromDynamicHeap heapComparator h = Some (Ok (top, h')) /\ wf_heap h' /\
       heapNodes h ≡ₚ top :: heapNodes h' /\ Forall (le top) (heapNodes h)).
Proof.
  intros Hw. split_and!.
  - intros v Hv Hm Hb. destruct (push_ok h v Hw Hv Hm Hb) as (h' & E & Hw' & Hp & _). eauto.
  - intros v Hm. unfold PushToDynamicHeap. by rewrite (proj2 (Z.leb_le _ _)).
  - intros Hne. destruct (pop_ok h Hw Hne) as (top & h' & E & Hw' & _ & Hp & Hle & _). eauto 6.
Qed.
End invariants.

Lemma heap_priority_queue_witness :
  exists top h',
    PopFromDynamicHeap (fun a b => Ok (a <? b)) (mk_heap [1; 3; 2; 4] 4 8) = Some (Ok (top, h')) /\
    wf_heap Z.compare (fun _ => True) h' /\ [1; 3; 2; 4] ≡ₚ top :: heapNodes h' /\
    Forall (cmp_le Z.compare top) [1; 3; 2; 4].
Proof.
  apply (heap_priority_queue (fun a b => Ok (a <? b)) Z.compare (fun _ => True)
           (fun a b _ _ => eq_refl) (mk_heap [1; 3; 2; 4] 4 8)).
  - split_and!; [|by repeat constructor|done|done].
    intros [|[|[|[|j]]]] Hj; simpl in Hj; try lia; intros a b; simpl; intros; simplify_eq; done.
  - done.
Defined.
