(* ===== verification/Binary64.v ===== *)
(** * IEEE 754 binary64 values

    The C type [double] as its 64-bit pattern, because the index-term code of
    [comparable_index_term.c] manipulates the pattern itself.  The numeric
    value of a pattern that is not a NaN is [dscaled], an integer count of
    units of 2^-1074 (the smallest subnormal), so every comparison of finite
    doubles is a comparison of integers; the two infinities are the integers
    just above and below all finite values. *)

From stdpp Require Import base numbers.
From Stdlib Require Import ZArith Lia.
From S2P Require Import Prelude.

Abbreviation double := Z (only parsing).

Definition UINT64_MSB : Z := 2 ^ 63.
Definition INF_BITS : Z := 2047 * 2 ^ 52.
Definition DSCALE : Z := 2 ^ 1074.

Definition doubleb (b : double) : bool := (0 <=? b) && (b <? 2 ^ 64).

Definition d_neg (b : double) : bool := UINT64_MSB <=? b.
Definition d_abs (b : double) : Z := if d_neg b then b - UINT64_MSB else b.

Definition isnan (b : double) : bool := INF_BITS <? d_abs b.
Definition isinf (b : double) : bool := d_abs b =? INF_BITS.

(** The magnitude of the pattern [a] (sign bit clear), in units of 2^-1074. *)
Definition mag (a : Z) : Z :=
  let e := a / 2 ^ 52 in
  let f := a mod 2 ^ 52 in
  if e =? 0 then f else (f + 2 ^ 52) * 2 ^ (e - 1).

Definition dscaled (b : double) : Z :=
  if d_neg b then - mag (d_abs b) else mag (d_abs b).

(** The C relational operators on doubles: false as soon as one is a NaN. *)
Definition d_cmp_ok (a b : double) : bool := negb (isnan a) && negb (isnan b).
Definition d_lt (a b : double) : bool := d_cmp_ok a b && (dscaled a <? dscaled b).
Definition d_le (a b : double) : bool := d_cmp_ok a b && (dscaled a <=? dscaled b).
Definition d_eq (a b : double) : bool := d_cmp_ok a b && (dscaled a =? dscaled b).

(** Conversion of an integer to double, rounding to nearest, ties to even. *)
Definition round_half_even (m s : Z) : Z :=
  let q := m / 2 ^ s in
  let r := m mod 2 ^ s in
  if 2 * r <? 2 ^ s then q
  else if 2 ^ s <? 2 * r then q + 1
  else if Z.even q then q else q + 1.

Definition double_of_pos (m : Z) : Z :=
  let l := Z.log2 m in
  let q := if l <=? 52 then m * 2 ^ (52 - l) else round_half_even m (l - 52) in
  (l + 1022) * 2 ^ 52 + q.

Definition double_of_int (z : Z) : double :=
  if z =? 0 then 0
  else if z <? 0 then UINT64_MSB + double_of_pos (- z)
  else double_of_pos z.

(** Truncation toward zero, [round] (half away from zero) and [floor]. *)
Definition d_trunc (b : double) : Z := Z.quot (dscaled b) DSCALE.
Definition d_round (b : double) : Z :=
  Z.sgn (dscaled b) * ((2 * Z.abs (dscaled b) + DSCALE) / (2 * DSCALE)).

Definition d_floor (b : double) : double :=
  if INF_BITS <=? d_abs b then b
  else if 1075 * 2 ^ 52 <=? d_abs b then b
  else double_of_int (dscaled b / DSCALE).

(** [(int64_t) d] and [(int32_t) d]: C leaves the result of an out-of-range
    conversion undefined; the model is the x86-64 [cvttsd2si] result. *)
Definition cast_Z_int64 (nan : bool) (z : Z) : Z :=
  if nan || negb (in_int64 z) then INT64_MIN else z.
Definition cast_Z_int32 (nan : bool) (z : Z) : Z :=
  if nan || negb (in_int32 z) then INT32_MIN else z.

Definition cast_int64 (b : double) : Z := cast_Z_int64 (isnan b) (d_trunc b).
Definition cast_int32 (b : double) : Z := cast_Z_int32 (isnan b) (d_trunc b).

(** ** The order of patterns is the order of values *)

Lemma mag_split e f :
  0 <= e -> 0 <= f < 2 ^ 52 ->
  mag (e * 2 ^ 52 + f) = if e =? 0 then f else (f + 2 ^ 52) * 2 ^ (e - 1).
Proof.
  intros He Hf. unfold mag.
  rewrite Z.div_add_l, Z.div_small, Z.add_0_r by lia.
  by rewrite Z.add_comm, Z.mod_add, Z.mod_small by lia.
Qed.

Lemma pow2_pos n : 0 <= n -> 0 < 2 ^ n.
Proof. intros. apply Z.pow_pos_nonneg; lia. Qed.

Lemma mag_nonneg a : 0 <= a -> 0 <= mag a.
Proof.
  intros Ha. unfold mag.
  assert (0 <= a / 2 ^ 52) by (apply Z.div_pos; lia).
  pose proof (Z.mod_pos_bound a (2 ^ 52) ltac:(lia)).
  destruct (Z.eqb_spec (a / 2 ^ 52) 0); [lia|].
  pose proof (pow2_pos (a / 2 ^ 52 - 1)). nia.
Qed.

Lemma mag_bound_exp e f :
  0 <= e -> 0 <= f < 2 ^ 52 -> mag (e * 2 ^ 52 + f) < 2 ^ 52 * 2 ^ e.
Proof.
  intros He Hf. rewrite mag_split by done.
  destruct (Z.eqb_spec e 0) as [->|]; [lia|].
  replace e with (Z.succ (e - 1)) at 2 by lia.
  rewrite Z.pow_succ_r by lia. pose proof (pow2_pos (e - 1)). nia.
Qed.

Lemma mag_lt a a' : 0 <= a < a' -> mag a < mag a'.
Proof.
  intros [Ha Hlt].
  pose proof (Z.div_mod a (2 ^ 52) ltac:(lia)) as Ea.
  pose proof (Z.div_mod a' (2 ^ 52) ltac:(lia)) as Ea'.
  pose proof (Z.mod_pos_bound a (2 ^ 52) ltac:(lia)) as Hf.
  pose proof (Z.mod_pos_bound a' (2 ^ 52) ltac:(lia)) as Hf'.
  assert (0 <= a / 2 ^ 52) as He by (apply Z.div_pos; lia).
  assert (a / 2 ^ 52 <= a' / 2 ^ 52) as Hee by (apply Z.div_le_mono; lia).
  generalize dependent (a / 2 ^ 52). generalize dependent (a mod 2 ^ 52).
  generalize dependent (a' / 2 ^ 52). generalize dependent (a' mod 2 ^ 52).
  intros f' Hf' e' Ea' f Hf e Ea He Hee.
  replace a with (e * 2 ^ 52 + f) by lia. replace a' with (e' * 2 ^ 52 + f') by lia.
  destruct (Z.eq_dec e e') as [->|Hne].
  - rewrite !mag_split by lia. destruct (Z.eqb_spec e' 0); [lia|].
    pose proof (pow2_pos (e' - 1) ltac:(lia)). nia.
  - pose proof (mag_bound_exp e f He Hf) as Hb.
    rewrite (mag_split e') by lia. destruct (Z.eqb_spec e' 0); [lia|].
    assert (2 ^ e <= 2 ^ (e' - 1)) by (apply Z.pow_le_mono_r; lia).
    pose proof (pow2_pos (e' - 1)). nia.
Qed.

Lemma mag_compare a a' : 0 <= a -> 0 <= a' -> (mag a ?= mag a') = (a ?= a').
Proof.
  intros. destruct (Z.compare_spec a a') as [->|Hl|Hl].
  - apply Z.compare_refl.
  - apply Z.compare_lt_iff, mag_lt; lia.
  - apply Z.compare_gt_iff, mag_lt; lia.
Qed.

Lemma mag_0 : mag 0 = 0.
Proof. reflexivity. Qed.

Lemma d_abs_range b : 0 <= b < 2 ^ 64 -> 0 <= d_abs b < 2 ^ 63.
Proof.
  unfold d_abs, d_neg, UINT64_MSB. intros.
  destruct (Z.leb_spec (2 ^ 63) b); lia.
Qed.

(** ** Exact conversions *)

Lemma double_of_pos_exact m :
  0 < m -> Z.log2 m <= 52 -> mag (double_of_pos m) = m * DSCALE.
Proof.
  intros Hm Hl. unfold double_of_pos.
  pose proof (Z.log2_nonneg m) as Hl0. pose proof (Z.log2_spec m Hm) as [H1 H2].
  set (l := Z.log2 m) in *.
  replace (l <=? 52) with true by lia.
  assert (2 ^ l * 2 ^ (52 - l) = 2 ^ 52) as E1.
  { rewrite <- Z.pow_add_r by lia. f_equal. lia. }
  rewrite Z.pow_succ_r in H2 by lia.
  pose proof (pow2_pos (52 - l) ltac:(lia)) as Hp.
  set (p := 2 ^ (52 - l)) in *.
  replace ((l + 1022) * 2 ^ 52 + m * p)
    with ((l + 1023) * 2 ^ 52 + (m * p - 2 ^ 52)) by lia.
  rewrite mag_split by nia.
  replace (l + 1023 =? 0) with false by lia.
  replace (m * p - 2 ^ 52 + 2 ^ 52) with (m * p) by lia.
  rewrite <- Z.mul_assoc. f_equal. unfold p, DSCALE.
  rewrite <- Z.pow_add_r by lia. f_equal. lia.
Qed.

Lemma DSCALE_pos : 0 < DSCALE.
Proof. unfold DSCALE. apply pow2_pos. lia. Qed.

Lemma round_half_even_range m s :
  0 <= s -> 0 <= m -> m / 2 ^ s <= round_half_even m s <= m / 2 ^ s + 1.
Proof.
  intros. unfold round_half_even.
  destruct (2 * _ <? _); [lia|]. destruct (_ <? 2 * _); [lia|].
  destruct (Z.even _); lia.
Qed.

(** The significand that [double_of_pos] adds lies in [2^52, 2^53]. *)
Lemma double_of_pos_range m :
  0 < m ->
  (Z.log2 m + 1023) * 2 ^ 52 <= double_of_pos m <= (Z.log2 m + 1024) * 2 ^ 52.
Proof.
  intros Hm. unfold double_of_pos.
  pose proof (Z.log2_nonneg m) as Hl0. pose proof (Z.log2_spec m Hm) as [H1 H2].
  set (l := Z.log2 m) in *. rewrite Z.pow_succ_r in H2 by lia.
  destruct (Z.leb_spec l 52) as [Hl|Hl].
  - assert (2 ^ l * 2 ^ (52 - l) = 2 ^ 52) as E1.
    { rewrite <- Z.pow_add_r by lia. f_equal. lia. }
    pose proof (pow2_pos (52 - l) ltac:(lia)). nia.
  - assert (2 ^ l = 2 ^ 52 * 2 ^ (l - 52)) as E1.
    { rewrite <- Z.pow_add_r by lia. f_equal. lia. }
    pose proof (pow2_pos (l - 52) ltac:(lia)) as Hp.
    pose proof (round_half_even_range m (l - 52) ltac:(lia) ltac:(lia)) as Hr.
    set (p := 2 ^ (l - 52)) in *.
    assert (2 ^ 52 <= m / p) by (apply Z.div_le_lower_bound; lia).
    assert (m / p < 2 ^ 53) by (apply Z.div_lt_upper_bound; lia). lia.
Qed.

Lemma double_of_pos_finite m :
  0 < m < 2 ^ 64 -> 0 < double_of_pos m < INF_BITS.
Proof.
  intros Hm. pose proof (double_of_pos_range m ltac:(lia)).
  assert (Z.log2 m < 64) by (apply Z.log2_lt_pow2; lia).
  pose proof (Z.log2_nonneg m). unfold INF_BITS. lia.
Qed.

Lemma double_of_pos_big m :
  2 ^ 53 <= m -> 2 ^ 53 * DSCALE <= mag (double_of_pos m).
Proof.
  intros Hm. pose proof (double_of_pos_range m ltac:(lia)) as [Hr _].
  assert (53 <= Z.log2 m) as Hl by (apply Z.log2_le_pow2; lia).
  transitivity (mag ((53 + 1023) * 2 ^ 52 + 0)).
  { rewrite mag_split by lia. unfold DSCALE. by vm_compute. }
  destruct (Z.eq_dec (double_of_pos m) ((53 + 1023) * 2 ^ 52 + 0)) as [->|]; [lia|].
  apply Z.lt_le_incl, mag_lt. lia.
Qed.

Lemma d_abs_neg a : 0 <= a < UINT64_MSB -> d_abs (UINT64_MSB + a) = a.
Proof. intros. unfold d_abs, d_neg. replace (_ <=? _) with true by lia. lia. Qed.

Lemma d_abs_pos a : 0 <= a < UINT64_MSB -> d_abs a = a.
Proof. intros. unfold d_abs, d_neg. by replace (_ <=? _) with false by lia. Qed.

Lemma dscaled_neg a : 0 <= a < UINT64_MSB -> dscaled (UINT64_MSB + a) = - mag a.
Proof.
  intros. unfold dscaled. rewrite d_abs_neg by done.
  unfold d_neg. by replace (_ <=? _) with true by lia.
Qed.

Lemma dscaled_pos a : 0 <= a < UINT64_MSB -> dscaled a = mag a.
Proof.
  intros. unfold dscaled. rewrite d_abs_pos by done.
  unfold d_neg. by replace (_ <=? _) with false by lia.
Qed.

Lemma INF_lt_MSB : INF_BITS < UINT64_MSB.
Proof. by vm_compute. Qed.

Lemma double_of_int_range z :
  Z.abs z < 2 ^ 64 -> doubleb (double_of_int z) = true /\ isnan (double_of_int z) = false.
Proof.
  intros Hz. unfold double_of_int, doubleb, isnan. pose proof INF_lt_MSB as HI.
  destruct (Z.eqb_spec z 0); [done|].
  destruct (Z.ltb_spec z 0).
  - pose proof (double_of_pos_finite (- z) ltac:(lia)).
    rewrite d_abs_neg by lia. unfold UINT64_MSB in *. split; lia.
  - pose proof (double_of_pos_finite z ltac:(lia)).
    rewrite d_abs_pos by lia. unfold UINT64_MSB in *. split; lia.
Qed.

Lemma double_of_int_exact z :
  Z.abs z < 2 ^ 53 -> dscaled (double_of_int z) = z * DSCALE.
Proof.
  intros Hz. unfold double_of_int. pose proof INF_lt_MSB as HI.
  assert (forall m, 0 < m < 2 ^ 53 -> Z.log2 m <= 52) as Hlog.
  { intros m Hm. assert (Z.log2 m < 53) by (apply Z.log2_lt_pow2; lia). lia. }
  destruct (Z.eqb_spec z 0) as [->|]; [done|].
  destruct (Z.ltb_spec z 0).
  - pose proof (double_of_pos_finite (- z) ltac:(lia)).
    rewrite dscaled_neg, double_of_pos_exact by (try apply Hlog; lia). lia.
  - pose proof (double_of_pos_finite z ltac:(lia)).
    rewrite dscaled_pos, double_of_pos_exact by (try apply Hlog; lia). lia.
Qed.

Lemma double_of_int_big z :
  2 ^ 53 <= Z.abs z < 2 ^ 64 ->
  (0 < z -> 2 ^ 53 * DSCALE <= dscaled (double_of_int z)) /\
  (z < 0 -> dscaled (double_of_int z) <= - (2 ^ 53 * DSCALE)).
Proof.
  intros Hz. unfold double_of_int. pose proof INF_lt_MSB as HI.
  split; intros Hs.
  - pose proof (double_of_pos_finite z ltac:(lia)).
    pose proof (double_of_pos_big z ltac:(lia)).
    replace (z =? 0) with false by lia. replace (z <? 0) with false by lia.
    by rewrite dscaled_pos by lia.
  - pose proof (double_of_pos_finite (- z) ltac:(lia)).
    pose proof (double_of_pos_big (- z) ltac:(lia)).
    replace (z =? 0) with false by lia. replace (z <? 0) with true by lia.
    rewrite dscaled_neg by lia. lia.
Qed.

Lemma dscaled_abs b : 0 <= b < 2 ^ 64 -> Z.abs (dscaled b) = mag (d_abs b).
Proof.
  intros Hb. pose proof (mag_nonneg (d_abs b) ltac:(apply d_abs_range; lia)).
  unfold dscaled. destruct (d_neg b); lia.
Qed.

(** [floor(d) == d] holds exactly on the doubles whose value is an integer
    (the infinities included). *)
Lemma d_floor_eq b :
  0 <= b < 2 ^ 64 -> isnan b = false ->
  d_eq (d_floor b) b = (dscaled b mod DSCALE =? 0).
Proof.
  intros Hb Hn. pose proof (d_abs_range b Hb) as Ha. pose proof DSCALE_pos.
  assert (d_eq b b = true) as Hrefl.
  { unfold d_eq, d_cmp_ok. rewrite Hn, Z.eqb_refl. done. }
  unfold d_floor. destruct (Z.leb_spec (1075 * 2 ^ 52) (d_abs b)) as [Hbig|Hsmall].
  - assert (dscaled b mod DSCALE = 0) as ->.
    { assert (exists k, mag (d_abs b) = k * DSCALE) as [k Hk].
      { unfold mag. assert (1075 <= d_abs b / 2 ^ 52) by (apply Z.div_le_lower_bound; lia).
        set (e := d_abs b / 2 ^ 52) in *. replace (e =? 0) with false by lia.
        exists ((d_abs b mod 2 ^ 52 + 2 ^ 52) * 2 ^ (e - 1075)).
        rewrite <- Z.mul_assoc. f_equal. unfold DSCALE.
        rewrite <- Z.pow_add_r by lia. f_equal. lia. }
      unfold dscaled. rewrite Hk. destruct (d_neg b).
      - replace (- (k * DSCALE)) with ((- k) * DSCALE) by lia. apply Z.mod_mul. lia.
      - apply Z.mod_mul. lia. }
    by destruct (INF_BITS <=? d_abs b).
  - replace (INF_BITS <=? d_abs b) with false by (unfold INF_BITS; lia).
    assert (mag (d_abs b) < 2 ^ 52 * DSCALE) as Hm.
    { eapply Z.lt_le_trans; [apply (mag_lt _ (1075 * 2 ^ 52 + 0)); lia|].
      rewrite mag_split by lia. by vm_compute. }
    pose proof (dscaled_abs b Hb) as Habs.
    assert (Z.abs (dscaled b / DSCALE) <= 2 ^ 52) as Hq.
    { assert (dscaled b / DSCALE < 2 ^ 52) by (apply Z.div_lt_upper_bound; lia).
      assert (- 2 ^ 52 <= dscaled b / DSCALE) by (apply Z.div_le_lower_bound; lia). lia. }
    destruct (double_of_int_range (dscaled b / DSCALE) ltac:(lia)) as [_ Hn2].
    unfold d_eq, d_cmp_ok. rewrite Hn, Hn2, double_of_int_exact by lia. simpl.
    pose proof (Z.div_mod (dscaled b) DSCALE ltac:(lia)).
    apply eq_bool_prop_intro. rewrite !Is_true_true, !Z.eqb_eq. lia.
Qed.

Lemma d_trunc_exact b z : dscaled b = z * DSCALE -> d_trunc b = z.
Proof. intros H. unfold d_trunc. rewrite H. apply Z.quot_mul. pose proof DSCALE_pos. lia. Qed.

(** ** Spacing of doubles

    Doubles carry 53 significant bits, so two different doubles, or a double
    and a different 64-bit integer, are far apart compared with their size.
    These bounds make conversions that keep more than twenty digits strictly
    monotone. *)

Lemma mag_dyadic a :
  0 <= a -> exists m k, mag a = m * 2 ^ k /\ 0 <= m < 2 ^ 53 /\ 0 <= k.
Proof.
  intros Ha. unfold mag.
  assert (0 <= a / 2 ^ 52) by (apply Z.div_pos; lia).
  pose proof (Z.mod_pos_bound a (2 ^ 52) ltac:(lia)).
  destruct (Z.eqb_spec (a / 2 ^ 52) 0).
  - exists (a mod 2 ^ 52), 0. lia.
  - exists (a mod 2 ^ 52 + 2 ^ 52), (a / 2 ^ 52 - 1). lia.
Qed.

Lemma mag_step a : 0 < a -> mag a <= 2 ^ 53 * (mag a - mag (a - 1)).
Proof.
  intros Ha.
  pose proof (Z.div_mod a (2 ^ 52) ltac:(lia)) as E.
  pose proof (Z.mod_pos_bound a (2 ^ 52) ltac:(lia)) as Hf.
  assert (0 <= a / 2 ^ 52) as He by (apply Z.div_pos; lia).
  revert E Hf He. generalize (a / 2 ^ 52) (a mod 2 ^ 52). intros e f -> Hf He.
  replace (2 ^ 52 * e + f) with (e * 2 ^ 52 + f) in * by lia.
  destruct (Z.eq_dec f 0) as [->|Hf0].
  - replace (e * 2 ^ 52 + 0 - 1) with ((e - 1) * 2 ^ 52 + (2 ^ 52 - 1)) by lia.
    rewrite !mag_split by lia. replace (e =? 0) with false by lia.
    destruct (Z.eqb_spec (e - 1) 0) as [E|E].
    + rewrite E. lia.
    + replace (2 ^ (e - 1)) with (2 * 2 ^ (e - 1 - 1)).
      2: { rewrite <- Z.pow_succ_r by lia. f_equal. lia. }
      pose proof (pow2_pos (e - 1 - 1) ltac:(lia)). nia.
  - replace (e * 2 ^ 52 + f - 1) with (e * 2 ^ 52 + (f - 1)) by lia.
    rewrite !mag_split by lia. destruct (Z.eqb_spec e 0); [lia|].
    pose proof (pow2_pos (e - 1) ltac:(lia)). nia.
Qed.

Lemma mag_gap a a' : 0 <= a < a' -> mag a' <= 2 ^ 53 * (mag a' - mag a).
Proof.
  intros H. pose proof (mag_step a' ltac:(lia)).
  assert (mag a <= mag (a' - 1)); [|lia].
  destruct (Z.eq_dec a (a' - 1)) as [->|]; [lia|]. apply Z.lt_le_incl, mag_lt. lia.
Qed.

Lemma dscaled_gap b1 b2 :
  0 <= b1 < 2 ^ 64 -> 0 <= b2 < 2 ^ 64 -> dscaled b1 < dscaled b2 ->
  Z.abs (dscaled b1) + Z.abs (dscaled b2) <= 2 ^ 54 * (dscaled b2 - dscaled b1).
Proof.
  intros H1 H2. pose proof (d_abs_range b1 H1) as A1. pose proof (d_abs_range b2 H2) as A2.
  pose proof (mag_nonneg (d_abs b1) ltac:(lia)). pose proof (mag_nonneg (d_abs b2) ltac:(lia)).
  assert (forall a a', 0 <= a -> 0 <= a' -> mag a < mag a' ->
    mag a' <= 2 ^ 53 * (mag a' - mag a)) as Hgap.
  { intros a a' Ha Ha' Hm. apply mag_gap. split; [done|].
    pose proof (mag_compare a a' Ha Ha') as Hc.
    rewrite (proj2 (Z.compare_lt_iff _ _) Hm) in Hc. by apply Z.compare_lt_iff. }
  unfold dscaled. destruct (d_neg b1), (d_neg b2); intros Hlt; try lia.
  - pose proof (Hgap (d_abs b2) (d_abs b1) ltac:(lia) ltac:(lia) ltac:(lia)). lia.
  - pose proof (Hgap (d_abs b1) (d_abs b2) ltac:(lia) ltac:(lia) ltac:(lia)). lia.
Qed.

Lemma multiple_gap m k x :
  0 <= m < 2 ^ 53 -> 0 <= k <= 1074 -> x * DSCALE <> m * 2 ^ k ->
  m * 2 ^ k <= 2 ^ 53 * Z.abs (x * DSCALE - m * 2 ^ k).
Proof.
  intros Hm Hk Hne. assert (DSCALE = 2 ^ (1074 - k) * 2 ^ k) as E.
  { unfold DSCALE. rewrite <- Z.pow_add_r by lia. f_equal. lia. }
  pose proof (pow2_pos k ltac:(lia)) as Hp. rewrite E in *.
  replace (x * (2 ^ (1074 - k) * 2 ^ k) - m * 2 ^ k)
    with ((x * 2 ^ (1074 - k) - m) * 2 ^ k) in * by lia.
  rewrite Z.abs_mul, (Z.abs_eq (2 ^ k)) by lia.
  assert (x * 2 ^ (1074 - k) - m <> 0) by (intros ?; apply Hne; nia). nia.
Qed.

Lemma int_mag_gap m k x :
  0 <= m < 2 ^ 53 -> 0 <= k -> Z.abs x <= 2 ^ 63 -> x * DSCALE <> m * 2 ^ k ->
  m * 2 ^ k <= 2 ^ 64 * Z.abs (x * DSCALE - m * 2 ^ k).
Proof.
  intros Hm Hk Hx Hne. pose proof DSCALE_pos.
  destruct (Z.le_gt_cases k 1074) as [Hs|Hl].
  { pose proof (multiple_gap m k x Hm ltac:(lia) Hne). lia. }
  assert (2 ^ k = 2 ^ (k - 1074) * DSCALE) as E.
  { unfold DSCALE. rewrite <- Z.pow_add_r by lia. f_equal. lia. }
  rewrite E in *. set (y := m * 2 ^ (k - 1074)) in *.
  replace (m * (2 ^ (k - 1074) * DSCALE)) with (y * DSCALE) in * by lia.
  assert (0 <= y) by (pose proof (pow2_pos (k - 1074) ltac:(lia)); nia).
  replace (x * DSCALE - y * DSCALE) with ((x - y) * DSCALE) by lia.
  rewrite Z.abs_mul, (Z.abs_eq DSCALE) by lia.
  assert (x <> y) by (intros ->; done).
  assert (y <= 2 ^ 64 * Z.abs (x - y)) by lia. nia.
Qed.

Lemma int_double_gap b x :
  0 <= b < 2 ^ 64 -> Z.abs x <= 2 ^ 63 -> x * DSCALE <> dscaled b ->
  Z.abs (dscaled b) <= 2 ^ 64 * Z.abs (x * DSCALE - dscaled b).
Proof.
  intros Hb Hx Hne. rewrite dscaled_abs by done.
  destruct (mag_dyadic (d_abs b) ltac:(apply d_abs_range; lia)) as (m & k & E & Hm & Hk).
  unfold dscaled in *. rewrite E in *. destruct (d_neg b).
  - pose proof (int_mag_gap m k (- x) Hm Hk ltac:(lia) ltac:(lia)). lia.
  - pose proof (int_mag_gap m k x Hm Hk ltac:(lia) ltac:(lia)). lia.
Qed.

Lemma mag_inj a a' : 0 <= a -> 0 <= a' -> mag a = mag a' -> a = a'.
Proof.
  intros Ha Ha' E. apply Z.compare_eq_iff. rewrite <- mag_compare by done.
  by apply Z.compare_eq_iff.
Qed.

(** Only the two zeros share a value. *)
Lemma dscaled_inj b1 b2 :
  0 <= b1 < 2 ^ 64 -> 0 <= b2 < 2 ^ 64 -> dscaled b1 = dscaled b2 ->
  b1 = b2 \/ dscaled b1 = 0.
Proof.
  intros H1 H2 E. pose proof (d_abs_range b1 H1) as A1. pose proof (d_abs_range b2 H2) as A2.
  pose proof (mag_nonneg (d_abs b1) ltac:(lia)). pose proof (mag_nonneg (d_abs b2) ltac:(lia)).
  unfold dscaled in *. destruct (d_neg b1) eqn:N1, (d_neg b2) eqn:N2; [left|right|right|left];
    try lia;
    assert (d_abs b1 = d_abs b2) as Ea by (apply mag_inj; lia);
    revert Ea; unfold d_abs; rewrite N1, N2; lia.
Qed.

Lemma round_half_even_exact q s : 0 <= s -> round_half_even (q * 2 ^ s) s = q.
Proof.
  intros Hs. pose proof (pow2_pos s Hs). unfold round_half_even.
  rewrite Z.mod_mul, Z.div_mul by lia. by replace (2 * 0 <? 2 ^ s) with true by lia.
Qed.

(** The double nearest to a representable integer is that integer. *)
Lemma double_of_pos_repr a m :
  0 <= a -> 0 < m -> mag a = m * DSCALE -> double_of_pos m = a.
Proof.
  intros Ha Hm E. destruct (Z_le_gt_dec (Z.log2 m) 52) as [Hl|Hl].
  { apply mag_inj; [|done|by rewrite double_of_pos_exact].
    pose proof (double_of_pos_range m Hm). pose proof (Z.log2_nonneg m). lia. }
  pose proof (Z.div_mod a (2 ^ 52) ltac:(lia)) as Ea.
  pose proof (Z.mod_pos_bound a (2 ^ 52) ltac:(lia)) as Hf.
  pose proof (Z.div_pos a (2 ^ 52) Ha ltac:(lia)) as He.
  unfold mag in E. set (e := a / 2 ^ 52) in *. set (f := a mod 2 ^ 52) in *.
  assert (Z.log2 (m * DSCALE) = 1074 + Z.log2 m) as El by (apply Z.log2_mul_pow2; lia).
  destruct (Z.eqb_spec e 0) as [->|Hne].
  { exfalso. rewrite <- E in El. pose proof (Z.log2_le_mono f (2 ^ 52) ltac:(lia)) as H.
    rewrite Z.log2_pow2 in H by lia. lia. }
  assert (Z.log2 (f + 2 ^ 52) = 52) as Ef by (apply Z.log2_unique; lia).
  rewrite <- E, Z.log2_mul_pow2, Ef in El by lia.
  assert (m = (f + 2 ^ 52) * 2 ^ (e - 1 - 1074)) as ->.
  { apply (Z.mul_cancel_r _ _ DSCALE); [pose proof DSCALE_pos; lia|]. rewrite <- E.
    rewrite <- Z.mul_assoc. f_equal. unfold DSCALE. rewrite <- Z.pow_add_r by lia. f_equal. lia. }
  unfold double_of_pos. rewrite (proj2 (Z.leb_gt _ _)) by lia.
  set (q := f + 2 ^ 52) in *.
  replace (Z.log2 (q * 2 ^ (e - 1 - 1074)) - 52) with (e - 1 - 1074) by lia.
  rewrite round_half_even_exact by lia. lia.
Qed.

Lemma double_of_int_repr b z :
  0 <= b < 2 ^ 64 -> z <> 0 -> dscaled b = z * DSCALE -> double_of_int z = b.
Proof.
  intros Hb Hz E. pose proof (d_abs_range b Hb) as Ha. pose proof (mag_nonneg (d_abs b) ltac:(lia)).
  pose proof DSCALE_pos. unfold dscaled in E. unfold double_of_int, d_abs in *.
  rewrite (proj2 (Z.eqb_neq _ _)) by done.
  destruct (d_neg b) eqn:N.
  - rewrite (proj2 (Z.ltb_lt _ _)) by nia. rewrite (double_of_pos_repr (b - UINT64_MSB)); lia.
  - rewrite (proj2 (Z.ltb_ge _ _)) by nia. apply double_of_pos_repr; [lia|nia|done].
Qed.
