(* ===== verification/DoubleArith.v ===== *)
(** * Arithmetic on doubles

    The C operators [+], [-], [*], [/] and [fmod] on [double]: IEEE 754 with
    rounding to the nearest value, ties to even, as on x86-64.  An operation
    computes the exact result in units of 2^-1074 and rounds it once.  Invalid
    operations deliver the default NaN; a NaN operand is passed on, quieted. *)

From stdpp Require Import base numbers.
From Stdlib Require Import ZArith Lia.
From S2P Require Import Prelude Binary64.

Definition DEFAULT_NAN : double := UINT64_MSB + INF_BITS + 2 ^ 51.

Definition quiet (b : double) : double := Z.lor b (2 ^ 51).

Definition nan_of (a b : double) : double :=
  if isnan a then quiet a else if isnan b then quiet b else DEFAULT_NAN.

Definition with_sign (neg : bool) (a : Z) : double := if neg then UINT64_MSB + a else a.

(** The pattern nearest to m / 2^s units; infinity when that is too large. *)
Definition encode (m s : Z) : Z :=
  let l := Z.log2 m - s in
  let a := if l <? 53 then round_half_even m s
           else (l - 52) * 2 ^ 52 + round_half_even m (s + l - 52) in
  Z.min a INF_BITS.

(** Unary minus flips the sign bit. *)
Definition d_opp (b : double) : double := if d_neg b then b - UINT64_MSB else b + UINT64_MSB.

Definition d_add (a b : double) : double :=
  if isnan a || isnan b then nan_of a b
  else if isinf a then
    if isinf b && negb (Bool.eqb (d_neg a) (d_neg b)) then DEFAULT_NAN else a
  else if isinf b then b
  else
    let m := dscaled a + dscaled b in
    if m =? 0 then (if d_neg a && d_neg b then UINT64_MSB else 0)
    else with_sign (m <? 0) (encode (Z.abs m) 0).

Definition d_sub (a b : double) : double :=
  if isnan b then nan_of a b else d_add a (d_opp b).

Definition d_mul (a b : double) : double :=
  let neg := xorb (d_neg a) (d_neg b) in
  if isnan a || isnan b then nan_of a b
  else if isinf a || isinf b then
    if (dscaled a =? 0) || (dscaled b =? 0) then DEFAULT_NAN else with_sign neg INF_BITS
  else with_sign neg (encode (Z.abs (dscaled a) * Z.abs (dscaled b)) 1074).

(** The quotient with two more bits, and a last bit that says whether the
    division left a remainder. *)
Definition d_div (a b : double) : double :=
  let neg := xorb (d_neg a) (d_neg b) in
  if isnan a || isnan b then nan_of a b
  else if isinf a then (if isinf b then DEFAULT_NAN else with_sign neg INF_BITS)
  else if isinf b then with_sign neg 0
  else if dscaled b =? 0 then
    if dscaled a =? 0 then DEFAULT_NAN else with_sign neg INF_BITS
  else
    let n := Z.abs (dscaled a) * 2 ^ 1076 in
    let d := Z.abs (dscaled b) in
    with_sign neg (encode (2 * (n / d) + (if n mod d =? 0 then 0 else 1)) 3).

Definition fmod (a b : double) : double :=
  if isnan a || isnan b then nan_of a b
  else if isinf a || (dscaled b =? 0) then DEFAULT_NAN
  else if isinf b then a
  else with_sign (d_neg a) (encode (Z.abs (Z.rem (dscaled a) (dscaled b))) 0).

(** ** Results are doubles *)

Lemma round_half_even_bounds m s :
  0 <= m -> 0 <= s -> m / 2 ^ s <= round_half_even m s <= m / 2 ^ s + 1.
Proof. intros Hm Hs. unfold round_half_even. repeat case_match; lia. Qed.

Lemma encode_range m s : 0 <= m -> 0 <= s -> 0 <= encode m s <= INF_BITS.
Proof.
  intros Hm Hs. unfold encode. assert (0 < INF_BITS) by done.
  assert (0 <= round_half_even m s) as H1.
  { pose proof (round_half_even_bounds m s Hm Hs). pose proof (Z.div_pos m (2 ^ s) Hm (pow2_pos s Hs)). lia. }
  destruct (Z.ltb_spec (Z.log2 m - s) 53); [lia|].
  assert (0 <= s + (Z.log2 m - s) - 52) as Hsh by lia.
  pose proof (round_half_even_bounds m _ Hm Hsh).
  pose proof (Z.div_pos m (2 ^ (s + (Z.log2 m - s) - 52)) Hm (pow2_pos _ Hsh)). nia.
Qed.

Lemma with_sign_double neg a : 0 <= a <= INF_BITS -> doubleb (with_sign neg a) = true.
Proof.
  intros Ha. assert (INF_BITS < 2 ^ 63) by done. unfold doubleb, with_sign, UINT64_MSB.
  destruct neg; apply andb_true_iff; rewrite Z.leb_le, Z.ltb_lt; lia.
Qed.

Lemma doubleb_iff b : doubleb b = true <-> 0 <= b < 2 ^ 64.
Proof. unfold doubleb. rewrite andb_true_iff, Z.leb_le, Z.ltb_lt. lia. Qed.

Lemma quiet_double b : doubleb b = true -> doubleb (quiet b) = true.
Proof.
  rewrite !doubleb_iff. intros Hb. unfold quiet. split; [by apply Z.lor_nonneg; lia|].
  destruct (decide (Z.lor b (2 ^ 51) = 0)) as [->|Hne]; [lia|].
  assert (0 <= Z.lor b (2 ^ 51)) by (apply Z.lor_nonneg; lia).
  apply Z.log2_lt_pow2; [lia|]. rewrite Z.log2_lor by lia.
  apply Z.max_lub_lt; [|by vm_compute].
  destruct (decide (b = 0)) as [->|]; [by vm_compute|]. apply Z.log2_lt_pow2; lia.
Qed.

Lemma nan_of_double a b : doubleb a = true -> doubleb b = true -> doubleb (nan_of a b) = true.
Proof. intros Ha Hb. unfold nan_of. repeat case_match; try by apply quiet_double. done. Qed.

Lemma d_opp_double b : doubleb b = true -> doubleb (d_opp b) = true.
Proof.
  rewrite !doubleb_iff. unfold d_opp, d_neg, UINT64_MSB. destruct (Z.leb_spec (2 ^ 63) b); lia.
Qed.

Create HintDb doubles discriminated.
#[export] Hint Resolve nan_of_double d_opp_double with_sign_double encode_range : doubles.

Lemma d_add_double a b : doubleb a = true -> doubleb b = true -> doubleb (d_add a b) = true.
Proof.
  intros Ha Hb. unfold d_add. repeat case_match; auto with doubles; try done.
  all: apply with_sign_double, encode_range; lia.
Qed.

Lemma d_sub_double a b : doubleb a = true -> doubleb b = true -> doubleb (d_sub a b) = true.
Proof. intros Ha Hb. unfold d_sub. case_match; auto using d_add_double with doubles. Qed.

Lemma inf_range : 0 <= INF_BITS <= INF_BITS.
Proof. by split. Qed.

Lemma zero_range : 0 <= 0 <= INF_BITS.
Proof. by split. Qed.
#[export] Hint Resolve inf_range zero_range : doubles.

Lemma d_mul_double a b : doubleb a = true -> doubleb b = true -> doubleb (d_mul a b) = true.
Proof.
  intros Ha Hb. unfold d_mul. repeat case_match; auto with doubles; try done.
  all: apply with_sign_double, encode_range; lia.
Qed.

Lemma d_div_double a b : doubleb a = true -> doubleb b = true -> doubleb (d_div a b) = true.
Proof.
  intros Ha Hb. unfold d_div. cbv zeta.
  destruct (isnan a || isnan b); [auto with doubles|].
  destruct (isinf a); [destruct (isinf b); [done|auto with doubles]|].
  destruct (isinf b); [auto with doubles|].
  destruct (Z.eqb_spec (dscaled b) 0); [case_match; [done|auto with doubles]|].
  apply with_sign_double, encode_range; [|lia].
  assert (0 <= Z.abs (dscaled a) * 2 ^ 1076 / Z.abs (dscaled b)).
  { apply Z.div_pos; [|lia]. apply Z.mul_nonneg_nonneg; [lia|apply Z.pow_nonneg; lia]. }
  destruct (_ =? 0); lia.
Qed.

Lemma fmod_double a b : doubleb a = true -> doubleb b = true -> doubleb (fmod a b) = true.
Proof.
  intros Ha Hb. unfold fmod. repeat case_match; auto with doubles; try done.
  all: apply with_sign_double, encode_range; lia.
Qed.

(** ** Exact results *)

Lemma round_half_even_0 m : round_half_even m 0 = m.
Proof. unfold round_half_even. rewrite Z.pow_0_r, Z.div_1_r, Z.mod_1_r. done. Qed.

(** A representable magnitude is kept. *)
Lemma encode_exact a : 0 <= a <= INF_BITS -> encode (mag a) 0 = a.
Proof.
  intros Ha. unfold encode. rewrite Z.sub_0_r, Z.add_0_l.
  pose proof (Z.div_mod a (2 ^ 52) ltac:(lia)) as Ea.
  pose proof (Z.mod_pos_bound a (2 ^ 52) ltac:(lia)) as Hf.
  pose proof (Z.div_pos a (2 ^ 52) ltac:(lia) ltac:(lia)) as He.
  unfold mag. set (e := a / 2 ^ 52) in *. set (f := a mod 2 ^ 52) in *.
  destruct (Z.eqb_spec e 0) as [->|Hne].
  - rewrite (proj2 (Z.ltb_lt _ _)).
    + rewrite round_half_even_0. lia.
    + destruct (decide (f = 0)) as [->|]; [by vm_compute|]. apply Z.log2_lt_pow2; lia.
  - assert (Z.log2 ((f + 2 ^ 52) * 2 ^ (e - 1)) = 52 + (e - 1)) as ->.
    { rewrite Z.log2_mul_pow2 by lia. assert (Z.log2 (f + 2 ^ 52) = 52) as -> by (apply Z.log2_unique; lia). lia. }
    destruct (Z.ltb_spec (52 + (e - 1)) 53).
    + replace (e - 1) with 0 by lia. rewrite round_half_even_0. lia.
    + replace (52 + (e - 1) - 52) with (e - 1) by lia. rewrite round_half_even_exact by lia. lia.
Qed.

Lemma double_of_int_finite z :
  Z.abs z < 2 ^ 64 -> isnan (double_of_int z) = false /\ isinf (double_of_int z) = false.
Proof.
  intros Hz. destruct (double_of_int_range z Hz) as [_ Hn]. split; [done|].
  unfold double_of_int, isinf. pose proof INF_lt_MSB.
  destruct (Z.eqb_spec z 0); [done|]. destruct (Z.ltb_spec z 0).
  - pose proof (double_of_pos_finite (- z) ltac:(lia)). rewrite d_abs_neg by lia. apply Z.eqb_neq. lia.
  - pose proof (double_of_pos_finite z ltac:(lia)). rewrite d_abs_pos by lia. apply Z.eqb_neq. lia.
Qed.

Lemma encode_int m : 0 <= m < 2 ^ 53 -> mag (encode (m * DSCALE) 0) = m * DSCALE /\ encode (m * DSCALE) 0 < INF_BITS.
Proof.
  intros Hm. destruct (decide (m = 0)) as [->|Hne]; [by vm_compute|].
  assert (mag (double_of_pos m) = m * DSCALE) as E.
  { apply double_of_pos_exact; [lia|]. assert (Z.log2 m < 53) by (apply Z.log2_lt_pow2; lia). lia. }
  pose proof (double_of_pos_finite m ltac:(lia)). rewrite <- E, encode_exact by lia. lia.
Qed.

Lemma dscaled_with_sign neg a :
  0 <= a < UINT64_MSB -> dscaled (with_sign neg a) = if neg then - mag a else mag a.
Proof. intros Ha. destruct neg; [by apply dscaled_neg|by apply dscaled_pos]. Qed.

Lemma d_neg_int x : Z.abs x < 2 ^ 53 -> d_neg (double_of_int x) = (x <? 0).
Proof.
  intros Hx. unfold double_of_int, d_neg. pose proof INF_lt_MSB.
  destruct (Z.eqb_spec x 0) as [->|]; [done|]. destruct (Z.ltb_spec x 0).
  - pose proof (double_of_pos_finite (- x) ltac:(lia)). apply Z.leb_le. lia.
  - pose proof (double_of_pos_finite x ltac:(lia)). apply Z.leb_gt. lia.
Qed.

(** The remainder of integers below 2^53 is exact. *)
Lemma fmod_int x y :
  Z.abs x < 2 ^ 53 -> Z.abs y < 2 ^ 53 -> y <> 0 ->
  let r := fmod (double_of_int x) (double_of_int y) in
  dscaled r = Z.rem x y * DSCALE /\ isnan r = false /\ isinf r = false.
Proof.
  intros Hx Hy Hne r. unfold r, fmod. pose proof DSCALE_pos as HS. pose proof INF_lt_MSB as HI.
  destruct (double_of_int_finite x ltac:(lia)) as [-> ->].
  destruct (double_of_int_finite y ltac:(lia)) as [-> ->]. cbn [orb].
  rewrite !double_of_int_exact by done. rewrite (proj2 (Z.eqb_neq _ _)) by nia.
  rewrite Z.mul_rem_distr_r by lia. rewrite Z.abs_mul, (Z.abs_eq DSCALE) by lia.
  pose proof (Z.rem_bound_abs x y Hne) as Hr.
  destruct (encode_int (Z.abs (Z.rem x y)) ltac:(lia)) as [Em Hm].
  pose proof (encode_range (Z.abs (Z.rem x y) * DSCALE) 0 ltac:(nia) ltac:(lia)).
  set (a := encode (Z.abs (Z.rem x y) * DSCALE) 0) in *.
  assert (d_abs (with_sign (d_neg (double_of_int x)) a) = a) as Ea.
  { unfold with_sign. case_match; [apply d_abs_neg|apply d_abs_pos]; lia. }
  unfold isnan, isinf. rewrite Ea. split_and!; [|apply Z.ltb_ge; lia|apply Z.eqb_neq; lia].
  rewrite dscaled_with_sign, Em, d_neg_int by (done || lia).
  destruct (Z.ltb_spec x 0) as [Hneg|Hpos].
  - pose proof (Z.rem_nonpos x y ltac:(lia) ltac:(lia)). rewrite Z.abs_neq by lia. lia.
  - pose proof (Z.rem_nonneg x y ltac:(lia) ltac:(lia)). rewrite Z.abs_eq by lia. lia.
Qed.
