(* ===== verification/Bson.v ===== *)
(** * BSON values

    The data the C code manipulates through libbson's [bson_value_t]: a type
    tag and, per tag, the payload.  A document or an array is the sequence of
    [(key, value)] pairs that [bson_iter_next] delivers, so a [bson_iter_t] is
    the list of the elements not yet visited.  The tags carry the codes of
    [bson_type_t].  [wf_value] is what libbson guarantees of a value it
    delivers: integers in the range of their C type, keys and regular
    expressions without NUL bytes, object ids of twelve bytes, and lengths
    below 2^31 (BSON lengths are [int32]). *)

From stdpp Require Import base numbers list.
From Stdlib Require Import ZArith Lia.
From S2P Require Import Prelude Binary64.

Inductive bson_type : Set :=
| BSON_TYPE_EOD | BSON_TYPE_DOUBLE | BSON_TYPE_UTF8 | BSON_TYPE_DOCUMENT
| BSON_TYPE_ARRAY | BSON_TYPE_BINARY | BSON_TYPE_UNDEFINED | BSON_TYPE_OID
| BSON_TYPE_BOOL | BSON_TYPE_DATE_TIME | BSON_TYPE_NULL | BSON_TYPE_REGEX
| BSON_TYPE_DBPOINTER | BSON_TYPE_CODE | BSON_TYPE_SYMBOL | BSON_TYPE_CODEWSCOPE
| BSON_TYPE_INT32 | BSON_TYPE_TIMESTAMP | BSON_TYPE_INT64 | BSON_TYPE_DECIMAL128
| BSON_TYPE_MAXKEY | BSON_TYPE_MINKEY.

#[export] Instance bson_type_eq_dec : EqDecision bson_type.
Proof. solve_decision. Defined.

Definition bson_type_code (t : bson_type) : Z :=
  match t with
  | BSON_TYPE_EOD => 0 | BSON_TYPE_DOUBLE => 1 | BSON_TYPE_UTF8 => 2
  | BSON_TYPE_DOCUMENT => 3 | BSON_TYPE_ARRAY => 4 | BSON_TYPE_BINARY => 5
  | BSON_TYPE_UNDEFINED => 6 | BSON_TYPE_OID => 7 | BSON_TYPE_BOOL => 8
  | BSON_TYPE_DATE_TIME => 9 | BSON_TYPE_NULL => 10 | BSON_TYPE_REGEX => 11
  | BSON_TYPE_DBPOINTER => 12 | BSON_TYPE_CODE => 13 | BSON_TYPE_SYMBOL => 14
  | BSON_TYPE_CODEWSCOPE => 15 | BSON_TYPE_INT32 => 16 | BSON_TYPE_TIMESTAMP => 17
  | BSON_TYPE_INT64 => 18 | BSON_TYPE_DECIMAL128 => 19
  | BSON_TYPE_MAXKEY => 127 | BSON_TYPE_MINKEY => 255
  end.

Definition type_eqb (a b : bson_type) : bool := bool_decide (a = b).

(** [bson_decimal128_t]: the two 64-bit words of an IEEE 754 decimal128 in the
    binary integer significand encoding (the same words as [BID_UINT128]). *)
Record decimal128 : Set := mk_decimal128 { d_high : Z; d_low : Z }.

#[export] Instance decimal128_eq_dec : EqDecision decimal128.
Proof. solve_decision. Defined.

#[warnings="-register-all"]
Inductive bson_value : Set :=
| V_Eod
| V_Double (v_double : Z)
| V_Utf8 (v_utf8 : bytes)
| V_Document (v_doc : list (bytes * bson_value))
| V_Array (v_doc : list (bytes * bson_value))
| V_Binary (subtype : Z) (data : bytes)
| V_Undefined
| V_Oid (v_oid : bytes)
| V_Bool (v_bool : bool)
| V_DateTime (v_datetime : Z)
| V_Null
| V_Regex (regex options : option bytes)
| V_DbPointer (collection oid : bytes)
| V_Code (code : bytes)
| V_Symbol (symbol : bytes)
| V_CodeWScope (code : bytes) (scope : list (bytes * bson_value))
| V_Int32 (v_int32 : Z)
| V_Timestamp (timestamp increment : Z)
| V_Int64 (v_int64 : Z)
| V_Decimal128 (v_decimal128 : decimal128)
| V_MaxKey
| V_MinKey.

Abbreviation bson_field := (bytes * bson_value)%type.
Abbreviation bson_doc := (list (bytes * bson_value)).

Definition value_type (v : bson_value) : bson_type :=
  match v with
  | V_Eod => BSON_TYPE_EOD
  | V_Double _ => BSON_TYPE_DOUBLE
  | V_Utf8 _ => BSON_TYPE_UTF8
  | V_Document _ => BSON_TYPE_DOCUMENT
  | V_Array _ => BSON_TYPE_ARRAY
  | V_Binary _ _ => BSON_TYPE_BINARY
  | V_Undefined => BSON_TYPE_UNDEFINED
  | V_Oid _ => BSON_TYPE_OID
  | V_Bool _ => BSON_TYPE_BOOL
  | V_DateTime _ => BSON_TYPE_DATE_TIME
  | V_Null => BSON_TYPE_NULL
  | V_Regex _ _ => BSON_TYPE_REGEX
  | V_DbPointer _ _ => BSON_TYPE_DBPOINTER
  | V_Code _ => BSON_TYPE_CODE
  | V_Symbol _ => BSON_TYPE_SYMBOL
  | V_CodeWScope _ _ => BSON_TYPE_CODEWSCOPE
  | V_Int32 _ => BSON_TYPE_INT32
  | V_Timestamp _ _ => BSON_TYPE_TIMESTAMP
  | V_Int64 _ => BSON_TYPE_INT64
  | V_Decimal128 _ => BSON_TYPE_DECIMAL128
  | V_MaxKey => BSON_TYPE_MAXKEY
  | V_MinKey => BSON_TYPE_MINKEY
  end.

(** The induction principle that reaches the values nested in documents. *)
Section bson_value_induction.
Context (P : bson_value -> Prop).
Context (Hdoc : forall fs, Forall (fun f => P f.2) fs -> P (V_Document fs)).
Context (Harr : forall fs, Forall (fun f => P f.2) fs -> P (V_Array fs)).
Context (Hcws : forall c fs, Forall (fun f => P f.2) fs -> P (V_CodeWScope c fs)).
Context (Hleaf : forall v,
  match v with V_Document _ | V_Array _ | V_CodeWScope _ _ => True | _ => P v end).

Fixpoint bson_value_nested_ind (v : bson_value) : P v :=
  let fields := fix fields (fs : bson_doc) : Forall (fun f => P f.2) fs :=
    match fs with
    | [] => Forall_nil_2 _
    | (k, x) :: fs' => Forall_cons_2 _ (k, x) fs' (bson_value_nested_ind x) (fields fs')
    end in
  match v with
  | V_Document fs => Hdoc fs (fields fs)
  | V_Array fs => Harr fs (fields fs)
  | V_CodeWScope c fs => Hcws c fs (fields fs)
  | leaf => Hleaf leaf
  end.
End bson_value_induction.

(** Nesting depth, the measure of the recursions that [check_stack_depth]
    guards. *)
Fixpoint depth (v : bson_value) : nat :=
  match v with
  | V_Document fs | V_Array fs | V_CodeWScope _ fs =>
      S (fold_right (fun f n => Nat.max (depth f.2) n) 0%nat fs)
  | _ => 1%nat
  end.

Lemma depth_fields n fs :
  (fold_right (fun f m => Nat.max (depth f.2) m) 0%nat fs <= n)%nat ->
  Forall (fun f : bson_field => (depth f.2 <= n)%nat) fs.
Proof. induction fs as [|f fs IH]; simpl; constructor; [lia|apply IH; lia]. Qed.

(** Well-formed values. *)
Definition lenb (l : bytes) : bool := blen l <? 2 ^ 31.
Definition strb (l : bytes) : bool := bytesb l && lenb l.
Definition cstrb (l : bytes) : bool :=
  forallb (fun b => (0 <? b) && (b <? 256)) l && lenb l.
Definition oidb (l : bytes) : bool := bytesb l && (blen l =? 12).
Definition uintb (w z : Z) : bool := (0 <=? z) && (z <? 2 ^ w).
Definition opt_cstrb (o : option bytes) : bool :=
  match o with Some l => cstrb l | None => false end.

Fixpoint wf_value (v : bson_value) : bool :=
  match v with
  | V_Double d => doubleb d
  | V_Utf8 s | V_Symbol s | V_Code s => strb s
  | V_Document fs | V_Array fs =>
      forallb (fun f => cstrb f.1 && wf_value f.2) fs
  | V_CodeWScope c fs =>
      strb c && forallb (fun f => cstrb f.1 && wf_value f.2) fs
  | V_Binary st d => byteb st && strb d
  | V_Oid o => oidb o
  | V_DateTime z => in_int64 z
  | V_Regex r o => opt_cstrb r && opt_cstrb o
  | V_DbPointer c o => strb c && oidb o
  | V_Int32 z => in_int32 z
  | V_Int64 z => in_int64 z
  | V_Timestamp t i => uintb 32 t && uintb 32 i
  | V_Decimal128 d => uintb 64 (d_high d) && uintb 64 (d_low d)
  | _ => true
  end.

Definition wf_fields (fs : bson_doc) : bool :=
  forallb (fun f => cstrb f.1 && wf_value f.2) fs.

Lemma wf_fields_cons k v fs :
  wf_fields ((k, v) :: fs) = true <->
  cstrb k = true /\ wf_value v = true /\ wf_fields fs = true.
Proof. unfold wf_fields. simpl. rewrite !andb_true_iff. tauto. Qed.

(** An expression result that is missing, and one that is missing or null. *)
Definition IsExpressionResultUndefined (value : bson_value) : bool :=
  type_eqb (value_type value) BSON_TYPE_UNDEFINED || type_eqb (value_type value) BSON_TYPE_EOD.

Definition IsExpressionResultNullOrUndefined (value : bson_value) : bool :=
  type_eqb (value_type value) BSON_TYPE_NULL || IsExpressionResultUndefined value.
