(* ===== verification/PgbsonElement.v ===== *)
(** * Single-element documents: [pg_documentdb_core/src/io/pgbsonelement.c]

    Index terms and operator arguments are documents with one element.  The
    functions here take the path and the value out of such a document: through
    libbson's iterator, or by reading the bytes directly (the [Unsafe]
    functions, used on the index's own data).  The theorem shows that the
    direct reader inverts the BSON encoding for every type of value, in the
    full form (length, type, path, value, terminator) and in the form of the
    value-only index terms (type, empty path, value). *)

From stdpp Require Import base numbers list option.
From Stdlib Require Import ZArith Lia.
From S2P Require Import Prelude Binary64 Bson.

(** ** The BSON encoding (bsonspec.org, version 1.1) *)

Fixpoint le_bytes (n : nat) (z : Z) : bytes :=
  match n with
  | O => []
  | S n' => z mod 256 :: le_bytes n' (z / 256)
  end.

Fixpoint le_value (l : bytes) : Z :=
  match l with
  | [] => 0
  | b :: l' => b + 256 * le_value l'
  end.

Definition int32_bytes (z : Z) : bytes := le_bytes 4 (uint32 z).
Definition int64_bytes (z : Z) : bytes := le_bytes 8 (uint64 z).
Definition string_bytes (s : bytes) : bytes := int32_bytes (blen s + 1) ++ s ++ [0].

Definition BSON_SUBTYPE_BINARY_DEPRECATED : Z := 2.

Fixpoint value_bytes (v : bson_value) : bytes :=
  let doc_bytes fs :=
    let body := flat_map (fun f => bson_type_code (value_type f.2) :: f.1 ++ [0] ++ value_bytes f.2) fs in
    int32_bytes (blen body + 5) ++ body ++ [0] in
  match v with
  | V_Double d => le_bytes 8 d
  | V_Utf8 s | V_Code s | V_Symbol s => string_bytes s
  | V_Document fs | V_Array fs => doc_bytes fs
  | V_Binary st d =>
      if st =? BSON_SUBTYPE_BINARY_DEPRECATED
      then int32_bytes (blen d + 4) ++ [st] ++ int32_bytes (blen d) ++ d
      else int32_bytes (blen d) ++ [st] ++ d
  | V_Oid o => o
  | V_Bool b => [Z.b2z b]
  | V_DateTime z | V_Int64 z => int64_bytes z
  | V_Regex r o => default [] r ++ [0] ++ default [] o ++ [0]
  | V_DbPointer c o => string_bytes c ++ o
  | V_CodeWScope c fs =>
      let tail := string_bytes c ++ doc_bytes fs in
      int32_bytes (blen tail + 4) ++ tail
  | V_Int32 z => int32_bytes z
  | V_Timestamp t i => le_bytes 4 i ++ le_bytes 4 t
  | V_Decimal128 d => le_bytes 8 (d_low d) ++ le_bytes 8 (d_high d)
  | V_Eod | V_Undefined | V_Null | V_MaxKey | V_MinKey => []
  end.

Definition element_bytes (f : bson_field) : bytes :=
  bson_type_code (value_type f.2) :: f.1 ++ [0] ++ value_bytes f.2.

Definition doc_bytes (fs : bson_doc) : bytes :=
  let body := flat_map element_bytes fs in
  int32_bytes (blen body + 5) ++ body ++ [0].

(** ** Reading

    A read of memory either succeeds, makes the function return [false], or
    leaves the buffer. *)

Inductive read (A : Type) : Type :=
| Done (a : A)
| Fails
| OutOfBounds.
Arguments Done {A} a.
Arguments Fails {A}.
Arguments OutOfBounds {A}.

Definition read_bind {A B} (m : read A) (k : A -> read B) : read B :=
  match m with Done a => k a | Fails => Fails | OutOfBounds => OutOfBounds end.

Notation "'read!' x ':=' m 'in' k" := (read_bind m (fun x => k))
  (at level 10, x pattern, m at level 100, k at level 200) : docdb_scope.

(** [n] bytes, and the rest of the buffer ([memcpy] and the advance). *)
Definition read_n (n : Z) (data : bytes) : read (bytes * bytes) :=
  if (0 <=? n) && (n <=? blen data) then Done (take (Z.to_nat n) data, drop (Z.to_nat n) data)
  else OutOfBounds.

Definition read_u32 (data : bytes) : read (Z * bytes) :=
  read! (b, rest) := read_n 4 data in Done (le_value b, rest).
Definition read_i32 (data : bytes) : read (Z * bytes) :=
  read! (b, rest) := read_n 4 data in Done (int32 (le_value b), rest).
Definition read_u64 (data : bytes) : read (Z * bytes) :=
  read! (b, rest) := read_n 8 data in Done (le_value b, rest).
Definition read_i64 (data : bytes) : read (Z * bytes) :=
  read! (b, rest) := read_n 8 data in Done (int64 (le_value b), rest).

(** A C string: the bytes before the first NUL, and what follows it. *)
Fixpoint read_cstring (data : bytes) : read (bytes * bytes) :=
  match data with
  | [] => OutOfBounds
  | b :: rest =>
      if b =? 0 then Done ([], rest)
      else read! (s, rest') := read_cstring rest in Done (b :: s, rest')
  end.

(** What a [bson_value_t] holds: a document is a pointer to its bytes. *)
Inductive raw_value : Set :=
| R_Value (v : bson_value)
| R_Document (data : bytes)
| R_Array (data : bytes)
| R_CodeWScope (code scope : bytes).

Definition check_left (lengthLeft n : Z) {A} (k : read A) : read A :=
  if lengthLeft <? n then Fails else k.

(** A length-prefixed string: its [len - 1] bytes, where it starts, [len]. *)
Definition read_string (lengthLeft : Z) (data : bytes) : read (bytes * bytes * Z) :=
  check_left lengthLeft 4
    (read! (len, data) := read_i32 data in
     check_left lengthLeft (int32 (len + 4))
       (read! (s, _) := read_n (uint32 (len - 1)) data in
        Done (s, data, len))).

Definition bson_type_of_code (c : Z) : option bson_type :=
  find (fun t => bson_type_code t =? c)
    [BSON_TYPE_DOUBLE; BSON_TYPE_UTF8; BSON_TYPE_DOCUMENT; BSON_TYPE_ARRAY; BSON_TYPE_BINARY;
     BSON_TYPE_UNDEFINED; BSON_TYPE_OID; BSON_TYPE_BOOL; BSON_TYPE_DATE_TIME; BSON_TYPE_NULL;
     BSON_TYPE_REGEX; BSON_TYPE_DBPOINTER; BSON_TYPE_CODE; BSON_TYPE_SYMBOL;
     BSON_TYPE_CODEWSCOPE; BSON_TYPE_INT32; BSON_TYPE_TIMESTAMP; BSON_TYPE_INT64;
     BSON_TYPE_DECIMAL128; BSON_TYPE_MAXKEY; BSON_TYPE_MINKEY].

Definition FillBsonElementValueAndPathUnsafe (value_type : option bson_type) (data : bytes)
  (lengthLeft : Z) : read raw_value :=
  match value_type with
  | Some BSON_TYPE_DATE_TIME =>
      check_left lengthLeft 8 (read! (z, _) := read_i64 data in Done (R_Value (V_DateTime z)))
  | Some BSON_TYPE_DOUBLE =>
      check_left lengthLeft 8 (read! (d, _) := read_u64 data in Done (R_Value (V_Double d)))
  | Some BSON_TYPE_INT64 =>
      check_left lengthLeft 8 (read! (z, _) := read_i64 data in Done (R_Value (V_Int64 z)))
  | Some BSON_TYPE_TIMESTAMP =>
      check_left lengthLeft 8
        (read! (increment, data) := read_u32 data in
         read! (timestamp, _) := read_u32 data in
         Done (R_Value (V_Timestamp timestamp increment)))
  | Some BSON_TYPE_CODE =>
      read! (code, _, _) := read_string lengthLeft data in Done (R_Value (V_Code code))
  | Some BSON_TYPE_SYMBOL =>
      read! (symbol, _, _) := read_string lengthLeft data in Done (R_Value (V_Symbol symbol))
  | Some BSON_TYPE_UTF8 =>
      read! (str, _, _) := read_string lengthLeft data in Done (R_Value (V_Utf8 str))
  | Some BSON_TYPE_BINARY =>
      check_left lengthLeft 4
        (read! (binaryLength, data) := read_i32 data in
         check_left lengthLeft (int32 (4 + binaryLength + 1))
           (read! (st, data) := read_n 1 data in
            let subtype := le_value st in
            read! (binaryLength, data) :=
              if subtype =? BSON_SUBTYPE_BINARY_DEPRECATED
              then read! (_, data) := read_n 4 data in Done (binaryLength - 4, data)
              else Done (binaryLength, data) in
            read! (d, _) := read_n (uint32 binaryLength) data in
            Done (R_Value (V_Binary subtype d))))
  | Some BSON_TYPE_ARRAY =>
      check_left lengthLeft 4
        (read! (docLength, _) := read_i32 data in
         check_left lengthLeft docLength
           (read! (d, _) := read_n (uint32 docLength) data in Done (R_Array d)))
  | Some BSON_TYPE_DOCUMENT =>
      check_left lengthLeft 4
        (read! (docLength, _) := read_i32 data in
         check_left lengthLeft docLength
           (read! (d, _) := read_n (uint32 docLength) data in Done (R_Document d)))
  | Some BSON_TYPE_OID =>
      check_left lengthLeft 12 (read! (o, _) := read_n 12 data in Done (R_Value (V_Oid o)))
  | Some BSON_TYPE_BOOL =>
      check_left lengthLeft 1
        (read! (b, _) := read_n 1 data in Done (R_Value (V_Bool (negb (le_value b =? 0)))))
  | Some BSON_TYPE_REGEX =>
      check_left lengthLeft 2
        (read! (regex, rest) := read_cstring data in
         check_left lengthLeft (int32 (blen regex + 2))
           (read! (options, _) := read_cstring rest in
            Done (R_Value (V_Regex (Some regex) (Some options)))))
  | Some BSON_TYPE_DBPOINTER =>
      read! (collection, data, utf8Length) := read_string lengthLeft data in
      check_left lengthLeft (int32 (utf8Length + 4 + 12))
        (read! (_, data) := read_n utf8Length data in
         read! (o, _) := read_n 12 data in Done (R_Value (V_DbPointer collection o)))
  | Some BSON_TYPE_CODEWSCOPE =>
      check_left lengthLeft 4
        (read! (totalcodeLength, data) := read_i32 data in
         check_left lengthLeft totalcodeLength
           (read! (codeLength, data) := read_i32 data in
            if (codeLength <? 1) || (totalcodeLength <? codeLength) then Fails
            else
              read! (code, _) := read_n (codeLength - 1) data in
              read! (_, data) := read_n codeLength data in
              read! (docLength, _) := read_i32 data in
              check_left totalcodeLength docLength
                (read! (scope, _) := read_n (uint32 docLength) data in
                 Done (R_CodeWScope code scope))))
  | Some BSON_TYPE_INT32 =>
      check_left lengthLeft 4 (read! (z, _) := read_i32 data in Done (R_Value (V_Int32 z)))
  | Some BSON_TYPE_DECIMAL128 =>
      check_left lengthLeft 16
        (read! (low, data) := read_u64 data in
         read! (high, _) := read_u64 data in
         Done (R_Value (V_Decimal128 (mk_decimal128 high low))))
  | Some BSON_TYPE_MAXKEY => Done (R_Value V_MaxKey)
  | Some BSON_TYPE_MINKEY => Done (R_Value V_MinKey)
  | Some BSON_TYPE_NULL => Done (R_Value V_Null)
  | Some BSON_TYPE_UNDEFINED => Done (R_Value V_Undefined)
  | Some BSON_TYPE_EOD | None => Fails
  end.

(** The value of a document without its length and path ([data[1]] is the NUL
    of the empty path); the error of an empty buffer is raised before. *)
Definition FillPgbsonElementUnsafeNoLength (data : bytes) : result (read raw_value) :=
  let data_len := blen data in
  if data_len <? 1 then Err ERRCODE_INTERNAL_ERROR
  else
    let value_type := bson_type_of_code (default 0 (data !! 0%nat)) in
    let lengthLeft := data_len - 1 in
    Ok (FillBsonElementValueAndPathUnsafe value_type (drop 2 data) lengthLeft).

(** The path and the value of a document. *)
Definition FillPgbsonElementUnsafe (data : bytes) : result (read (bytes * raw_value)) :=
  let data_len := blen data in
  if data_len <? 5 then Err ERRCODE_INTERNAL_ERROR
  else
    let length := le_value (take 4 data) in
    let value_type := bson_type_of_code (default 0 (data !! 4%nat)) in
    Ok (read! (path, data) := read_cstring (drop 5 data) in
        let lengthLeft := int32 (length - blen path - 5) in
        read! v := FillBsonElementValueAndPathUnsafe value_type data lengthLeft in
        Done (path, v)).

(** [OutOfBounds] has no defined outcome in C; the model raises
    [ERRCODE_INTERNAL_ERROR] for it. *)
Definition read_result {A} (r : result (read A)) : result A :=
  let! outcome := r in
  match outcome with
  | Done a => Ok a
  | Fails => Err ERRCODE_DOCUMENTDB_BADVALUE
  | OutOfBounds => Err ERRCODE_INTERNAL_ERROR
  end.

Definition BsonDocumentBytesToPgbsonElementUnsafe (data : bytes) : result (bytes * raw_value) :=
  read_result (FillPgbsonElementUnsafe data).

Definition BsonDocumentBytesToPgbsonElementSkipLengthUnsafe (data : bytes) : result raw_value :=
  read_result (FillPgbsonElementUnsafeNoLength data).

(** ** Through the iterator *)

Section iterator.
Context (bson_iter_init_from_data : bytes -> option bson_doc).

(** The element of a document value: the first one, whatever follows. *)
Definition BsonValueToPgbsonElement (data : bytes) : result bson_field :=
  match bson_iter_init_from_data data with
  | None => Err ERRCODE_DOCUMENTDB_BADVALUE
  | Some [] => Err ERRCODE_INTERNAL_ERROR
  | Some (f :: _) => Ok f
  end.

Definition TryGetBsonValueToPgbsonElement (data : bytes) : option bson_field :=
  match bson_iter_init_from_data data with
  | Some (f :: _) => Some f
  | _ => None
  end.
End iterator.

Definition TryGetSinglePgbsonElementFromBsonIterator (iterator : bson_doc) : option bson_field :=
  match iterator with
  | [f] => Some f
  | _ => None
  end.

(** The key "collation". *)
Definition collation_key : bytes := [99; 111; 108; 108; 97; 116; 105; 111; 110].

Definition BsonIterToSinglePgbsonElement (EnableCollation : bool) (iterator : bson_doc)
  : result bson_field :=
  match iterator with
  | [] => Err ERRCODE_DOCUMENTDB_BADVALUE
  | [f] => Ok f
  | f :: (key, _) :: _ =>
      if EnableCollation && (strcmp key collation_key =? 0) then Ok f
      else Err ERRCODE_DOCUMENTDB_BADVALUE
  end.

(** The element and the collation string; [bson_iter_utf8] is [NULL] on a
    value that is not a string. *)
Definition PgbsonToSinglePgbsonElementWithCollation (EnableCollation : bool)
  (iter : bson_doc) : result (bson_field * option bytes) :=
  match iter with
  | [] => Err ERRCODE_DOCUMENTDB_BADVALUE
  | f :: rest =>
      if negb EnableCollation then Ok (f, None)
      else
        match rest with
        | [] => Ok (f, None)
        | (key, v) :: rest' =>
            if strcmp key collation_key =? 0 then
              match rest' with
              | [] => Ok (f, match v with V_Utf8 s => Some s | _ => None end)
              | _ => Err ERRCODE_DOCUMENTDB_BADVALUE
              end
            else Err ERRCODE_DOCUMENTDB_BADVALUE
        end
  end.

(** ** Round trip *)

Lemma le_bytes_length n z : length (le_bytes n z) = n.
Proof. revert z. induction n as [|n IH]; intros z; simpl; [done|]. by rewrite IH. Qed.

Lemma le_value_bytes n z : le_value (le_bytes n z) = z mod 256 ^ Z.of_nat n.
Proof.
  revert z. induction n as [|n IH]; intros z.
  { simpl. by rewrite Z.mod_1_r. }
  cbn [le_bytes le_value]. rewrite IH, Nat2Z.inj_succ, Z.pow_succ_r by lia.
  assert (0 < 256 ^ Z.of_nat n) by (apply Z.pow_pos_nonneg; lia).
  rewrite (Z.rem_mul_r z 256) by lia. done.
Qed.

Lemma read_n_app l rest n : blen l = n -> read_n n (l ++ rest) = Done (l, rest).
Proof.
  intros <-. unfold read_n, blen. rewrite length_app.
  assert ((0 <=? Z.of_nat (length l)) && (Z.of_nat (length l) <=? Z.of_nat (length l + length rest))
          = true) as -> by (rewrite andb_true_iff, !Z.leb_le; lia).
  rewrite Nat2Z.id, take_app_length, drop_app_length. done.
Qed.

Lemma blen_le_bytes n z : blen (le_bytes n z) = Z.of_nat n.
Proof. unfold blen. by rewrite le_bytes_length. Qed.

Lemma read_u32_app z rest : 0 <= z < 2 ^ 32 -> read_u32 (le_bytes 4 z ++ rest) = Done (z, rest).
Proof.
  intros Hz. unfold read_u32. rewrite read_n_app by apply blen_le_bytes. cbn [read_bind].
  rewrite le_value_bytes, Z.mod_small by (change (256 ^ Z.of_nat 4) with (2 ^ 32); lia). done.
Qed.

Lemma read_u64_app z rest : 0 <= z < 2 ^ 64 -> read_u64 (le_bytes 8 z ++ rest) = Done (z, rest).
Proof.
  intros Hz. unfold read_u64. rewrite read_n_app by apply blen_le_bytes. cbn [read_bind].
  rewrite le_value_bytes, Z.mod_small by (change (256 ^ Z.of_nat 8) with (2 ^ 64); lia). done.
Qed.

Lemma read_i32_app z rest :
  - 2 ^ 31 <= z < 2 ^ 31 -> read_i32 (int32_bytes z ++ rest) = Done (z, rest).
Proof.
  intros Hz. unfold read_i32, int32_bytes. rewrite read_n_app by apply blen_le_bytes.
  cbn [read_bind]. rewrite le_value_bytes. change (256 ^ Z.of_nat 4) with (2 ^ 32).
  rewrite Z.mod_small by (apply (wrap_u_range 32); lia). by rewrite int32_uint32.
Qed.

Lemma read_i64_app z rest :
  - 2 ^ 63 <= z < 2 ^ 63 -> read_i64 (int64_bytes z ++ rest) = Done (z, rest).
Proof.
  intros Hz. unfold read_i64, int64_bytes. rewrite read_n_app by apply blen_le_bytes.
  cbn [read_bind]. rewrite le_value_bytes. change (256 ^ Z.of_nat 8) with (2 ^ 64).
  rewrite Z.mod_small by (apply (wrap_u_range 64); lia). by rewrite int64_uint64.
Qed.

Lemma read_cstring_app s rest :
  forallb (fun b => (0 <? b) && (b <? 256)) s = true ->
  read_cstring (s ++ 0 :: rest) = Done (s, rest).
Proof.
  induction s as [|b s IH]; intros H; [done|]. cbn [app read_cstring].
  cbn [forallb] in H. apply andb_true_iff in H as [Hb Hs].
  replace (b =? 0) with false by lia. by rewrite IH.
Qed.

(** The value as the reader delivers it: documents as their bytes. *)
Definition raw_of (v : bson_value) : raw_value :=
  match v with
  | V_Document fs => R_Document (doc_bytes fs)
  | V_Array fs => R_Array (doc_bytes fs)
  | V_CodeWScope c fs => R_CodeWScope c (doc_bytes fs)
  | _ => R_Value v
  end.

Lemma value_bytes_doc fs :
  value_bytes (V_Document fs) = doc_bytes fs /\ value_bytes (V_Array fs) = doc_bytes fs /\
  forall c, value_bytes (V_CodeWScope c fs) =
            int32_bytes (blen (string_bytes c ++ doc_bytes fs) + 4) ++ string_bytes c ++ doc_bytes fs.
Proof. done. Qed.

Lemma blen_string s : blen (string_bytes s) = blen s + 5.
Proof. unfold string_bytes, int32_bytes. rewrite !blen_app, blen_le_bytes. change (blen [0]) with 1. lia. Qed.

Lemma blen_doc fs : blen (doc_bytes fs) = blen (flat_map element_bytes fs) + 5.
Proof. unfold doc_bytes, int32_bytes. rewrite !blen_app, blen_le_bytes. change (blen [0]) with 1. lia. Qed.

Lemma check_left_ok {A} lengthLeft n (k : read A) :
  n <= lengthLeft -> check_left lengthLeft n k = k.
Proof. intros. unfold check_left. by replace (lengthLeft <? n) with false by lia. Qed.

Lemma int32_small z : - 2 ^ 31 <= z < 2 ^ 31 -> int32 z = z.
Proof. intros. apply wrap_s_small; [lia|]. by change (2 ^ (32 - 1)) with (2 ^ 31). Qed.

Lemma uint32_small z : 0 <= z < 2 ^ 32 -> uint32 z = z.
Proof. apply wrap_u_small. Qed.

Lemma read_string_app s rest lengthLeft :
  blen s + 5 <= lengthLeft -> lengthLeft < 2 ^ 31 ->
  read_string lengthLeft (string_bytes s ++ rest) = Done (s, s ++ [0] ++ rest, blen s + 1).
Proof.
  intros H1 H2. pose proof (blen_nonneg s) as H0. unfold read_string, string_bytes.
  rewrite check_left_ok by lia. rewrite <- !app_assoc, read_i32_app by lia. cbn [read_bind].
  rewrite int32_small, check_left_ok by lia.
  rewrite uint32_small, read_n_app by lia. done.
Qed.

Lemma read_doc fs rest :
  blen (doc_bytes fs) < 2 ^ 31 ->
  read_i32 (doc_bytes fs ++ rest) =
  Done (blen (doc_bytes fs), flat_map element_bytes fs ++ [0] ++ rest) /\
  read_n (uint32 (blen (doc_bytes fs))) (doc_bytes fs ++ rest) = Done (doc_bytes fs, rest).
Proof.
  intros H. pose proof (blen_nonneg (flat_map element_bytes fs)). split.
  - rewrite blen_doc in *. unfold doc_bytes. rewrite <- !app_assoc. apply read_i32_app. lia.
  - rewrite uint32_small; [by apply read_n_app|blens; lia].
Qed.

Lemma fill_code_w_scope c fs rest lengthLeft :
  lengthLeft < 2 ^ 31 -> blen (value_bytes (V_CodeWScope c fs)) <= lengthLeft ->
  FillBsonElementValueAndPathUnsafe (Some BSON_TYPE_CODEWSCOPE)
    (value_bytes (V_CodeWScope c fs) ++ rest) lengthLeft = Done (R_CodeWScope c (doc_bytes fs)).
Proof.
  intros HL Hb. destruct (value_bytes_doc fs) as (_ & _ & E). rewrite E in *. clear E.
  unfold int32_bytes in Hb. rewrite !blen_app, blen_le_bytes, blen_string in *. blens.
  unfold FillBsonElementValueAndPathUnsafe. rewrite check_left_ok by lia.
  rewrite <- !app_assoc, read_i32_app by lia. cbn [read_bind].
  rewrite check_left_ok by lia. unfold string_bytes.
  rewrite <- !app_assoc, read_i32_app by lia. cbn [read_bind].
  replace ((blen c + 1 <? 1) || _) with false by lia.
  rewrite read_n_app by lia. cbn [read_bind].
  rewrite (app_assoc c [0]), read_n_app by (rewrite blen_app; done). cbn [read_bind].
  destruct (read_doc fs rest) as [E1 E2]; [lia|]. rewrite E1. cbn [read_bind].
  rewrite check_left_ok, E2 by lia. done.
Qed.

Lemma fill_doc fs rest lengthLeft :
  lengthLeft < 2 ^ 31 -> blen (doc_bytes fs) <= lengthLeft ->
  FillBsonElementValueAndPathUnsafe (Some BSON_TYPE_DOCUMENT) (doc_bytes fs ++ rest) lengthLeft
    = Done (R_Document (doc_bytes fs)) /\
  FillBsonElementValueAndPathUnsafe (Some BSON_TYPE_ARRAY) (doc_bytes fs ++ rest) lengthLeft
    = Done (R_Array (doc_bytes fs)).
Proof.
  intros HL Hb. destruct (read_doc fs rest) as [E1 E2]; [lia|].
  pose proof (blen_nonneg (flat_map element_bytes fs)). pose proof (blen_doc fs).
  unfold FillBsonElementValueAndPathUnsafe. rewrite !check_left_ok by lia. rewrite E1.
  cbn [read_bind]. rewrite !check_left_ok, E2 by lia. done.
Qed.

Lemma fill_binary st d rest lengthLeft :
  byteb st = true -> lengthLeft < 2 ^ 31 -> blen (value_bytes (V_Binary st d)) <= lengthLeft ->
  FillBsonElementValueAndPathUnsafe (Some BSON_TYPE_BINARY)
    (value_bytes (V_Binary st d) ++ rest) lengthLeft = Done (R_Value (V_Binary st d)).
Proof.
  intros Hst HL Hb. pose proof (blen_nonneg d). cbn [value_bytes] in *.
  assert (le_value [st] = st) as Est by (simpl; lia).
  destruct (Z.eqb_spec st BSON_SUBTYPE_BINARY_DEPRECATED) as [E|E];
    unfold int32_bytes in Hb; rewrite !blen_app, ?blen_le_bytes in Hb; change (blen [st]) with 1 in Hb;
    unfold FillBsonElementValueAndPathUnsafe; rewrite check_left_ok by lia;
    rewrite <- !app_assoc, read_i32_app by lia; cbn [read_bind];
    rewrite int32_small, check_left_ok by lia; rewrite (read_n_app [st]) by done; cbn [read_bind];
    rewrite Est.
  - rewrite (proj2 (Z.eqb_eq _ _) E). unfold int32_bytes at 1.
    rewrite read_n_app by apply blen_le_bytes. cbn [read_bind].
    rewrite uint32_small, read_n_app by lia. done.
  - rewrite (proj2 (Z.eqb_neq _ _) E). cbn [read_bind].
    rewrite uint32_small, read_n_app by lia. done.
Qed.

Lemma uintb_bounds w z : uintb w z = true -> 0 <= z < 2 ^ w.
Proof. unfold uintb. rewrite andb_true_iff, Z.leb_le, Z.ltb_lt. done. Qed.

Lemma doubleb_bounds d : doubleb d = true -> 0 <= d < 2 ^ 64.
Proof. unfold doubleb. rewrite andb_true_iff, Z.leb_le, Z.ltb_lt. done. Qed.

Lemma fill_fixed8 d rest lengthLeft :
  lengthLeft < 2 ^ 31 -> blen (le_bytes 8 d) <= lengthLeft -> 0 <= d < 2 ^ 64 ->
  FillBsonElementValueAndPathUnsafe (Some BSON_TYPE_DOUBLE) (le_bytes 8 d ++ rest) lengthLeft
    = Done (R_Value (V_Double d)).
Proof.
  intros HL Hb Hd. rewrite blen_le_bytes in Hb. unfold FillBsonElementValueAndPathUnsafe.
  by rewrite check_left_ok, read_u64_app by lia.
Qed.

Lemma fill_int64 z rest lengthLeft :
  lengthLeft < 2 ^ 31 -> blen (int64_bytes z) <= lengthLeft -> in_int64 z = true ->
  FillBsonElementValueAndPathUnsafe (Some BSON_TYPE_INT64) (int64_bytes z ++ rest) lengthLeft
    = Done (R_Value (V_Int64 z)) /\
  FillBsonElementValueAndPathUnsafe (Some BSON_TYPE_DATE_TIME) (int64_bytes z ++ rest) lengthLeft
    = Done (R_Value (V_DateTime z)).
Proof.
  intros HL Hb Hz. unfold int64_bytes in Hb. rewrite blen_le_bytes in Hb.
  unfold in_int64, INT64_MIN, INT64_MAX in Hz.
  unfold FillBsonElementValueAndPathUnsafe. by rewrite !check_left_ok, read_i64_app by lia.
Qed.

Lemma fill_text s rest lengthLeft :
  lengthLeft < 2 ^ 31 -> blen (string_bytes s) <= lengthLeft ->
  FillBsonElementValueAndPathUnsafe (Some BSON_TYPE_UTF8) (string_bytes s ++ rest) lengthLeft
    = Done (R_Value (V_Utf8 s)) /\
  FillBsonElementValueAndPathUnsafe (Some BSON_TYPE_CODE) (string_bytes s ++ rest) lengthLeft
    = Done (R_Value (V_Code s)) /\
  FillBsonElementValueAndPathUnsafe (Some BSON_TYPE_SYMBOL) (string_bytes s ++ rest) lengthLeft
    = Done (R_Value (V_Symbol s)).
Proof.
  intros HL Hb. rewrite blen_string in Hb. unfold FillBsonElementValueAndPathUnsafe.
  by rewrite read_string_app by lia.
Qed.

Lemma fill_regex r o rest lengthLeft :
  cstrb r = true -> cstrb o = true -> lengthLeft < 2 ^ 31 ->
  blen (value_bytes (V_Regex (Some r) (Some o))) <= lengthLeft ->
  FillBsonElementValueAndPathUnsafe (Some BSON_TYPE_REGEX)
    (value_bytes (V_Regex (Some r) (Some o)) ++ rest) lengthLeft
    = Done (R_Value (V_Regex (Some r) (Some o))).
Proof.
  unfold cstrb. rewrite !andb_true_iff. intros [Hr _] [Ho _] HL Hb.
  change (value_bytes (V_Regex (Some r) (Some o))) with (r ++ [0] ++ o ++ [0]) in *.
  rewrite !blen_app in Hb. change (blen [0]) with 1 in Hb.
  blens.
  unfold FillBsonElementValueAndPathUnsafe. rewrite check_left_ok by lia.
  rewrite <- !app_assoc. cbn [app]. rewrite read_cstring_app by done. cbn [read_bind].
  rewrite int32_small, check_left_ok by lia. by rewrite read_cstring_app.
Qed.

Lemma fill_dbpointer c o rest lengthLeft :
  oidb o = true -> lengthLeft < 2 ^ 31 -> blen (string_bytes c ++ o) <= lengthLeft ->
  FillBsonElementValueAndPathUnsafe (Some BSON_TYPE_DBPOINTER) ((string_bytes c ++ o) ++ rest)
    lengthLeft = Done (R_Value (V_DbPointer c o)).
Proof.
  unfold oidb. rewrite andb_true_iff, Z.eqb_eq. intros [_ Ho] HL Hb.
  rewrite blen_app, blen_string in Hb. blens.
  unfold FillBsonElementValueAndPathUnsafe.
  rewrite <- app_assoc, read_string_app by lia. cbn [read_bind].
  rewrite int32_small, check_left_ok by lia.
  rewrite (app_assoc c [0]), read_n_app by (rewrite blen_app; done). cbn [read_bind].
  by rewrite read_n_app.
Qed.

Lemma fill_timestamp t i rest lengthLeft :
  uintb 32 t = true -> uintb 32 i = true -> lengthLeft < 2 ^ 31 ->
  blen (le_bytes 4 i ++ le_bytes 4 t) <= lengthLeft ->
  FillBsonElementValueAndPathUnsafe (Some BSON_TYPE_TIMESTAMP)
    ((le_bytes 4 i ++ le_bytes 4 t) ++ rest) lengthLeft = Done (R_Value (V_Timestamp t i)).
Proof.
  intros Ht%uintb_bounds Hi%uintb_bounds HL Hb. rewrite blen_app, !blen_le_bytes in Hb.
  unfold FillBsonElementValueAndPathUnsafe. rewrite check_left_ok by lia.
  rewrite <- app_assoc, read_u32_app by done. cbn [read_bind]. by rewrite read_u32_app.
Qed.

Lemma fill_decimal d rest lengthLeft :
  uintb 64 (d_high d) = true -> uintb 64 (d_low d) = true -> lengthLeft < 2 ^ 31 ->
  blen (le_bytes 8 (d_low d) ++ le_bytes 8 (d_high d)) <= lengthLeft ->
  FillBsonElementValueAndPathUnsafe (Some BSON_TYPE_DECIMAL128)
    ((le_bytes 8 (d_low d) ++ le_bytes 8 (d_high d)) ++ rest) lengthLeft
    = Done (R_Value (V_Decimal128 d)).
Proof.
  intros Hh%uintb_bounds Hl%uintb_bounds HL Hb. rewrite blen_app, !blen_le_bytes in Hb.
  unfold FillBsonElementValueAndPathUnsafe. rewrite check_left_ok by lia.
  rewrite <- app_assoc, read_u64_app by done. cbn [read_bind]. rewrite read_u64_app by done.
  by destruct d.
Qed.

Lemma fill_value v rest lengthLeft :
  wf_value v = true -> value_type v <> BSON_TYPE_EOD ->
  lengthLeft < 2 ^ 31 -> blen (value_bytes v) <= lengthLeft ->
  FillBsonElementValueAndPathUnsafe (Some (value_type v)) (value_bytes v ++ rest) lengthLeft
    = Done (raw_of v).
Proof.
  intros W He HL Hb.
  destruct v; cbn [value_type raw_of wf_value] in *; try reflexivity; try (exfalso; by apply He).
  - apply fill_fixed8; [exact HL|exact Hb|]. apply doubleb_bounds, W.
  - by apply fill_text.
  - by apply fill_doc.
  - by apply fill_doc.
  - apply andb_true_iff in W as [Hst _]. by apply fill_binary.
  - cbn [value_bytes] in *. apply andb_true_iff in W as [_ Hl%Z.eqb_eq].
    unfold FillBsonElementValueAndPathUnsafe. rewrite check_left_ok, read_n_app by lia. reflexivity.
  - unfold FillBsonElementValueAndPathUnsafe. change (blen (value_bytes (V_Bool v_bool))) with 1 in Hb.
    change (value_bytes (V_Bool v_bool)) with [Z.b2z v_bool].
    rewrite check_left_ok, read_n_app by (done || lia). by destruct v_bool.
  - apply fill_int64; [exact HL|exact Hb|exact W].
  - destruct regex as [r|], options as [o|]; simpl in W;
      rewrite ?andb_false_r in W; try discriminate W.
    apply andb_true_iff in W as [Hr Ho]. by apply fill_regex.
  - apply andb_true_iff in W as [_ Ho]. by apply fill_dbpointer.
  - by apply fill_text.
  - by apply fill_text.
  - by apply fill_code_w_scope.
  - cbn [value_bytes] in *. unfold int32_bytes in Hb. rewrite blen_le_bytes in Hb.
    unfold FillBsonElementValueAndPathUnsafe. rewrite check_left_ok, read_i32_app; [done| |done].
    unfold in_int32, INT32_MIN, INT32_MAX in W. lia.
  - apply andb_true_iff in W as [Ht Hi]. by apply fill_timestamp.
  - apply fill_int64; [exact HL|exact Hb|exact W].
  - apply andb_true_iff in W as [Hh Hl]. by apply fill_decimal.
Qed.

Lemma type_code_roundtrip t :
  t <> BSON_TYPE_EOD -> bson_type_of_code (bson_type_code t) = Some t.
Proof. by destruct t. Qed.

Lemma element_read (key : bytes) (v : bson_value) :
  wf_value v = true -> value_type v <> BSON_TYPE_EOD -> cstrb key = true ->
  blen (doc_bytes [(key, v)]) < 2 ^ 31 ->
  BsonDocumentBytesToPgbsonElementUnsafe (doc_bytes [(key, v)]) = Ok (key, raw_of v) /\
  BsonDocumentBytesToPgbsonElementSkipLengthUnsafe
    (bson_type_code (value_type v) :: 0 :: value_bytes v) = Ok (raw_of v).
Proof.
  intros W He Hk Hsize. pose proof (blen_nonneg key). pose proof (blen_nonneg (value_bytes v)).
  assert (blen (flat_map element_bytes [(key, v)]) = blen key + blen (value_bytes v) + 2) as Hbody.
  { cbn [flat_map]. rewrite app_nil_r. unfold element_bytes. cbn [fst snd].
    rewrite blen_cons, !blen_app. change (blen [0]) with 1. lia. }
  rewrite blen_doc, Hbody in Hsize. unfold cstrb in Hk. apply andb_true_iff in Hk as [Hk _]. split.
  - unfold BsonDocumentBytesToPgbsonElementUnsafe, FillPgbsonElementUnsafe.
    rewrite blen_doc, Hbody, (proj2 (Z.ltb_ge _ _)) by lia.
    unfold read_result. cbn [result_bind]. unfold doc_bytes. rewrite Hbody.
    cbn [flat_map]. rewrite app_nil_r. unfold element_bytes. cbn [fst snd].
    set (total := blen key + blen (value_bytes v) + 2 + 5) in *.
    assert (length (int32_bytes total) = 4%nat) as Hlen by apply le_bytes_length.
    rewrite take_app_length', drop_app_ge, lookup_app_r by lia. rewrite Hlen.
    assert (le_value (int32_bytes total) = total) as ->.
    { unfold int32_bytes. rewrite le_value_bytes, uint32_small by lia.
      change (256 ^ Z.of_nat 4) with (2 ^ 32). apply Z.mod_small. lia. }
    simpl (default _ _). rewrite type_code_roundtrip by done.
    cbn [Nat.sub drop app]. rewrite <- !app_assoc. cbn [app].
    rewrite drop_0, read_cstring_app by done. cbn [read_bind]. rewrite int32_small by lia.
    by rewrite fill_value by (done || lia).
  - unfold BsonDocumentBytesToPgbsonElementSkipLengthUnsafe, FillPgbsonElementUnsafeNoLength.
    rewrite !blen_cons. replace (1 + (1 + blen (value_bytes v)) <? 1) with false by lia.
    unfold read_result. cbn [result_bind]. simpl (default _ _). cbn [drop].
    rewrite type_code_roundtrip, drop_0 by done.
    pose proof (fill_value v [] (1 + (1 + blen (value_bytes v)) - 1) W He) as E.
    rewrite app_nil_r in E. by rewrite E by lia.
Qed.

(** The direct readers invert the BSON encoding: for every well-formed value
    (of any type that can be stored) and every key, reading the single-element
    document [{ key : value }] gives the key and the value, and reading its
    value-only form (type, empty key, value) gives the value; neither raises an
    error, and neither reads outside the buffer.  Documents are delivered as
    their bytes. *)
Theorem element_reader_roundtrip (key : bytes) (v : bson_value) :
  wf_value v = true -> value_type v <> BSON_TYPE_EOD -> cstrb key = true ->
  blen (doc_bytes [(key, v)]) < 2 ^ 31 ->
  BsonDocumentBytesToPgbsonElementUnsafe (doc_bytes [(key, v)]) = Ok (key, raw_of v) /\
  BsonDocumentBytesToPgbsonElementSkipLengthUnsafe
    (bson_type_code (value_type v) :: 0 :: value_bytes v) = Ok (raw_of v).
Proof. apply element_read. Qed.

Lemma element_reader_roundtrip_witness :
  BsonDocumentBytesToPgbsonElementUnsafe (doc_bytes [([97], V_Utf8 [98])]) = Ok ([97], raw_of (V_Utf8 [98])) /\
  BsonDocumentBytesToPgbsonElementSkipLengthUnsafe
    (bson_type_code (value_type (V_Utf8 [98])) :: 0 :: value_bytes (V_Utf8 [98])) = Ok (raw_of (V_Utf8 [98])).
Proof. by apply (element_reader_roundtrip [97] (V_Utf8 [98])). Defined.

(** The length tests of the direct readers count one byte too many: a
    value-only document of type int32 with three of its four payload bytes
    passes the test, and the copy reads one byte past the buffer. *)
Theorem element_reader_length_off_by_one :
  FillPgbsonElementUnsafeNoLength [16; 0; 1; 2; 3] = Ok OutOfBounds.
Proof. reflexivity. Qed.

(** ** Readers of whole documents

    libbson's iterator is a parameter of the components that read nested
    documents; [DocumentReader] is what they rely on, that it inverts the
    encoding.  [read_document] is a reader with this property. *)

(** Values that can be stored: the type EOD marks the end of a document. *)
Fixpoint storable (v : bson_value) : bool :=
  match v with
  | V_Eod => false
  | V_Document fs | V_Array fs | V_CodeWScope _ fs => forallb (fun f => storable f.2) fs
  | _ => true
  end.

Definition storable_fields (fs : bson_doc) : bool := forallb (fun f => storable f.2) fs.

Class DocumentReader (init : bytes -> option bson_doc) : Prop :=
  reader_inverts : forall fs,
    wf_fields fs = true -> storable_fields fs = true -> blen (doc_bytes fs) < 2 ^ 31 ->
    init (doc_bytes fs) = Some fs.

(** The bytes of the elements of a document: without length and terminator. *)
Definition doc_body (data : bytes) : bytes := take (length data - 5) (drop 4 data).

Definition resolve_with (fields : bytes -> option bson_doc) (r : raw_value) : option bson_value :=
  match r with
  | R_Value v => Some v
  | R_Document data => fs ← fields data; Some (V_Document fs)
  | R_Array data => fs ← fields data; Some (V_Array fs)
  | R_CodeWScope code scope => fs ← fields scope; Some (V_CodeWScope code fs)
  end.

(** Every call is on a shorter buffer: the fuel is its length. *)
Fixpoint read_fields (fuel : nat) (data : bytes) : option bson_doc :=
  match fuel, data with
  | O, _ => None
  | S _, [] => Some []
  | S n, c :: rest =>
      match read_cstring rest with
      | Done (key, rest) =>
          match FillBsonElementValueAndPathUnsafe (bson_type_of_code c) rest (blen rest) with
          | Done raw =>
              v ← resolve_with (fun d => read_fields n (doc_body d)) raw;
              fs ← read_fields n (drop (length (value_bytes v)) rest);
              Some ((key, v) :: fs)
          | _ => None
          end
      | _ => None
      end
  end.

Definition read_document (data : bytes) : option bson_doc :=
  read_fields (S (length data)) (doc_body data).

Lemma doc_body_bytes fs : doc_body (doc_bytes fs) = flat_map element_bytes fs.
Proof.
  unfold doc_body, doc_bytes. set (body := flat_map _ _).
  assert (length (int32_bytes (blen body + 5)) = 4%nat) as Hl by apply le_bytes_length.
  rewrite !length_app, Hl, drop_app_length' by done. simpl length.
  by rewrite take_app_length' by lia.
Qed.

Lemma storable_type v : storable v = true -> value_type v <> BSON_TYPE_EOD.
Proof. by destruct v. Qed.

(** The documents inside a value are shorter than the value. *)
Lemma resolve_inverts fields v :
  (forall fs, wf_fields fs = true -> storable_fields fs = true ->
     blen (doc_bytes fs) <= blen (value_bytes v) -> fields (doc_bytes fs) = Some fs) ->
  wf_value v = true -> storable v = true -> resolve_with fields (raw_of v) = Some v.
Proof.
  intros H W Hs. destruct v; try reflexivity; cbn [raw_of resolve_with].
  - by rewrite H.
  - by rewrite H.
  - cbn [wf_value] in W. apply andb_true_iff in W as [_ W]. rewrite H; [done|done|done|].
    destruct (value_bytes_doc scope) as (_ & _ & ->). blen_lia.
Qed.

Lemma blen_element key v : blen (element_bytes (key, v)) = blen key + blen (value_bytes v) + 2.
Proof. unfold element_bytes. cbn [fst snd]. blen_lia. Qed.

Lemma read_fields_bytes fuel fs :
  (length (flat_map element_bytes fs) < fuel)%nat -> wf_fields fs = true ->
  storable_fields fs = true -> blen (flat_map element_bytes fs) < 2 ^ 31 ->
  read_fields fuel (flat_map element_bytes fs) = Some fs.
Proof.
  revert fs. induction fuel as [|n IH]; intros fs Hn W Hs Hb; [lia|].
  destruct fs as [|[key v] fs]; [done|].
  apply wf_fields_cons in W as (Wk & Wv & Wf).
  unfold storable_fields in Hs. cbn [forallb snd] in Hs. apply andb_true_iff in Hs as [Hv Hs].
  cbn [flat_map] in *.
  assert (length (element_bytes (key, v) ++ flat_map element_bytes fs) =
    length key + length (value_bytes v) + 2 + length (flat_map element_bytes fs))%nat as El.
  { pose proof (blen_element key v). unfold blen in *. rewrite length_app. lia. }
  rewrite El in Hn. rewrite blen_app, blen_element in Hb.
  blens.
  unfold element_bytes at 1. cbn [fst snd app read_fields]. rewrite <- !app_assoc. cbn [app].
  rewrite read_cstring_app.
  2:{ unfold cstrb in Wk. by apply andb_true_iff in Wk as [? _]. }
  rewrite type_code_roundtrip by by apply storable_type. rewrite blen_app.
  rewrite fill_value by (done || lia || by apply storable_type).
  rewrite resolve_inverts; [| |done|done]; cbn [mbind option_bind].
  - rewrite drop_app_length. rewrite IH; [done|lia|done|done|lia].
  - intros gs Wg Hg Hgb. rewrite blen_doc in Hgb. rewrite doc_body_bytes.
    apply IH; [unfold blen in *; lia|done|done|lia].
Qed.

#[export] Instance read_document_reader : DocumentReader read_document.
Proof.
  intros fs W Hs Hb. unfold read_document. rewrite doc_body_bytes.
  rewrite blen_doc in Hb. apply read_fields_bytes; [|done|done|lia].
  pose proof (blen_doc fs). unfold blen in *. lia.
Qed.
