(* ===== verification/StringView.v ===== *)
(** * StringView: [pg_documentdb_core/src/types/string_view.c] and
    [pg_documentdb_core/include/utils/string_view.h]

    A view is a pointer into a larger buffer and a length.  The pointer is the
    suffix of the buffer it points at ([None] for NULL), so that the code's
    pointer arithmetic is [drop]; the characters of the view are
    [sv_view v].  Dotted field paths ("a.b.c") are handled through these
    functions by the traversal, update and index code. *)

From stdpp Require Import base numbers list.
From Stdlib Require Import ZArith Lia.
From S2P Require Import Prelude.

Record StringView : Set := mk_view { sv_string : option bytes; sv_length : Z }.

Definition sv_bytes (v : StringView) : bytes := default [] (sv_string v).
Definition sv_view (v : StringView) : bytes := take (Z.to_nat (sv_length v)) (sv_bytes v).

(** The view does not run past its buffer, and its length is a [uint32_t]. *)
Definition wf_view (v : StringView) : bool :=
  (0 <=? sv_length v) && (sv_length v <=? blen (sv_bytes v)) && (sv_length v <? 2 ^ 31).

Definition CreateStringViewFromString (string : bytes) : StringView :=
  mk_view (Some string) (uint32 (strlen string)).

Definition CreateStringViewFromStringWithLength (string : bytes) (length : Z) : StringView :=
  mk_view (Some string) length.

(** [pnstrdup]: the characters up to the length or the first NUL. *)
Definition CreateStringFromStringView (v : StringView) : bytes := cstring (sv_view v).

Definition CompareStringView (left right : StringView) : Z :=
  let minLength :=
    if sv_length right <? sv_length left then sv_length right else sv_length left in
  let cmp :=
    if minLength =? 0 then 0
    else strncmp (sv_bytes left) (sv_bytes right) (Z.to_nat minLength) in
  if cmp =? 0 then int32 (sv_length left - sv_length right) else cmp.

(** [memchr]: the offset of the first occurrence. *)
Fixpoint memchr (l : bytes) (c : Z) (n : nat) : option nat :=
  match n, l with
  | S n', a :: l' => if a =? c then Some 0%nat else S <$> memchr l' c n'
  | _, _ => None
  end.

Definition NullView : StringView := mk_view None 0.

Definition StringViewFindPrefix (view : StringView) (upToCharacter : Z) : StringView :=
  match memchr (sv_bytes view) upToCharacter (Z.to_nat (sv_length view)) with
  | Some off =>
      if Z.of_nat off <? sv_length view
      then mk_view (sv_string view) (uint32 (Z.of_nat off))
      else NullView
  | None => NullView
  end.

Definition StringViewFindSuffix (view : StringView) (upToCharacter : Z) : StringView :=
  match memchr (sv_bytes view) upToCharacter (Z.to_nat (sv_length view)) with
  | Some off =>
      if Z.of_nat off <? sv_length view then
        let substringLength := uint32 (sv_length view - (Z.of_nat off + 1)) in
        if 0 <? substringLength
        then mk_view (Some (drop (S off) (sv_bytes view))) substringLength
        else NullView
      else NullView
  | None => NullView
  end.

Definition StringViewSubstring (source : StringView) (offset : Z) : result StringView :=
  if sv_length source <? offset then Err ERRCODE_INTERNAL_ERROR
  else Ok (mk_view (Some (drop (Z.to_nat offset) (sv_bytes source)))
                   (sv_length source - offset)).

(** The digit loop, on the characters of the view. *)
Fixpoint positive_integer_loop (chars : bytes) (finalValue : Z) : Z :=
  match chars with
  | [] => finalValue
  | c :: rest =>
      if (c <? 48) || (57 <? c) then -1
      else
        let finalValue := int32 (finalValue * 10 + (c - 48)) in
        if finalValue <? 0 then -1 else positive_integer_loop rest finalValue
  end.

(** [None] is the NULL view pointer. *)
Definition StringViewToPositiveInteger (view : option StringView) : Z :=
  match view with
  | None => -1
  | Some v => if sv_length v =? 0 then -1 else positive_integer_loop (sv_view v) 0
  end.

(** [(int) str[i]] of a plain (signed) [char]. *)
Definition schar (b : Z) : Z := wrap_s 8 b.

Definition utf8_char_size (c : Z) : option nat :=
  if (0 <=? c) && (c <=? 127) then Some 1%nat
  else if Z.land c 0xE0 =? 0xC0 then Some 2%nat
  else if Z.land c 0xF0 =? 0xE0 then Some 3%nat
  else if Z.land c 0xF8 =? 0xF0 then Some 4%nat
  else None.

(** The loop advances by [charSize] >= 1 per turn, so the number of bytes left
    bounds the number of turns. *)
Fixpoint multibyte_loop (fuel : nat) (l : bytes) (len : Z) : result Z :=
  match fuel, l with
  | _, [] => Ok len
  | O, _ => Ok len
  | S fuel', c :: _ =>
      match utf8_char_size (schar c) with
      | Some n => multibyte_loop fuel' (drop n l) (uint32 (len + 1))
      | None => Err ERRCODE_INTERNAL_ERROR
      end
  end.

Definition StringViewMultiByteCharStrlen (view : StringView) : result Z :=
  multibyte_loop (length (sv_view view)) (sv_view view) 0.

(** ** The inline helpers of string_view.h *)

Definition StringViewStartsWith (source : option StringView) (character : Z) : bool :=
  match source with
  | None => false
  | Some v => (0 <? sv_length v) && bool_decide (sv_bytes v !! 0%nat = Some character)
  end.

Definition StringViewStartsWithStringView (source : option StringView) (string : StringView)
  : bool :=
  match source with
  | None => false
  | Some v => (sv_length string <=? sv_length v) &&
              (strncmp (sv_bytes v) (sv_bytes string) (Z.to_nat (sv_length string)) =? 0)
  end.

Definition StringViewEndsWith (source : option StringView) (character : Z) : bool :=
  match source with
  | None => false
  | Some v => (0 <? sv_length v) &&
              bool_decide (sv_bytes v !! Z.to_nat (sv_length v - 1) = Some character)
  end.

(** The two indices go down together; [rev]-ing both ends makes the loop
    structural: it compares the characters of [target] from the last one. *)
Fixpoint ends_with_loop (source_rev target_rev : bytes) : bool :=
  match target_rev, source_rev with
  | [], _ => true
  | t :: target', s :: source' => if s =? t then ends_with_loop source' target' else false
  | _ :: _, [] => false
  end.

Definition StringViewEndsWithString (source : StringView) (target : bytes) : bool :=
  let sourceIndex := sv_length source - 1 in
  let stringIndex := strlen target - 1 in
  if sourceIndex <? stringIndex then false
  else ends_with_loop (rev (sv_view source)) (rev (cstring target)).

(** [same_pointer] is the C test [left == right] on the two view pointers. *)
Definition StringViewEquals (same_pointer : bool) (left right : option StringView) : bool :=
  if same_pointer then true
  else match left, right with
       | Some l, Some r => (sv_length l =? sv_length r) &&
                           (memcmp (sv_view l) (sv_view r) =? 0)
       | _, _ => false
       end.

Definition StringViewEqualsCString (left : option StringView) (right : option bytes) : bool :=
  match left, right with
  | None, None => true
  | Some l, None => bool_decide (sv_string l = None)
  | None, Some _ => false
  | Some l, Some r =>
      match sv_string l with
      | None => false
      | Some s => (sv_length l =? strlen r) && (strncmp s r (Z.to_nat (sv_length l)) =? 0)
      end
  end.

Definition StringViewContains (source : option StringView) (character : Z) : bool :=
  match source with
  | None => false
  | Some v => (0 <? sv_length v) &&
              match memchr (sv_bytes v) character (Z.to_nat (sv_length v)) with
              | Some _ => true
              | None => false
              end
  end.

(** ** Splitting a path at a character *)

Lemma memchr_Some l c n k :
  memchr l c n = Some k ->
  (k < n)%nat /\ l !! k = Some c /\ (c ∉ take k l).
Proof.
  revert l k. induction n as [|n IH]; intros [|a l] k; simpl; try done.
  destruct (Z.eqb_spec a c) as [->|Hne].
  - intros [= <-]. split_and!; [lia|done|]. apply not_elem_of_nil.
  - destruct (memchr l c n) as [j|] eqn:E; simpl; [|done]. intros [= <-].
    destruct (IH l j E) as (Hj & Hl & Hn). simpl.
    split_and!; [lia|done|]. rewrite elem_of_cons. intros [->|]; done.
Qed.

Lemma memchr_None l c n : memchr l c n = None -> c ∉ take n l.
Proof.
  revert l. induction n as [|n IH]; intros [|a l]; simpl; intros H;
    try apply not_elem_of_nil.
  destruct (Z.eqb_spec a c) as [->|Hne]; [done|].
  destruct (memchr l c n) eqn:E; [done|].
  rewrite elem_of_cons. intros [->|Hin]; [done|]. by apply (IH l).
Qed.

(** The view of a well-formed view is as long as its length field says. *)
Lemma sv_view_length v : wf_view v = true -> blen (sv_view v) = sv_length v.
Proof.
  unfold wf_view, sv_view, blen. rewrite !andb_true_iff. intros [[H1 H2] H3].
  rewrite length_take. lia.
Qed.

Lemma sv_view_split v k c :
  (k < Z.to_nat (sv_length v))%nat -> sv_bytes v !! k = Some c ->
  sv_view v = take k (sv_bytes v) ++
              c :: take (Z.to_nat (sv_length v) - S k) (drop (S k) (sv_bytes v)).
Proof.
  intros Hk Hl. unfold sv_view.
  rewrite <- (take_drop_middle _ _ _ Hl) at 1.
  assert (k < length (sv_bytes v))%nat by (by eapply lookup_lt_Some).
  rewrite take_app, length_take, take_take.
  replace (Z.to_nat (sv_length v) - k `min` length (sv_bytes v))%nat
    with (S (Z.to_nat (sv_length v) - S k)) by lia. simpl.
  by replace (Z.to_nat (sv_length v) `min` k)%nat with k by lia.
Qed.

Lemma sv_bytes_mk s n : sv_bytes (mk_view (Some s) n) = s.
Proof. done. Qed.

(** What a split at the first [c] yields: the views in front of it and after
    it, and the same tail from [StringViewSubstring]. *)
Definition split_at (v : StringView) (c : Z) (pre suf : bytes) : Prop :=
  sv_string (StringViewFindPrefix v c) <> None /\
  sv_view (StringViewFindPrefix v c) = pre /\
  sv_view (StringViewFindSuffix v c) = suf /\
  (sv_string (StringViewFindSuffix v c) = None <-> suf = []) /\
  exists w, StringViewSubstring v (sv_length (StringViewFindPrefix v c) + 1) = Ok w /\
            sv_view w = suf /\ wf_view w = true.

Lemma find_split v c k :
  wf_view v = true ->
  memchr (sv_bytes v) c (Z.to_nat (sv_length v)) = Some k ->
  let suf := take (Z.to_nat (sv_length v) - S k) (drop (S k) (sv_bytes v)) in
  split_at v c (take k (sv_bytes v)) suf.
Proof.
  intros Hwf Hm suf. pose proof (memchr_Some _ _ _ _ Hm) as (Hk & Hl & _).
  unfold wf_view in Hwf. rewrite !andb_true_iff in Hwf. destruct Hwf as [[H1 H2] H3].
  unfold blen in H2. assert (k < length (sv_bytes v))%nat by (by eapply lookup_lt_Some).
  assert (sv_string v = Some (sv_bytes v)) as Hs.
  { unfold sv_bytes in *. by destruct (sv_string v); [|simpl in *; lia]. }
  assert (length suf = Z.to_nat (sv_length v) - S k)%nat as Hsl.
  { unfold suf. rewrite length_take, length_drop. lia. }
  unfold split_at, StringViewFindPrefix, StringViewFindSuffix, StringViewSubstring.
  rewrite Hm. replace (Z.of_nat k <? sv_length v) with true by lia.
  rewrite !wrap_u_small by lia. simpl.
  replace (sv_length v <? Z.of_nat k + 1) with false by lia.
  split_and!.
  - by rewrite Hs.
  - unfold sv_view. rewrite Hs, sv_bytes_mk. simpl. by rewrite Nat2Z.id.
  - destruct (Z.ltb_spec 0 (sv_length v - (Z.of_nat k + 1))); unfold sv_view; simpl.
    + unfold suf. f_equal. lia.
    + destruct suf; [done|simpl in *; lia].
  - destruct (Z.ltb_spec 0 (sv_length v - (Z.of_nat k + 1))); simpl.
    + split; [done|]. intros ->. simpl in *. lia.
    + split; [|done]. destruct suf; [done|simpl in *; lia].
  - eexists. split; [done|]. unfold sv_view, wf_view, blen.
    rewrite !sv_bytes_mk, length_drop. simpl.
    replace (Z.to_nat (Z.of_nat k + 1)) with (S k) by lia. split.
    + unfold suf. f_equal. lia.
    + rewrite !andb_true_iff, !Z.leb_le, Z.ltb_lt. apply Z.leb_le in H1, H2. lia.
Qed.

Lemma view_split (v : StringView) (c : Z) :
  wf_view v = true ->
  ((c ∉ sv_view v) /\ StringViewFindPrefix v c = NullView /\
   StringViewFindSuffix v c = NullView) \/
  (exists pre suf, sv_view v = pre ++ c :: suf /\ (c ∉ pre) /\ split_at v c pre suf).
Proof.
  intros Hwf.
  destruct (memchr (sv_bytes v) c (Z.to_nat (sv_length v))) as [k|] eqn:Hm.
  - right. pose proof (memchr_Some _ _ _ _ Hm) as (Hk & Hl & Hn).
    eexists _, _. split_and!; [by apply sv_view_split|done|by apply find_split].
  - left. split_and!; [by apply memchr_None|..];
      unfold StringViewFindPrefix, StringViewFindSuffix; by rewrite Hm.
Qed.

(** Splitting a dotted path.  If the view contains the separator, its
    characters are [pre ++ sep :: suf] with no separator in [pre];
    [StringViewFindPrefix] returns [pre] (a non-NULL view even when empty),
    [StringViewFindSuffix] and [StringViewSubstring] past the separator return
    [suf]; if it does not, both searches return the NULL view. *)
Theorem string_view_split (v : StringView) (c : Z) :
  wf_view v = true ->
  ((c ∉ sv_view v) /\ StringViewFindPrefix v c = NullView /\
   StringViewFindSuffix v c = NullView) \/
  (exists pre suf, sv_view v = pre ++ c :: suf /\ (c ∉ pre) /\ split_at v c pre suf).
Proof.
  apply view_split.
Qed.

Lemma string_view_split_witness :
  let v := CreateStringViewFromString [97; 46; 98; 46; 99] in
  wf_view v = true /\
  (((46 ∉ sv_view v) /\ StringViewFindPrefix v 46 = NullView /\
    StringViewFindSuffix v 46 = NullView) \/
   (exists pre suf, sv_view v = pre ++ 46 :: suf /\ (46 ∉ pre) /\ split_at v 46 pre suf)).
Proof. intros v. split; [reflexivity|apply (string_view_split v 46); reflexivity]. Defined.

(** ** Array indices in a path *)

Definition is_digit (c : Z) : bool := (48 <=? c) && (c <=? 57).
Definition dec_value (l : bytes) (acc : Z) : Z :=
  fold_left (fun a c => a * 10 + (c - 48)) l acc.

Lemma dec_value_ge l acc : forallb is_digit l = true -> 0 <= acc -> acc <= dec_value l acc.
Proof.
  revert acc. induction l as [|c l IH]; simpl; intros acc; [lia|].
  rewrite andb_true_iff. unfold is_digit at 1. intros [Hc Hl] Ha.
  etransitivity; [|apply IH; [done|]]; lia.
Qed.

Lemma positive_integer_loop_digits l acc :
  forallb is_digit l = true -> 0 <= acc -> dec_value l acc < 2 ^ 31 ->
  positive_integer_loop l acc = dec_value l acc.
Proof.
  revert acc. induction l as [|c l IH]; simpl; intros acc; [done|].
  rewrite andb_true_iff. unfold is_digit at 1. intros [Hc Hl] Ha Hv.
  pose proof (dec_value_ge l (acc * 10 + (c - 48)) Hl ltac:(lia)).
  replace ((c <? 48) || (57 <? c)) with false by lia.
  rewrite wrap_s_small by lia. replace (_ <? 0) with false by lia.
  apply IH; [done|lia|done].
Qed.

Lemma positive_integer_loop_invalid l acc :
  forallb is_digit l = false -> positive_integer_loop l acc = -1.
Proof.
  revert acc. induction l as [|c l IH]; simpl; intros acc; [done|].
  unfold is_digit at 1. destruct ((c <? 48) || (57 <? c)) eqn:E; [done|].
  replace ((48 <=? c) && (c <=? 57)) with true by lia. simpl. intros Hl.
  destruct (_ <? 0); auto.
Qed.

(** [StringViewToPositiveInteger] is -1 on a NULL or empty view and on any
    view with a character that is not a digit, and is the decimal value on a
    view of digits whose value fits an [int32_t]. *)
Theorem positive_integer_correct (v : StringView) :
  StringViewToPositiveInteger None = -1 /\
  (sv_length v = 0 -> StringViewToPositiveInteger (Some v) = -1) /\
  (forallb is_digit (sv_view v) = false -> StringViewToPositiveInteger (Some v) = -1) /\
  (sv_length v <> 0 -> forallb is_digit (sv_view v) = true ->
   dec_value (sv_view v) 0 < 2 ^ 31 ->
   StringViewToPositiveInteger (Some v) = dec_value (sv_view v) 0).
Proof.
  unfold StringViewToPositiveInteger. split_and!; [done|..].
  - by intros ->.
  - intros H. destruct (_ =? 0); [done|]. by apply positive_integer_loop_invalid.
  - intros H1 H2 H3. replace (sv_length v =? 0) with false by lia.
    by apply positive_integer_loop_digits.
Qed.

Lemma positive_integer_witness :
  StringViewToPositiveInteger (Some (CreateStringViewFromString [52; 50])) = 42.
Proof.
  destruct (positive_integer_correct (CreateStringViewFromString [52; 50])) as (_ & _ & _ & H).
  apply H; reflexivity || discriminate.
Defined.

(** The overflow test of [StringViewToPositiveInteger] only looks at the
    sign of the wrapped value: the ten digits "4294967297" (2^32 + 1, which
    no array index can be) are returned as index 1. *)
Theorem positive_integer_overflow_accepted :
  let v := CreateStringViewFromString [52; 50; 57; 52; 57; 54; 55; 50; 57; 55] in
  dec_value (sv_view v) 0 = 2 ^ 32 + 1 /\ StringViewToPositiveInteger (Some v) = 1.
Proof. split; reflexivity. Qed.

(** ** Counting the characters of a UTF-8 string *)

Definition is_continuation (b : Z) : bool := (128 <=? b) && (b <? 192).

(** One encoded character: the lead byte fixes the number of continuation
    bytes. *)
Inductive utf8_char : bytes -> Prop :=
| utf8_1 a : 0 <= a < 128 -> utf8_char [a]
| utf8_2 a b : 192 <= a < 224 -> is_continuation b = true -> utf8_char [a; b]
| utf8_3 a b c : 224 <= a < 240 ->
    is_continuation b = true -> is_continuation c = true -> utf8_char [a; b; c]
| utf8_4 a b c d : 240 <= a < 248 ->
    is_continuation b = true -> is_continuation c = true -> is_continuation d = true ->
    utf8_char [a; b; c; d].

Inductive utf8_string : bytes -> Prop :=
| utf8_nil : utf8_string []
| utf8_app c s : utf8_char c -> utf8_string s -> utf8_string (c ++ s).

Definition lead_size (b : Z) : option nat :=
  if b <? 128 then Some 1%nat
  else if b <? 192 then None
  else if b <? 224 then Some 2%nat
  else if b <? 240 then Some 3%nat
  else if b <? 248 then Some 4%nat
  else None.

Lemma utf8_char_size_lead b :
  0 <= b < 256 -> utf8_char_size (schar b) = lead_size b.
Proof.
  intros Hb.
  assert (forall n, (n < 256)%nat ->
    utf8_char_size (schar (Z.of_nat n)) = lead_size (Z.of_nat n)) as H.
  { intros n Hn. assert (forallb (fun n => bool_decide
      (utf8_char_size (schar (Z.of_nat n)) = lead_size (Z.of_nat n))) (seq 0 256) = true)
      as Hall by (vm_compute; reflexivity).
    rewrite forallb_forall in Hall. eapply bool_decide_eq_true_1, Hall.
    apply in_seq. lia. }
  rewrite <- (Z2Nat.id b) by lia. apply H. lia.
Qed.

Definition count_leads (l : bytes) : Z :=
  blen (List.filter (fun b => negb (is_continuation b)) l).

Lemma count_leads_app l r : count_leads (l ++ r) = count_leads l + count_leads r.
Proof. unfold count_leads, blen. rewrite List.filter_app, length_app. lia. Qed.

(** A character has one lead byte, at its front, and the length it announces. *)
Lemma utf8_char_step c :
  utf8_char c ->
  exists a t, c = a :: t /\ utf8_char_size (schar a) = Some (length c) /\ count_leads c = 1.
Proof.
  intros H; destruct H; eexists _, _; (split; [done|]);
    rewrite utf8_char_size_lead by lia; unfold lead_size, count_leads; simpl;
    repeat match goal with H : is_continuation _ = true |- _ => rewrite H; clear H end;
    unfold is_continuation; repeat (case_match; try lia); done.
Qed.

Lemma multibyte_loop_spec s : utf8_string s -> forall fuel len,
  (length s <= fuel)%nat -> 0 <= len -> len + blen s < 2 ^ 32 ->
  multibyte_loop fuel s len = Ok (len + count_leads s).
Proof.
  induction 1 as [|c s Hc Hs IH]; intros fuel len Hf Hl Hb.
  { destruct fuel; simpl; by rewrite Z.add_0_r. }
  destruct (utf8_char_step c Hc) as (a & t & -> & Hsize & Hone).
  rewrite count_leads_app, Hone. unfold blen in Hb. rewrite length_app in *.
  destruct fuel as [|fuel]; simpl in Hf; [lia|].
  change ((a :: t) ++ s) with (a :: (t ++ s)). cbn [multibyte_loop].
  rewrite Hsize. change (a :: t ++ s) with ((a :: t) ++ s).
  rewrite drop_app_length, wrap_u_small by (simpl in *; lia).
  rewrite IH by (unfold blen; simpl in *; lia). f_equal. lia.
Qed.

(** On a well-formed UTF-8 view [StringViewMultiByteCharStrlen] terminates
    without error and returns the number of code points: the number of bytes
    that are not continuation bytes. *)
Theorem multibyte_strlen_counts_code_points (v : StringView) :
  wf_view v = true -> utf8_string (sv_view v) ->
  StringViewMultiByteCharStrlen v = Ok (count_leads (sv_view v)).
Proof.
  intros Hwf Hu. unfold StringViewMultiByteCharStrlen.
  pose proof (sv_view_length v Hwf) as Hl. unfold wf_view in Hwf.
  rewrite !andb_true_iff, !Z.leb_le, Z.ltb_lt in Hwf.
  by rewrite (multibyte_loop_spec _ Hu) by lia.
Qed.

Lemma multibyte_strlen_witness :
  let v := CreateStringViewFromString [0x63; 0xC3; 0xA9; 0xE2; 0x82; 0xAC] in
  wf_view v = true /\ utf8_string (sv_view v) /\
  StringViewMultiByteCharStrlen v = Ok (count_leads (sv_view v)).
Proof.
  intros v. assert (utf8_string (sv_view v)) as Hu.
  { change (sv_view v) with ([0x63] ++ [0xC3; 0xA9] ++ [0xE2; 0x82; 0xAC] ++ []).
    repeat constructor; lia. }
  split; [reflexivity|]. split; [exact Hu|].
  apply (multibyte_strlen_counts_code_points v); [reflexivity|exact Hu].
Defined.

(** ** The order of views *)

Lemma compare_string_view_spec l r :
  wf_view l = true -> wf_view r = true -> nul_free (sv_view l) ->
  sgn_cmp (CompareStringView l r) = bytes_cmp (sv_view l) (sv_view r).
Proof.
  intros Hl Hr Hnl. rewrite <- memcmp_then_length.
  pose proof (sv_view_length l Hl) as El. pose proof (sv_view_length r Hr) as Er.
  unfold wf_view in Hl, Hr. rewrite !andb_true_iff, !Z.leb_le, !Z.ltb_lt in Hl, Hr.
  unfold CompareStringView.
  set (m := if sv_length r <? sv_length l then _ else _).
  assert (m = Z.min (sv_length l) (sv_length r)) as Hm.
  { unfold m. destruct (Z.ltb_spec (sv_length r) (sv_length l)); lia. }
  assert ((if m =? 0 then 0 else strncmp (sv_bytes l) (sv_bytes r) (Z.to_nat m)) =
          memcmp (sv_view l) (sv_view r)) as ->.
  { rewrite <- (memcmp_take _ _ (Z.to_nat m)) by (unfold blen in *; lia).
    destruct (Z.eqb_spec m 0) as [->|]; [done|].
    assert (forall v, m <= sv_length v -> take (Z.to_nat m) (sv_view v) =
      take (Z.to_nat m) (sv_bytes v)) as Ht.
    { intros v Hv. unfold sv_view. rewrite take_take. f_equal. lia. }
    rewrite strncmp_take, !Ht, <- (Ht l), strncmp_memcmp by
      (try apply Forall_take; (done || lia)).
    by rewrite take_take, Nat.min_id. }
  rewrite El, Er.
  destruct (memcmp (sv_view l) (sv_view r) =? 0); [|done].
  by rewrite wrap_s_small by lia.
Qed.
