(* ===== verification/Traversal.v ===== *)
(** * Traversal of documents: [TraverseBsonCore] of
    [pg_documentdb_core/src/io/pgbson_utils.c]

    Query operators, sort keys and index terms find the values of a dotted path
    ("a.b.c") through one traversal that calls back into the operator.  Arrays
    on the way are searched by position and through the documents they hold.
    [path_values] defines the values a path denotes, without the traversal's
    state and early exits; the lemmas relate the traversal to it for every
    operator that searches for a matching value. *)

From stdpp Require Import base numbers list option.
From Stdlib Require Import ZArith Lia.
From S2P Require Import Prelude Binary64 Bson StringView.

Inductive TraverseBsonResult : Set :=
| TraverseBsonResult_PathNotFound
| TraverseBsonResult_TypeMismatch
| TraverseBsonResult_ArrayIndexNotFound.

(** The callbacks, over a state [S]; the optional ones may be NULL. *)
Record TraverseBsonExecutionFuncs (S : Type) : Type := mk_funcs {
  SetTraverseResult : option (S -> TraverseBsonResult -> result S);
  VisitTopLevelField : bson_field -> StringView -> S -> result (S * bool);
  VisitArrayField : option (bson_field -> StringView -> Z -> S -> result (S * bool));
  ContinueProcessIntermediateArray : S -> bson_value -> bool -> result (S * bool);
  SetIntermediateArrayIndex : option (S -> Z -> result S);
  HandleIntermediateArrayPathNotFound : option (S -> Z -> StringView -> result S);
  SetIntermediateArrayStartEnd : option (S -> bool -> result S);
}.
Arguments mk_funcs {S} _ _ _ _ _ _ _.
Arguments SetTraverseResult {S} _.
Arguments VisitTopLevelField {S} _.
Arguments VisitArrayField {S} _.
Arguments ContinueProcessIntermediateArray {S} _.
Arguments SetIntermediateArrayIndex {S} _.
Arguments HandleIntermediateArrayPathNotFound {S} _.
Arguments SetIntermediateArrayStartEnd {S} _.

(** The dot. *)
Definition dot : Z := 46.

Definition not_found_result (inArrayContext : bool) : TraverseBsonResult :=
  if inArrayContext then TraverseBsonResult_ArrayIndexNotFound
  else TraverseBsonResult_PathNotFound.

(** libbson's search for a key, from the iterator's position on. *)
Class FindField : Type := bson_iter_find_w_len : bson_doc -> bytes -> option bson_value.

(** The first field with the key; libbson does not look for an empty key. *)
Class FindFieldLaws (F : FindField) : Prop := {
  find_field_first : forall doc key, key <> [] ->
    bson_iter_find_w_len doc key = snd <$> List.find (fun f => bool_decide (f.1 = key)) doc;
  find_field_in : forall doc key v,
    bson_iter_find_w_len doc key = Some v -> exists k, (k, v) ∈ doc;
}.

Section traverse.
Context {F : FindField} {S : Type} (executionFunctions : TraverseBsonExecutionFuncs S).

Definition bson_iter_find_string_view (iter : bson_doc) (view : StringView) : option bson_value :=
  bson_iter_find_w_len iter (sv_view view).

Definition set_result (state : S) (r : TraverseBsonResult) : result S :=
  match SetTraverseResult executionFunctions with None => Ok state | Some f => f state r end.

Definition set_start_end (state : S) (isStart : bool) : result S :=
  match SetIntermediateArrayStartEnd executionFunctions with
  | None => Ok state
  | Some f => f state isStart
  end.

Definition set_index (state : S) (arrayIndex : Z) : result S :=
  match SetIntermediateArrayIndex executionFunctions with
  | None => Ok state
  | Some f => f state arrayIndex
  end.

Definition handle_not_found (state : S) (arrayIndex : Z) (path : StringView) : result S :=
  match HandleIntermediateArrayPathNotFound executionFunctions with
  | None => Ok state
  | Some f => f state arrayIndex path
  end.

(** The loop over the elements of an array at the end of the path: the state,
    and whether no element stopped it. *)
Fixpoint visit_array (visit : bson_field -> StringView -> Z -> S -> result (S * bool))
  (path : StringView) (elements : bson_doc) (arrayIndex : Z) (state : S) : result (S * bool) :=
  match elements with
  | [] => Ok (state, true)
  | element :: rest =>
      let! (state, shouldContinue) := visit element path arrayIndex state in
      if negb shouldContinue then Ok (state, false)
      else visit_array visit path rest (arrayIndex + 1) state
  end.

(** The first character of the path; the path is followed by a NUL. *)
Definition first_char (path : StringView) : Z := default 0 (sv_bytes path !! 0%nat).

(** The loop over the documents of an array in the middle of the path: the
    state, [arrayElementsHasPathNotFound], and whether it ran to the end. *)
Fixpoint traverse_elements (traverse : bson_doc -> S -> outcome (S * bool))
  (remainingPath : StringView) (elements : bson_doc) (intermediateIndex : Z)
  (state : S) (hasPathNotFound : bool) : outcome (S * bool * bool) :=
  match elements with
  | [] => Some (Ok (state, hasPathNotFound, true))
  | (_, V_Document fields as value) :: rest =>
      out! state := Some (set_index state intermediateIndex) in
      out! (state, pathNotFound) := traverse fields state in
      out! (state, continue) :=
        Some (ContinueProcessIntermediateArray executionFunctions state value false) in
      if negb continue then Some (Ok (state, hasPathNotFound, false))
      else
        out! state := Some (if pathNotFound : bool
                            then handle_not_found state intermediateIndex remainingPath
                            else Ok state) in
        traverse_elements traverse remainingPath rest (intermediateIndex + 1) state
          (hasPathNotFound || pathNotFound)
  | _ :: rest =>
      out! state := Some (handle_not_found state intermediateIndex remainingPath) in
      traverse_elements traverse remainingPath rest (intermediateIndex + 1) state hasPathNotFound
  end.

(** The state, and whether the path was not found.  Each call consumes a
    component of the path, so the length of the path bounds the depth. *)
Fixpoint TraverseBsonCore (fuel : nat) (documentIterator : bson_doc) (traversePath : StringView)
  (state : S) (inArrayContext : bool) : outcome (S * bool) :=
  match fuel with
  | O => None
  | Datatypes.S fuel' =>
      let dotKeyStr := StringViewFindPrefix traversePath dot in
      let not_found :=
        out! state := Some (set_result state (not_found_result inArrayContext)) in
        Some (Ok (state, true)) in
      match sv_string dotKeyStr with
      | None =>
          match bson_iter_find_string_view documentIterator traversePath with
          | None => not_found
          | Some value =>
              let element := (sv_view traversePath, value) in
              out! (state, shouldContinue) :=
                Some (VisitTopLevelField executionFunctions element traversePath state) in
              if negb shouldContinue then Some (Ok (state, false))
              else
                out! (state, shouldContinue) :=
                  match value, inArrayContext, VisitArrayField executionFunctions with
                  | V_Array elements, false, Some visit =>
                      Some (visit_array visit traversePath elements 0 state)
                  | _, _, _ => Some (Ok (state, true))
                  end in
                if negb shouldContinue then Some (Ok (state, false))
                else
                  out! state := Some (set_result state TraverseBsonResult_TypeMismatch) in
                  Some (Ok (state, false))
          end
      | Some _ =>
          match bson_iter_find_string_view documentIterator dotKeyStr with
          | None => not_found
          | Some value =>
              out! remainingPath :=
                Some (StringViewSubstring traversePath (sv_length dotKeyStr + 1)) in
              match value with
              | V_Document fields => TraverseBsonCore fuel' fields remainingPath state false
              | V_Array elements =>
                  out! (state, hasPathNotFound, continue) :=
                    if (48 <=? first_char remainingPath) && (first_char remainingPath <=? 57) then
                      out! (state, hasPathNotFound) :=
                        TraverseBsonCore fuel' elements remainingPath state true in
                      out! (state, continue) :=
                        Some (ContinueProcessIntermediateArray executionFunctions state value true) in
                      Some (Ok (state, hasPathNotFound, continue))
                    else Some (Ok (state, true, true)) in
                  if negb continue then Some (Ok (state, false))
                  else
                    out! state := Some (set_start_end state true) in
                    out! (state, arrayElementsHasPathNotFound, continue) :=
                      traverse_elements
                        (fun fields state => TraverseBsonCore fuel' fields remainingPath state false)
                        remainingPath elements 0 state false in
                    if negb continue then Some (Ok (state, false))
                    else
                      out! state := Some (set_start_end state false) in
                      if hasPathNotFound && arrayElementsHasPathNotFound then
                        out! state := Some (set_result state TraverseBsonResult_PathNotFound) in
                        Some (Ok (state, true))
                      else
                        out! state := Some (set_result state TraverseBsonResult_TypeMismatch) in
                        Some (Ok (state, false))
              | _ =>
                  out! state := Some (set_result state (not_found_result inArrayContext)) in
                  Some (Ok (state, false))
              end
          end
      end
  end.

Definition TraverseBsonPathStringView (documentIterator : bson_doc) (traversePathView : StringView)
  (state : S) : outcome S :=
  out! (state, _) :=
    TraverseBsonCore (Datatypes.S (length (sv_view traversePathView))) documentIterator
      traversePathView state false in
  Some (Ok state).

Definition TraverseBson (documentIterator : bson_doc) (traversalPath : bytes) (state : S)
  : outcome S :=
  TraverseBsonPathStringView documentIterator (CreateStringViewFromString traversalPath) state.
End traverse.

(** ** The values of a path *)

(** The components of a dotted path. *)
Fixpoint split_path (path : bytes) : list bytes :=
  match path with
  | [] => [[]]
  | c :: rest =>
      if c =? dot then [] :: split_path rest
      else match split_path rest with
           | key :: keys => (c :: key) :: keys
           | [] => [[c]]
           end
  end.

Definition starts_with_digit (key : bytes) : bool :=
  match key with c :: _ => (48 <=? c) && (c <=? 57) | [] => false end.

(** What the traversal shows to the operator: the value at the end of the path,
    or an element of the array found there. *)
Inductive visit : Set :=
| VisitTop (v : bson_value)
| VisitElement (arrayIndex : Z) (v : bson_value).

Definition visited (x : visit) : bson_value :=
  match x with VisitTop v | VisitElement _ v => v end.

Definition elements_from (elements : bson_doc) (i : Z) : list visit :=
  imap (fun n e => VisitElement (i + Z.of_nat n) e.2) elements.

(** The value itself and, unless it was reached through its position in an
    array, the elements of an array ([inner]: the operator looks at them). *)
Definition leaf_visits (inner inArray : bool) (v : bson_value) : list visit :=
  VisitTop v ::
  match v with
  | V_Array elements => if inner && negb inArray then elements_from elements 0 else []
  | _ => []
  end.

Section path.
Context {F : FindField}.

(** The values of a path: fields of nested documents; an array on the way
    contributes the element at the position that the next component names, and
    the values in each document it holds. *)
Fixpoint path_visits (inner : bool) (keys : list bytes) (doc : bson_doc) (inArray : bool)
  : list visit :=
  match keys with
  | [] => []
  | key :: rest =>
      match bson_iter_find_w_len doc key with
      | None => []
      | Some v =>
          match rest with
          | [] => leaf_visits inner inArray v
          | next :: _ =>
              match v with
              | V_Document fields => path_visits inner rest fields false
              | V_Array elements =>
                  (if starts_with_digit next then path_visits inner rest elements true else []) ++
                  flat_map (fun e => match e.2 with
                                     | V_Document fields => path_visits inner rest fields false
                                     | _ => []
                                     end) elements
              | _ => []
              end
          end
      end
  end.

(** The field is missing somewhere: in the document, or in one of the documents
    of an array on the way.  A position beyond the end of an array does not
    count, nor does an array that holds no document. *)
Fixpoint path_missing (keys : list bytes) (doc : bson_doc) (inArray : bool) : bool :=
  match keys with
  | [] => false
  | key :: rest =>
      match bson_iter_find_w_len doc key with
      | None => negb inArray
      | Some v =>
          match rest with
          | [] => false
          | next :: _ =>
              match v with
              | V_Document fields => path_missing rest fields false
              | V_Array elements =>
                  (starts_with_digit next && path_missing rest elements true) ||
                  existsb (fun e => match e.2 with
                                    | V_Document fields => path_missing rest fields false
                                    | _ => false
                                    end) elements
              | _ => negb inArray
              end
          end
      end
  end.
End path.

Definition path_values {F : FindField} (inner : bool) (path : bytes) (doc : bson_doc)
  : list bson_value :=
  visited <$> path_visits inner (split_path path) doc false.

(** ** Operators that search for a matching value *)

Inductive CompareResult : Set :=
| CompareResult_PathNotFound
| CompareResult_Mismatch
| CompareResult_Match.

#[export] Instance compare_result_eq_dec : EqDecision CompareResult.
Proof. solve_decision. Defined.

(** [TraverseValidateState] with the operator's own state [M]. *)
Record TraverseValidateState (M : Type) : Type := mk_validate {
  operatorState : M;
  compareResult : CompareResult;
}.
Arguments mk_validate {M} _ _.
Arguments operatorState {M} _.
Arguments compareResult {M} _.

Definition is_match (r : CompareResult) : bool := bool_decide (r = CompareResult_Match).

(** What a search promises to the traversal: a visit matches or not, a match
    ends the search, and results short of a match are recorded by [missed] and
    [recorded]. *)
Class SearchFuncs {M} (inner : bool) (funcs : TraverseBsonExecutionFuncs (TraverseValidateState M))
  (matches : visit -> M -> result (bool * M)) (missed : visit -> CompareResult -> CompareResult)
  (recorded : CompareResult -> TraverseBsonResult -> CompareResult) : Prop := {
  search_top : forall key v path st,
    VisitTopLevelField funcs (key, v) path st =
    let! (b, m) := matches (VisitTop v) (operatorState st) in
    Ok (if b : bool then (mk_validate m CompareResult_Match, false)
        else (mk_validate m (missed (VisitTop v) (compareResult st)), true));
  search_elements :
    if inner
    then exists f, VisitArrayField funcs = Some f /\
      forall key v path i st,
        f (key, v) path i st =
        let! (b, m) := matches (VisitElement i v) (operatorState st) in
        Ok (if b : bool then (mk_validate m CompareResult_Match, false)
            else (mk_validate m (missed (VisitElement i v) (compareResult st)), true))
    else VisitArrayField funcs = None;
  search_continue : forall st v b,
    ContinueProcessIntermediateArray funcs st v b = Ok (st, negb (is_match (compareResult st)));
  search_set : exists f, SetTraverseResult funcs = Some f /\
    forall st r, f st r = Ok (mk_validate (operatorState st) (recorded (compareResult st) r));
  search_no_index : SetIntermediateArrayIndex funcs = None;
  search_no_handler : HandleIntermediateArrayPathNotFound funcs = None;
  search_no_start_end : SetIntermediateArrayStartEnd funcs = None;
  search_missed : forall x r, r <> CompareResult_Match -> missed x r <> CompareResult_Match;
  search_recorded : forall t r, r <> CompareResult_Match -> recorded r t <> CompareResult_Match;
}.

(** ** Splitting the path *)

(** A path whose view is the whole buffer. *)
Definition exact (v : StringView) : Prop := wf_view v = true /\ sv_string v = Some (sv_view v).

Lemma split_path_single path : dot ∉ path -> split_path path = [path].
Proof.
  induction path as [|c path IH]; intros H; [done|]. cbn [split_path].
  rewrite not_elem_of_cons in H. destruct H as [H1 H2].
  rewrite (proj2 (Z.eqb_neq c dot)) by done. by rewrite IH.
Qed.

Lemma split_path_cons pre suf : dot ∉ pre -> split_path (pre ++ dot :: suf) = pre :: split_path suf.
Proof.
  induction pre as [|c pre IH]; intros H; [done|]. cbn [app split_path].
  rewrite not_elem_of_cons in H. destruct H as [H1 H2].
  rewrite (proj2 (Z.eqb_neq c dot)) by done. by rewrite IH.
Qed.

Lemma split_path_digit path :
  exists next rest, split_path path = next :: rest /\
    starts_with_digit next = match path with c :: _ => (48 <=? c) && (c <=? 57) | [] => false end.
Proof.
  destruct path as [|c path]; [by eexists _, _|]. cbn [split_path].
  destruct (Z.eqb_spec c dot) as [->|]; [by eexists _, _|].
  destruct (split_path path) as [|key keys]; by eexists _, _.
Qed.

Lemma find_prefix_nonneg v c : 0 <= sv_length (StringViewFindPrefix v c).
Proof.
  unfold StringViewFindPrefix. case_match; [case_match|]; simpl; try lia.
  apply (wrap_u_range 32). lia.
Qed.

Lemma exact_split v :
  exact v ->
  ((dot ∉ sv_view v) /\ sv_string (StringViewFindPrefix v dot) = None) \/
  (exists pre suf w string,
     sv_view v = pre ++ dot :: suf /\ (dot ∉ pre) /\
     sv_string (StringViewFindPrefix v dot) = Some string /\
     sv_view (StringViewFindPrefix v dot) = pre /\
     StringViewSubstring v (sv_length (StringViewFindPrefix v dot) + 1) = Ok w /\
     exact w /\ sv_view w = suf).
Proof.
  intros [Hw Hs]. destruct (view_split v dot Hw) as [(H1 & H2 & _)|(pre & suf & Hv & Hn & Hsp)].
  { left. by rewrite H2. }
  right. destruct Hsp as (Hne & Hpre & _ & _ & w & Hsub & Hsuf & Hww).
  destruct (sv_string (StringViewFindPrefix v dot)) as [string|] eqn:E; [|done].
  exists pre, suf, w, string. split_and!; try done. split; [done|].
  pose proof (find_prefix_nonneg v dot) as H0. pose proof (sv_view_length v Hw) as Hl.
  unfold StringViewSubstring in Hsub. case_match; [done|]. simplify_eq.
  unfold sv_view. cbn [sv_string sv_length]. unfold sv_bytes. rewrite Hs. simpl. f_equal.
  rewrite take_ge; [done|]. rewrite length_drop. unfold blen in Hl. lia.
Qed.

Lemma exact_first_char w :
  exact w -> ((48 <=? first_char w) && (first_char w <=? 57)) =
  match sv_view w with c :: _ => (48 <=? c) && (c <=? 57) | [] => false end.
Proof.
  intros [_ Hs]. unfold first_char, sv_bytes. rewrite Hs. simpl. by destruct (sv_view w).
Qed.

Lemma cstring_id l : forallb (fun b => (0 <? b) && (b <? 256)) l = true -> cstring l = l.
Proof.
  induction l as [|b l IH]; [done|]. cbn [forallb cstring]. rewrite andb_true_iff. intros [Hb Hl].
  rewrite (proj2 (Z.eqb_neq b 0)) by lia. by rewrite IH.
Qed.

Lemma exact_path path : cstrb path = true -> exact (CreateStringViewFromString path) /\
  sv_view (CreateStringViewFromString path) = path.
Proof.
  unfold cstrb, lenb. rewrite andb_true_iff, Z.ltb_lt. intros [Hc Hl].
  assert (cstring path = path) as E by by apply cstring_id.
  unfold exact, CreateStringViewFromString, wf_view, sv_view, sv_bytes, strlen.
  cbn [sv_string sv_length default]. rewrite E. unfold blen in *. rewrite wrap_u_small by lia.
  rewrite Nat2Z.id. rewrite take_ge by done. split_and!; [|done|done].
  rewrite !andb_true_iff, !Z.leb_le, Z.ltb_lt. simpl. lia.
Qed.

Section search.
Context {F : FindField} {M : Type} (inner : bool).
Context (funcs : TraverseBsonExecutionFuncs (TraverseValidateState M)).
Context (matches : visit -> M -> result (bool * M)).
Context (missed : visit -> CompareResult -> CompareResult).
Context (recorded : CompareResult -> TraverseBsonResult -> CompareResult).
Context {SF : SearchFuncs inner funcs matches missed recorded}.

(** The first match among the visits. *)
Fixpoint search (xs : list visit) (m : M) : result (bool * M) :=
  match xs with
  | [] => Ok (false, m)
  | x :: rest =>
      let! (b, m) := matches x m in
      if b : bool then Ok (true, m) else search rest m
  end.

(** The result recorded when nothing matches, and whether the path was not
    found. *)
Fixpoint path_result (keys : list bytes) (doc : bson_doc) (inArray : bool) (r : CompareResult)
  : CompareResult * bool :=
  match keys with
  | [] => (r, false)
  | key :: rest =>
      match bson_iter_find_w_len doc key with
      | None => (recorded r (not_found_result inArray), true)
      | Some v =>
          match rest with
          | [] => (recorded (fold_left (fun r x => missed x r) (leaf_visits inner inArray v) r)
                     TraverseBsonResult_TypeMismatch, false)
          | next :: _ =>
              match v with
              | V_Document fields => path_result rest fields false r
              | V_Array elements =>
                  let '(r, indexNotFound) :=
                    if starts_with_digit next then path_result rest elements true r
                    else (r, true) in
                  let '(r, elementsNotFound) :=
                    fold_left (fun acc e =>
                      match e.2 with
                      | V_Document fields =>
                          let '(r, notFound) := path_result rest fields false acc.1 in
                          (r, acc.2 || notFound)
                      | _ => acc
                      end) elements (r, false) in
                  if indexNotFound && elementsNotFound
                  then (recorded r TraverseBsonResult_PathNotFound, true)
                  else (recorded r TraverseBsonResult_TypeMismatch, false)
              | _ => (recorded r (not_found_result inArray), false)
              end
          end
      end
  end.

(** The outcome of a part of the traversal that visits [xs]. *)
Definition searched {A} (xs : list visit) (m : M) (found : M -> A) (none : M -> A) : outcome A :=
  Some (let! (b, m) := search xs m in Ok (if b : bool then found m else none m)).

Lemma searched_app {A} xs ys m (found none : M -> A) :
  searched (xs ++ ys) m found none =
  out! r := searched xs m (fun m => inl (found m)) inr in
  match r with
  | inl a => Some (Ok a)
  | inr m => searched ys m found none
  end.
Proof.
  unfold searched. revert m. induction xs as [|x xs IH]; intros m; [done|].
  cbn [app search]. destruct (matches x m) as [[b m']|e]; cbn [result_bind]; [|done].
  destruct b; [done|]. apply IH.
Qed.

Lemma out_bind_searched {A B} xs m (found none : M -> A) (k : A -> outcome B) f n :
  (forall m, k (found m) = Some (Ok (f m))) -> (forall m, k (none m) = Some (Ok (n m))) ->
  out_bind (searched xs m found none) k = searched xs m f n.
Proof.
  intros Hf Hn. unfold searched. destruct (search xs m) as [[b m']|e]; [|done]. cbn [result_bind out_bind].
  destruct b; [apply Hf|apply Hn].
Qed.

Lemma set_result_search st r :
  set_result funcs st r = Ok (mk_validate (operatorState st) (recorded (compareResult st) r)).
Proof. unfold set_result. destruct search_set as (f & -> & Hf). apply Hf. Qed.

Lemma path_result_not_match keys doc inArray r :
  r <> CompareResult_Match -> (path_result keys doc inArray r).1 <> CompareResult_Match.
Proof.
  revert doc inArray r. induction keys as [|key rest IH]; intros doc inArray r Hr; [done|].
  cbn [path_result]. pose proof (fun t r => search_recorded (SearchFuncs := SF) t r) as Hrec.
  destruct (bson_iter_find_w_len doc key) as [v|]; [|by apply Hrec].
  destruct rest as [|next rest'].
  { apply Hrec. generalize (leaf_visits inner inArray v). intros xs. revert r Hr.
    induction xs as [|x xs IHx]; intros r Hr; [done|]. apply IHx. by apply search_missed. }
  destruct v; try (by apply Hrec); [by apply IH|].
  set (first := if starts_with_digit next then _ else _).
  assert (first.1 <> CompareResult_Match) as H1 by (unfold first; case_match; [by apply IH|done]).
  destruct first as [r1 nf]. cbn [fst] in H1.
  match goal with |- context [fold_left ?f v_doc (r1, false)] =>
    assert (forall acc, acc.1 <> CompareResult_Match -> (fold_left f v_doc acc).1 <> CompareResult_Match)
      as Hfold end.
  { induction v_doc as [|[k e] es IHe]; intros acc Hacc; [done|]. cbn [fold_left snd]. apply IHe.
    destruct e; try done. specialize (IH v_doc false acc.1 Hacc). by case_match. }
  specialize (Hfold (r1, false) H1). destruct (fold_left _ _ _) as [r2 enf]. case_match; by apply Hrec.
Qed.

Lemma elements_from_cons key v elements i :
  elements_from ((key, v) :: elements) i = VisitElement i v :: elements_from elements (i + 1).
Proof.
  unfold elements_from. rewrite imap_cons. simpl. rewrite Z.add_0_r. f_equal.
  apply imap_ext. intros n e _. simpl. f_equal. lia.
Qed.

Lemma visit_array_search f path elements i st :
  (forall key v path i st,
     f (key, v) path i st =
     let! (b, m) := matches (VisitElement i v) (operatorState st) in
     Ok (if b : bool then (mk_validate m CompareResult_Match, false)
         else (mk_validate m (missed (VisitElement i v) (compareResult st)), true))) ->
  Some (visit_array f path elements i st) =
  searched (elements_from elements i) (operatorState st)
    (fun m => (mk_validate m CompareResult_Match, false))
    (fun m => (mk_validate m (fold_left (fun r x => missed x r) (elements_from elements i)
                                (compareResult st)), true)).
Proof.
  intros Hf. unfold searched. revert i st.
  induction elements as [|[key v] elements IH]; intros i st; [by destruct st|].
  rewrite elements_from_cons. cbn [visit_array search fold_left]. rewrite Hf.
  destruct (matches _ _) as [[b m]|e]; cbn [result_bind]; [|done].
  destruct b; cbn [negb]; [done|]. apply IH.
Qed.

Lemma traverse_elements_search {A} traverse path elements i st hasPathNotFound
  (visits : bson_doc -> list visit) (final : bson_doc -> CompareResult -> CompareResult * bool)
  (k : TraverseValidateState M * bool * bool -> outcome A) (stop : TraverseValidateState M -> A) :
  (forall fields st, compareResult st <> CompareResult_Match ->
     traverse fields st =
     searched (visits fields) (operatorState st)
       (fun m => (mk_validate m CompareResult_Match, false))
       (fun m => let '(r, notFound) := final fields (compareResult st) in
                 (mk_validate m r, notFound))) ->
  (forall fields r, r <> CompareResult_Match -> (final fields r).1 <> CompareResult_Match) ->
  (forall st b, k (st, b, false) = Some (Ok (stop st))) ->
  compareResult st <> CompareResult_Match ->
  out_bind (traverse_elements funcs traverse path elements i st hasPathNotFound) k =
  out! r := searched (flat_map (fun e => match e.2 with
                                         | V_Document fields => visits fields
                                         | _ => []
                                         end) elements) (operatorState st)
              (fun m => inl (stop (mk_validate m CompareResult_Match))) inr in
  match r with
  | inl a => Some (Ok a)
  | inr m =>
      let '(r, notFound) :=
        fold_left (fun acc e =>
          match e.2 with
          | V_Document fields =>
              let '(r, notFound) := final fields acc.1 in (r, acc.2 || notFound)
          | _ => acc
          end) elements (compareResult st, hasPathNotFound) in
      k (mk_validate m r, notFound, true)
  end.
Proof.
  intros Ht Hfinal Hk. revert i st hasPathNotFound.
  induction elements as [|[key v] elements IH]; intros i st nf Hst; [by destruct st|].
  cbn [traverse_elements flat_map snd fold_left].
  unfold set_index, handle_not_found. rewrite search_no_index, search_no_handler.
  destruct v; try (cbn [out_bind]; apply IH; done).
  cbn [out_bind]. rewrite Ht by done. rewrite searched_app. cbn [fst snd].
  unfold searched at 1 2. destruct (search (visits v_doc) (operatorState st)) as [[b m]|e];
    cbn [result_bind out_bind]; [|done].
  destruct b; cbn [out_bind].
  - rewrite search_continue. cbn [compareResult out_bind]. unfold is_match.
    rewrite bool_decide_true by done. cbn [negb out_bind]. by rewrite Hk.
  - specialize (Hfinal v_doc (compareResult st) Hst).
    destruct (final v_doc (compareResult st)) as [r notFound]. cbn [fst] in Hfinal. cbn [out_bind].
    rewrite search_continue. cbn [compareResult out_bind]. unfold is_match.
    rewrite bool_decide_false by done. cbn [negb].
    by destruct notFound; cbn [out_bind]; rewrite IH by done.
Qed.

(** At the end of the path. *)
Lemma leaf_search v value st inArray :
  compareResult st <> CompareResult_Match ->
  (out! (state, shouldContinue) :=
     Some (VisitTopLevelField funcs (sv_view v, value) v st) in
   if negb shouldContinue then Some (Ok (state, false))
   else
     out! (state, shouldContinue) :=
       match value, inArray, VisitArrayField funcs with
       | V_Array elements, false, Some visit => Some (visit_array visit v elements 0 state)
       | _, _, _ => Some (Ok (state, true))
       end in
     if negb shouldContinue then Some (Ok (state, false))
     else
       out! state := Some (set_result funcs state TraverseBsonResult_TypeMismatch) in
       Some (Ok (state, false))) =
  searched (leaf_visits inner inArray value) (operatorState st)
    (fun m => (mk_validate m CompareResult_Match, false))
    (fun m => (mk_validate m
                 (recorded (fold_left (fun r x => missed x r) (leaf_visits inner inArray value)
                              (compareResult st)) TraverseBsonResult_TypeMismatch), false)).
Proof.
  intros Hst. rewrite search_top. unfold leaf_visits, searched. cbn [search fold_left].
  destruct (matches _ _) as [[b m]|e]; cbn [result_bind out_bind]; [|done].
  destruct b; [done|]. cbn [negb].
  set (elements := match value with V_Array _ => _ | _ => [] end).
  set (r1 := missed (VisitTop value) (compareResult st)).
  match goal with |- out_bind ?lhs _ = _ => assert (lhs =
    searched elements m (fun m => (mk_validate m CompareResult_Match, false))
      (fun m => (mk_validate m (fold_left (fun r x => missed x r) elements r1), true))) as -> end.
  { unfold elements. destruct value; try done. pose proof search_elements as He.
    destruct inner, inArray; cbn [negb andb]; try done.
    - destruct He as (f & -> & Hf). by apply visit_array_search.
    - by rewrite He. }
  apply out_bind_searched; intros m'; cbn [negb]; [done|]. by rewrite set_result_search.
Qed.

(** Through an array in the middle of the path: [traverse] is the recursive
    call, on the rest of the path. *)
Section array.
Context (traverse : bson_doc -> TraverseValidateState M -> bool ->
                    outcome (TraverseValidateState M * bool)).
Context (path : StringView) (keys : list bytes).
Hypothesis traverse_ok : forall doc st inArray, compareResult st <> CompareResult_Match ->
  traverse doc st inArray =
  searched (path_visits inner keys doc inArray) (operatorState st)
    (fun m => (mk_validate m CompareResult_Match, false))
    (fun m => let '(r, notFound) := path_result keys doc inArray (compareResult st) in
              (mk_validate m r, notFound)).

Definition elements_visits (elements : bson_doc) : list visit :=
  flat_map (fun e => match e.2 with
                     | V_Document fields => path_visits inner keys fields false
                     | _ => []
                     end) elements.

Definition elements_result (elements : bson_doc) (r : CompareResult) : CompareResult * bool :=
  fold_left (fun acc e =>
    match e.2 with
    | V_Document fields =>
        let '(r, notFound) := path_result keys fields false acc.1 in (r, acc.2 || notFound)
    | _ => acc
    end) elements (r, false).

Lemma elements_search elements st indexNotFound :
  compareResult st <> CompareResult_Match ->
  (out! state := Some (set_start_end funcs st true) in
   out! (state, elementsNotFound, continue) :=
     traverse_elements funcs (fun fields state => traverse fields state false)
       path elements 0 state false in
   if negb continue then Some (Ok (state, false))
   else
     out! state := Some (set_start_end funcs state false) in
     if indexNotFound && elementsNotFound then
       out! state := Some (set_result funcs state TraverseBsonResult_PathNotFound) in
       Some (Ok (state, true))
     else
       out! state := Some (set_result funcs state TraverseBsonResult_TypeMismatch) in
       Some (Ok (state, false))) =
  searched (elements_visits elements) (operatorState st)
    (fun m => (mk_validate m CompareResult_Match, false))
    (fun m => let '(r, notFound) :=
                let '(r, elementsNotFound) := elements_result elements (compareResult st) in
                if indexNotFound && elementsNotFound
                then (recorded r TraverseBsonResult_PathNotFound, true)
                else (recorded r TraverseBsonResult_TypeMismatch, false) in
              (mk_validate m r, notFound)).
Proof.
  intros Hst. unfold set_start_end. rewrite search_no_start_end. cbn [out_bind].
  rewrite (traverse_elements_search _ _ _ _ _ _ (fun fields => path_visits inner keys fields false)
    (fun fields r => path_result keys fields false r) _ (fun st => (st, false)));
    [|by intros; apply traverse_ok|by intros; apply path_result_not_match|done|done].
  fold (elements_visits elements). fold (elements_result elements (compareResult st)).
  apply out_bind_searched; intros m; [done|].
  destruct (elements_result elements (compareResult st)) as [r nf]. cbn [negb].
  destruct (indexNotFound && nf); by rewrite set_result_search.
Qed.

Lemma array_search elements st (isIndex : bool) :
  compareResult st <> CompareResult_Match ->
  (out! (state, hasPathNotFound, continue) :=
     if isIndex then
       out! (state, hasPathNotFound) := traverse elements st true in
       out! (state, continue) :=
         Some (ContinueProcessIntermediateArray funcs state (V_Array elements) true) in
       Some (Ok (state, hasPathNotFound, continue))
     else Some (Ok (st, true, true)) in
   if negb continue then Some (Ok (state, false))
   else
     out! state := Some (set_start_end funcs state true) in
     out! (state, elementsNotFound, continue) :=
       traverse_elements funcs (fun fields state => traverse fields state false)
         path elements 0 state false in
     if negb continue then Some (Ok (state, false))
     else
       out! state := Some (set_start_end funcs state false) in
       if hasPathNotFound && elementsNotFound then
         out! state := Some (set_result funcs state TraverseBsonResult_PathNotFound) in
         Some (Ok (state, true))
       else
         out! state := Some (set_result funcs state TraverseBsonResult_TypeMismatch) in
         Some (Ok (state, false))) =
  searched ((if isIndex then path_visits inner keys elements true else []) ++
            elements_visits elements) (operatorState st)
    (fun m => (mk_validate m CompareResult_Match, false))
    (fun m => let '(r, notFound) :=
                let '(r, indexNotFound) :=
                  if isIndex then path_result keys elements true (compareResult st)
                  else (compareResult st, true) in
                let '(r, elementsNotFound) := elements_result elements r in
                if indexNotFound && elementsNotFound
                then (recorded r TraverseBsonResult_PathNotFound, true)
                else (recorded r TraverseBsonResult_TypeMismatch, false) in
              (mk_validate m r, notFound)).
Proof.
  intros Hst. destruct isIndex; [|cbn [out_bind negb app]; by apply elements_search].
  rewrite searched_app, traverse_ok by done.
  pose proof (path_result_not_match keys elements true (compareResult st) Hst) as Hr.
  destruct (path_result keys elements true (compareResult st)) as [r nf]. cbn [fst] in Hr.
  unfold searched at 1 2. destruct (search _ _) as [[b m]|e]; cbn [result_bind out_bind]; [|done].
  destruct b; cbn [out_bind]; rewrite search_continue; cbn [out_bind compareResult]; unfold is_match.
  - by rewrite bool_decide_true.
  - rewrite bool_decide_false by done. cbn [negb].
    by apply (elements_search elements (mk_validate m r) nf).
Qed.
End array.

(** The traversal searches the visits of the path, and always returns: the
    length of the path is enough. *)
Lemma traverse_search fuel doc v st inArray :
  exact v -> (length (sv_view v) < fuel)%nat -> compareResult st <> CompareResult_Match ->
  TraverseBsonCore funcs fuel doc v st inArray =
  searched (path_visits inner (split_path (sv_view v)) doc inArray) (operatorState st)
    (fun m => (mk_validate m CompareResult_Match, false))
    (fun m => let '(r, notFound) :=
                path_result (split_path (sv_view v)) doc inArray (compareResult st) in
              (mk_validate m r, notFound)).
Proof.
  revert doc v st inArray. induction fuel as [|fuel IH]; intros doc v st inArray Hv Hf Hst; [lia|].
  cbn [TraverseBsonCore]. unfold bson_iter_find_string_view.
  destruct (exact_split v Hv) as [(Hn & ->)|(pre & suf & w & string & Hpath & Hn & -> & Hpre & -> & Hw & Hsuf)].
  - rewrite split_path_single by done. cbn [path_visits path_result].
    destruct (bson_iter_find_w_len doc (sv_view v)) as [value|];
      [|by rewrite set_result_search].
    apply leaf_search. done.
  - rewrite Hpath, Hpre, split_path_cons by done. cbn [path_visits path_result].
    destruct (split_path_digit suf) as (next & rest & Esuf & Hdigit).
    rewrite Hpath, length_app in Hf. cbn [length] in Hf.
    destruct (bson_iter_find_w_len doc pre) as [value|]; [|by rewrite set_result_search].
    assert (forall doc st inArray, compareResult st <> CompareResult_Match ->
      TraverseBsonCore funcs fuel doc w st inArray =
      searched (path_visits inner (next :: rest) doc inArray) (operatorState st)
        (fun m => (mk_validate m CompareResult_Match, false))
        (fun m => let '(r, notFound) := path_result (next :: rest) doc inArray (compareResult st) in
                  (mk_validate m r, notFound))) as Hrec.
    { intros doc' st' inArray' Hst'. rewrite <- Esuf, <- Hsuf. apply IH; [done| |done].
      rewrite Hsuf. lia. }
    cbn [out_bind]. rewrite Esuf, exact_first_char, Hsuf, <- Hdigit by done.
    destruct value; try (by rewrite set_result_search); [by apply Hrec|].
    by apply (array_search (fun doc => TraverseBsonCore funcs fuel doc w) w (next :: rest)).
Qed.
End search.

(** The searches from the top of a document. *)
Lemma TraverseBson_search {F : FindField} {M} inner
  (funcs : TraverseBsonExecutionFuncs (TraverseValidateState M)) matches missed recorded
  {SF : SearchFuncs inner funcs matches missed recorded} doc path st :
  cstrb path = true -> compareResult st <> CompareResult_Match ->
  TraverseBson funcs doc path st =
  Some (let! (b, m) := search matches (path_visits inner (split_path path) doc false)
                         (operatorState st) in
        Ok (mk_validate m
              (if b : bool then CompareResult_Match
               else (path_result inner missed recorded (split_path path) doc false
                       (compareResult st)).1))).
Proof.
  intros Hp Hst. destruct (exact_path path Hp) as [He Ev].
  unfold TraverseBson, TraverseBsonPathStringView.
  rewrite (traverse_search inner funcs matches missed recorded) by (done || lia).
  rewrite Ev. unfold searched. destruct (search _ _ _) as [[b m]|e]; [|done].
  cbn [result_bind out_bind]. destruct b; [done|]. by destruct (path_result _ _ _ _ _ _ _) as [r nf].
Qed.

(** ** The traversal returns, whatever the callbacks do *)

Definition returns {A} (m : outcome A) : Prop := m <> None.

Lemma returns_bind {A B} (m : outcome A) (k : A -> outcome B) :
  returns m -> (forall a, returns (k a)) -> returns (out_bind m k).
Proof. unfold returns. destruct m as [[a|e]|]; simpl; [auto|done|done]. Qed.

Lemma returns_some {A} (r : result A) : returns (Some r).
Proof. done. Qed.

Create HintDb returns discriminated.
#[export] Hint Resolve returns_bind returns_some : returns.

Section returns.
Context {F : FindField} {S : Type} (funcs : TraverseBsonExecutionFuncs S).

Lemma traverse_elements_returns traverse path elements i st hasPathNotFound :
  (forall fields st, returns (traverse fields st)) ->
  returns (traverse_elements funcs traverse path elements i st hasPathNotFound).
Proof.
  intros Ht. revert i st hasPathNotFound.
  induction elements as [|[key v] elements IH]; intros i st nf; [done|].
  cbn [traverse_elements]. destruct v; eauto with returns.
  apply returns_bind; [done|intros st1]. apply returns_bind; [done|intros [st2 b]].
  apply returns_bind; [done|intros [st3 continue]]. destruct continue; cbn [negb]; eauto with returns.
Qed.

Lemma traverse_elements_ext traverse traverse' path elements i st hasPathNotFound :
  (forall fields st, traverse fields st = traverse' fields st) ->
  traverse_elements funcs traverse path elements i st hasPathNotFound =
  traverse_elements funcs traverse' path elements i st hasPathNotFound.
Proof.
  intros Ht. revert i st hasPathNotFound.
  induction elements as [|[key v] elements IH]; intros i st nf; [done|].
  cbn [traverse_elements]. destruct v; try (by destruct (handle_not_found _ _ _ _); cbn [out_bind]).
  destruct (set_index _ _ _) as [st1|e]; cbn [out_bind]; [|done]. rewrite Ht.
  destruct (traverse' _ _) as [[[st2 b]|e]|]; cbn [out_bind]; [|done..].
  destruct (ContinueProcessIntermediateArray _ _ _ _) as [[st3 continue]|e]; cbn [out_bind]; [|done].
  destruct continue; cbn [negb]; [|done]. case_match; by destruct (handle_not_found _ _ _ _); cbn [out_bind].
Qed.

(** One level of the traversal of an array in the middle of the path. *)
Lemma array_returns (traverse : bson_doc -> S -> bool -> outcome (S * bool)) w value elements digit st :
  (forall fields st b, returns (traverse fields st b)) ->
  returns (
    out! (state, hasPathNotFound, continue) :=
      if digit : bool then
        out! (state, hasPathNotFound) := traverse elements st true in
        out! (state, continue) :=
          Some (ContinueProcessIntermediateArray funcs state value true) in
        Some (Ok (state, hasPathNotFound, continue))
      else Some (Ok (st, true, true)) in
    if negb continue then Some (Ok (state, false))
    else
      out! state := Some (set_start_end funcs state true) in
      out! (state, arrayElementsHasPathNotFound, continue) :=
        traverse_elements funcs (fun fields state => traverse fields state false) w elements 0 state
          false in
      if negb continue then Some (Ok (state, false))
      else
        out! state := Some (set_start_end funcs state false) in
        if hasPathNotFound && arrayElementsHasPathNotFound then
          out! state := Some (set_result funcs state TraverseBsonResult_PathNotFound) in
          Some (Ok (state, true))
        else
          out! state := Some (set_result funcs state TraverseBsonResult_TypeMismatch) in
          Some (Ok (state, false))).
Proof.
  intros Ht. apply returns_bind.
  { destruct digit; [|done]. apply returns_bind; [apply Ht|intros [st1 b]].
    apply returns_bind; [done|by intros []]. }
  intros [[st1 b] continue]. destruct continue; cbn [negb]; [|done].
  apply returns_bind; [done|intros st2]. apply returns_bind; [by apply traverse_elements_returns|].
  intros [[st3 b'] continue]. destruct continue; cbn [negb]; [|done].
  apply returns_bind; [done|intros st4]. destruct (b && b'); by apply returns_bind.
Qed.

Lemma core_returns fuel doc v st inArray :
  exact v -> (length (sv_view v) < fuel)%nat ->
  returns (TraverseBsonCore funcs fuel doc v st inArray).
Proof.
  revert doc v st inArray. induction fuel as [|fuel IH]; intros doc v st inArray Hv Hf; [lia|].
  cbn [TraverseBsonCore]. unfold bson_iter_find_string_view.
  destruct (exact_split v Hv) as [(Hn & ->)|(pre & suf & w & string & Hpath & Hn & -> & Hpre & -> & Hw & Hsuf)].
  - destruct (bson_iter_find_w_len doc (sv_view v)) as [value|]; [|by apply returns_bind].
    apply returns_bind; [done|intros [st1 []]]; cbn [negb]; [|done].
    apply returns_bind; [by destruct value, inArray, (VisitArrayField funcs)|intros [st2 []]];
      cbn [negb]; [|done]. by apply returns_bind.
  - rewrite Hpath, length_app in Hf. cbn [length] in Hf. cbn [out_bind].
    assert (forall doc st b, returns (TraverseBsonCore funcs fuel doc w st b)) as Hrec
      by (intros; apply IH; [done|rewrite Hsuf; lia]).
    destruct (bson_iter_find_w_len doc _) as [value|]; [|by destruct (set_result _ _ _)].
    destruct value; try (by destruct (set_result _ _ _)); [apply Hrec|].
    by apply (array_returns (fun doc => TraverseBsonCore funcs fuel doc w)).
Qed.

Lemma core_fuel fuel fuel' doc v st inArray :
  exact v -> (length (sv_view v) < fuel)%nat -> (length (sv_view v) < fuel')%nat ->
  TraverseBsonCore funcs fuel doc v st inArray = TraverseBsonCore funcs fuel' doc v st inArray.
Proof.
  revert fuel' doc v st inArray.
  induction fuel as [|fuel IH]; intros [|fuel'] doc v st inArray Hv Hf Hf'; [lia..|].
  cbn [TraverseBsonCore]. unfold bson_iter_find_string_view.
  destruct (exact_split v Hv) as [(Hn & ->)|(pre & suf & w & string & Hpath & Hn & -> & Hpre & -> & Hw & Hsuf)];
    [done|].
  rewrite Hpath, length_app in Hf, Hf'. cbn [length] in Hf, Hf'. cbn [out_bind].
  assert (forall doc st b, TraverseBsonCore funcs fuel doc w st b = TraverseBsonCore funcs fuel' doc w st b)
    as Hrec by (intros; apply IH; [done|rewrite Hsuf; lia..]).
  destruct (bson_iter_find_w_len doc _) as [value|]; [|done].
  destruct value; try done. rewrite Hrec.
  match goal with |- out_bind ?m _ = _ => destruct m as [[[[st1 b] continue]|e]|] end;
    cbn [out_bind]; [|done..].
  destruct continue; cbn [negb]; [|done]. destruct (set_start_end _ _ _); cbn [out_bind]; [|done].
  by rewrite (traverse_elements_ext _ (fun fields st => TraverseBsonCore funcs fuel' fields w st false)).
Qed.
End returns.

(** C37: The traversal terminates.  Whatever the callbacks answer, the
    traversal of a path returns: it recurses at most once per character of the
    path, however deep the document is, and more depth changes nothing. *)
Theorem traversal_terminates {F : FindField} {S} (funcs : TraverseBsonExecutionFuncs S) doc path st :
  cstrb path = true ->
  (exists r, TraverseBson funcs doc path st = Some r) /\
  forall fuel inArray, (length path < fuel)%nat ->
    TraverseBsonCore funcs fuel doc (CreateStringViewFromString path) st inArray =
    TraverseBsonCore funcs (Datatypes.S (length path)) doc (CreateStringViewFromString path) st inArray.
Proof.
  intros Hp. destruct (exact_path path Hp) as [He Ev]. split.
  - unfold TraverseBson, TraverseBsonPathStringView. rewrite Ev.
    pose proof (core_returns funcs (Datatypes.S (length path)) doc (CreateStringViewFromString path) st
                  false He ltac:(rewrite Ev; lia)) as Hr.
    destruct (TraverseBsonCore _ _ _ _ _ _) as [[[st' b]|e]|]; [eexists; done..|by destruct Hr].
  - intros fuel inArray Hf. apply core_fuel; [done|rewrite Ev; lia..].
Qed.

(** ** Well-formed documents have well-formed values *)

Section wf_values.
Context {F : FindField} {FL : FindFieldLaws F}.

Lemma wf_find doc key v :
  wf_fields doc = true -> bson_iter_find_w_len doc key = Some v -> wf_value v = true.
Proof.
  intros W [k Hk]%find_field_in. unfold wf_fields in W. rewrite forallb_forall in W.
  apply list_elem_of_In in Hk. specialize (W _ Hk). by apply andb_true_iff in W as [_ ?].
Qed.

Lemma wf_path_visits inner keys doc inArray :
  wf_fields doc = true ->
  Forall (fun x => wf_value (visited x) = true) (path_visits inner keys doc inArray).
Proof.
  revert doc inArray. induction keys as [|key rest IH]; intros doc inArray W; [constructor|].
  cbn [path_visits]. destruct (bson_iter_find_w_len doc key) as [v|] eqn:Ef; [|constructor].
  pose proof (wf_find _ _ _ W Ef) as Wv. destruct rest as [|next rest'].
  - constructor; [done|]. destruct v; try constructor. destruct (inner && negb inArray); [|constructor].
    cbn [wf_value] in Wv. unfold elements_from.
    apply Forall_lookup. intros i x. rewrite list_lookup_imap.
    destruct (v_doc !! i) as [[k e]|] eqn:Hi; [|done]. intros [= <-].
    apply list_elem_of_lookup_2, list_elem_of_In in Hi.
    rewrite forallb_forall in Wv. specialize (Wv _ Hi). by apply andb_true_iff in Wv as [_ ?].
  - destruct v; try constructor; [by apply IH|]. apply Forall_app. split.
    + case_match; [by apply IH|constructor].
    + cbn [wf_value] in Wv. clear Ef. induction v_doc as [|[k e] es IHe]; [constructor|].
      cbn [flat_map]. cbn [forallb] in Wv. apply andb_true_iff in Wv as [We Wes].
      apply Forall_app. split; [|by apply IHe].
      apply andb_true_iff in We as [_ We]. cbn [snd]. destruct e; try constructor. by apply IH.
Qed.

Lemma wf_path_values inner path doc :
  wf_fields doc = true -> Forall (fun v => wf_value v = true) (path_values inner path doc).
Proof. intros W. unfold path_values. apply Forall_fmap. by apply wf_path_visits. Qed.
End wf_values.

(** A concrete search, as libbson documents it. *)
Module FindFirst.
#[export] Instance find_first : FindField := fun doc key =>
  match key with
  | [] => None
  | _ => snd <$> List.find (fun f => bool_decide (f.1 = key)) doc
  end.

#[export] Instance find_first_laws : FindFieldLaws find_first.
Proof.
  split.
  - by intros doc [|c key].
  - intros doc [|c key] v; [done|]. unfold bson_iter_find_w_len, find_first.
    destruct (List.find _ doc) as [[k w]|] eqn:E; [|done]. intros [= <-].
    apply List.find_some in E as [Hin _]. exists k. by apply list_elem_of_In.
Qed.
End FindFirst.

Section examples.
Import FindFirst.

(** Callbacks that collect the values they see, and never stop. *)
Definition collect : TraverseBsonExecutionFuncs (list bson_value) :=
  mk_funcs None (fun element _ st => Ok (element.2 :: st, true))
    (Some (fun element _ _ st => Ok (element.2 :: st, true)))
    (fun st _ _ => Ok (st, true)) None None None.

Lemma traversal_terminates_witness :
  exists r, TraverseBson collect [([97], V_Array [([48], V_Document [([98], V_Int32 1)])])]
              [97; 46; 98] [] = Some r.
Proof.
  apply (traversal_terminates collect [([97], V_Array [([48], V_Document [([98], V_Int32 1)])])]
           [97; 46; 98] []). reflexivity.
Defined.
End examples.
