(* ===== verification/Decimal128.v ===== *)
(** * Decimal128: [pg_documentdb_core/src/types/decimal128.c]

    The conversions, range tests and comparisons that wrap the Intel decimal
    floating-point library.  The library is not part of the repository: its
    functions are the fields of the class [BidLib], and what the code relies
    on (IEEE 754-2008 decimal128 values, exact conversion of integers,
    correctly rounded conversion of doubles) are the laws of [BidLaws].
    [ExactBid] at the end of the file is an instance of both. *)

From stdpp Require Import base numbers list.
From Stdlib Require Import ZArith Lia.
From S2P Require Import Prelude Binary64 Bson.

(** ** Numeric values

    [xnum] is the value of a number, finite values counted in some unit fixed
    by the context; [xnum_cmp] orders NaN below everything and equal to
    itself, as the comparison code does. *)

Inductive xnum : Set := XNaN | XNegInf | XFin (units : Z) | XPosInf.

#[export] Instance xnum_eq_dec : EqDecision xnum.
Proof. solve_decision. Defined.

Definition xnum_rank (x : xnum) : Z :=
  match x with XNaN => 0 | XNegInf => 1 | XFin _ => 2 | XPosInf => 3 end.
Definition xnum_units (x : xnum) : Z := match x with XFin z => z | _ => 0 end.

Definition xnum_cmp : xnum -> xnum -> comparison :=
  cmp_lex (cmp_on xnum_rank Z.compare) (cmp_on xnum_units Z.compare).

#[export] Instance xnum_cmp_total : TotalCmp xnum_cmp.
Proof. unfold xnum_cmp. apply _. Qed.

Definition is_xnan (x : xnum) : bool := match x with XNaN => true | _ => false end.

(** Decimal128 values are integer multiples of 10^-6176. *)
Definition DEC_UNIT : Z := 10 ^ 6176.

Lemma DEC_UNIT_pos : 0 < DEC_UNIT.
Proof. unfold DEC_UNIT. apply Z.pow_pos_nonneg; lia. Qed.

(** ** The library interface *)

(** The status flags a library call raises ([_IDEC_flags], a bit set). *)
Record bid_flags : Set := mk_flags {
  f_invalid : bool; f_denormal : bool; f_zero_divide : bool;
  f_overflow : bool; f_underflow : bool; f_inexact : bool }.

#[export] Instance bid_flags_eq_dec : EqDecision bid_flags.
Proof. solve_decision. Defined.

Definition ALL_EXCEPTION_FLAG_CLEAR : bid_flags :=
  mk_flags false false false false false false.
Definition only_invalid : bid_flags := mk_flags true false false false false false.

Definition IsOperationSuccess (f : bid_flags) : bool :=
  bool_decide (f = ALL_EXCEPTION_FLAG_CLEAR).
Abbreviation IsOperationInvalid := f_invalid.
Abbreviation IsOperationOverflow := f_overflow.
Abbreviation IsOperationUnderflow := f_underflow.

Inductive Decimal128RoundingMode : Set :=
| Decimal128RoundingMode_NearestEven
| Decimal128RoundingMode_Downward
| Decimal128RoundingMode_Upward
| Decimal128RoundingMode_TowardZero
| Decimal128RoundingMode_NearestAway.

Definition Decimal128RoundingMode_Default := Decimal128RoundingMode_NearestEven.

Inductive ConversionRoundingMode : Set :=
| ConversionRoundingMode_Floor
| ConversionRoundingMode_NearestEven.

Class BidLib : Type := {
  bid128_isNaN : decimal128 -> bool;
  bid128_isInf : decimal128 -> bool;
  bid128_isFinite : decimal128 -> bool;
  bid128_isZero : decimal128 -> bool;
  bid128_quiet_equal : decimal128 -> decimal128 -> bool * bid_flags;
  bid128_quiet_greater : decimal128 -> decimal128 -> bool * bid_flags;
  bid128_from_int32 : Z -> decimal128;
  bid128_from_int64 : Z -> decimal128;
  binary64_to_bid128 : double -> Decimal128RoundingMode -> decimal128 * bid_flags;
  bid128_to_binary64 : decimal128 -> Decimal128RoundingMode -> double * bid_flags;
  bid128_to_binary80 : decimal128 -> Decimal128RoundingMode -> xnum * bid_flags;
  bid128_to_int32_xint : decimal128 -> Z * bid_flags;
  bid128_to_int32_xrnint : decimal128 -> Z * bid_flags;
  bid128_to_int64_xint : decimal128 -> Z * bid_flags;
  bid128_to_int64_xrnint : decimal128 -> Z * bid_flags;
  bid128_to_int64_floor : decimal128 -> Z * bid_flags;
  bid128_quantize : decimal128 -> decimal128 -> Decimal128RoundingMode ->
                    decimal128 * bid_flags;
  (** [(int) ceil(log10(fabs(d)))] of the C mathematics library *)
  ceil_log10_abs : double -> Z;
}.

Section wrappers.
Context {L : BidLib}.

Definition BID128_EXP_BIAS : Z := 6176.
Definition BID128_EXP_BITS_OFFSET : Z := 49.

Definition CheckDecimal128Type (value : bson_value) : result unit :=
  match value with
  | V_Decimal128 _ => Ok tt
  | _ => Err ERRCODE_INTERNAL_ERROR
  end.

(** [GetBIDUINT128FromBsonValue] checks the type and copies the words. *)
Definition GetBIDUINT128FromBsonValue (decimal : bson_value) : result decimal128 :=
  match decimal with
  | V_Decimal128 d => Ok d
  | _ => Err ERRCODE_INTERNAL_ERROR
  end.

(** Every branch of [ThrowConversionFailureError] raises the same code (the
    messages differ). *)
Definition ThrowConversionFailureError {A} (value : decimal128) : result A :=
  if bid128_isInf value then Err ERRCODE_DOCUMENTDB_CONVERSIONFAILURE
  else if bid128_isNaN value then Err ERRCODE_DOCUMENTDB_CONVERSIONFAILURE
  else Err ERRCODE_DOCUMENTDB_CONVERSIONFAILURE.

Definition GetBsonDecimal128AsInt32 (value : bson_value)
  (roundingMode : ConversionRoundingMode) : result Z :=
  let! bidValue := GetBIDUINT128FromBsonValue value in
  let '(returnValue, exceptionFlags) :=
    match roundingMode with
    | ConversionRoundingMode_NearestEven => bid128_to_int32_xrnint bidValue
    | ConversionRoundingMode_Floor => bid128_to_int32_xint bidValue
    end in
  if negb (IsOperationSuccess exceptionFlags) && IsOperationInvalid exceptionFlags
  then ThrowConversionFailureError bidValue
  else Ok returnValue.

Definition GetBsonDecimal128AsInt64 (value : bson_value)
  (roundingMode : ConversionRoundingMode) : result Z :=
  let! bidValue := GetBIDUINT128FromBsonValue value in
  let '(returnValue, exceptionFlags) :=
    match roundingMode with
    | ConversionRoundingMode_NearestEven => bid128_to_int64_xrnint bidValue
    | ConversionRoundingMode_Floor => bid128_to_int64_xint bidValue
    end in
  if negb (IsOperationSuccess exceptionFlags) then
    if IsOperationInvalid exceptionFlags
    then ThrowConversionFailureError bidValue
    else Ok returnValue
  else Ok returnValue.

Definition GetBsonDecimal128AsDouble (value : bson_value) : result double :=
  let! bidValue := GetBIDUINT128FromBsonValue value in
  let '(returnValue, exceptionFlags) :=
    bid128_to_binary64 bidValue Decimal128RoundingMode_Default in
  if negb (IsOperationSuccess exceptionFlags) &&
     (IsOperationOverflow exceptionFlags || IsOperationUnderflow exceptionFlags)
  then Err ERRCODE_DOCUMENTDB_CONVERSIONFAILURE
  else Ok returnValue.

Definition GetBsonDecimal128AsDoubleQuiet (value : bson_value) : result double :=
  let! bidValue := GetBIDUINT128FromBsonValue value in
  Ok (fst (bid128_to_binary64 bidValue Decimal128RoundingMode_Default)).

Definition GetBsonDecimal128AsLongDouble (value : bson_value) : result xnum :=
  let! bidValue := GetBIDUINT128FromBsonValue value in
  let '(returnValue, exceptionFlags) :=
    bid128_to_binary80 bidValue Decimal128RoundingMode_Default in
  if negb (IsOperationSuccess exceptionFlags) &&
     (IsOperationOverflow exceptionFlags || IsOperationUnderflow exceptionFlags)
  then Err ERRCODE_DOCUMENTDB_CONVERSIONFAILURE
  else Ok returnValue.

Definition GetBsonDecimal128AsBool (value : bson_value) : result bool :=
  let! bidValue := GetBIDUINT128FromBsonValue value in
  Ok (negb (bid128_isZero bidValue)).

Definition IsDecimal128NaN (value : bson_value) : result bool :=
  let! bid := GetBIDUINT128FromBsonValue value in Ok (bid128_isNaN bid).

Definition INFINITY_MASK64 : Z := 0x7800000000000000.
Definition SINFINITY_MASK64 : Z := 0xf800000000000000.
Definition NAN_MASK64 : Z := 0x7c00000000000000.

(** The result and, when it is true, the [isPositiveInfinity] output. *)
Definition IsDecimal128Infinity (value : bson_value) : result (option bool) :=
  let! bid := GetBIDUINT128FromBsonValue value in
  if bid128_isInf bid then Ok (Some (negb (d_high bid =? SINFINITY_MASK64)))
  else Ok None.

Definition IsDecimal128Finite (value : bson_value) : result bool :=
  let! bid := GetBIDUINT128FromBsonValue value in Ok (bid128_isFinite bid).

Definition IsDecimal128Zero (value : bson_value) : result bool :=
  let! bid := GetBIDUINT128FromBsonValue value in Ok (bid128_isZero bid).

Definition SetDecimal128NaN : decimal128 := mk_decimal128 NAN_MASK64 0.
Definition SetDecimal128NegativeInfinity : decimal128 := mk_decimal128 SINFINITY_MASK64 0.
Definition SetDecimal128PositiveInfinity : decimal128 := mk_decimal128 INFINITY_MASK64 0.
Definition SetDecimal128Zero : decimal128 :=
  mk_decimal128 (uint64 (Z.shiftl BID128_EXP_BIAS BID128_EXP_BITS_OFFSET)) 0.

Definition IsDecimal128InInt64Range (value : bson_value) : result bool :=
  let! finite := IsDecimal128Finite value in
  if negb finite then Ok false
  else
    let! bid := GetBIDUINT128FromBsonValue value in
    let '(_, flag) := bid128_to_int64_xint bid in
    Ok (negb (IsOperationInvalid flag)).

Definition IsDecimal128InInt32Range (value : bson_value) : result bool :=
  let! finite := IsDecimal128Finite value in
  if negb finite then Ok false
  else
    let! bid := GetBIDUINT128FromBsonValue value in
    let '(_, flag) := bid128_to_int32_xint bid in
    Ok (negb (IsOperationInvalid flag)).

Definition IsDecimal128InDoubleRange (value : bson_value) : result bool :=
  let! bidValue := GetBIDUINT128FromBsonValue value in
  let '(_, f) := bid128_to_binary64 bidValue Decimal128RoundingMode_Default in
  Ok (negb (IsOperationInvalid f || IsOperationOverflow f || IsOperationUnderflow f)).

(** [BIDUINT128SignalingEqual]: the answer and the flags, starting clear. *)
Definition BIDUINT128SignalingEqual (x y : decimal128) : bool * bid_flags :=
  let isXNaN := bid128_isNaN x in
  let isYNaN := bid128_isNaN y in
  if isXNaN && isYNaN then (true, ALL_EXCEPTION_FLAG_CLEAR)
  else if isXNaN || isYNaN then (false, only_invalid)
  else bid128_quiet_equal x y.

(** The comparison and its [isComparisonValid] output. *)
Definition CompareBsonDecimal128 (left right : bson_value) : result (Z * bool) :=
  let! leftBid := GetBIDUINT128FromBsonValue left in
  let! rightBid := GetBIDUINT128FromBsonValue right in
  let '(isEqual, my_fpsf) := BIDUINT128SignalingEqual leftBid rightBid in
  if IsOperationInvalid my_fpsf then
    let! leftNaN := IsDecimal128NaN left in
    Ok (if leftNaN then -1 else 1, false)
  else if isEqual then Ok (0, true)
  else
    let '(greater, _) := bid128_quiet_greater leftBid rightBid in
    Ok (if greater then 1 else -1, true).

(** [Decimal128ToInt64Floor]: the value and the [isOverFlow] output. *)
Definition Decimal128ToInt64Floor (value : bson_value) : result (Z * bool) :=
  let! bid := GetBIDUINT128FromBsonValue value in
  let '(int64Value, flag) := bid128_to_int64_floor bid in
  if IsOperationInvalid flag then Ok (0, true) else Ok (int64Value, false).

Definition GetDecimal128FromInt64 (value : Z) : decimal128 := bid128_from_int64 value.

Definition IsDecimal128AFixedInteger (value : bson_value) : result bool :=
  match value with
  | V_Decimal128 _ =>
      let! (intval, isOverFlow) := Decimal128ToInt64Floor value in
      if isOverFlow then Ok false
      else
        let intBsonval := V_Decimal128 (GetDecimal128FromInt64 intval) in
        let! (cmp, _) := CompareBsonDecimal128 value intBsonval in
        Ok (cmp =? 0)
  | _ => Ok false
  end.

(** The second operand of the quantization, 1E(exp). *)
Definition quantum (exp : Z) : decimal128 :=
  mk_decimal128 (uint64 (Z.shiftl (uint64 (BID128_EXP_BIAS + exp)) BID128_EXP_BITS_OFFSET)) 1.

(** The double branch of [GetBsonValueAsDecimal128Core]. *)
Definition decimal128_of_double (v_double : double) (shouldQuantizeDouble : bool)
  : decimal128 :=
  let '(bid128Inexact, _) := binary64_to_bid128 v_double Decimal128RoundingMode_Default in
  if bid128_isInf bid128Inexact || bid128_isNaN bid128Inexact || negb shouldQuantizeDouble
  then bid128Inexact
  else
    let exp := if d_eq v_double 0 then 0 else ceil_log10_abs v_double in
    let '(bidValue, _) :=
      bid128_quantize bid128Inexact (quantum (exp - 15)) Decimal128RoundingMode_Default in
    if 10 ^ 15 - 1 <? d_low bidValue then
      fst (bid128_quantize bid128Inexact (quantum (exp - 14)) Decimal128RoundingMode_Default)
    else bidValue.

Definition GetBsonValueAsDecimal128Core (value : bson_value) (shouldQuantizeDouble : bool)
  : result decimal128 :=
  match value with
  | V_Int32 z => Ok (bid128_from_int32 z)
  | V_Int64 z => Ok (bid128_from_int64 z)
  | V_Bool b =>
      Ok (mk_decimal128 (uint64 (Z.shiftl BID128_EXP_BIAS BID128_EXP_BITS_OFFSET))
                        (Z.b2z b))
  | V_Double d => Ok (decimal128_of_double d shouldQuantizeDouble)
  | V_DateTime z => Ok (bid128_from_int64 z)
  | V_Decimal128 d => Ok d
  | _ => Err ERRCODE_INTERNAL_ERROR
  end.

Definition GetBsonValueAsDecimal128Quantized (value : bson_value) : result decimal128 :=
  GetBsonValueAsDecimal128Core value true.

Definition GetBsonValueAsDecimal128 (value : bson_value) : result decimal128 :=
  GetBsonValueAsDecimal128Core value false.

Inductive Decimal128Result : Set :=
| Decimal128Result_Success | Decimal128Result_Invalid | Decimal128Result_Overflow
| Decimal128Result_Underflow | Decimal128Result_DivideByZero | Decimal128Result_Inexact
| Decimal128Result_Denormal | Decimal128Result_Unknown.

Definition GetDecimal128ResultFromFlag (flag : bid_flags) : Decimal128Result :=
  let '(mk_flags i d z o u x) := flag in
  let x := if x && (i || d || z || o || u) then false else x in
  match i, d, z, o, u, x with
  | false, false, false, false, false, false => Decimal128Result_Success
  | true, false, false, false, false, false => Decimal128Result_Invalid
  | false, false, false, false, false, true => Decimal128Result_Inexact
  | false, false, false, true, false, false => Decimal128Result_Overflow
  | false, false, false, false, true, false => Decimal128Result_Underflow
  | false, false, true, false, false, false => Decimal128Result_DivideByZero
  | false, true, false, false, false, false => Decimal128Result_Denormal
  | _, _, _, _, _, _ => Decimal128Result_Unknown
  end.
End wrappers.

(** ** Laws of the library *)

Definition is_xinf (x : xnum) : bool :=
  match x with XNegInf | XPosInf => true | _ => false end.
Definition is_xfin (x : xnum) : bool := match x with XFin _ => true | _ => false end.

(** The value of a double, in units of 2^-1074. *)
Definition dx (b : double) : xnum :=
  if isnan b then XNaN
  else if isinf b then (if d_neg b then XNegInf else XPosInf)
  else XFin (dscaled b).

(** [z] units of 10^-6176 are the double of value [a] units of 2^-1074 rounded
    to 34 significant digits: the error is at most half a unit in the last
    place, and a representable value (every integer below 10^34) is kept. *)
Definition rounds_to (a z : Z) : Prop :=
  Z.abs (z * DSCALE - a * DEC_UNIT) * (2 * 10 ^ 33) <= Z.abs a * DEC_UNIT /\
  ((DSCALE | a) -> Z.abs a < 10 ^ 34 * DSCALE -> z * DSCALE = a * DEC_UNIT).

(** A conversion to an integer type delivers the integer when it is in range
    and raises the invalid flag otherwise. *)
Definition converts (x : xnum) (integer : Z -> Z) (in_range : Z -> bool)
  (r : Z * bid_flags) : Prop :=
  match x with
  | XFin z => if in_range (integer z)
              then fst r = integer z /\ f_invalid (snd r) = false
              else f_invalid (snd r) = true
  | _ => f_invalid (snd r) = true
  end.

Class BidLaws (L : BidLib) : Type := {
  (** the value of a decimal128, in units of 10^-6176 *)
  dval : decimal128 -> xnum;
  law_isNaN : forall d, bid128_isNaN d = is_xnan (dval d);
  law_isInf : forall d, bid128_isInf d = is_xinf (dval d);
  law_isFinite : forall d, bid128_isFinite d = is_xfin (dval d);
  law_isZero : forall d, bid128_isZero d = bool_decide (dval d = XFin 0);
  law_quiet_equal : forall a b, dval a <> XNaN -> dval b <> XNaN ->
    bid128_quiet_equal a b =
    (match xnum_cmp (dval a) (dval b) with Eq => true | _ => false end,
     ALL_EXCEPTION_FLAG_CLEAR);
  law_quiet_greater : forall a b, dval a <> XNaN -> dval b <> XNaN ->
    fst (bid128_quiet_greater a b) =
    match xnum_cmp (dval a) (dval b) with Gt => true | _ => false end;
  law_from_int32 : forall z, in_int32 z = true ->
    dval (bid128_from_int32 z) = XFin (z * DEC_UNIT);
  law_from_int64 : forall z, in_int64 z = true ->
    dval (bid128_from_int64 z) = XFin (z * DEC_UNIT);
  (** the encoding of a small non-negative integer *)
  law_encoding : forall c, 0 <= c < 2 ^ 64 ->
    dval (mk_decimal128 (uint64 (Z.shiftl 6176 49)) c) = XFin (c * DEC_UNIT);
  law_from_binary64 : forall b, doubleb b = true ->
    match dx b with
    | XFin a => exists z, dval (fst (binary64_to_bid128 b Decimal128RoundingMode_Default))
                          = XFin z /\ rounds_to a z
    | special => dval (fst (binary64_to_bid128 b Decimal128RoundingMode_Default)) = special
    end;
  law_to_int32_xint : forall d,
    converts (dval d) (fun z => Z.quot z DEC_UNIT) in_int32 (bid128_to_int32_xint d);
  law_to_int64_xint : forall d,
    converts (dval d) (fun z => Z.quot z DEC_UNIT) in_int64 (bid128_to_int64_xint d);
  law_to_int64_floor : forall d,
    converts (dval d) (fun z => z / DEC_UNIT) in_int64 (bid128_to_int64_floor d);
}.

(** ** Comparison of numbers of different types

    Promoting both operands to decimal128, as [CompareNumbers] does when one
    of them is a decimal, orders doubles among themselves, integers among
    themselves and integers against doubles exactly as their values. *)

Lemma xnum_cmp_fin a b : xnum_cmp (XFin a) (XFin b) = (a ?= b).
Proof. done. Qed.

Lemma compare_mul_pos a b k : 0 < k -> (a * k ?= b * k) = (a ?= b).
Proof. intros. rewrite !(Z.mul_comm _ k). symmetry. by apply Zmult_compare_compat_l; lia. Qed.

Lemma rounds_lt a1 a2 z1 z2 :
  rounds_to a1 z1 -> rounds_to a2 z2 ->
  Z.abs a1 + Z.abs a2 <= 2 ^ 54 * (a2 - a1) -> a1 < a2 -> z1 < z2.
Proof.
  intros [R1 _] [R2 _] Hgap Hlt.
  pose proof DSCALE_pos as HS. pose proof DEC_UNIT_pos as HD.
  generalize dependent DSCALE. generalize dependent DEC_UNIT. intros D HD S R1 R2 HS.
  assert (z1 * S < z2 * S); [|nia].
  assert ((Z.abs a1 + Z.abs a2) * D <= 2 ^ 54 * (a2 - a1) * D) by nia.
  assert (0 < (a2 - a1) * D) by nia. lia.
Qed.

Lemma rounds_zero z : rounds_to 0 z -> z = 0.
Proof.
  intros [R _]. pose proof DSCALE_pos.
  rewrite Z.mul_0_l, Z.sub_0_r, Z.abs_0, Z.mul_0_l in R. nia.
Qed.

Lemma int_rounds_cmp i a z :
  rounds_to a z -> Z.abs i <= 2 ^ 63 ->
  (i * DSCALE <> a -> Z.abs a <= 2 ^ 64 * Z.abs (i * DSCALE - a)) ->
  (i * DEC_UNIT ?= z) = (i * DSCALE ?= a).
Proof.
  intros [R Hex] Hi Hgap.
  pose proof DSCALE_pos as HS. pose proof DEC_UNIT_pos as HD.
  destruct (Z.eq_dec (i * DSCALE) a) as [<-|Hne].
  - rewrite Z.compare_refl. apply Z.compare_eq_iff.
    assert (z * DSCALE = i * DSCALE * DEC_UNIT) as E.
    { apply Hex; [by exists i|]. rewrite Z.abs_mul, (Z.abs_eq DSCALE) by lia. nia. }
    nia.
  - specialize (Hgap Hne). clear Hex.
    rewrite <- (compare_mul_pos _ z DSCALE), <- (compare_mul_pos _ a DEC_UNIT) by done.
    generalize dependent DSCALE. generalize dependent DEC_UNIT.
    intros D HD S R HS Hne Hgap.
    assert (Z.abs a * D <= 2 ^ 64 * (Z.abs (i * S - a) * D)) by nia.
    replace (i * D * S) with (i * S * D) by lia.
    assert (Z.abs (i * S - a) * D = Z.abs (i * S * D - a * D)) as E.
    { replace (i * S * D - a * D) with ((i * S - a) * D) by lia.
      rewrite Z.abs_mul. f_equal. lia. }
    rewrite E in *. assert (i * S * D <> a * D) by (intros ?; nia).
    destruct (Z.compare_spec (i * S * D) (a * D));
      [lia|apply Z.compare_lt_iff|apply Z.compare_gt_iff]; lia.
Qed.

Section embedding.
Context {L : BidLib} {BL : BidLaws L}.

(** The decimal a double is promoted to in a comparison. *)
Definition bid_of (b : double) : decimal128 :=
  fst (binary64_to_bid128 b Decimal128RoundingMode_Default).

Lemma bid_of_doubles b1 b2 :
  doubleb b1 = true -> doubleb b2 = true ->
  xnum_cmp (dval (bid_of b1)) (dval (bid_of b2)) = xnum_cmp (dx b1) (dx b2).
Proof.
  intros H1 H2. pose proof (law_from_binary64 b1 H1) as L1.
  pose proof (law_from_binary64 b2 H2) as L2. unfold bid_of.
  assert (forall b, doubleb b = true -> 0 <= b < 2 ^ 64) as Hr.
  { intros b. unfold doubleb. rewrite andb_true_iff, Z.leb_le, Z.ltb_lt. lia. }
  destruct (dx b1) eqn:E1; destruct (dx b2) eqn:E2;
    try (rewrite L1, ?L2; destruct L2 as (? & -> & ?); done);
    try (rewrite L2; destruct L1 as (? & -> & ?); done);
    try (rewrite L1, L2; done).
  destruct L1 as (z1 & Z1 & R1), L2 as (z2 & Z2 & R2). rewrite Z1, Z2, !xnum_cmp_fin.
  assert (dscaled b1 = units /\ dscaled b2 = units0) as [<- <-].
  { unfold dx in *. repeat case_match; simplify_eq; done. }
  pose proof (dscaled_gap b1 b2 (Hr b1 H1) (Hr b2 H2)) as G12.
  pose proof (dscaled_gap b2 b1 (Hr b2 H2) (Hr b1 H1)) as G21.
  destruct (Z.compare_spec (dscaled b1) (dscaled b2)) as [E|Hlt|Hlt].
  - apply Z.compare_eq_iff.
    destruct (dscaled_inj b1 b2 (Hr b1 H1) (Hr b2 H2) E) as [->|Hz].
    + congruence.
    + rewrite <- E, Hz in *. by rewrite (rounds_zero z1), (rounds_zero z2).
  - apply Z.compare_lt_iff. eapply rounds_lt; eauto.
  - apply Z.compare_gt_iff. eapply rounds_lt; eauto; lia.
Qed.

Lemma bid_of_int_double i b :
  in_int64 i = true -> doubleb b = true ->
  xnum_cmp (XFin (i * DEC_UNIT)) (dval (bid_of b)) = xnum_cmp (XFin (i * DSCALE)) (dx b).
Proof.
  intros Hi Hb. pose proof (law_from_binary64 b Hb) as Lb. unfold bid_of.
  destruct (dx b) as [| |a|] eqn:E; try (by rewrite Lb).
  destruct Lb as (z & -> & R). rewrite !xnum_cmp_fin.
  assert (dscaled b = a) as <-.
  { unfold dx in E. repeat case_match; simplify_eq; done. }
  unfold doubleb in Hb. rewrite andb_true_iff, Z.leb_le, Z.ltb_lt in Hb.
  unfold in_int64, INT64_MIN, INT64_MAX in Hi.
  apply int_rounds_cmp; [done|lia|]. intros Hne. apply int_double_gap; [done|lia|done].
Qed.

(** [CompareBsonDecimal128] orders decimals by value, NaN first; the
    comparison is invalid exactly when one operand only is a NaN. *)
Lemma compare_decimal128 a b :
  CompareBsonDecimal128 (V_Decimal128 a) (V_Decimal128 b) =
  Ok (match xnum_cmp (dval a) (dval b) with Eq => 0 | Lt => -1 | Gt => 1 end,
      Bool.eqb (is_xnan (dval a)) (is_xnan (dval b))).
Proof.
  unfold CompareBsonDecimal128, BIDUINT128SignalingEqual, IsDecimal128NaN. simpl.
  rewrite !law_isNaN.
  destruct (is_xnan (dval a)) eqn:Na, (is_xnan (dval b)) eqn:Nb; simpl;
    rewrite ?law_isNaN, ?Na; simpl.
  - by destruct (dval a), (dval b).
  - by destruct (dval a), (dval b).
  - by destruct (dval a), (dval b).
  - rewrite law_quiet_equal by (intros E; by rewrite E in *). simpl.
    pose proof (law_quiet_greater a b) as G.
    destruct (bid128_quiet_greater a b) as [g fl]. simpl in G.
    rewrite G by (intros E; by rewrite E in *).
    by destruct (xnum_cmp (dval a) (dval b)).
Qed.

(** [CompareBsonDecimal128] orders any two decimals by their values, NaN
    below every number and equal to itself; equal values with different
    encodings (1.0 and 1.00) are equal, and the comparison is flagged invalid
    exactly when one operand only is a NaN.  It raises no error. *)
Theorem decimal128_compare_by_value (a b : decimal128) :
  exists z, CompareBsonDecimal128 (V_Decimal128 a) (V_Decimal128 b) =
            Ok (z, Bool.eqb (is_xnan (dval a)) (is_xnan (dval b))) /\
            sgn_cmp z = xnum_cmp (dval a) (dval b).
Proof.
  rewrite compare_decimal128. eexists. split; [reflexivity|].
  by destruct (xnum_cmp (dval a) (dval b)).
Qed.

(** The range tests and the integrality test, on the value. *)
Lemma in_int64_range d :
  IsDecimal128InInt64Range (V_Decimal128 d) =
  Ok (match dval d with XFin z => in_int64 (Z.quot z DEC_UNIT) | _ => false end).
Proof.
  unfold IsDecimal128InInt64Range, IsDecimal128Finite. simpl. rewrite law_isFinite.
  pose proof (law_to_int64_xint d) as H. unfold converts in H.
  destruct (bid128_to_int64_xint d) as [i fl]. simpl in H.
  destruct (dval d); simpl; try done.
  destruct (in_int64 _); [destruct H as [_ ->]|rewrite H]; done.
Qed.

Lemma in_int32_range d :
  IsDecimal128InInt32Range (V_Decimal128 d) =
  Ok (match dval d with XFin z => in_int32 (Z.quot z DEC_UNIT) | _ => false end).
Proof.
  unfold IsDecimal128InInt32Range, IsDecimal128Finite. simpl. rewrite law_isFinite.
  pose proof (law_to_int32_xint d) as H. unfold converts in H.
  destruct (bid128_to_int32_xint d) as [i fl]. simpl in H.
  destruct (dval d); simpl; try done.
  destruct (in_int32 _); [destruct H as [_ ->]|rewrite H]; done.
Qed.

Lemma fixed_integer d :
  IsDecimal128AFixedInteger (V_Decimal128 d) =
  Ok (match dval d with
      | XFin z => in_int64 (z / DEC_UNIT) && (z / DEC_UNIT * DEC_UNIT =? z)
      | _ => false
      end).
Proof.
  unfold IsDecimal128AFixedInteger, Decimal128ToInt64Floor. simpl.
  pose proof (law_to_int64_floor d) as H. unfold converts in H.
  destruct (bid128_to_int64_floor d) as [i fl]. simpl in H.
  destruct (dval d) as [| |z|] eqn:Ed; try (by rewrite H).
  destruct (in_int64 (z / DEC_UNIT)) eqn:Hr; [|by rewrite H].
  destruct H as [-> ->]. cbn [result_bind].
  rewrite compare_decimal128. unfold GetDecimal128FromInt64.
  rewrite law_from_int64, Ed, xnum_cmp_fin by done. cbn [result_bind]. simpl. f_equal.
  destruct (Z.compare_spec z (z / DEC_UNIT * DEC_UNIT)) as [E|E|E]; symmetry.
  - rewrite <- E. apply Z.eqb_refl.
  - apply Z.eqb_neq. lia.
  - apply Z.eqb_neq. lia.
Qed.
End embedding.

(** ** An instance of the interface

    The library with every conversion of a double exact.  A double is an
    integer multiple of 10^-6176, so its value can be carried by a pair
    [(-1, bits)], which is not an encoding of any other decimal; the other
    words are decoded as the IEEE 754 binary integer significand format. *)
Module ExactBid.

Definition decode (d : decimal128) : xnum :=
  if d_high d =? -1 then
    match dx (d_low d) with
    | XFin a => XFin (a * (DEC_UNIT / DSCALE))
    | special => special
    end
  else if Z.land (d_high d) NAN_MASK64 =? NAN_MASK64 then XNaN
  else
    let neg := Z.testbit (d_high d) 63 in
    if Z.land (d_high d) INFINITY_MASK64 =? INFINITY_MASK64 then
      if neg then XNegInf else XPosInf
    else
      let e := Z.land (Z.shiftr (d_high d) 49) 0x3FFF in
      let c := Z.shiftl (Z.land (d_high d) (2 ^ 49 - 1)) 64 + d_low d in
      XFin ((if neg then -1 else 1) * c * 10 ^ e).

Definition of_int (z : Z) : decimal128 :=
  if z <? 0 then mk_decimal128 (2 ^ 63 + 6176 * 2 ^ 49) (- z)
  else mk_decimal128 (6176 * 2 ^ 49) z.

Definition to_int (integer : Z -> Z) (in_range : Z -> bool) (d : decimal128) : Z * bid_flags :=
  match decode d with
  | XFin z => if in_range (integer z) then (integer z, ALL_EXCEPTION_FLAG_CLEAR)
              else (0, only_invalid)
  | _ => (0, only_invalid)
  end.

#[export] Instance lib : BidLib := {
  bid128_isNaN d := is_xnan (decode d);
  bid128_isInf d := is_xinf (decode d);
  bid128_isFinite d := is_xfin (decode d);
  bid128_isZero d := bool_decide (decode d = XFin 0);
  bid128_quiet_equal a b :=
    (match xnum_cmp (decode a) (decode b) with Eq => true | _ => false end,
     ALL_EXCEPTION_FLAG_CLEAR);
  bid128_quiet_greater a b :=
    (match xnum_cmp (decode a) (decode b) with Gt => true | _ => false end,
     ALL_EXCEPTION_FLAG_CLEAR);
  bid128_from_int32 := of_int;
  bid128_from_int64 := of_int;
  binary64_to_bid128 b _ := (mk_decimal128 (-1) b, ALL_EXCEPTION_FLAG_CLEAR);
  bid128_to_binary64 d _ := (d_low d, ALL_EXCEPTION_FLAG_CLEAR);
  bid128_to_binary80 d _ := (decode d, ALL_EXCEPTION_FLAG_CLEAR);
  bid128_to_int32_xint := to_int (fun z => Z.quot z DEC_UNIT) in_int32;
  bid128_to_int32_xrnint := to_int (fun z => Z.quot z DEC_UNIT) in_int32;
  bid128_to_int64_xint := to_int (fun z => Z.quot z DEC_UNIT) in_int64;
  bid128_to_int64_xrnint := to_int (fun z => Z.quot z DEC_UNIT) in_int64;
  bid128_to_int64_floor := to_int (fun z => z / DEC_UNIT) in_int64;
  bid128_quantize d _ _ := (d, ALL_EXCEPTION_FLAG_CLEAR);
  ceil_log10_abs _ := 0;
}.

Lemma unit_ratio : DEC_UNIT / DSCALE * DSCALE = DEC_UNIT.
Proof.
  unfold DEC_UNIT, DSCALE. replace 10 with (5 * 2) by lia. rewrite Z.pow_mul_l.
  replace (2 ^ 6176) with (2 ^ 5102 * 2 ^ 1074)
    by (rewrite <- Z.pow_add_r by lia; f_equal; lia).
  rewrite Z.mul_assoc, Z.div_mul; [done|]. apply Z.pow_nonzero; lia.
Qed.

Lemma decode_int (c : Z) (neg : bool) :
  decode (mk_decimal128 ((if neg then 2 ^ 63 else 0) + 6176 * 2 ^ 49) c)
  = XFin ((if neg then -1 else 1) * c * DEC_UNIT).
Proof. destruct neg; reflexivity. Qed.

Lemma of_int_value z : decode (of_int z) = XFin (z * DEC_UNIT).
Proof.
  unfold of_int. destruct (z <? 0).
  - etransitivity; [apply (decode_int (- z) true)|]. f_equal. lia.
  - etransitivity; [apply (decode_int z false)|]. f_equal. lia.
Qed.

Lemma to_int_converts integer in_range d :
  converts (decode d) integer in_range (to_int integer in_range d).
Proof. unfold converts, to_int. by repeat case_match. Qed.

#[export] Program Instance laws : BidLaws lib := { dval := decode }.
Next Obligation. done. Qed.
Next Obligation. done. Qed.
Next Obligation. done. Qed.
Next Obligation. done. Qed.
Next Obligation. done. Qed.
Next Obligation. done. Qed.
Next Obligation. intros. apply of_int_value. Qed.
Next Obligation. intros. apply of_int_value. Qed.
Next Obligation. intros c Hc. etransitivity; [apply (decode_int c false)|]. f_equal. lia. Qed.
Next Obligation.
  intros b Hb. unfold decode. simpl. destruct (dx b) as [| |a|] eqn:E; try done.
  exists (a * (DEC_UNIT / DSCALE)). split; [done|]. unfold rounds_to.
  rewrite <- Z.mul_assoc, unit_ratio. split; [|done].
  rewrite Z.sub_diag. pose proof DEC_UNIT_pos. change (Z.abs 0) with 0. nia.
Qed.
Next Obligation. intros. apply to_int_converts. Qed.
Next Obligation. intros. apply to_int_converts. Qed.
Next Obligation. intros. apply to_int_converts. Qed.

End ExactBid.
