(* ===== verification/Collation.v ===== *)
(** * Collation: [pg_documentdb_core/src/collation/collation.c]

    The tests that decide whether a collation string applies, and the
    collation-aware string comparison and sort key.  ICU is not part of the
    repository: the collator lookup, [ucol_strcollUTF8] and [ucol_getSortKey]
    are the class [Icu], and what its documentation promises is [IcuLaws]: on
    the strings of one collator the comparison is a total preorder, and two
    strings have the same sort key exactly when they compare equal. *)

From stdpp Require Import base numbers list option gmap.
From Stdlib Require Import ZArith Lia.
From S2P Require Import Prelude Binary64 Bson StringView.

Class Icu : Type := {
  collator : Type;
  (** [None] when [U_FAILURE(status)] *)
  ucol_open : bytes -> option collator;
  (** -1, 0 or 1, or [None] when [U_FAILURE(status)] *)
  ucol_strcollUTF8 : collator -> bytes -> bytes -> option Z;
  (** the UTF-16 code units, or [None] when [U_FAILURE(status)] *)
  ucnv_toUChars : bytes -> option (list Z);
  (** the sort key with its terminating zero *)
  ucol_getSortKey : collator -> list Z -> bytes;
}.

Class IcuLaws (I : Icu) : Type := {
  icu_order : collator -> bytes -> bytes -> comparison;
  icu_order_total : forall c, TotalCmp (icu_order c);
  icu_open : forall s, is_Some (ucol_open s);
  icu_strcoll : forall c l r, exists z,
    ucol_strcollUTF8 c l r = Some z /\ sgn_cmp z = icu_order c l r;
  icu_uchars : forall s, is_Some (ucnv_toUChars s);
  icu_sort_key : forall c u, exists k, ucol_getSortKey c u = k ++ [0];
  icu_sort_key_eq : forall c l r ul ur,
    ucnv_toUChars l = Some ul -> ucnv_toUChars r = Some ur ->
    ucol_getSortKey c ul = ucol_getSortKey c ur <-> icu_order c l r = Eq;
}.
#[export] Existing Instance icu_order_total.

Definition IsCollationValid (collationString : option bytes) : bool :=
  match collationString with
  | Some c => 2 <? strlen c
  | None => false
  end.

(** [EnableCollation] is the configuration variable of that name. *)
Definition IsCollationApplicable (EnableCollation : bool)
  (collationString : option bytes) : bool :=
  EnableCollation && IsCollationValid collationString.

Definition IsBsonTypeCollationAware (type : bson_type) : bool :=
  type_eqb type BSON_TYPE_UTF8 || type_eqb type BSON_TYPE_DOCUMENT ||
  type_eqb type BSON_TYPE_ARRAY || type_eqb type BSON_TYPE_SYMBOL.

(** ** The collator cache

    A backend keeps the collators it has opened in a hash table keyed by the
    [djb2] hash of the collation string (the string itself is not stored).
    [hash_search] with [HASH_ENTER] creates the entry before the collator is
    opened, with its payload uninitialized: [Uninitialized] is that payload. *)

(** One character of [djb2]: [hash * 33 + c] on [unsigned long], [c] a signed
    character. *)
Fixpoint djb2_loop (str : bytes) (hash : Z) : Z :=
  match str with
  | [] => hash
  | c :: str' =>
      if c =? 0 then hash
      else djb2_loop str' (uint64 (uint64 (uint64 (Z.shiftl hash 5) + hash) + schar c))
  end.

Definition djb2 (str : bytes) : Z := djb2_loop str 5381.

Section collation.
Context {I : Icu}.

Inductive cached : Type := Uninitialized | Opened (c : collator).

Abbreviation collation_cache := (gmap Z cached).

(** The table after the call, and the payload of the entry returned. *)
Definition LookupUCollatorCache (cache : collation_cache) (collationString : bytes)
  : collation_cache * result cached :=
  let collationKey := djb2 collationString in
  match cache !! collationKey with
  | Some entry => (cache, Ok entry)
  | None =>
      match ucol_open collationString with
      | None => (<[collationKey := Uninitialized]> cache, Err ERRCODE_DOCUMENTDB_INTERNALERROR)
      | Some c => (<[collationKey := Opened c]> cache, Ok (Opened c))
      end
  end.

(** A sequence of lookups in one backend, each with its own outcome. *)
Fixpoint lookups (cache : collation_cache) (strings : list bytes)
  : collation_cache * list (result cached) :=
  match strings with
  | [] => (cache, [])
  | s :: rest =>
      let '(cache1, r) := LookupUCollatorCache cache s in
      let '(cache2, rs) := lookups cache1 rest in
      (cache2, r :: rs)
  end.

(** The outcome without a cache: opening the collator for every call. *)
Definition open_collator (collationString : bytes) : result collator :=
  match ucol_open collationString with
  | Some c => Ok c
  | None => Err ERRCODE_DOCUMENTDB_INTERNALERROR
  end.

(** The entries of the table belong to strings of [known]. *)
Definition cache_ok (known : list bytes) (cache : collation_cache) : Prop :=
  forall k e, cache !! k = Some e ->
  exists s c, s ∈ known /\ djb2 s = k /\ ucol_open s = Some c /\ e = Opened c.

Lemma lookup_transparent known cache s c :
  cache_ok known cache -> ucol_open s = Some c ->
  (forall t, t ∈ known -> djb2 t = djb2 s -> t = s) ->
  snd (LookupUCollatorCache cache s) = Ok (Opened c) /\
  cache_ok (s :: known) (fst (LookupUCollatorCache cache s)).
Proof.
  intros Hc Ho Hinj. unfold LookupUCollatorCache.
  destruct (cache !! djb2 s) as [e|] eqn:E.
  - destruct (Hc _ _ E) as (t & c' & Ht & Hd & Ht' & ->).
    apply Hinj in Hd; [|done]. subst t. simplify_eq. split; [done|].
    intros k e' Hk. destruct (Hc k e' Hk) as (t & c' & ? & ? & ? & ?).
    exists t, c'. split; [by apply list_elem_of_further|done].
  - rewrite Ho. split; [done|]. simpl. intros k e Hk.
    apply lookup_insert_Some in Hk as [[<- <-]|[_ Hk]].
    + exists s, c. split; [apply list_elem_of_here|done].
    + destruct (Hc k e Hk) as (t & c' & ? & ? & ? & ?).
      exists t, c'. split; [by apply list_elem_of_further|done].
Qed.

Lemma lookups_transparent strings known cache :
  cache_ok known cache ->
  (forall s, s ∈ strings -> is_Some (ucol_open s)) ->
  (forall s t, s ∈ strings ++ known -> t ∈ strings ++ known -> djb2 t = djb2 s -> t = s) ->
  snd (lookups cache strings) = map (fun s => let! c := open_collator s in Ok (Opened c)) strings.
Proof.
  revert known cache. induction strings as [|s strings IH]; intros known cache Hc Ho Hinj;
    [done|]. simpl.
  destruct (Ho s) as [c Hs]; [apply list_elem_of_here|].
  destruct (lookup_transparent known cache s c Hc Hs) as [Hr Hc'].
  { intros t Ht. apply Hinj; rewrite elem_of_app; rewrite ?elem_of_cons; auto. }
  destruct (LookupUCollatorCache cache s) as [cache1 r] eqn:E1.
  specialize (IH (s :: known) cache1 Hc').
  destruct (lookups cache1 strings) as [cache2 rs]. simpl in *.
  rewrite Hr. unfold open_collator at 1. rewrite Hs. simpl. f_equal. apply IH.
  - intros t Ht. apply Ho. by apply list_elem_of_further.
  - intros t u Ht Hu. apply Hinj; revert Ht Hu;
      rewrite ?elem_of_app, ?elem_of_cons, ?elem_of_app; tauto.
Qed.

(** The collator cache is transparent for a backend that only uses
    collations that ICU can open and whose [djb2] hashes differ: every lookup
    of a sequence that starts with an empty cache delivers the collator that
    [ucol_open] delivers for that string. *)
Theorem collator_cache_transparent (strings : list bytes) :
  (forall s, s ∈ strings -> is_Some (ucol_open s)) ->
  (forall s t, s ∈ strings -> t ∈ strings -> djb2 t = djb2 s -> t = s) ->
  snd (lookups ∅ strings) =
  map (fun s => let! c := open_collator s in Ok (Opened c)) strings.
Proof.
  intros Ho Hinj. apply (lookups_transparent strings []); [|done|].
  - intros k e. by rewrite lookup_empty.
  - rewrite app_nil_r. done.
Qed.

(** ** Comparison and sort key *)

Definition StringCompareWithCollation (left right : bytes) (collationStr : bytes) : result Z :=
  let! c := open_collator collationStr in
  match ucol_strcollUTF8 c left right with
  | Some result => Ok result
  | None => Err ERRCODE_DOCUMENTDB_INTERNALERROR
  end.

Definition icu_to_uchar_core (buff : bytes) : result (list Z) :=
  match ucnv_toUChars buff with
  | Some uchar => Ok uchar
  | None => Err ERRCODE_INTERNAL_ERROR
  end.

(** The bytes the caller reads, [sortKey[0 .. keyLength - 1)]; whether they are
    in the scratch buffer or in an allocated one does not change them. *)
Definition GetCollationSortKey (collationString string : bytes) : result bytes :=
  let! c := open_collator collationString in
  let! uchar := icu_to_uchar_core string in
  let key := ucol_getSortKey c uchar in
  if blen key <=? 0 then Err ERRCODE_DOCUMENTDB_INTERNALERROR
  else Ok (take (length key - 1) key).

(** The order of a collation string: that of its collator. *)
Definition collation_order {IL : IcuLaws I} (s : bytes) : bytes -> bytes -> comparison :=
  match ucol_open s with
  | Some c => icu_order c
  | None => fun _ _ => Eq
  end.

#[export] Instance collation_order_total {IL : IcuLaws I} s : TotalCmp (collation_order s).
Proof. unfold collation_order. destruct (ucol_open s); apply _. Qed.

Lemma string_compare_ok {IL : IcuLaws I} coll l r :
  exists z, StringCompareWithCollation l r coll = Ok z /\ sgn_cmp z = collation_order coll l r.
Proof.
  unfold StringCompareWithCollation, collation_order, open_collator.
  destruct (icu_open coll) as [c ->]. simpl.
  destruct (icu_strcoll c l r) as (z & -> & E). by exists z.
Qed.

Lemma sort_key_nonempty (k : bytes) : (blen (k ++ [0]) <=? 0) = false.
Proof. apply Z.leb_gt. unfold blen. rewrite length_app. simpl. lia. Qed.

Lemma sort_key_ok {IL : IcuLaws I} coll l :
  exists k, GetCollationSortKey coll l = Ok k.
Proof.
  unfold GetCollationSortKey, open_collator, icu_to_uchar_core.
  destruct (icu_open coll) as [c ->], (icu_uchars l) as [u ->]. simpl.
  destruct (icu_sort_key c u) as [k ->].
  rewrite sort_key_nonempty. by eexists.
Qed.

(** Two strings have the same sort key exactly when they compare equal. *)
Lemma sort_key_equal {IL : IcuLaws I} coll l r :
  GetCollationSortKey coll l = GetCollationSortKey coll r <-> collation_order coll l r = Eq.
Proof.
  unfold GetCollationSortKey, collation_order, open_collator, icu_to_uchar_core.
  destruct (icu_open coll) as [c ->], (icu_uchars l) as [ul Hl], (icu_uchars r) as [ur Hr].
  rewrite Hl, Hr. simpl. rewrite <- (icu_sort_key_eq c l r ul ur Hl Hr).
  destruct (icu_sort_key c ul) as [kl ->], (icu_sort_key c ur) as [kr ->].
  rewrite !sort_key_nonempty, !length_app. simpl. rewrite !Nat.add_sub, !take_app_length.
  split; [by intros [= ->]|]. by intros [-> _]%app_inj_tail.
Qed.
End collation.

(** ** An instance: the collator that folds ASCII case (strength 2 without
    accents), whose sort key is the folded string. *)
Module FoldCase.

Definition fold_byte (b : Z) : Z := if (65 <=? b) && (b <=? 90) then b + 32 else b.
Definition fold (l : bytes) : bytes := map fold_byte l.

Definition to_int (c : comparison) : Z := match c with Lt => -1 | Eq => 0 | Gt => 1 end.

#[export] Instance icu : Icu := {
  collator := unit;
  ucol_open _ := Some tt;
  ucol_strcollUTF8 _ l r := Some (to_int (bytes_cmp (fold l) (fold r)));
  ucnv_toUChars l := Some l;
  ucol_getSortKey _ u := fold u ++ [0];
}.

#[export] Program Instance icu_laws : IcuLaws icu := {
  icu_order _ := cmp_on fold bytes_cmp
}.
Next Obligation. intros s. by exists tt. Qed.
Next Obligation.
  intros c l r. exists (to_int (bytes_cmp (fold l) (fold r))). split; [done|].
  unfold cmp_on. by destruct (bytes_cmp _ _).
Qed.
Next Obligation. intros s. by exists s. Qed.
Next Obligation. intros c u. by eexists. Qed.
Next Obligation.
  intros c l r ul ur [= <-] [= <-]. unfold cmp_on. rewrite bytes_cmp_eq. simpl. split.
  - by intros [-> _]%app_inj_tail.
  - by intros ->.
Qed.
End FoldCase.

(** ** The cache on a collision and after a failure *)

(** A library that opens a collator, named by the string itself, for any
    string but the empty one. *)
Definition NamedIcu : Icu := {|
  collator := bytes;
  ucol_open s := match s with [] => None | _ => Some s end;
  ucol_strcollUTF8 _ l r := Some (FoldCase.to_int (bytes_cmp l r));
  ucnv_toUChars l := Some l;
  ucol_getSortKey _ u := u ++ [0];
|}.

Lemma collator_cache_transparent_witness :
  snd (lookups (I := NamedIcu) ∅ [[101; 110]; [102; 114]; [101; 110]]) =
  [Ok (Opened (I := NamedIcu) [101; 110]); Ok (Opened (I := NamedIcu) [102; 114]);
   Ok (Opened (I := NamedIcu) [101; 110])].
Proof.
  refine (collator_cache_transparent (I := NamedIcu) [[101; 110]; [102; 114]; [101; 110]] _ _).
  - intros s Hs. rewrite !elem_of_cons, elem_of_nil in Hs.
    destruct Hs as [->|[->|[->|[]]]]; by eexists.
  - intros s t Hs Ht. rewrite !elem_of_cons, elem_of_nil in Hs, Ht.
    destruct Hs as [->|[->|[->|[]]]], Ht as [->|[->|[->|[]]]]; vm_compute; congruence.
Defined.

(** Two collation strings with the same hash share one cache entry: "fr"
    followed by "gQ" (which [djb2] maps to the same key) delivers the collator
    of "fr" for both, not a second cache entry. *)
Theorem collator_cache_collision :
  djb2 [102; 114] = djb2 [103; 81] /\
  snd (lookups (I := NamedIcu) ∅ [[102; 114]; [103; 81]]) =
  [Ok (Opened (I := NamedIcu) [102; 114]); Ok (Opened (I := NamedIcu) [102; 114])].
Proof. split; vm_compute; reflexivity. Qed.

(** A collation string that ICU refuses leaves an entry behind whose
    collator was never set: the first lookup raises an error, the second one
    succeeds and delivers the uninitialized entry. *)
Theorem collator_cache_after_failure {I : Icu} (cache : gmap Z cached) (s : bytes) :
  ucol_open s = None -> cache !! djb2 s = None ->
  snd (lookups cache [s; s]) =
  [Err ERRCODE_DOCUMENTDB_INTERNALERROR; Ok Uninitialized].
Proof.
  intros Ho Hc. simpl. unfold LookupUCollatorCache at 1. rewrite Hc, Ho.
  unfold LookupUCollatorCache. by rewrite lookup_insert_eq.
Qed.

Lemma collator_cache_after_failure_witness :
  snd (lookups (I := NamedIcu) ∅ [[]; []]) =
  [Err ERRCODE_DOCUMENTDB_INTERNALERROR; Ok (Uninitialized (I := NamedIcu))].
Proof. by apply (collator_cache_after_failure (I := NamedIcu)). Defined.
