(* ===== verification/BsonCompare.v ===== *)
(** * Ordering of BSON values: [pg_documentdb_core/src/query/bson_compare.c]

    The comparison that backs the B-tree operator class of the [bson] type,
    every [$sort] and the query operators: values are ordered by the class of
    their type, then by a comparison specific to the class, documents and
    arrays field by field.  The numeric conversions and tests of the same
    file come with it.  The theorems show that the comparison never fails on
    well-formed values and is a total preorder (the contract of a B-tree
    operator class), by refinement of a specification that is one by
    construction, and what the numeric tests and conversions compute. *)

From stdpp Require Import base numbers list option.
From Stdlib Require Import ZArith Lia.
From S2P Require Import Prelude Binary64 Bson StringView Decimal128 Collation.

(** ** Order classes *)

Definition GetSortOrderType (type : bson_type) : Z :=
  match type with
  | BSON_TYPE_EOD | BSON_TYPE_MINKEY => 0x0
  | BSON_TYPE_UNDEFINED | BSON_TYPE_NULL => 0x1
  | BSON_TYPE_DOUBLE | BSON_TYPE_INT32 | BSON_TYPE_INT64 | BSON_TYPE_DECIMAL128 => 0x2
  | BSON_TYPE_UTF8 | BSON_TYPE_SYMBOL => 0x3
  | BSON_TYPE_DOCUMENT => 0x4
  | BSON_TYPE_ARRAY => 0x5
  | BSON_TYPE_BINARY => 0x6
  | BSON_TYPE_OID => 0x7
  | BSON_TYPE_BOOL => 0x8
  | BSON_TYPE_DATE_TIME => 0x9
  | BSON_TYPE_TIMESTAMP => 0xA
  | BSON_TYPE_REGEX => 0xB
  | BSON_TYPE_DBPOINTER => 0xC
  | BSON_TYPE_CODE => 0xD
  | BSON_TYPE_CODEWSCOPE => 0xE
  | BSON_TYPE_MAXKEY => 0xF
  end.

Definition CompareSortOrderType (left right : bson_type) : Z :=
  GetSortOrderType left - GetSortOrderType right.

Definition CompareBsonSortOrderType (left right : bson_value) : Z :=
  CompareSortOrderType (value_type left) (value_type right).

(** ** Type and value tests *)

Definition BsonTypeIsNumber (type : bson_type) : bool :=
  match type with
  | BSON_TYPE_DOUBLE | BSON_TYPE_INT64 | BSON_TYPE_INT32 | BSON_TYPE_DECIMAL128 => true
  | _ => false
  end.

Definition BsonTypeIsNumberOrBool (type : bson_type) : bool :=
  match type with
  | BSON_TYPE_BOOL | BSON_TYPE_DOUBLE | BSON_TYPE_INT64 | BSON_TYPE_INT32
  | BSON_TYPE_DECIMAL128 => true
  | _ => false
  end.

Definition BsonValueIsNumber (value : bson_value) : bool := BsonTypeIsNumber (value_type value).

Definition IsBsonValueDateTimeFormat (valueType : bson_type) : bool :=
  type_eqb valueType BSON_TYPE_DATE_TIME || type_eqb valueType BSON_TYPE_TIMESTAMP ||
  type_eqb valueType BSON_TYPE_OID.

Definition MillisecondsInSecond : Z := 1000.

(** [bson_oid_get_time_t]: the first four bytes, big-endian. *)
Definition bson_oid_get_time_t (oid : bytes) : Z :=
  match oid with
  | a :: b :: c :: d :: _ => ((a * 256 + b) * 256 + c) * 256 + d
  | _ => 0
  end.

Definition BsonValueAsDateTime (value : bson_value) : result Z :=
  match value with
  | V_DateTime z => Ok z
  | V_Timestamp t _ => Ok (int64 (t * MillisecondsInSecond))
  | V_Oid oid => Ok (int64 (bson_oid_get_time_t oid * MillisecondsInSecond))
  | _ => Err ERRCODE_DOCUMENTDB_LOCATION16006
  end.

Section numbers.
Context {L : BidLib}.

Definition BsonValueAsDoubleCore (value : bson_value) (quiet : bool) : result double :=
  match value with
  | V_Bool b => Ok (double_of_int (Z.b2z b))
  | V_Double d => Ok d
  | V_Int32 z | V_Int64 z | V_DateTime z => Ok (double_of_int z)
  | V_Decimal128 _ =>
      if quiet then GetBsonDecimal128AsDoubleQuiet value else GetBsonDecimal128AsDouble value
  | _ => Ok 0
  end.

Definition BsonValueAsDouble (value : bson_value) : result double :=
  BsonValueAsDoubleCore value false.

Definition BsonValueAsDoubleQuiet (value : bson_value) : result double :=
  BsonValueAsDoubleCore value true.

Definition IsBsonValue64BitIntegerCore (value : bson_value)
  (checkFixedInteger quantizeDoubleValue : bool) : result bool :=
  match value with
  | V_Int32 _ | V_Int64 _ => Ok true
  | V_Double _ =>
      let! d := if quantizeDoubleValue then GetBsonValueAsDecimal128Quantized value
                else GetBsonValueAsDecimal128 value in
      let dec128Val := V_Decimal128 d in
      let! inRange := IsDecimal128InInt64Range dec128Val in
      if negb inRange then Ok false
      else if negb checkFixedInteger then Ok true
      else IsDecimal128AFixedInteger dec128Val
  | V_Decimal128 _ =>
      let! inRange := IsDecimal128InInt64Range value in
      if negb inRange then Ok false
      else if negb checkFixedInteger then Ok true
      else IsDecimal128AFixedInteger value
  | _ => Ok false
  end.

Definition IsBsonValue64BitInteger (value : bson_value) (checkFixedInteger : bool) :=
  IsBsonValue64BitIntegerCore value checkFixedInteger true.

Definition IsBsonValueUnquantized64BitInteger (value : bson_value) (checkFixedInteger : bool) :=
  IsBsonValue64BitIntegerCore value checkFixedInteger false.

Definition IsBsonValue32BitInteger (value : bson_value) (checkFixedInteger : bool)
  : result bool :=
  match value with
  | V_Int32 _ => Ok true
  | V_Double doubleVal =>
      Ok (d_le doubleVal (double_of_int INT32_MAX) &&
          d_le (double_of_int INT32_MIN) doubleVal &&
          (negb checkFixedInteger || d_eq (d_floor doubleVal) doubleVal))
  | V_Int64 z => Ok (int32 z =? z)
  | V_Decimal128 _ =>
      let! inRange := IsDecimal128InInt32Range value in
      if negb inRange then Ok false
      else if negb checkFixedInteger then Ok true
      else IsDecimal128AFixedInteger value
  | _ => Ok false
  end.

Definition IsBsonValueFixedInteger (value : bson_value) : result bool :=
  match value with
  | V_Int32 _ | V_Int64 _ => Ok true
  | V_Double _ | V_Decimal128 _ =>
      let! d := GetBsonValueAsDecimal128 value in
      IsDecimal128AFixedInteger (V_Decimal128 d)
  | _ => Ok false
  end.

Definition IsBsonValueNegativeNumber (value : bson_value) : bool :=
  if negb (BsonTypeIsNumber (value_type value)) then false
  else
    match value with
    | V_Int32 z | V_Int64 z => z <? 0
    | V_Double d => d_lt d 0
    | V_Decimal128 d => 0 <? Z.land (d_high d) (Z.shiftl 1 63)
    | _ => false
    end.

Definition IsBsonValueNaN (value : bson_value) : result bool :=
  match value with
  | V_Decimal128 _ => IsDecimal128NaN value
  | V_Double _ => let! d := BsonValueAsDouble value in Ok (isnan d)
  | _ => Ok false
  end.

Definition IsBsonValueInfinity (value : bson_value) : result Z :=
  match value with
  | V_Decimal128 _ =>
      let! inf := IsDecimal128Infinity value in
      match inf with
      | Some isPositiveInfinity => Ok (if isPositiveInfinity then 1 else -1)
      | None => Ok 0
      end
  | V_Double _ =>
      let! doubleValue := BsonValueAsDouble value in
      if d_eq doubleValue INF_BITS then Ok 1
      else if d_eq doubleValue (UINT64_MSB + INF_BITS) then Ok (-1)
      else Ok 0
  | _ => Ok 0
  end.

Definition BsonValueAsInt64WithRoundingMode (value : bson_value)
  (roundingMode : ConversionRoundingMode) (throwIfFailed : bool) : result Z :=
  let! _ :=
    if throwIfFailed then
      if negb (BsonValueIsNumber value) then Err ERRCODE_DOCUMENTDB_LOCATION16004
      else
        let! isInt := IsBsonValue64BitInteger value false in
        if negb isInt then Err ERRCODE_DOCUMENTDB_LOCATION31109 else Ok tt
    else Ok tt in
  match value with
  | V_Bool b => Ok (Z.b2z b)
  | V_Double d =>
      match roundingMode with
      | ConversionRoundingMode_NearestEven => Ok (cast_Z_int64 (isnan d) (d_round d))
      | ConversionRoundingMode_Floor => Ok (cast_int64 d)
      end
  | V_Int64 z | V_DateTime z | V_Int32 z => Ok z
  | V_Decimal128 _ => GetBsonDecimal128AsInt64 value roundingMode
  | _ => Ok 0
  end.

Definition BsonValueAsInt64 (value : bson_value) : result Z :=
  BsonValueAsInt64WithRoundingMode value ConversionRoundingMode_Floor false.

Definition BsonValueAsInt32WithRoundingMode (value : bson_value)
  (roundingMode : ConversionRoundingMode) : result Z :=
  match value with
  | V_Bool b => Ok (Z.b2z b)
  | V_Double d =>
      match roundingMode with
      | ConversionRoundingMode_NearestEven => Ok (cast_Z_int32 (isnan d) (d_round d))
      | ConversionRoundingMode_Floor => Ok (cast_int32 d)
      end
  | V_Int64 z => Ok (int32 z)
  | V_Int32 z => Ok z
  | V_Decimal128 _ => GetBsonDecimal128AsInt32 value roundingMode
  | _ => Ok 0
  end.

Definition BsonValueAsInt32 (value : bson_value) : result Z :=
  BsonValueAsInt32WithRoundingMode value ConversionRoundingMode_Floor.

Definition BsonValueAsInt32Clamped (value : bson_value) : result Z :=
  let! valueDouble := BsonValueAsDoubleQuiet value in
  if isnan valueDouble then Ok 0
  else if d_le (double_of_int INT32_MAX) valueDouble then Ok INT32_MAX
  else if d_le valueDouble (double_of_int INT32_MIN) then Ok INT32_MIN
  else
    match value with
    | V_Decimal128 _ =>
        let! z := GetBsonDecimal128AsInt64 value ConversionRoundingMode_NearestEven in
        Ok (int32 z)
    | _ => let! z := BsonValueAsInt64 value in Ok (int32 z)
    end.

Definition BsonValueAsBool (value : bson_value) : result bool :=
  match value with
  | V_Bool b => Ok b
  | V_Double d => Ok (negb (d_eq d 0))
  | V_Int32 z | V_Int64 z => Ok (negb (z =? 0))
  | V_Decimal128 _ => let! zero := IsDecimal128Zero value in Ok (negb zero)
  | V_Null | V_Eod | V_Undefined => Ok false
  | _ => Ok true
  end.

(** ** Comparison of numbers

    A [long double] (the 80-bit format on x86-64) has a 64-bit significand and
    an exponent range that contains that of a double, so doubles and 64-bit
    integers convert to it without rounding.  Its values are counted in units
    of 2^-16445, its smallest denormal. *)
Definition LDSCALE : Z := 2 ^ 16445.

Definition long_double_of_double (d : double) : xnum :=
  match dx d with
  | XFin a => XFin (a * 2 ^ (16445 - 1074))
  | special => special
  end.

Definition BsonNumberAsLongDouble (value : bson_value) : result xnum :=
  match value with
  | V_Bool b => Ok (XFin (Z.b2z b * LDSCALE))
  | V_Double d => Ok (long_double_of_double d)
  | V_Int32 z | V_Int64 z => Ok (XFin (z * LDSCALE))
  | V_Decimal128 _ => GetBsonDecimal128AsLongDouble value
  | _ => Ok (XFin 0)
  end.

(** [left > right ? 1 : (left == right ? 0 : -1)] *)
Definition three_way (c : comparison) : Z :=
  match c with Gt => 1 | Eq => 0 | Lt => -1 end.

(** The comparison and its [isComparisonValid] output. *)
Definition CompareNumbers (leftValue rightValue : bson_value) : result (Z * bool) :=
  let is_decimal v := type_eqb (value_type v) BSON_TYPE_DECIMAL128 in
  let is_double v := type_eqb (value_type v) BSON_TYPE_DOUBLE in
  if is_decimal leftValue || is_decimal rightValue then
    let! leftDecimal := GetBsonValueAsDecimal128 leftValue in
    let! rightDecimal := GetBsonValueAsDecimal128 rightValue in
    CompareBsonDecimal128 (V_Decimal128 leftDecimal) (V_Decimal128 rightDecimal)
  else if is_double leftValue || is_double rightValue then
    let! leftVal := BsonNumberAsLongDouble leftValue in
    let! rightVal := BsonNumberAsLongDouble rightValue in
    if is_xnan leftVal || is_xnan rightVal then
      if is_xnan leftVal && is_xnan rightVal then Ok (0, true)
      else if is_xnan leftVal then Ok (-1, false)
      else Ok (1, false)
    else Ok (three_way (xnum_cmp leftVal rightVal), true)
  else
    let! leftVal := BsonValueAsInt64 leftValue in
    let! rightVal := BsonValueAsInt64 rightValue in
    Ok (three_way (leftVal ?= rightVal), true).

(** ** Comparison of values *)

Context {I : Icu}.

Definition CompareStrings (left : bytes) (leftLength : Z) (right : bytes) (rightLength : Z)
  (collationString : option bytes) : result Z :=
  let minLength := if leftLength <? rightLength then leftLength else rightLength in
  if minLength =? 0 then Ok (int32 (uint32 (leftLength - rightLength)))
  else
    match (if IsCollationValid collationString then collationString else None) with
    | None =>
        let cmp := memcmp (take (Z.to_nat minLength) left) (take (Z.to_nat minLength) right) in
        if negb (cmp =? 0) then Ok cmp
        else Ok (int32 (uint32 (leftLength - rightLength)))
    | Some coll => StringCompareWithCollation left right coll
    end.

(** The loop over two iterators, given the comparison of values. *)
Definition CompareBsonIter_with
  (CompareBsonValue : bson_value -> bson_value -> result (Z * bool)) (compareFields : bool)
  : bson_doc -> bson_doc -> result Z :=
  fix loop leftIter rightIter :=
    match leftIter, rightIter with
    | [], [] => Ok 0
    | _ :: _, [] => Ok 1
    | [], _ :: _ => Ok (-1)
    | (leftKey, leftValue) :: leftIter', (rightKey, rightValue) :: rightIter' =>
        let leftLength := if compareFields then blen leftKey else 0 in
        let rightLength := if compareFields then blen rightKey else 0 in
        let cmp := CompareBsonSortOrderType leftValue rightValue in
        if negb (cmp =? 0) then Ok cmp
        else
          let! cmp := CompareStrings leftKey leftLength rightKey rightLength None in
          if negb (cmp =? 0) then Ok cmp
          else
            let! (cmp, _) := CompareBsonValue leftValue rightValue in
            if negb (cmp =? 0) then Ok cmp
            else loop leftIter' rightIter'
    end.

(** [bson_oid_compare]: the twelve bytes. *)
Definition bson_oid_compare (left right : bytes) : Z := memcmp left right.

(** The comparison and its [isComparisonValid] output.  The payload of the
    right value is read through the union member of the left type: the two
    agree, since the order classes do and strings and symbols share their
    layout; [unreachable] stands for the pairs the class test excludes. *)
Fixpoint CompareBsonValue (left right : bson_value) (collationString : option bytes)
  {struct left} : result (Z * bool) :=
  let valid (r : result Z) := let! cmp := r in Ok (cmp, true) in
  let unreachable := Err ERRCODE_INTERNAL_ERROR in
  if negb (CompareBsonSortOrderType left right =? 0) then Err ERRCODE_INTERNAL_ERROR
  else
    match left with
    | V_Eod | V_MinKey | V_Undefined | V_Null | V_MaxKey => Ok (0, true)
    | V_Double _ | V_Int32 _ | V_Int64 _ | V_Decimal128 _ | V_Bool _ =>
        CompareNumbers left right
    | V_Utf8 l | V_Symbol l =>
        match right with
        | V_Utf8 r | V_Symbol r =>
            valid (CompareStrings l (blen l) r (blen r) collationString)
        | _ => unreachable
        end
    | V_Document l | V_Array l =>
        match right with
        | V_Document r | V_Array r =>
            valid (CompareBsonIter_with
                     (fun a b => CompareBsonValue a b collationString) true l r)
        | _ => unreachable
        end
    | V_Binary leftSubType leftInner =>
        match right with
        | V_Binary rightSubType rightInner =>
            let leftLen := blen leftInner in
            let rightLen := blen rightInner in
            if negb (leftLen =? rightLen) then Ok (int32 (uint32 (leftLen - rightLen)), true)
            else if negb (leftSubType =? rightSubType)
            then Ok (leftSubType - rightSubType, true)
            else Ok (memcmp leftInner rightInner, true)
        | _ => unreachable
        end
    | V_Oid l =>
        match right with V_Oid r => Ok (bson_oid_compare l r, true) | _ => unreachable end
    | V_DateTime leftVal =>
        match right with
        | V_DateTime rightVal => Ok (three_way (leftVal ?= rightVal), true)
        | _ => unreachable
        end
    | V_Timestamp lt li =>
        match right with
        | V_Timestamp rt ri =>
            if negb (lt =? rt) then Ok (if rt <? lt then 1 else -1, true)
            else Ok (three_way (li ?= ri), true)
        | _ => unreachable
        end
    | V_Regex lr lo =>
        match right with
        | V_Regex rr ro =>
            match lr, rr with
            | Some lregex, Some rregex =>
                let cmp := strcmp lregex rregex in
                if negb (cmp =? 0) then Ok (cmp, true)
                else
                  match lo, ro with
                  | Some loptions, Some roptions => Ok (strcmp loptions roptions, true)
                  | _, _ => Ok (match lo with Some _ => 1 | None => -1 end, true)
                  end
            | _, _ => Ok (match lr with Some _ => 1 | None => -1 end, true)
            end
        | _ => unreachable
        end
    | V_Code l =>
        match right with
        | V_Code r => valid (CompareStrings l (blen l) r (blen r) None)
        | _ => unreachable
        end
    | V_CodeWScope lc l =>
        match right with
        | V_CodeWScope rc r =>
            let! cmp := CompareStrings lc (blen lc) rc (blen rc) None in
            if negb (cmp =? 0) then Ok (cmp, true)
            else
              valid (CompareBsonIter_with (fun a b => CompareBsonValue a b None) true l r)
        | _ => unreachable
        end
    | V_DbPointer lc lo =>
        match right with
        | V_DbPointer rc ro =>
            let! cmp := CompareStrings lc (blen lc) rc (blen rc) None in
            if negb (cmp =? 0) then Ok (cmp, true)
            else Ok (bson_oid_compare lo ro, true)
        | _ => unreachable
        end
    end.

Definition CompareBsonIter (leftIter rightIter : bson_doc) (compareFields : bool)
  (collationString : option bytes) : result Z :=
  CompareBsonIter_with (fun l r => CompareBsonValue l r collationString) compareFields
    leftIter rightIter.

Definition CompareBsonValueAndTypeWithCollation (left right : bson_value)
  (collationString : option bytes) : result (Z * bool) :=
  let cmp := CompareBsonSortOrderType left right in
  if negb (cmp =? 0) then Ok (cmp, true)
  else CompareBsonValue left right collationString.

Definition CompareBsonValueAndType (left right : bson_value) : result (Z * bool) :=
  let cmp := CompareBsonSortOrderType left right in
  if negb (cmp =? 0) then Ok (cmp, true)
  else CompareBsonValue left right None.

Definition BsonValueEqualsWithCollation (left right : bson_value)
  (collationString : option bytes) : result bool :=
  let! (cmp, _) := CompareBsonValueAndTypeWithCollation left right collationString in
  Ok (cmp =? 0).

Definition BsonValueEquals (left right : bson_value) : result bool :=
  let! (cmp, _) := CompareBsonValueAndType left right in Ok (cmp =? 0).

(** The operands are pointers: [None] is [NULL]. *)
Definition BsonValueEqualsStrictWithCollation (left right : option bson_value)
  (collationString : option bytes) : result bool :=
  match left, right with
  | Some l, Some r =>
      if negb (type_eqb (value_type l) (value_type r)) then Ok false
      else
        let! (cmp, isComparisonValid) := CompareBsonValue l r collationString in
        Ok (isComparisonValid && (cmp =? 0))
  | None, None => Ok true
  | _, _ => Ok false
  end.

Definition BsonValueEqualsStrict (left right : option bson_value) : result bool :=
  match left, right with
  | Some l, Some r =>
      if negb (type_eqb (value_type l) (value_type r)) then Ok false
      else BsonValueEqualsStrictWithCollation left right None
  | None, None => Ok true
  | _, _ => Ok false
  end.

(** ** Documents

    A [pgbson] is its bytes; [bson_iter_init_from_data] is libbson's reader:
    the elements the iterator will deliver, or [None] when the initialization
    fails. *)
Context (bson_iter_init_from_data : bytes -> option bson_doc).

Definition PgbsonEquals (left right : bytes) : bool :=
  (blen left =? blen right) && (memcmp left right =? 0).

Definition PgbsonInitIterator (bson : bytes) : result bson_doc :=
  match bson_iter_init_from_data bson with
  | Some iter => Ok iter
  | None => Err ERRCODE_DOCUMENTDB_BADVALUE
  end.

Definition ComparePgbson (leftBson rightBson : bytes) : result Z :=
  if PgbsonEquals leftBson rightBson then Ok 0
  else
    let! leftIter := PgbsonInitIterator leftBson in
    let! rightIter := PgbsonInitIterator rightBson in
    CompareBsonIter leftIter rightIter true None.

(** A pointer that may be [NULL]: its address and what it points to. *)
Definition CompareNullablePgbson (leftBson rightBson : option (Z * bytes)) : result Z :=
  match leftBson, rightBson with
  | None, None => Ok 0
  | None, Some _ => Ok (-1)
  | Some _, None => Ok 1
  | Some (leftAddress, l), Some (rightAddress, r) =>
      if leftAddress =? rightAddress then Ok 0 else ComparePgbson l r
  end.

Definition extension_bson_compare (l r : bytes) : result Z := ComparePgbson l r.
Definition extension_bson_equal (l r : bytes) : result bool :=
  let! compareResult := ComparePgbson l r in Ok (compareResult =? 0).
Definition extension_bson_not_equal (l r : bytes) : result bool :=
  let! compareResult := ComparePgbson l r in Ok (negb (compareResult =? 0)).
Definition extension_bson_lt (l r : bytes) : result bool :=
  let! compareResult := ComparePgbson l r in Ok (compareResult <? 0).
Definition extension_bson_lte (l r : bytes) : result bool :=
  let! compareResult := ComparePgbson l r in Ok (compareResult <=? 0).
Definition extension_bson_gt (l r : bytes) : result bool :=
  let! compareResult := ComparePgbson l r in Ok (0 <? compareResult).
Definition extension_bson_gte (l r : bytes) : result bool :=
  let! compareResult := ComparePgbson l r in Ok (0 <=? compareResult).

End numbers.

(** ** Specification

    The order as a composition of total preorders: the order class first, then
    one component per kind of payload.  The components of the other classes
    are equal within a class, so the chain decides by the payload of the class
    at hand.  The order of nested documents is indexed by their depth. *)

Definition class_of (v : bson_value) : Z := GetSortOrderType (value_type v).

Section spec.
Context {L : BidLib} {BL : BidLaws L} {I : Icu} {IL : IcuLaws I}.

(** Strings: the empty string first, then the collation's order, or that of
    the bytes. *)
Definition emptiness (l : bytes) : Z := match l with [] => 0 | _ => 1 end.

Definition string_order (collation : option bytes) : bytes -> bytes -> comparison :=
  match (if IsCollationValid collation then collation else None) with
  | None => bytes_cmp
  | Some coll => cmp_lex (cmp_on emptiness Z.compare) (collation_order coll)
  end.

#[export] Instance string_order_total c : TotalCmp (string_order c).
Proof. unfold string_order. destruct (if IsCollationValid c then c else None); apply _. Qed.

(** The value of a number, in units of 10^-6176, a double as the decimal that
    represents it. *)
Definition number_of (v : bson_value) : xnum :=
  match v with
  | V_Bool b => XFin (Z.b2z b * DEC_UNIT)
  | V_Int32 z | V_Int64 z => XFin (z * DEC_UNIT)
  | V_Double d => dval (bid_of d)
  | V_Decimal128 d => dval d
  | _ => XNaN
  end.

Definition text_of (v : bson_value) : bytes :=
  match v with V_Utf8 s | V_Symbol s => s | _ => [] end.
Definition code_of (v : bson_value) : bytes :=
  match v with V_Code s | V_CodeWScope s _ | V_DbPointer s _ => s | _ => [] end.
Definition oid_of (v : bson_value) : bytes :=
  match v with V_Oid o | V_DbPointer _ o => o | _ => [] end.
Definition fields_of (v : bson_value) : bson_doc :=
  match v with V_Document fs | V_Array fs => fs | _ => [] end.
Definition scope_of (v : bson_value) : bson_doc :=
  match v with V_CodeWScope _ fs => fs | _ => [] end.
Definition subtype_of (v : bson_value) : Z :=
  match v with V_Binary st _ => st | _ => 0 end.
Definition data_of (v : bson_value) : bytes :=
  match v with V_Binary _ d => d | _ => [] end.
Definition time_of (v : bson_value) : Z :=
  match v with V_DateTime z => z | V_Timestamp t _ => t | _ => 0 end.
Definition increment_of (v : bson_value) : Z :=
  match v with V_Timestamp _ i => i | _ => 0 end.
Definition regex_of (v : bson_value) : bytes :=
  match v with V_Regex (Some r) _ => r | _ => [] end.
Definition options_of (v : bson_value) : bytes :=
  match v with V_Regex _ (Some o) => o | _ => [] end.

(** The fields of a document: order class, name, value. *)
Definition field_order (value_order : bson_value -> bson_value -> comparison)
  : bson_field -> bson_field -> comparison :=
  cmp_lex (cmp_on (fun f => class_of f.2) Z.compare)
    (cmp_lex (cmp_on fst bytes_cmp) (cmp_on snd value_order)).

Definition payload_order (fields scope : bson_doc -> bson_doc -> comparison)
  (collation : option bytes) : bson_value -> bson_value -> comparison :=
  cmp_lex (cmp_on number_of xnum_cmp)
  (cmp_lex (cmp_on text_of (string_order collation))
  (cmp_lex (cmp_on code_of bytes_cmp)
  (cmp_lex (cmp_on fields_of fields)
  (cmp_lex (cmp_on scope_of scope)
  (cmp_lex (cmp_on oid_of bytes_cmp)
  (cmp_lex (cmp_on (fun v => blen (data_of v)) Z.compare)
  (cmp_lex (cmp_on subtype_of Z.compare)
  (cmp_lex (cmp_on data_of bytes_cmp)
  (cmp_lex (cmp_on time_of Z.compare)
  (cmp_lex (cmp_on increment_of Z.compare)
  (cmp_lex (cmp_on regex_of bytes_cmp)
           (cmp_on options_of bytes_cmp)))))))))))).

Fixpoint bson_order (n : nat) (collation : option bytes) : bson_value -> bson_value -> comparison :=
  match n with
  | O => fun _ _ => Eq
  | S n' =>
      cmp_lex (cmp_on class_of Z.compare)
        (payload_order (cmp_list (field_order (bson_order n' collation)))
                       (cmp_list (field_order (bson_order n' None))) collation)
  end.

#[export] Instance bson_order_total n c : TotalCmp (bson_order n c).
Proof.
  revert c. induction n as [|n IH]; intros c; simpl; [apply _|].
  unfold payload_order, field_order. apply _.
Qed.

Definition doc_order (n : nat) (collation : option bytes) : bson_doc -> bson_doc -> comparison :=
  cmp_list (field_order (bson_order n collation)).

#[export] Instance doc_order_total n c : TotalCmp (doc_order n c).
Proof. unfold doc_order, field_order. apply _. Qed.

(** ** Components of the refinement *)

Lemma length_difference l r :
  lenb l = true -> lenb r = true ->
  int32 (uint32 (blen l - blen r)) = blen l - blen r.
Proof.
  unfold lenb. rewrite !Z.ltb_lt. intros Hl Hr.
  pose proof (blen_nonneg l). pose proof (blen_nonneg r). by apply int32_uint32; lia.
Qed.

Lemma strb_len l : strb l = true -> lenb l = true.
Proof. unfold strb. rewrite andb_true_iff. tauto. Qed.

Lemma cstrb_len l : cstrb l = true -> lenb l = true.
Proof. unfold cstrb. rewrite andb_true_iff. tauto. Qed.

Lemma cstrb_nul_free l : cstrb l = true -> nul_free l.
Proof.
  unfold cstrb, nul_free. rewrite andb_true_iff. intros [H _].
  induction l as [|a l IH]; simpl in H; [constructor|].
  apply andb_true_iff in H as [Ha Hl]. constructor; [lia|by apply IH].
Qed.

Lemma compare_strings_bytes l r :
  lenb l = true -> lenb r = true ->
  exists z, CompareStrings l (blen l) r (blen r) None = Ok z /\ sgn_cmp z = bytes_cmp l r.
Proof.
  intros Hl Hr. unfold CompareStrings. simpl. rewrite length_difference by done.
  set (m := if _ <? _ then _ else _).
  assert (m = Z.min (blen l) (blen r)) as ->
    by (subst m; destruct (Z.ltb_spec (blen l) (blen r)); lia).
  rewrite memcmp_take by (unfold blen; lia).
  destruct (Z.eqb_spec (Z.min (blen l) (blen r)) 0) as [E|_].
  - exists (blen l - blen r). split; [done|]. rewrite <- memcmp_then_length.
    assert (l = [] \/ r = []) as [->| ->].
    { unfold blen in E. destruct l, r; simpl in *; auto; lia. }
    + done.
    + by destruct l.
  - rewrite <- memcmp_then_length. destruct (memcmp l r =? 0); simpl; by eexists.
Qed.

Lemma compare_strings_ok coll l r :
  lenb l = true -> lenb r = true ->
  exists z, CompareStrings l (blen l) r (blen r) coll = Ok z /\
            sgn_cmp z = string_order coll l r.
Proof.
  intros Hl Hr. pose proof (compare_strings_bytes l r Hl Hr) as Hb. revert Hb.
  unfold string_order, CompareStrings. simpl (IsCollationValid None).
  destruct (if IsCollationValid coll then coll else None) as [c|]; [|done]. intros _.
  rewrite length_difference by done. destruct l as [|a l], r as [|b r].
  - exists 0. split; [done|]. symmetry. apply (cmp_refl (cmp_lex _ (collation_order c))).
  - exists (blen [] - blen (b :: r)). split; [done|].
    rewrite sgn_cmp_sub, blen_cons. change (blen []) with 0.
    pose proof (blen_nonneg r). apply Z.compare_lt_iff. lia.
  - exists (blen (a :: l) - blen []). split; [done|].
    rewrite sgn_cmp_sub, blen_cons. change (blen []) with 0.
    pose proof (blen_nonneg l). apply Z.compare_gt_iff. lia.
  - set (m := if _ <? _ then _ else _). assert (m <> 0) as Hm.
    { subst m. rewrite !blen_cons. pose proof (blen_nonneg l). pose proof (blen_nonneg r).
      destruct (_ <? _); lia. }
    apply Z.eqb_neq in Hm. rewrite Hm. apply string_compare_ok.
Qed.

(** Numbers. *)

Lemma three_way_sgn c : sgn_cmp (three_way c) = c.
Proof. by destruct c. Qed.

Definition xscale (k : Z) (x : xnum) : xnum :=
  match x with XFin a => XFin (a * k) | special => special end.

Lemma xnum_cmp_scale k x y : 0 < k -> xnum_cmp (xscale k x) (xscale k y) = xnum_cmp x y.
Proof.
  intros Hk. destruct x as [| |a|], y as [| |b|]; try done.
  unfold xscale. rewrite !xnum_cmp_fin. by apply compare_mul_pos.
Qed.

Lemma xnan_scale k x : is_xnan (xscale k x) = is_xnan x.
Proof. by destruct x. Qed.

Definition LD_PER_D : Z := 2 ^ (16445 - 1074).

Lemma LD_PER_D_pos : 0 < LD_PER_D.
Proof. unfold LD_PER_D. apply pow2_pos. lia. Qed.

Lemma LDSCALE_split : LDSCALE = DSCALE * LD_PER_D.
Proof. unfold LDSCALE, DSCALE, LD_PER_D. rewrite <- Z.pow_add_r by lia. f_equal. Qed.

(** The value of a number that is not a decimal, in units of 2^-1074. *)
Definition binary_of (v : bson_value) : xnum :=
  match v with
  | V_Bool b => XFin (Z.b2z b * DSCALE)
  | V_Int32 z | V_Int64 z => XFin (z * DSCALE)
  | V_Double d => dx d
  | _ => XNaN
  end.

Definition is_number_or_bool (v : bson_value) : bool := BsonTypeIsNumberOrBool (value_type v).

Lemma in_int32_int64 z : in_int32 z = true -> in_int64 z = true.
Proof. unfold in_int32, in_int64, INT32_MIN, INT32_MAX, INT64_MIN, INT64_MAX. lia. Qed.

Lemma as_decimal v :
  wf_value v = true -> is_number_or_bool v = true ->
  exists d, GetBsonValueAsDecimal128 v = Ok d /\ dval d = number_of v.
Proof.
  intros Hw Hn. destruct v; try discriminate Hn; eexists; (split; [reflexivity|]); simpl in Hw.
  - unfold decimal128_of_double, number_of, bid_of.
    destruct (binary64_to_bid128 _ _) as [d f]. rewrite orb_true_r. done.
  - destruct v_bool; apply law_encoding; simpl; lia.
  - by apply law_from_int32.
  - by apply law_from_int64.
  - done.
Qed.

Lemma as_long_double v :
  is_number_or_bool v = true -> value_type v <> BSON_TYPE_DECIMAL128 ->
  BsonNumberAsLongDouble v = Ok (xscale LD_PER_D (binary_of v)).
Proof.
  intros Hn Hd. destruct v; try discriminate Hn; try (by destruct Hd);
    unfold BsonNumberAsLongDouble, binary_of, xscale, long_double_of_double;
    rewrite ?LDSCALE_split, ?Z.mul_assoc; try reflexivity.
  by destruct (dx v_double).
Qed.

Lemma bool_int64 b : in_int64 (Z.b2z b) = true.
Proof. by destruct b. Qed.

(** A number that is not a double or a decimal is an integer. *)
Lemma integer_value v :
  wf_value v = true -> is_number_or_bool v = true ->
  value_type v <> BSON_TYPE_DECIMAL128 -> value_type v <> BSON_TYPE_DOUBLE ->
  exists z, in_int64 z = true /\ BsonValueAsInt64 v = Ok z /\
            number_of v = XFin (z * DEC_UNIT) /\ binary_of v = XFin (z * DSCALE).
Proof.
  intros Hw Hn Hd Hdb. destruct v; try discriminate Hn; try (by destruct Hd);
    try (by destruct Hdb); simpl in Hw; eexists; repeat split;
    auto using bool_int64, in_int32_int64.
Qed.

Lemma binary_decimal_order l r :
  wf_value l = true -> wf_value r = true ->
  is_number_or_bool l = true -> is_number_or_bool r = true ->
  value_type l <> BSON_TYPE_DECIMAL128 -> value_type r <> BSON_TYPE_DECIMAL128 ->
  xnum_cmp (binary_of l) (binary_of r) = xnum_cmp (number_of l) (number_of r).
Proof.
  intros Wl Wr Nl Nr Dl Dr. pose proof DEC_UNIT_pos. pose proof DSCALE_pos.
  destruct (decide (value_type l = BSON_TYPE_DOUBLE)) as [El|El],
           (decide (value_type r = BSON_TYPE_DOUBLE)) as [Er|Er].
  - destruct l, r; try discriminate. symmetry. by apply bid_of_doubles.
  - destruct l; try discriminate. clear Nl Dl El.
    destruct (integer_value r Wr Nr Dr Er) as (z & Hz & _ & -> & ->). simpl.
    rewrite (cmp_antisym xnum_cmp (XFin (z * DSCALE))), (cmp_antisym xnum_cmp (XFin (z * DEC_UNIT))).
    f_equal. symmetry. by apply bid_of_int_double.
  - destruct r; try discriminate. clear Nr Dr Er.
    destruct (integer_value l Wl Nl Dl El) as (z & Hz & _ & -> & ->). simpl.
    symmetry. by apply bid_of_int_double.
  - destruct (integer_value l Wl Nl Dl El) as (z & _ & _ & -> & ->).
    destruct (integer_value r Wr Nr Dr Er) as (z' & _ & _ & -> & ->).
    rewrite !xnum_cmp_fin, !compare_mul_pos by done. done.
Qed.

Lemma xnan_binary v :
  wf_value v = true -> value_type v <> BSON_TYPE_DECIMAL128 ->
  is_xnan (binary_of v) = is_xnan (number_of v).
Proof.
  intros Hw Hd. destruct v; try done. simpl in *.
  pose proof (law_from_binary64 v_double Hw) as Hl. unfold bid_of.
  destruct (dx v_double); [by rewrite Hl..| |by rewrite Hl].
  by destruct Hl as (z & -> & _).
Qed.

Lemma compare_numbers_ok l r :
  wf_value l = true -> wf_value r = true ->
  is_number_or_bool l = true -> is_number_or_bool r = true ->
  exists z, CompareNumbers l r =
            Ok (z, Bool.eqb (is_xnan (number_of l)) (is_xnan (number_of r))) /\
            sgn_cmp z = xnum_cmp (number_of l) (number_of r).
Proof.
  intros Wl Wr Nl Nr. unfold CompareNumbers, type_eqb.
  destruct (bool_decide (value_type l = BSON_TYPE_DECIMAL128) ||
            bool_decide (value_type r = BSON_TYPE_DECIMAL128)) eqn:Hdec.
  { destruct (as_decimal l Wl Nl) as (dl & -> & <-), (as_decimal r Wr Nr) as (dr & -> & <-).
    simpl (result_bind _ _). rewrite compare_decimal128. eexists. split; [done|].
    by destruct (xnum_cmp _ _). }
  apply orb_false_iff in Hdec as [Dl%bool_decide_eq_false Dr%bool_decide_eq_false].
  destruct (bool_decide (value_type l = BSON_TYPE_DOUBLE) ||
            bool_decide (value_type r = BSON_TYPE_DOUBLE)) eqn:Hdbl.
  - rewrite !as_long_double by done. cbn [result_bind].
    rewrite !xnan_scale, xnum_cmp_scale, binary_decimal_order by (done || apply LD_PER_D_pos).
    rewrite !xnan_binary by done.
    destruct (number_of l), (number_of r); eexists; (split; [reflexivity|]);
      by rewrite ?three_way_sgn.
  - apply orb_false_iff in Hdbl as [Bl%bool_decide_eq_false Br%bool_decide_eq_false].
    destruct (integer_value l Wl Nl Dl Bl) as (z & _ & -> & -> & _).
    destruct (integer_value r Wr Nr Dr Br) as (z' & _ & -> & -> & _).
    eexists. split; [reflexivity|].
    rewrite three_way_sgn, xnum_cmp_fin, compare_mul_pos; [done|]. apply DEC_UNIT_pos.
Qed.

(** ** Refinement *)

Lemma class_difference l r :
  (CompareBsonSortOrderType l r =? 0) = (class_of l =? class_of r) /\
  sgn_cmp (CompareBsonSortOrderType l r) = (class_of l ?= class_of r).
Proof.
  unfold CompareBsonSortOrderType, CompareSortOrderType, class_of. split.
  - destruct (Z.eqb_spec (GetSortOrderType (value_type l)) (GetSortOrderType (value_type r)));
      [apply Z.eqb_eq|apply Z.eqb_neq]; lia.
  - apply sgn_cmp_sub.
Qed.

Lemma sgn_eqb_0 z : (z =? 0) = match sgn_cmp z with Eq => true | _ => false end.
Proof. unfold sgn_cmp. by destruct z. Qed.

(** What the comparison of two values of one class must deliver. *)
Definition compares_ok (compare : bson_value -> bson_value -> result (Z * bool))
  (order : bson_value -> bson_value -> comparison) (l r : bson_value) : Prop :=
  exists z, compare l r =
            Ok (z, Bool.eqb (is_xnan (number_of l)) (is_xnan (number_of r))) /\
            sgn_cmp z = order l r.

Lemma compare_iter_ok compare order l r :
  Forall (fun f => forall v, wf_value v = true -> class_of f.2 = class_of v ->
                   compares_ok compare order f.2 v) l ->
  wf_fields l = true -> wf_fields r = true ->
  exists z, CompareBsonIter_with compare true l r = Ok z /\
            sgn_cmp z = cmp_list (field_order order) l r.
Proof.
  intros HF. revert r. induction HF as [|[k v] l Hv HF IH]; intros [|[k' v'] r] Hl Hr;
    try (by eexists).
  apply wf_fields_cons in Hl as (Hk & _ & Hl), Hr as (Hk' & Hwv & Hr).
  destruct (class_difference v v') as [Ec Es]. simpl in Hv. simpl.
  unfold field_order at 1, cmp_lex at 1, cmp_on at 1. simpl.
  rewrite Ec. destruct (Z.eqb_spec (class_of v) (class_of v')) as [E|E]; simpl.
  2: { eexists. split; [done|]. rewrite Es. by destruct (Z.compare_spec (class_of v) (class_of v')). }
  rewrite E, Z.compare_refl.
  destruct (compare_strings_bytes k k') as (zk & -> & Sk); [by apply cstrb_len..|].
  cbn [result_bind]. unfold cmp_lex, cmp_on. simpl. rewrite sgn_eqb_0, Sk.
  destruct (bytes_cmp k k'); simpl; [|by eexists..].
  destruct (Hv v' Hwv E) as (zv & -> & Sv). cbn [result_bind]. rewrite sgn_eqb_0, Sv.
  destruct (order v v'); simpl; [|by eexists..]. by apply IH.
Qed.

Lemma nested_fields n fs :
  (depth (V_Document fs) <= S n)%nat -> wf_fields fs = true ->
  Forall (fun f => (depth f.2 <= n)%nat /\ wf_value f.2 = true) fs.
Proof.
  simpl. intros Hd%le_S_n%depth_fields. induction Hd as [|[k v] fs Hv Hd IH]; [constructor|].
  intros (_ & Hw & Hfs)%wf_fields_cons. constructor; [done|by apply IH].
Qed.

Lemma oid_same_length l r : oidb l = true -> oidb r = true -> length l = length r.
Proof. unfold oidb, blen. rewrite !andb_true_iff, !Z.eqb_eq. lia. Qed.

(** A chain of comparisons stops at the first component that decides. *)
Lemma lex_step {A} (c1 c2 : A -> A -> comparison) x y :
  c1 x y = Eq -> cmp_lex c1 c2 x y = c2 x y.
Proof. unfold cmp_lex. by intros ->. Qed.

Lemma lex_last {A} (c1 c2 : A -> A -> comparison) x y :
  c2 x y = Eq -> cmp_lex c1 c2 x y = c1 x y.
Proof. unfold cmp_lex. intros ->. by destruct (c1 x y). Qed.

Lemma comparison_eta (c : comparison) :
  match c with Eq => Eq | Lt => Lt | Gt => Gt end = c.
Proof. by destruct c. Qed.

Lemma string_order_nil coll : string_order coll [] [] = Eq.
Proof. apply (cmp_refl (string_order coll)). Qed.

Ltac payload :=
  unfold payload_order, cmp_lex, cmp_on;
  cbn [text_of code_of fields_of scope_of oid_of data_of subtype_of time_of
       increment_of regex_of options_of];
  rewrite ?string_order_nil; cbn [number_of];
  change (xnum_cmp XNaN XNaN) with Eq; cbn -[Z.compare blen string_order];
  change (blen []) with 0; rewrite ?Z.compare_refl; cbn -[Z.compare blen string_order];
  rewrite ?comparison_eta.

Lemma payload_numbers F G coll l r :
  F [] [] = Eq -> G [] [] = Eq ->
  is_number_or_bool l = true -> is_number_or_bool r = true ->
  payload_order F G coll l r = xnum_cmp (number_of l) (number_of r).
Proof.
  intros HF HG Hl Hr. unfold payload_order. rewrite lex_last; [done|].
  destruct l; try discriminate Hl; destruct r; try discriminate Hr;
    unfold cmp_lex, cmp_on; cbn -[string_order]; by rewrite string_order_nil, HF, HG.
Qed.

(** The specified order on each class of scalar values. *)

Lemma order_class_ne n coll l r :
  class_of l <> class_of r -> bson_order (S n) coll l r = (class_of l ?= class_of r).
Proof.
  intros H. cbn [bson_order]. unfold cmp_lex, cmp_on.
  by destruct (Z.compare_spec (class_of l) (class_of r)).
Qed.

Lemma order_numbers n coll l r :
  is_number_or_bool l = true -> is_number_or_bool r = true -> class_of l = class_of r ->
  bson_order (S n) coll l r = xnum_cmp (number_of l) (number_of r).
Proof.
  intros Hl Hr Hc. cbn [bson_order]. rewrite lex_step.
  - by apply payload_numbers.
  - unfold cmp_on. rewrite Hc. apply Z.compare_refl.
Qed.

Ltac scalar_order :=
  cbn [bson_order]; rewrite lex_step; [payload; reflexivity|reflexivity].

Lemma order_texts n coll l r :
  GetSortOrderType (value_type l) = 3 -> GetSortOrderType (value_type r) = 3 ->
  bson_order (S n) coll l r = string_order coll (text_of l) (text_of r).
Proof. destruct l; try discriminate; destruct r; try discriminate; intros _ _; scalar_order. Qed.

Lemma order_nulls n coll l r :
  (GetSortOrderType (value_type l) < 2 \/ GetSortOrderType (value_type l) = 15) ->
  class_of l = class_of r -> bson_order (S n) coll l r = Eq.
Proof.
  intros Hl Hc.
  destruct l; try (simpl in Hl; lia); destruct r; try discriminate Hc; scalar_order.
Qed.

Lemma order_oids n coll l r : bson_order (S n) coll (V_Oid l) (V_Oid r) = bytes_cmp l r.
Proof. scalar_order. Qed.

Lemma order_dates n coll l r : bson_order (S n) coll (V_DateTime l) (V_DateTime r) = (l ?= r).
Proof. scalar_order. Qed.

Lemma order_timestamps n coll lt li rt ri :
  bson_order (S n) coll (V_Timestamp lt li) (V_Timestamp rt ri) =
  match lt ?= rt with Eq => li ?= ri | Lt => Lt | Gt => Gt end.
Proof. scalar_order. Qed.

(** The payload comparisons that decide in several steps. *)

Lemma then_refines (first : result Z) (second : result (Z * bool)) c1 c2 :
  (exists z, first = Ok z /\ sgn_cmp z = c1) ->
  (exists z, second = Ok (z, true) /\ sgn_cmp z = c2) ->
  exists z, (let! cmp := first in if negb (cmp =? 0) then Ok (cmp, true) else second) = Ok (z, true) /\
            sgn_cmp z = match c1 with Eq => c2 | Lt => Lt | Gt => Gt end.
Proof.
  intros (z1 & -> & <-) (z2 & -> & <-). simpl. rewrite sgn_eqb_0.
  destruct (sgn_cmp z1) eqn:E; simpl; by eexists.
Qed.

Lemma binary_refines ls ld rs rd :
  byteb ls = true /\ strb ld = true -> byteb rs = true /\ strb rd = true ->
  exists z, (if negb (blen ld =? blen rd) then Ok (int32 (uint32 (blen ld - blen rd)), true)
             else if negb (ls =? rs) then Ok (ls - rs, true)
             else Ok (memcmp ld rd, true)) = Ok (z, true) /\
            sgn_cmp z = match blen ld ?= blen rd with
                        | Eq => match ls ?= rs with
                                | Eq => bytes_cmp ld rd | Lt => Lt | Gt => Gt end
                        | Lt => Lt | Gt => Gt end.
Proof.
  intros [_ Hl%strb_len] [_ Hr%strb_len]. rewrite length_difference by done.
  destruct (Z.eqb_spec (blen ld) (blen rd)) as [E|E]; simpl.
  - rewrite E, Z.compare_refl. destruct (Z.eqb_spec ls rs) as [->|Hs]; simpl.
    + rewrite Z.compare_refl. eexists. split; [done|]. apply memcmp_same_length.
      unfold blen in E. lia.
    + eexists. split; [done|]. rewrite sgn_cmp_sub. by destruct (Z.compare_spec ls rs).
  - eexists. split; [done|]. rewrite sgn_cmp_sub.
    by destruct (Z.compare_spec (blen ld) (blen rd)).
Qed.

Lemma regex_refines lr lo rr ro :
  cstrb lr = true /\ cstrb lo = true -> cstrb rr = true /\ cstrb ro = true ->
  exists z, (if negb (strcmp lr rr =? 0) then Ok (strcmp lr rr, true)
             else Ok (strcmp lo ro, true)) = Ok (z, true) /\
            sgn_cmp z = match bytes_cmp lr rr with Eq => bytes_cmp lo ro | Lt => Lt | Gt => Gt end.
Proof.
  intros [Hlr%cstrb_nul_free Hlo%cstrb_nul_free] [Hrr%cstrb_nul_free Hro%cstrb_nul_free].
  apply (then_refines (Ok (strcmp lr rr))); eexists; (split; [done|by apply strcmp_cmp]).
Qed.

Lemma timestamp_refines lt li rt ri :
  exists z, (if negb (lt =? rt) then Ok (if rt <? lt then 1 else -1, true)
             else Ok (three_way (li ?= ri), true)) = Ok (z, true) /\
            sgn_cmp z = match lt ?= rt with Eq => li ?= ri | Lt => Lt | Gt => Gt end.
Proof.
  destruct (Z.eqb_spec lt rt) as [->|Hne]; simpl.
  - rewrite Z.compare_refl. eexists. split; [done|]. apply three_way_sgn.
  - eexists. split; [done|].
    destruct (Z.compare_spec lt rt), (Z.ltb_spec rt lt); try lia; done.
Qed.

Lemma compare_value_refines n coll l r :
  (depth l <= n)%nat -> wf_value l = true -> wf_value r = true -> class_of l = class_of r ->
  compares_ok (fun a b => CompareBsonValue a b coll) (bson_order n coll) l r.
Proof.
  revert coll l r. induction n as [|n IH]; intros coll l r Hd Wl Wr Hc.
  { destruct l; simpl in Hd; lia. }
  destruct (class_difference l r) as [Ec _]. rewrite Hc, Z.eqb_refl in Ec.
  unfold compares_ok. assert (bson_order (S n) coll l r =
          payload_order (doc_order n coll) (doc_order n None) coll l r) as ->.
  { simpl. rewrite lex_step; [done|]. unfold cmp_on. rewrite Hc. apply Z.compare_refl. }
  assert (forall c fs, (depth (V_Document fs) <= S n)%nat -> wf_fields fs = true ->
            Forall (fun f => forall v, wf_value v = true -> class_of f.2 = class_of v ->
              compares_ok (fun a b => CompareBsonValue a b c) (bson_order n c) f.2 v) fs)
    as Hnest.
  { intros c fs Hdf Hwf. pose proof (nested_fields n fs Hdf Hwf) as HF.
    revert HF. apply Forall_impl. intros f [? ?] v ? ?. by apply IH. }
  destruct (is_number_or_bool l) eqn:Nl.
  { assert (is_number_or_bool r = true) as Nr.
    { destruct l; try discriminate Nl; destruct r; done. }
    rewrite payload_numbers by done. destruct (compare_numbers_ok l r) as (z & E & Sz); [done..|].
    exists z. split; [|done]. rewrite <- E.
    destruct l; try discriminate Nl; unfold CompareBsonValue; rewrite Ec; reflexivity. }
  destruct l; try discriminate Nl; destruct r; try discriminate Hc;
    payload; try (by eexists); rewrite Ec; cbn [negb]; simpl in Wl, Wr;
    rewrite ?andb_true_iff in Wl, Wr.
  all: try by (match goal with
    |- context [let! _ := CompareStrings ?a _ ?b _ ?c in Ok _] =>
        destruct (compare_strings_ok c a b) as (z & -> & Sz);
          [by apply strb_len..|by exists z] end).
  all: try by (match goal with
    |- context [let! _ := CompareBsonIter_with (fun x y => CompareBsonValue x y ?c) true ?a ?b in _] =>
        destruct (compare_iter_ok (fun x y => CompareBsonValue x y c) (bson_order n c) a b)
          as (z & -> & Sz); [by apply Hnest|done|done|by exists z] end).
  - by apply binary_refines.
  - eexists. split; [done|]. by apply memcmp_same_length, oid_same_length.
  - eexists. split; [done|]. apply three_way_sgn.
  - destruct regex, regex0, options, options0; simpl in Wl, Wr;
      first [by destruct Wl|by destruct Wr|by apply regex_refines].
  - apply then_refines; [apply compare_strings_bytes; apply strb_len; apply Wl || apply Wr|].
    eexists. split; [done|]. by apply memcmp_same_length, oid_same_length; [apply Wl|apply Wr].
  - apply then_refines; [apply compare_strings_bytes; apply strb_len; apply Wl || apply Wr|].
    destruct (compare_iter_ok (fun x y => CompareBsonValue x y None) (bson_order n None) scope scope0)
      as (z & -> & Sz); [apply Hnest; [done|apply Wl]|apply Wl|apply Wr|by exists z].
  - apply timestamp_refines.
Qed.

(** The comparison with the type test in front. *)
Lemma compare_and_type_refines n coll l r :
  (depth l <= n)%nat -> wf_value l = true -> wf_value r = true ->
  exists z, CompareBsonValueAndTypeWithCollation l r coll =
            Ok (z, if class_of l =? class_of r
                   then Bool.eqb (is_xnan (number_of l)) (is_xnan (number_of r)) else true) /\
            sgn_cmp z = bson_order n coll l r.
Proof.
  intros Hd Wl Wr. unfold CompareBsonValueAndTypeWithCollation.
  destruct (class_difference l r) as [-> Es].
  destruct (Z.eqb_spec (class_of l) (class_of r)) as [E|E]; simpl.
  - by apply compare_value_refines.
  - eexists. split; [done|]. rewrite Es. destruct n; [destruct l; simpl in Hd; lia|].
    simpl. unfold cmp_lex, cmp_on. by destruct (Z.compare_spec (class_of l) (class_of r)).
Qed.

Lemma compare_and_type_none l r :
  CompareBsonValueAndType l r = CompareBsonValueAndTypeWithCollation l r None.
Proof. done. Qed.

Lemma compare_iter_refines n coll l r :
  (depth (V_Document l) <= S n)%nat -> wf_fields l = true -> wf_fields r = true ->
  exists z, CompareBsonIter l r true coll = Ok z /\ sgn_cmp z = doc_order n coll l r.
Proof.
  intros Hd Wl Wr. apply compare_iter_ok; [|done|done].
  pose proof (nested_fields n l Hd Wl) as HF. revert HF. apply Forall_impl.
  intros f [? ?] v ? ?. by apply compare_value_refines.
Qed.

(** ** Properties of the comparison *)

(** The sign of the comparison of two values. *)
Definition value_compare (coll : option bytes) (l r : bson_value) : option comparison :=
  match CompareBsonValueAndTypeWithCollation l r coll with
  | Ok (z, _) => Some (sgn_cmp z)
  | Err _ => None
  end.

Lemma value_compare_order n coll l r :
  (depth l <= n)%nat -> wf_value l = true -> wf_value r = true ->
  value_compare coll l r = Some (bson_order n coll l r).
Proof.
  intros Hd Wl Wr. unfold value_compare.
  destruct (compare_and_type_refines n coll l r Hd Wl Wr) as (z & -> & ->). done.
Qed.


(** The comparison is a total preorder on well-formed values under every
    collation: it always answers, a value is equal to itself, swapping the
    operands swaps the sign, equal values compare alike with every third value,
    and "less" is transitive.  This is the contract of the B-tree operator
    class and of every sort. *)
Theorem compare_total_preorder (coll : option bytes) (x y z : bson_value) :
  wf_value x = true -> wf_value y = true -> wf_value z = true ->
  value_compare coll x x = Some Eq /\
  value_compare coll y x = CompOpp <$> value_compare coll x y /\
  (value_compare coll x y = Some Eq -> value_compare coll x z = value_compare coll y z) /\
  (value_compare coll x y = Some Lt -> value_compare coll y z = Some Lt ->
   value_compare coll x z = Some Lt).
Proof.
  intros Wx Wy Wz. set (n := (depth x + depth y + depth z)%nat).
  rewrite !(value_compare_order n) by (done || lia).
  pose proof (bson_order_total n coll) as T. split_and!.
  - f_equal. apply (cmp_refl _).
  - simpl. f_equal. apply (cmp_antisym _).
  - intros [= E]. f_equal. by apply (cmp_eq_l _).
  - intros [= E1] [= E2]. f_equal. by eapply (cmp_lt_trans _).
Qed.

(** The exact order of a 64-bit integer and a double. *)
Definition int_double_order (z : Z) (d : double) : comparison :=
  if isnan d then Gt
  else if isinf d then (if d_neg d then Gt else Lt)
  else (z * DSCALE ?= dscaled d).

(** A 64-bit integer and a double are compared by their exact values, also
    where the integer has no double representation (beyond 2^53), and NaN is
    below every integer with the comparison flagged invalid. *)
Theorem compare_int64_double_exact (z : Z) (d : double) :
  in_int64 z = true -> doubleb d = true ->
  CompareBsonValueAndType (V_Int64 z) (V_Double d) =
  Ok (three_way (int_double_order z d), negb (isnan d)).
Proof.
  intros Hz Hd. rewrite compare_and_type_none.
  unfold CompareBsonValueAndTypeWithCollation, CompareBsonValue.
  change (CompareBsonSortOrderType (V_Int64 z) (V_Double d) =? 0) with true. cbn [negb].
  unfold CompareNumbers. cbn [value_type type_eqb orb].
  rewrite !as_long_double by done. simpl (type_eqb _ _). cbn [orb result_bind].
  rewrite !xnan_scale, xnum_cmp_scale by apply LD_PER_D_pos.
  unfold binary_of, int_double_order, dx.
  destruct (isnan d); [done|]. destruct (isinf d); [by destruct (d_neg d)|].
  simpl (is_xnan _). rewrite xnum_cmp_fin. done.
Qed.

(** ** Documents and the operators of the [bson] type *)

Lemma pgbson_equals l r : PgbsonEquals l r = true <-> l = r.
Proof.
  unfold PgbsonEquals. rewrite andb_true_iff, !Z.eqb_eq. split.
  - intros [Hlen Hcmp]. apply bytes_cmp_eq. rewrite <- memcmp_same_length.
    + by rewrite Hcmp.
    + unfold blen in Hlen. lia.
  - intros ->. split; [done|]. induction r as [|a r IH]; simpl; [done|].
    by rewrite Z.eqb_refl.
Qed.

Section documents.
Context (init : bytes -> option bson_doc).
Hypothesis init_wf : forall b fs, init b = Some fs -> wf_fields fs = true.

Lemma compare_pgbson_refines n l r fl fr :
  init l = Some fl -> init r = Some fr -> (depth (V_Document fl) <= S n)%nat ->
  exists z, ComparePgbson init l r = Ok z /\ sgn_cmp z = doc_order n None fl fr.
Proof.
  intros Hl Hr Hd. unfold ComparePgbson. destruct (PgbsonEquals l r) eqn:E.
  - apply pgbson_equals in E. subst r. rewrite Hl in Hr. simplify_eq.
    exists 0. split; [done|]. symmetry. apply (cmp_refl _).
  - unfold PgbsonInitIterator. rewrite Hl, Hr. cbn [result_bind].
    apply compare_iter_refines; eauto.
Qed.

Definition doc_compare (l r : bytes) : option comparison :=
  match extension_bson_compare init l r with
  | Ok z => Some (sgn_cmp z)
  | Err _ => None
  end.

(** C2: The B-tree operator class of the [bson] type keeps its contract on the
    documents libbson can read: the support function is a total preorder
    (total, reflexive, antisymmetric in sign, transitive), and each of the
    operators =, <>, <, <=, >, >= answers according to its sign. *)
Theorem bson_operator_class (l m r : bytes) :
  is_Some (init l) -> is_Some (init m) -> is_Some (init r) ->
  exists c, doc_compare l r = Some c /\
  doc_compare l l = Some Eq /\
  doc_compare r l = Some (CompOpp c) /\
  (doc_compare l m = Some Lt -> doc_compare m r = Some Lt -> c = Lt) /\
  (doc_compare l m = Some Eq -> doc_compare m r = Some c) /\
  extension_bson_equal init l r = Ok (match c with Eq => true | _ => false end) /\
  extension_bson_not_equal init l r = Ok (match c with Eq => false | _ => true end) /\
  extension_bson_lt init l r = Ok (match c with Lt => true | _ => false end) /\
  extension_bson_lte init l r = Ok (match c with Gt => false | _ => true end) /\
  extension_bson_gt init l r = Ok (match c with Gt => true | _ => false end) /\
  extension_bson_gte init l r = Ok (match c with Lt => false | _ => true end).
Proof.
  intros [fl Hl] [fm Hm] [fr Hr].
  set (n := (depth (V_Document fl) + depth (V_Document fm) + depth (V_Document fr))%nat).
  assert (forall a b fa fb, init a = Some fa -> init b = Some fb ->
            (depth (V_Document fa) <= S n)%nat ->
            doc_compare a b = Some (doc_order n None fa fb)) as H.
  { intros a b fa fb Ha Hb Hd. unfold doc_compare, extension_bson_compare.
    destruct (compare_pgbson_refines n a b fa fb Ha Hb Hd) as (z & -> & <-). done. }
  exists (doc_order n None fl fr).
  rewrite (H l r fl fr), (H l l fl fl), (H r l fr fl), (H l m fl fm), (H m r fm fr)
    by (done || lia).
  destruct (compare_pgbson_refines n l r fl fr Hl Hr) as (z & Ez & Sz); [lia|].
  unfold extension_bson_equal, extension_bson_not_equal, extension_bson_lt,
    extension_bson_lte, extension_bson_gt, extension_bson_gte.
  rewrite Ez. cbn [result_bind]. rewrite <- Sz.
  split_and!; try (unfold sgn_cmp; by destruct z).
  - f_equal. apply (cmp_refl _).
  - f_equal. rewrite Sz. apply (cmp_antisym _).
  - intros [= E1] [= E2]. rewrite Sz. by eapply (cmp_lt_trans _).
  - intros [= E]. rewrite Sz. f_equal. symmetry. by apply (cmp_eq_l _).
Qed.
End documents.

(** ** Numeric tests and conversions *)

(** The number is the integer [z]. *)
Definition denotes (v : bson_value) (z : Z) : Prop :=
  match v with
  | V_Int32 i | V_Int64 i => i = z
  | V_Double d => dx d = XFin (z * DSCALE)
  | V_Decimal128 d => dval d = XFin (z * DEC_UNIT)
  | _ => False
  end.

Lemma doubleb_range d : doubleb d = true -> 0 <= d < 2 ^ 64.
Proof. unfold doubleb. rewrite andb_true_iff, Z.leb_le, Z.ltb_lt. done. Qed.

Lemma int32_double z :
  INT32_MIN <= z <= INT32_MAX ->
  dscaled (double_of_int z) = z * DSCALE /\ isnan (double_of_int z) = false.
Proof.
  unfold INT32_MIN, INT32_MAX. intros Hz.
  split; [apply double_of_int_exact|apply double_of_int_range]; lia.
Qed.

Lemma INT32_bounds : INT32_MIN <= INT32_MIN <= INT32_MAX /\ INT32_MIN <= INT32_MAX <= INT32_MAX.
Proof. unfold INT32_MIN, INT32_MAX. lia. Qed.

(** An infinity is beyond every 64-bit integer. *)
Lemma inf_magnitude d :
  isinf d = true -> Z.abs (dscaled d) = 2 ^ 1024 * DSCALE.
Proof.
  unfold isinf. intros E%Z.eqb_eq.
  assert (mag INF_BITS = 2 ^ 1024 * DSCALE) as HM.
  { unfold INF_BITS. change (2047 * 2 ^ 52) with (2047 * 2 ^ 52 + 0).
    rewrite mag_split by lia. simpl (2047 =? 0). cbv iota.
    unfold DSCALE. rewrite Z.add_0_l, <- !Z.pow_add_r by lia. f_equal. }
  assert (0 <= 2 ^ 1024 * DSCALE) by (pose proof DSCALE_pos; nia).
  unfold dscaled. rewrite E, HM. destruct (d_neg d); lia.
Qed.

Lemma finite_dx d z :
  - 2 ^ 64 <= z <= 2 ^ 64 ->
  dx d = XFin (z * DSCALE) <-> isnan d = false /\ dscaled d = z * DSCALE.
Proof.
  intros Hz. unfold dx. destruct (isnan d) eqn:N; [split; [done|by intros []]|].
  destruct (isinf d) eqn:Hi.
  - pose proof (inf_magnitude d Hi) as HM. pose proof DSCALE_pos. split.
    + by destruct (d_neg d).
    + intros [_ E]. rewrite E, Z.abs_mul in HM. nia.
  - split; [by intros [= ->]|by intros [_ ->]].
Qed.

Lemma double_is_int32 d :
  doubleb d = true ->
  (d_le d (double_of_int INT32_MAX) && d_le (double_of_int INT32_MIN) d &&
   d_eq (d_floor d) d = true <->
   exists z, in_int32 z = true /\ dx d = XFin (z * DSCALE)).
Proof.
  intros Hd%doubleb_range. pose proof DSCALE_pos as HS.
  destruct INT32_bounds as [Bmin Bmax].
  destruct (int32_double _ Bmin) as [Emin Nmin], (int32_double _ Bmax) as [Emax Nmax].
  unfold d_le, d_cmp_ok. rewrite Emin, Emax, Nmin, Nmax.
  destruct (isnan d) eqn:N; simpl.
  - split; [done|]. intros (z & _ & E). unfold dx in E. by rewrite N in E.
  - rewrite d_floor_eq, !andb_true_iff, !Z.leb_le, Z.eqb_eq by done. split.
    + intros [[H1 H2] E]. apply Z.mod_divide in E as [z Ez]; [|lia]. exists z.
      rewrite Ez in *. assert (INT32_MIN <= z <= INT32_MAX) as Hz by nia.
      unfold in_int32. rewrite andb_true_iff, !Z.leb_le.
      split; [lia|]. rewrite finite_dx by (unfold INT32_MIN, INT32_MAX in *; lia).
      by split.
    + intros (z & Hz & E). unfold in_int32 in Hz. rewrite andb_true_iff, !Z.leb_le in Hz.
      apply finite_dx in E as [_ ->]; [|unfold INT32_MIN, INT32_MAX in *; lia].
      rewrite Z.mod_mul by lia. nia.
Qed.

Lemma decimal_fixed d (in_range : Z -> bool) :
  (forall z, in_range z = true -> in_int64 z = true) ->
  (match dval d with XFin z => in_range (Z.quot z DEC_UNIT) | _ => false end = true /\
   IsDecimal128AFixedInteger (V_Decimal128 d) = Ok true <->
   exists z, in_range z = true /\ dval d = XFin (z * DEC_UNIT)).
Proof.
  intros Hr. rewrite fixed_integer. pose proof DEC_UNIT_pos as HD.
  destruct (dval d) as [| |u|]; try (split; [by intros []|by intros (z & _ & [=])]).
  split.
  - intros [H1 [= H2]]. apply andb_true_iff in H2 as [_ H2%Z.eqb_eq].
    exists (u / DEC_UNIT). rewrite H2. split; [|done].
    by rewrite <- H2, Z.quot_mul in H1 by lia.
  - intros (z & Hz & [= ->]). rewrite Z.quot_mul, Z.div_mul, Z.eqb_refl by lia.
    by rewrite (Hr z Hz).
Qed.

Lemma fixed_integer_ok d : exists b, IsDecimal128AFixedInteger (V_Decimal128 d) = Ok b.
Proof. rewrite fixed_integer. by eexists. Qed.

(** [IsBsonValue32BitInteger] with the integer check answers, for every
    well-formed value, whether it is a number whose value is an integer in the
    32-bit range, whatever its numeric type (NaN and infinities are not). *)
Theorem is_32bit_integer_correct (v : bson_value) :
  wf_value v = true ->
  exists b, IsBsonValue32BitInteger v true = Ok b /\
            (b = true <-> exists z, in_int32 z = true /\ denotes v z).
Proof.
  intros W. destruct v; try (exists false; split; [done|]; split; [done|by intros (z & _ & [])]).
  - eexists. split; [done|]. simpl in *. by apply double_is_int32.
  - exists true. split; [done|]. simpl in *. split; [|done]. by exists v_int32.
  - eexists. split; [done|]. simpl in *. rewrite Z.eqb_eq.
    unfold in_int32, INT32_MIN, INT32_MAX. split.
    + intros E. exists v_int64. split; [|done].
      pose proof (wrap_s_range 32 v_int64 ltac:(lia)). change (2 ^ (32 - 1)) with (2 ^ 31) in *. lia.
    + intros (z & Hz & ->). apply wrap_s_small; change (2 ^ (32 - 1)) with (2 ^ 31); lia.
  - unfold IsBsonValue32BitInteger. rewrite in_int32_range. cbn [result_bind negb].
    pose proof (decimal_fixed v_decimal128 in_int32 in_int32_int64) as H.
    destruct (fixed_integer_ok v_decimal128) as [b Hb]. rewrite Hb in *. simpl in H |- *.
    destruct (match dval v_decimal128 with XFin _ => _ | _ => _ end).
    + exists b. split; [done|]. rewrite <- H. split; [by intros ->|by intros [_ [= ->]]].
    + exists false. split; [done|]. rewrite <- H. split; [done|by intros []].
Qed.

Lemma int64_bounds z : in_int64 z = true -> - 2 ^ 63 <= z < 2 ^ 63.
Proof. unfold in_int64, INT64_MIN, INT64_MAX. lia. Qed.

Lemma xnum_cmp_eq x y : xnum_cmp x y = Eq <-> x = y.
Proof.
  destruct x as [| |a|], y as [| |b|]; try done.
  rewrite xnum_cmp_fin, Z.compare_eq_iff. naive_solver.
Qed.

(** The promotion of a double to a decimal keeps integer values. *)
Lemma bid_of_integer d z :
  in_int64 z = true -> doubleb d = true ->
  dval (bid_of d) = XFin (z * DEC_UNIT) <-> dx d = XFin (z * DSCALE).
Proof.
  intros Hz Hd. pose proof (bid_of_int_double z d Hz Hd) as E.
  pose proof (xnum_cmp_eq (XFin (z * DEC_UNIT)) (dval (bid_of d))) as H1.
  pose proof (xnum_cmp_eq (XFin (z * DSCALE)) (dx d)) as H2.
  rewrite E in H1. split; intros H; symmetry; [apply H2, H1|apply H1, H2]; done.
Qed.

(** [IsBsonValueUnquantized64BitInteger] with the integer check answers,
    for every well-formed value, whether it is a number whose value is an
    integer in the 64-bit range; the double 2^63 is outside, -2^63 inside. *)
Theorem is_64bit_integer_correct (v : bson_value) :
  wf_value v = true ->
  exists b, IsBsonValueUnquantized64BitInteger v true = Ok b /\
            (b = true <-> exists z, in_int64 z = true /\ denotes v z).
Proof.
  intros W. unfold IsBsonValueUnquantized64BitInteger, IsBsonValue64BitIntegerCore.
  assert (forall d, exists b,
    (let! inRange := IsDecimal128InInt64Range (V_Decimal128 d) in
     if negb inRange then Ok false
     else if negb true then Ok true else IsDecimal128AFixedInteger (V_Decimal128 d)) = Ok b /\
    (b = true <-> exists z, in_int64 z = true /\ dval d = XFin (z * DEC_UNIT))) as Hdec.
  { intros d. rewrite in_int64_range. cbn [result_bind negb].
    pose proof (decimal_fixed d in_int64 (fun z H => H)) as H.
    destruct (fixed_integer_ok d) as [b Hb]. rewrite Hb in *.
    destruct (match dval d with XFin _ => _ | _ => _ end); simpl.
    - exists b. split; [done|]. rewrite <- H. split; [by intros ->|by intros [_ [= ->]]].
    - exists false. split; [done|]. rewrite <- H. split; [done|by intros []]. }
  destruct v; try (exists false; split; [done|]; split; [done|by intros (z & _ & [])]);
    simpl in W.
  - destruct (as_decimal (V_Double v_double)) as (d & -> & Ed); [done..|].
    cbn [result_bind]. destruct (Hdec d) as (b & -> & Hb). exists b. split; [done|].
    rewrite Hb. unfold denotes. simpl in Ed. rewrite Ed.
    split; intros (z & Hz & E); exists z; (split; [done|]); by apply bid_of_integer.
  - exists true. split; [done|]. split; [|done]. exists v_int32.
    split; [by apply in_int32_int64|done].
  - exists true. split; [done|]. split; [|done]. by exists v_int64.
  - apply Hdec.
Qed.

(** Saturation to the 32-bit range. *)
Definition clamp32 (z : Z) : Z := Z.max INT32_MIN (Z.min INT32_MAX z).

(** The comparisons of [BsonValueAsInt32Clamped] with the bounds. *)
Lemma clamp_bounds d (x : Z) :
  isnan d = false ->
  (INT32_MAX * DSCALE <= dscaled d -> INT32_MAX <= x) ->
  (dscaled d <= INT32_MIN * DSCALE -> x <= INT32_MIN) ->
  (INT32_MIN * DSCALE < dscaled d < INT32_MAX * DSCALE -> INT32_MIN <= x <= INT32_MAX) ->
  (if d_le (double_of_int INT32_MAX) d then INT32_MAX
   else if d_le d (double_of_int INT32_MIN) then INT32_MIN else int32 x) = clamp32 x.
Proof.
  intros N Hmax Hmin Hmid. destruct INT32_bounds as [Bmin Bmax].
  destruct (int32_double _ Bmin) as [Emin Nmin], (int32_double _ Bmax) as [Emax Nmax].
  unfold d_le, d_cmp_ok, clamp32. rewrite Emin, Emax, Nmin, Nmax, N. cbn [negb andb].
  destruct (Z.leb_spec (INT32_MAX * DSCALE) (dscaled d)) as [H1|H1]; [lia|].
  destruct (Z.leb_spec (dscaled d) (INT32_MIN * DSCALE)) as [H2|H2]; [lia|].
  specialize (Hmid ltac:(lia)).
  rewrite wrap_s_small; change (2 ^ (32 - 1)) with (2 ^ 31);
    unfold INT32_MIN, INT32_MAX in *; lia.
Qed.

Lemma result_if (c1 c2 : bool) (a b d : Z) :
  (if c1 then Ok a else if c2 then Ok b else Ok d) = Ok (if c1 then a else if c2 then b else d).
Proof. by destruct c1, c2. Qed.

Lemma int64_double_order z k :
  in_int64 z = true -> Z.abs k <= 2 ^ 31 ->
  (k * DSCALE <= dscaled (double_of_int z) <-> k <= z) /\
  (dscaled (double_of_int z) <= k * DSCALE <-> z <= k).
Proof.
  intros Hz%int64_bounds Hk. pose proof DSCALE_pos as HS.
  destruct (Z_lt_le_dec (Z.abs z) (2 ^ 53)) as [Hs|Hb].
  - rewrite double_of_int_exact by done. split; nia.
  - destruct (double_of_int_big z ltac:(lia)) as [Hp Hn].
    destruct (Z_lt_le_dec 0 z) as [H|H].
    + specialize (Hp H). split; split; intros; nia.
    + specialize (Hn ltac:(lia)). split; split; intros; nia.
Qed.

Lemma clamp_int z : in_int64 z = true ->
  (if d_le (double_of_int INT32_MAX) (double_of_int z) then INT32_MAX
   else if d_le (double_of_int z) (double_of_int INT32_MIN) then INT32_MIN else int32 z)
  = clamp32 z.
Proof.
  intros Hz. pose proof (int64_bounds z Hz) as Hb.
  destruct (int64_double_order z INT32_MAX Hz) as [A1 A2]; [unfold INT32_MAX; lia|].
  destruct (int64_double_order z INT32_MIN Hz) as [B1 B2]; [unfold INT32_MIN; lia|].
  apply clamp_bounds; [apply double_of_int_range; lia|lia..].
Qed.

Lemma clamp_double d :
  isnan d = false ->
  (if d_le (double_of_int INT32_MAX) d then INT32_MAX
   else if d_le d (double_of_int INT32_MIN) then INT32_MIN else int32 (cast_int64 d))
  = clamp32 (d_trunc d).
Proof.
  intros N. pose proof DSCALE_pos as HS.
  assert (forall k, k * DSCALE <= dscaled d -> k <= d_trunc d) as Hge.
  { intros k Hk. unfold d_trunc. rewrite <- (Z.quot_mul k DSCALE) by lia.
    apply Z.quot_le_mono; lia. }
  assert (forall k, dscaled d <= k * DSCALE -> d_trunc d <= k) as Hle.
  { intros k Hk. unfold d_trunc. rewrite <- (Z.quot_mul k DSCALE) by lia.
    apply Z.quot_le_mono; lia. }
  rewrite <- (clamp_bounds d (d_trunc d) N); [|by auto..|].
  - unfold cast_int64, cast_Z_int64. rewrite N. cbn [orb].
    destruct (d_le (double_of_int INT32_MAX) d) eqn:E1; [done|].
    destruct (d_le d (double_of_int INT32_MIN)) eqn:E2; [done|].
    destruct INT32_bounds as [Bmin Bmax].
    destruct (int32_double _ Bmin) as [Emin Nmin], (int32_double _ Bmax) as [Emax Nmax].
    unfold d_le, d_cmp_ok in E1, E2. rewrite Emax, Nmax, N in E1. rewrite Emin, Nmin, N in E2.
    cbn [negb andb] in E1, E2. apply Z.leb_gt in E1, E2.
    pose proof (Hge INT32_MIN ltac:(lia)). pose proof (Hle INT32_MAX ltac:(lia)).
    unfold in_int64, INT64_MIN, INT64_MAX, INT32_MIN, INT32_MAX in *.
    destruct (_ && _) eqn:E; [done|]. apply andb_false_iff in E. lia.
  - intros [H1 H2]. split; [apply Hge|apply Hle]; lia.
Qed.

(** [BsonValueAsInt32Clamped] saturates: 32- and 64-bit integers of any size
    and doubles of any size (truncated toward zero) are mapped to the nearest
    32-bit integer, infinities to the bounds, NaN to zero; it raises no error
    on these types. *)
Theorem int32_clamped_saturates (v : bson_value) :
  wf_value v = true ->
  match v with
  | V_Int32 z | V_Int64 z => BsonValueAsInt32Clamped v = Ok (clamp32 z)
  | V_Double d => BsonValueAsInt32Clamped v = Ok (if isnan d then 0 else clamp32 (d_trunc d))
  | _ => True
  end.
Proof.
  intros W. destruct v; try done; simpl in W; unfold BsonValueAsInt32Clamped;
    cbn [BsonValueAsDoubleQuiet BsonValueAsDoubleCore result_bind].
  - destruct (isnan v_double) eqn:N; [done|].
    unfold BsonValueAsInt64, BsonValueAsInt64WithRoundingMode. cbn [result_bind].
    by rewrite result_if, clamp_double.
  - apply in_int32_int64 in W. pose proof (int64_bounds _ W).
    destruct (double_of_int_range v_int32) as [_ ->]; [lia|].
    unfold BsonValueAsInt64, BsonValueAsInt64WithRoundingMode. cbn [result_bind].
    by rewrite result_if, clamp_int.
  - pose proof (int64_bounds _ W).
    destruct (double_of_int_range v_int64) as [_ ->]; [lia|].
    unfold BsonValueAsInt64, BsonValueAsInt64WithRoundingMode. cbn [result_bind].
    by rewrite result_if, clamp_int.
Qed.

End spec.

(** ** Instances

    Two documents that differ in the case of a nested string and in the type
    of a number, equal under the case-folding collation. *)

Section instances.
Import ExactBid FoldCase.

Definition sample_collation : option bytes := Some [101; 110; 45; 117].
Definition sample_left : bson_value :=
  V_Document [([97], V_Int32 7); ([98], V_Array [([48], V_Utf8 [65; 66]); ([49], V_Double 0)])].
Definition sample_right : bson_value :=
  V_Document [([97], V_Int64 7); ([98], V_Array [([48], V_Utf8 [97; 98]); ([49], V_Int32 0)])].

Example sample_equal :
  CompareBsonValueAndTypeWithCollation sample_left sample_right sample_collation = Ok (0, true) /\
  CompareBsonValueAndTypeWithCollation sample_left sample_right None = Ok (-32, true).
Proof. split; vm_compute; reflexivity. Qed.


Lemma compare_total_preorder_witness :
  value_compare None (V_Int32 1) (V_Double (double_of_int 2)) = Some Lt /\
  value_compare None (V_Double (double_of_int 2)) (V_Utf8 [97]) = Some Lt /\
  value_compare None (V_Int32 1) (V_Utf8 [97]) = Some Lt.
Proof.
  pose proof (compare_total_preorder None (V_Int32 1) (V_Double (double_of_int 2)) (V_Utf8 [97])
    eq_refl eq_refl eq_refl) as (_ & _ & _ & H).
  split; [|split]; [vm_compute; reflexivity..|].
  apply H; vm_compute; reflexivity.
Defined.

(** 2^53 + 1 is above the double 2^53. *)
Lemma compare_int64_double_exact_witness :
  CompareBsonValueAndType (V_Int64 (2 ^ 53 + 1)) (V_Double (double_of_int (2 ^ 53))) =
  Ok (1, true).
Proof.
  rewrite (compare_int64_double_exact (2 ^ 53 + 1) (double_of_int (2 ^ 53)));
    vm_compute; reflexivity.
Defined.

(** A reader of one-byte documents, as [{ "": byte }]. *)
Definition one_byte_reader (b : bytes) : option bson_doc :=
  match b with
  | [x] => if in_int32 x then Some [([], V_Int32 x)] else None
  | _ => None
  end.

Lemma bson_operator_class_witness :
  extension_bson_lt one_byte_reader [3] [5] = Ok true.
Proof.
  pose proof (bson_operator_class one_byte_reader
    ltac:(intros b fs H; destruct b as [|x [|]]; simpl in H; try discriminate H;
          destruct (in_int32 x) eqn:E; [|discriminate H]; injection H as <-; simpl;
          by rewrite E)
    [3] [4] [5] ltac:(by eexists) ltac:(by eexists) ltac:(by eexists))
    as (c & Hc & _ & _ & _ & _ & _ & _ & -> & _).
  vm_compute in Hc. by injection Hc as <-.
Defined.

Lemma is_32bit_integer_correct_witness :
  exists b, IsBsonValue32BitInteger (V_Double (double_of_int 40)) true = Ok b /\
            (b = true <-> exists z, in_int32 z = true /\ denotes (V_Double (double_of_int 40)) z).
Proof. by apply is_32bit_integer_correct. Defined.

Lemma is_64bit_integer_correct_witness :
  exists b, IsBsonValueUnquantized64BitInteger (V_Double (double_of_int (2 ^ 63))) true = Ok b /\
            (b = true <-> exists z, in_int64 z = true /\ denotes (V_Double (double_of_int (2 ^ 63))) z).
Proof. by apply is_64bit_integer_correct. Defined.

Lemma int32_clamped_saturates_witness :
  BsonValueAsInt32Clamped (V_Int64 (2 ^ 40)) = Ok (clamp32 (2 ^ 40)).
Proof. by apply (int32_clamped_saturates (V_Int64 (2 ^ 40))). Defined.

End instances.
