(* ===== verification/ComparableTerm.v ===== *)
(** * Comparable index terms: [pg_documentdb/src/opclass/comparable_index_term.c]

    Index terms whose bytes order like their values, so that the index can
    compare two of them with [memcmp]: a metadata byte, a sort code and a
    payload (a variable-length double, a sign-flipped big-endian integer, a
    string with its terminator).  The theorems show that the payload encodings
    are monotone and invertible, that [memcmp] on two comparable terms answers
    as the comparison of the values would, and that a term decodes to a value
    equal to the one it was written from. *)

From stdpp Require Import base numbers list option.
From Stdlib Require Import ZArith Lia.
From S2P Require Import Prelude Binary64 Bson StringView Decimal128 Collation BsonCompare.

(** ** Term metadata: [bson_gin_index_term_private.h] *)

Definition IndexTermNoMetadata : Z := 0x00.
Definition IndexTermTruncated : Z := 0x01.
Definition IndexTermIsMetadata : Z := 0x02.
Definition IndexTermComposite : Z := 0x04.
Definition IndexTermValueOnly : Z := 0x05.
Definition IndexTermValueOnlyTruncated : Z := 0x06.
Definition IndexTermComparableV1 : Z := 0x07.
Definition IndexTermUndefinedValue : Z := 0x08.
Definition IndexTermPartialUndefinedValue : Z := 0x0C.
Definition IndexTermDescending : Z := 0x80.
Definition IndexTermDescendingTruncated : Z := 0x81.
Definition IndexTermValueOnlyDescending : Z := 0x85.
Definition IndexTermValueOnlyDescendingTruncated : Z := 0x86.
Definition IndexTermDescendingComparableV1 : Z := 0x87.
Definition IndexTermDescendingUndefinedValue : Z := 0x88.
Definition IndexTermDescendingPartialUndefinedValue : Z := 0x8C.
Definition IndexTermMetadataCollationPrefixed : Z := 0xFF.

(** [BsonIndexTerm]: the metadata byte and the element (path and value). *)
Record BsonIndexTerm : Set := mk_term {
  termMetadata : Z;
  path : bytes;
  bsonValue : bson_value }.

(** ** Sort codes *)

Definition SORT_TYPE_MINKEY : Z := 1.
Definition SORT_TYPE_UNDEFINED_VALUE : Z := 5.
Definition SORT_TYPE_MAYBE_UNDEFINED_VALUE : Z := 8.
Definition SORT_TYPE_LITERAL_NULL : Z := 11.
Definition SORT_TYPE_NUMBER_DOUBLE : Z := 20.
Definition SORT_TYPE_UTF8 : Z := 30.
Definition SORT_TYPE_OID : Z := 34.
Definition SORT_TYPE_BOOL_FALSE : Z := 35.
Definition SORT_TYPE_BOOL_TRUE : Z := 36.
Definition SORT_TYPE_DATE_TIME : Z := 37.
Definition SORT_TYPE_TIMESTAMP : Z := 38.
Definition SORT_TYPE_MAXKEY : Z := 255.

Definition MAX_FULL_FIDELITY_INT64 : Z := 2 ^ 52.

(** ** Payload encodings *)

(** The [do ... while] loop: seven bits per byte, the low bit set on every byte
    but the last.  A 64-bit [val] whose low eight bits are clear is consumed in
    at most eight rounds. *)
Fixpoint encode_loop (fuel : nat) (val : Z) : bytes :=
  match fuel with
  | O => []
  | S fuel' =>
      let byte := Z.lor (Z.land (Z.shiftr val 56) 0xFF) 0x01 in
      let val' := uint64 (Z.shiftl val 7) in
      if 0 <? val' then byte :: encode_loop fuel' val'
      else [Z.land byte 0xFE]
  end.

(** The payload [EncodeSortableDouble] writes after the metadata byte and the
    sort code. *)
Definition sortable_double (value : double) : bytes :=
  let val := if value <? UINT64_MSB then Z.lxor value UINT64_MSB
             else uint64 (uint64 (Z.lnot value) + 1) in
  Z.land (Z.shiftr val 56) 0xFF :: encode_loop 8 (uint64 (Z.shiftl val 8)).

Definition EncodeSortableDouble (writtenMetadata : Z) (value : double) : bytes :=
  writtenMetadata :: SORT_TYPE_NUMBER_DOUBLE :: sortable_double value.

(** The nested tests of [DecodeSortableDouble]: one shift per byte, the last
    one to the right.  [None]: a read past the end of the buffer. *)
Fixpoint decode_loop (shifts : list Z) (p : bytes) (val : Z) : option Z :=
  match shifts with
  | [] => Some val
  | s :: shifts' =>
      match p with
      | [] => None
      | c :: p' =>
          let val' := Z.lor val (Z.shiftl (Z.land c 0xFE) s) in
          if negb (Z.land c 0x01 =? 0) then decode_loop shifts' p' val' else Some val'
      end
  end.

Definition DecodeSortableDouble (p : bytes) : option double :=
  match p with
  | [] => None
  | c :: p' =>
      match decode_loop [48; 41; 34; 27; 20; 13; 6; -1] p' (Z.shiftl (Z.land c 0xFF) 56) with
      | None => None
      | Some val =>
          Some (if val <? UINT64_MSB then uint64 (Z.lnot (uint64 (val - 1)))
                else Z.lxor val UINT64_MSB)
      end
  end.

(** Big-endian bytes of an unsigned integer: [pg_bswap] and [memcpy] on a
    little-endian machine. *)
Fixpoint be_bytes (n : nat) (z : Z) : bytes :=
  match n with
  | O => []
  | S n' => (z / 256 ^ Z.of_nat n') mod 256 :: be_bytes n' z
  end.

Fixpoint be_value (l : bytes) (acc : Z) : Z :=
  match l with
  | [] => acc
  | b :: l' => be_value l' (acc * 256 + b)
  end.

Definition EncodeSortableInt64 (value : Z) : bytes :=
  be_bytes 8 (Z.lxor (uint64 value) UINT64_MSB).
Definition DecodeSortableInt64 (buffer : bytes) : Z :=
  int64 (Z.lxor (be_value (take 8 buffer) 0) UINT64_MSB).
Definition EncodeSortableUint32 (value : Z) : bytes := be_bytes 4 value.
Definition DecodeSortableUint32 (buffer : bytes) : Z := be_value (take 4 buffer) 0.

(** ** Writing a term *)

(** The metadata byte that is written, or [None] when the term cannot be
    comparable. *)
Definition comparable_metadata (termMetadata : Z) : option Z :=
  if (termMetadata =? IndexTermValueOnly) || (termMetadata =? IndexTermUndefinedValue) ||
     (termMetadata =? IndexTermPartialUndefinedValue)
  then Some IndexTermComparableV1
  else if (termMetadata =? IndexTermDescendingPartialUndefinedValue) ||
          (termMetadata =? IndexTermValueOnlyDescending) ||
          (termMetadata =? IndexTermDescendingUndefinedValue)
  then Some IndexTermDescendingComparableV1
  else None.

(** The sort code of an undefined value. *)
Definition undefined_code (termMetadata : Z) : Z :=
  if (termMetadata =? IndexTermUndefinedValue) ||
     (termMetadata =? IndexTermDescendingUndefinedValue) then SORT_TYPE_UNDEFINED_VALUE
  else if (termMetadata =? IndexTermPartialUndefinedValue) ||
          (termMetadata =? IndexTermDescendingPartialUndefinedValue)
  then SORT_TYPE_MAYBE_UNDEFINED_VALUE
  else SORT_TYPE_LITERAL_NULL.

(** The term for the value of the single element in the writer: its bytes, or
    [None] (a [NULL] result) when the value has no comparable form. *)
Definition WriteComparableIndexTermToWriter (collation : option bytes)
  (currentValue : bson_value) (termMetadata : Z) : result (option bytes) :=
  match comparable_metadata termMetadata with
  | None => Ok None
  | Some writtenMetadata =>
      match currentValue with
      | V_MinKey => Ok (Some [writtenMetadata; SORT_TYPE_MINKEY])
      | V_MaxKey => Ok (Some [writtenMetadata; SORT_TYPE_MAXKEY])
      | V_Undefined => Ok (Some [writtenMetadata; undefined_code termMetadata])
      | V_Null => Ok (Some [writtenMetadata; SORT_TYPE_LITERAL_NULL])
      | V_Utf8 str | V_Symbol str =>
          if IsCollationValid collation then Ok None
          else Ok (Some (writtenMetadata :: SORT_TYPE_UTF8 :: str ++ [0]))
      | V_Bool b =>
          Ok (Some [writtenMetadata; if b then SORT_TYPE_BOOL_TRUE else SORT_TYPE_BOOL_FALSE])
      | V_Oid oid => Ok (Some (writtenMetadata :: SORT_TYPE_OID :: oid))
      | V_DateTime z => Ok (Some (writtenMetadata :: SORT_TYPE_DATE_TIME :: EncodeSortableInt64 z))
      | V_Timestamp t i =>
          Ok (Some (writtenMetadata :: SORT_TYPE_TIMESTAMP ::
                    EncodeSortableUint32 t ++ EncodeSortableUint32 i))
      | V_Int32 z => Ok (Some (EncodeSortableDouble writtenMetadata (double_of_int z)))
      | V_Double value =>
          if isnan value then Ok None
          else Ok (Some (EncodeSortableDouble writtenMetadata value))
      | V_Int64 intValue =>
          if (MAX_FULL_FIDELITY_INT64 <=? intValue) || (intValue <=? - MAX_FULL_FIDELITY_INT64)
          then Ok None
          else Ok (Some (EncodeSortableDouble writtenMetadata (double_of_int intValue)))
      | V_Binary _ _ | V_Document _ | V_Array _ | V_Regex _ _ | V_DbPointer _ _ | V_Code _
      | V_CodeWScope _ _ | V_Decimal128 _ => Ok None
      | V_Eod => Err ERRCODE_FEATURE_NOT_SUPPORTED
      end
  end.

Definition IsComparableIndexTermValueUndefined (buffer : bytes) : bool :=
  match buffer with
  | c :: _ => c =? SORT_TYPE_UNDEFINED_VALUE
  | [] => false
  end.

(** ** Reading a term *)

(** The value of a decoded double. *)
Definition value_of_double (decodeDouble : double) : bson_value :=
  if d_eq (d_floor decodeDouble) decodeDouble then
    if d_le (double_of_int INT32_MIN) decodeDouble && d_le decodeDouble (double_of_int INT32_MAX)
    then V_Int32 (cast_int32 decodeDouble)
    else if d_le (double_of_int INT64_MIN) decodeDouble &&
            d_le decodeDouble (double_of_int INT64_MAX)
    then V_Int64 (cast_int64 decodeDouble)
    else V_Double decodeDouble
  else V_Double decodeDouble.

(** [buffer] starts at the sort code; [metadata] is the metadata byte before
    it.  A read outside the buffer has no defined result: the model raises the
    error that stands for it, [ERRCODE_INTERNAL_ERROR]. *)
Definition ComparableBufferToBsonIndexTerm (buffer : bytes) (metadata : Z)
  : result BsonIndexTerm :=
  let isDescending := IndexTermDescending <=? metadata in
  let indexTermSize := blen buffer in
  let m := if isDescending then IndexTermValueOnlyDescending else IndexTermValueOnly in
  let term := mk_term m [36] in
  match buffer with
  | [] => Err ERRCODE_INTERNAL_ERROR
  | code :: payload =>
      if code =? SORT_TYPE_MINKEY then Ok (term V_MinKey)
      else if code =? SORT_TYPE_UNDEFINED_VALUE then
        Ok (mk_term (if isDescending then IndexTermDescendingUndefinedValue
                     else IndexTermUndefinedValue) [36] V_Undefined)
      else if code =? SORT_TYPE_MAYBE_UNDEFINED_VALUE then
        Ok (mk_term (if isDescending then IndexTermDescendingPartialUndefinedValue
                     else IndexTermPartialUndefinedValue) [36] V_Undefined)
      else if code =? SORT_TYPE_LITERAL_NULL then Ok (term V_Null)
      else if code =? SORT_TYPE_NUMBER_DOUBLE then
        if indexTermSize <? 3 then Err ERRCODE_INTERNAL_ERROR
        else
          match DecodeSortableDouble payload with
          | Some decodeDouble => Ok (term (value_of_double decodeDouble))
          | None => Err ERRCODE_INTERNAL_ERROR
          end
      else if code =? SORT_TYPE_UTF8 then
        if indexTermSize <? 2 then Err ERRCODE_INTERNAL_ERROR
        else Ok (term (V_Utf8 (take (Z.to_nat (indexTermSize - 2)) payload)))
      else if code =? SORT_TYPE_BOOL_FALSE then Ok (term (V_Bool false))
      else if code =? SORT_TYPE_BOOL_TRUE then Ok (term (V_Bool true))
      else if code =? SORT_TYPE_DATE_TIME then
        if indexTermSize <? 9 then Err ERRCODE_INTERNAL_ERROR
        else Ok (term (V_DateTime (DecodeSortableInt64 payload)))
      else if code =? SORT_TYPE_MAXKEY then Ok (term V_MaxKey)
      else if code =? SORT_TYPE_OID then
        if indexTermSize <? 13 then Err ERRCODE_INTERNAL_ERROR
        else Ok (term (V_Oid (take 12 payload)))
      else if code =? SORT_TYPE_TIMESTAMP then
        if indexTermSize <? 9 then Err ERRCODE_INTERNAL_ERROR
        else Ok (term (V_Timestamp (DecodeSortableUint32 payload)
                                   (DecodeSortableUint32 (drop 4 payload))))
      else Err ERRCODE_INTERNAL_ERROR
  end.

(** ** The variable-length double *)

(** The unsigned integer whose order is that of the doubles. *)
Definition sort_key (b : double) : Z := if b <? 2 ^ 63 then b + 2 ^ 63 else 2 ^ 64 - b.

Lemma sort_key_range b : 0 <= b < 2 ^ 64 -> 0 < sort_key b < 2 ^ 64.
Proof. unfold sort_key. intros. destruct (Z.ltb_spec b (2 ^ 63)); lia. Qed.

Lemma lnot_u64 z : 0 <= z < 2 ^ 64 -> uint64 (Z.lnot z) = 2 ^ 64 - 1 - z.
Proof.
  intros Hz. unfold wrap_u. replace (Z.lnot z) with (2 ^ 64 - 1 - z + (-1) * 2 ^ 64)
    by (unfold Z.lnot; lia).
  rewrite Z.mod_add by lia. apply Z.mod_small. lia.
Qed.

Lemma encoded_val b :
  0 <= b < 2 ^ 64 ->
  (if b <? UINT64_MSB then Z.lxor b UINT64_MSB else uint64 (uint64 (Z.lnot b) + 1)) = sort_key b.
Proof.
  intros Hb. unfold sort_key, UINT64_MSB. rewrite lxor_msb by done.
  destruct (Z.ltb_spec b (2 ^ 63)); [done|].
  rewrite lnot_u64 by done. unfold wrap_u. rewrite Z.mod_small; lia.
Qed.

Lemma low_bit_set x : 0 <= x < 256 -> Z.lor x 1 = 2 * (x / 2) + 1.
Proof.
  intros Hx. apply Z.eqb_eq. revert x Hx. apply byte_forall. vm_compute. reflexivity.
Qed.

Lemma low_bit_clear x : 0 <= x < 256 -> Z.land (Z.lor x 1) 0xFE = 2 * (x / 2).
Proof.
  intros Hx. apply Z.eqb_eq. revert x Hx. apply byte_forall. vm_compute. reflexivity.
Qed.

Lemma next_val val : 0 <= val < 2 ^ 64 -> uint64 (Z.shiftl val 7) = (val mod 2 ^ 57) * 2 ^ 7.
Proof.
  intros Hv. rewrite shiftl_mul by lia. unfold wrap_u.
  change (2 ^ 64) with (2 ^ 57 * 2 ^ 7). rewrite Z.mul_mod_distr_r by lia. done.
Qed.

(** One round, in arithmetic. *)
Lemma encode_round fuel val :
  0 <= val < 2 ^ 64 ->
  encode_loop (S fuel) val =
  if val mod 2 ^ 57 =? 0 then [2 * (val / 2 ^ 57)]
  else (2 * (val / 2 ^ 57) + 1) :: encode_loop fuel ((val mod 2 ^ 57) * 2 ^ 7).
Proof.
  intros Hv. cbn [encode_loop]. rewrite next_val by done.
  pose proof (Z.mod_pos_bound val (2 ^ 57) ltac:(lia)) as Hr.
  assert (0 <= val / 2 ^ 56 < 256) as Hq.
  { split; [apply Z.div_pos; lia|apply Z.div_lt_upper_bound; lia]. }
  assert (Z.land (Z.shiftr val 56) 0xFF = val / 2 ^ 56) as ->.
  { rewrite land_255, Z.shiftr_div_pow2 by lia. apply Z.mod_small. done. }
  rewrite low_bit_clear, low_bit_set by done.
  assert (val / 2 ^ 56 / 2 = val / 2 ^ 57) as ->.
  { rewrite Z.div_div by lia. done. }
  destruct (Z.eqb_spec (val mod 2 ^ 57) 0) as [->|Hne]; [done|].
  replace (0 <? val mod 2 ^ 57 * 2 ^ 7) with true by lia. done.
Qed.

Lemma encode_loop_cmp fuel v w :
  0 <= v < 2 ^ 64 -> 0 <= w < 2 ^ 64 ->
  (2 ^ (64 - 7 * Z.of_nat fuel) | v) -> (2 ^ (64 - 7 * Z.of_nat fuel) | w) ->
  (fuel <= 8)%nat ->
  bytes_cmp (encode_loop fuel v) (encode_loop fuel w) = (v ?= w).
Proof.
  revert v w. induction fuel as [|fuel IH]; intros v w Hv Hw Dv Dw Hf.
  { change (64 - 7 * Z.of_nat 0) with 64 in *. destruct Dv as [x ->], Dw as [y ->].
    assert (x = 0) as -> by nia. assert (y = 0) as -> by nia. done. }
  rewrite !encode_round by done.
  pose proof (Z.div_mod v (2 ^ 57) ltac:(lia)) as Ev.
  pose proof (Z.div_mod w (2 ^ 57) ltac:(lia)) as Ew.
  pose proof (Z.mod_pos_bound v (2 ^ 57) ltac:(lia)) as Rv.
  pose proof (Z.mod_pos_bound w (2 ^ 57) ltac:(lia)) as Rw.
  assert (forall x, (2 ^ (64 - 7 * Z.of_nat (S fuel)) | x) ->
            (2 ^ (64 - 7 * Z.of_nat fuel) | (x mod 2 ^ 57) * 2 ^ 7)) as HD.
  { intros x Dx. replace (64 - 7 * Z.of_nat fuel) with (64 - 7 * Z.of_nat (S fuel) + 7) by lia.
    rewrite Z.pow_add_r by lia. apply Z.mul_divide_mono_r.
    rewrite Z.mod_eq by lia. apply Z.divide_sub_r; [done|]. apply Z.divide_mul_l.
    exists (2 ^ (7 * Z.of_nat (S fuel) - 7)). rewrite <- Z.pow_add_r by lia. f_equal. lia. }
  specialize (IH ((v mod 2 ^ 57) * 2 ^ 7) ((w mod 2 ^ 57) * 2 ^ 7)).
  rewrite compare_mul_pos in IH by lia.
  specialize (IH ltac:(lia) ltac:(lia) (HD v Dv) (HD w Dw) ltac:(lia)).
  set (qv := v / 2 ^ 57) in *. set (qw := w / 2 ^ 57) in *.
  set (rv := v mod 2 ^ 57) in *. set (rw := w mod 2 ^ 57) in *. clearbody qv qw rv rw.
  assert ((v ?= w) = match qv ?= qw with Eq => rv ?= rw | Lt => Lt | Gt => Gt end) as ->.
  { destruct (Z.compare_spec qv qw) as [->|H|H].
    - destruct (Z.compare_spec rv rw); [apply Z.compare_eq_iff|apply Z.compare_lt_iff
        |apply Z.compare_gt_iff]; lia.
    - apply Z.compare_lt_iff. lia.
    - apply Z.compare_gt_iff. lia. }
  destruct (Z.eqb_spec rv 0) as [->|Nv], (Z.eqb_spec rw 0) as [->|Nw];
    unfold bytes_cmp in *; cbn [cmp_list].
  - destruct (Z.compare_spec (2 * qv) (2 * qw)), (Z.compare_spec qv qw); try lia; done.
  - destruct (Z.compare_spec (2 * qv) (2 * qw + 1)), (Z.compare_spec qv qw),
      (Z.compare_spec 0 rw); try lia; done.
  - destruct (Z.compare_spec (2 * qv + 1) (2 * qw)), (Z.compare_spec qv qw),
      (Z.compare_spec rv 0); try lia; done.
  - rewrite IH. destruct (Z.compare_spec (2 * qv + 1) (2 * qw + 1)), (Z.compare_spec qv qw);
      try lia; done.
Qed.

Lemma sortable_double_eq b :
  0 <= b < 2 ^ 64 ->
  sortable_double b =
  sort_key b / 2 ^ 56 :: encode_loop 8 ((sort_key b mod 2 ^ 56) * 2 ^ 8).
Proof.
  intros Hb. unfold sortable_double. rewrite encoded_val by done.
  pose proof (sort_key_range b Hb) as Hk. f_equal.
  - rewrite land_255, Z.shiftr_div_pow2 by lia. apply Z.mod_small.
    split; [apply Z.div_pos; lia|apply Z.div_lt_upper_bound; lia].
  - rewrite shiftl_mul by lia. unfold wrap_u. f_equal.
    change (2 ^ 64) with (2 ^ 56 * 2 ^ 8). by rewrite Z.mul_mod_distr_r by lia.
Qed.

Lemma split_compare v w k :
  0 < k ->
  (v ?= w) = match v / k ?= w / k with Eq => v mod k ?= w mod k | Lt => Lt | Gt => Gt end.
Proof.
  intros Hk. pose proof (Z.div_mod v k ltac:(lia)). pose proof (Z.div_mod w k ltac:(lia)).
  pose proof (Z.mod_pos_bound v k Hk). pose proof (Z.mod_pos_bound w k Hk).
  destruct (Z.compare_spec (v / k) (w / k)) as [E|E|E].
  - rewrite E in *. destruct (Z.compare_spec (v mod k) (w mod k));
      [apply Z.compare_eq_iff|apply Z.compare_lt_iff|apply Z.compare_gt_iff]; lia.
  - apply Z.compare_lt_iff. nia.
  - apply Z.compare_gt_iff. nia.
Qed.

(** The bytes are ordered as the sort keys. *)
Lemma sortable_double_key a b :
  0 <= a < 2 ^ 64 -> 0 <= b < 2 ^ 64 ->
  bytes_cmp (sortable_double a) (sortable_double b) = (sort_key a ?= sort_key b).
Proof.
  intros Ha Hb. rewrite !sortable_double_eq by done.
  rewrite (split_compare (sort_key a) (sort_key b) (2 ^ 56)) by lia.
  unfold bytes_cmp. cbn [cmp_list].
  destruct (_ / _ ?= _ / _); [|done..].
  change (cmp_list Z.compare) with bytes_cmp.
  pose proof (Z.mod_pos_bound (sort_key a) (2 ^ 56) ltac:(lia)).
  pose proof (Z.mod_pos_bound (sort_key b) (2 ^ 56) ltac:(lia)).
  rewrite encode_loop_cmp; [apply compare_mul_pos; lia|lia|lia| | |lia];
    by apply Z.divide_factor_r.
Qed.

(** The sort keys are ordered as the values. *)
Lemma sort_key_value a b :
  0 <= a < 2 ^ 64 -> 0 <= b < 2 ^ 64 -> (sort_key a ?= sort_key b) = (dscaled a ?= dscaled b).
Proof.
  intros Ha Hb. unfold sort_key, dscaled, d_abs, d_neg, UINT64_MSB.
  assert (forall x y, 0 <= x -> 0 <= y -> (mag x ?= mag y) = (x ?= y)) as HM
    by (intros; by apply mag_compare).
  assert (forall x, 0 < x -> 0 < mag x) as HP by (intros; rewrite <- mag_0; apply mag_lt; lia).
  assert (forall x, 0 <= x -> 0 <= mag x) as HN by (intros; by apply mag_nonneg).
  destruct (Z.ltb_spec a (2 ^ 63)), (Z.leb_spec (2 ^ 63) a); try lia;
  destruct (Z.ltb_spec b (2 ^ 63)), (Z.leb_spec (2 ^ 63) b); try lia.
  - rewrite HM by lia. destruct (Z.compare_spec a b);
      [apply Z.compare_eq_iff|apply Z.compare_lt_iff|apply Z.compare_gt_iff]; lia.
  - destruct (Z.eq_dec a 0) as [->|Hne]; [destruct (Z.eq_dec b (2 ^ 63)) as [->|]|].
    + done.
    + specialize (HP (b - 2 ^ 63) ltac:(lia)). rewrite mag_0.
      trans Gt; [|symmetry]; apply Z.compare_gt_iff; lia.
    + specialize (HP a ltac:(lia)). specialize (HN (b - 2 ^ 63) ltac:(lia)).
      trans Gt; [|symmetry]; apply Z.compare_gt_iff; lia.
  - destruct (Z.eq_dec b 0) as [->|Hne]; [destruct (Z.eq_dec a (2 ^ 63)) as [->|]|].
    + done.
    + specialize (HP (a - 2 ^ 63) ltac:(lia)). rewrite mag_0.
      trans Lt; [|symmetry]; apply Z.compare_lt_iff; lia.
    + specialize (HP b ltac:(lia)). specialize (HN (a - 2 ^ 63) ltac:(lia)).
      trans Lt; [|symmetry]; apply Z.compare_lt_iff; lia.
  - rewrite Z.compare_opp, HM by lia.
    destruct (Z.compare_spec (b - 2 ^ 63) (a - 2 ^ 63));
      [apply Z.compare_eq_iff|apply Z.compare_lt_iff|apply Z.compare_gt_iff]; lia.
Qed.

Lemma sortable_double_cmp a b :
  0 <= a < 2 ^ 64 -> 0 <= b < 2 ^ 64 ->
  bytes_cmp (sortable_double a) (sortable_double b) = (dscaled a ?= dscaled b).
Proof. intros. rewrite sortable_double_key, sort_key_value; done. Qed.

(** ** Decoding *)

(** The shifts from the [f]-th last byte on. *)
Fixpoint shifts (f : nat) : list Z :=
  match f with O => [] | S f' => (7 * Z.of_nat f - 8) :: shifts f' end.

Lemma even_byte q : 0 <= q < 128 -> Z.land (2 * q) 0xFE = 2 * q /\ Z.land (2 * q) 1 = 0.
Proof.
  intros Hq. assert (((Z.land (2 * q) 0xFE =? 2 * q) && (Z.land (2 * q) 1 =? 0)) ||
                     (128 <=? q) = true) as H.
  { apply (byte_forall (fun q => ((Z.land (2 * q) 0xFE =? 2 * q) && (Z.land (2 * q) 1 =? 0)) ||
                     (128 <=? q))); [vm_compute; reflexivity|lia]. }
  apply orb_true_iff in H as [H|H]; [|lia]. rewrite andb_true_iff, !Z.eqb_eq in H. done.
Qed.

Lemma odd_byte q : 0 <= q < 128 -> Z.land (2 * q + 1) 0xFE = 2 * q /\ Z.land (2 * q + 1) 1 = 1.
Proof.
  intros Hq. assert (((Z.land (2 * q + 1) 0xFE =? 2 * q) && (Z.land (2 * q + 1) 1 =? 1)) ||
                     (128 <=? q) = true) as H.
  { apply (byte_forall (fun q => ((Z.land (2 * q + 1) 0xFE =? 2 * q) && (Z.land (2 * q + 1) 1 =? 1)) ||
                     (128 <=? q))); [vm_compute; reflexivity|lia]. }
  apply orb_true_iff in H as [H|H]; [|lia]. rewrite andb_true_iff, !Z.eqb_eq in H. done.
Qed.

(** The bits a byte contributes. *)
Lemma shifted_group q (f : nat) :
  Z.shiftl (2 * q) (7 * Z.of_nat (S f) - 8) = q * 2 ^ (7 * Z.of_nat f).
Proof.
  destruct f as [|f].
  - change (7 * Z.of_nat 1 - 8) with (-1). rewrite Z.shiftl_div_pow2 by lia.
    change (7 * Z.of_nat 0) with 0. change (2 ^ (- (-1))) with 2.
    rewrite Z.mul_comm, Z.div_mul by lia. lia.
  - rewrite shiftl_mul by lia.
    replace (7 * Z.of_nat (S f)) with (Z.succ (7 * Z.of_nat (S (S f)) - 8)) by lia.
    rewrite Z.pow_succ_r by lia. lia.
Qed.

Lemma decode_encode_loop f v acc rest :
  0 <= v < 2 ^ 64 -> (2 ^ (64 - 7 * Z.of_nat f) | v) -> (f <= 8)%nat ->
  decode_loop (shifts f) (encode_loop f v ++ rest) (acc * 2 ^ (7 * Z.of_nat f)) =
  Some (acc * 2 ^ (7 * Z.of_nat f) + v / 2 ^ (64 - 7 * Z.of_nat f)).
Proof.
  revert v acc. induction f as [|f IH]; intros v acc Hv [k Ek] Hf.
  { change (64 - 7 * Z.of_nat 0) with 64 in *. assert (k = 0) as -> by nia.
    subst v. rewrite Z.mul_0_l, Z.div_0_l, Z.add_0_r by lia. done. }
  set (D := 64 - 7 * Z.of_nat (S f)) in *. set (P := 2 ^ (7 * Z.of_nat f)).
  assert (0 < 2 ^ D) as HD by (apply pow2_pos; lia).
  assert (0 < P) as HP by (apply pow2_pos; lia).
  assert (2 ^ 57 = P * 2 ^ D) as E57.
  { subst P D. rewrite <- Z.pow_add_r by lia. f_equal. lia. }
  assert (2 ^ (7 * Z.of_nat (S f)) = 128 * P) as ES.
  { subst P. change 128 with (2 ^ 7). rewrite <- Z.pow_add_r by lia. f_equal. lia. }
  assert (v / 2 ^ D = k) as -> by (rewrite Ek; apply Z.div_mul; lia).
  assert (v / 2 ^ 57 = k / P) as Eq
    by (rewrite Ek, E57; apply Z.div_mul_cancel_r; lia).
  assert (v mod 2 ^ 57 = (k mod P) * 2 ^ D) as Er
    by (rewrite Ek, E57; apply Z.mul_mod_distr_r; lia).
  pose proof (Z.div_mod k P ltac:(lia)) as Ekk. pose proof (Z.mod_pos_bound k P HP) as Hr.
  assert (0 <= k / P < 128) as Hq.
  { rewrite <- Eq. split; [apply Z.div_pos; lia|apply Z.div_lt_upper_bound; lia]. }
  assert (Z.lor (acc * (128 * P)) (k / P * P) = (acc * 128 + k / P) * P) as Elor.
  { rewrite <- ES, lor_disjoint; [lia|lia|]. split; [nia|]. rewrite ES. nia. }
  rewrite encode_round, Eq, Er, ES by done. cbn [shifts].
  destruct (Z.eqb_spec (k mod P * 2 ^ D) 0) as [Z0|Nz]; cbn [app decode_loop].
  - destruct (even_byte (k / P) Hq) as [-> ->]. rewrite shifted_group. simpl (negb _).
    fold P. rewrite Elor. f_equal. assert (k mod P = 0) by nia. lia.
  - destruct (odd_byte (k / P) Hq) as [-> ->]. rewrite shifted_group. simpl (negb _).
    fold P. rewrite Elor.
    assert (64 - 7 * Z.of_nat f = D + 7) as ED by (subst D; lia).
    assert (k mod P * 2 ^ D * 2 ^ 7 = k mod P * 2 ^ (D + 7)) as EM
      by (rewrite Z.pow_add_r by lia; lia).
    rewrite EM. subst P. rewrite IH; [|..|lia]; rewrite ?ED.
    + rewrite Z.div_mul by (apply Z.pow_nonzero; lia). f_equal. lia.
    + rewrite <- EM. nia.
    + by apply Z.divide_factor_r.
Qed.

Lemma decoded_val b :
  0 <= b < 2 ^ 64 ->
  (if sort_key b <? UINT64_MSB then uint64 (Z.lnot (uint64 (sort_key b - 1)))
   else Z.lxor (sort_key b) UINT64_MSB) = if b =? 2 ^ 63 then 0 else b.
Proof.
  intros Hb. pose proof (sort_key_range b Hb) as Hk. unfold UINT64_MSB.
  rewrite lxor_msb by lia. rewrite (wrap_u_small 64 (sort_key b - 1)) by lia.
  rewrite lnot_u64 by lia. unfold sort_key in *.
  destruct (Z.ltb_spec b (2 ^ 63)); [destruct (Z.ltb_spec (b + 2 ^ 63) (2 ^ 63))
    |destruct (Z.ltb_spec (2 ^ 64 - b) (2 ^ 63))]; destruct (Z.eqb_spec b (2 ^ 63)); lia.
Qed.

Lemma decode_sortable_double b rest :
  0 <= b < 2 ^ 64 ->
  DecodeSortableDouble (sortable_double b ++ rest) = Some (if b =? 2 ^ 63 then 0 else b).
Proof.
  intros Hb. pose proof (sort_key_range b Hb) as Hk. rewrite sortable_double_eq by done.
  cbn [app]. unfold DecodeSortableDouble.
  assert (0 <= sort_key b / 2 ^ 56 < 256) as Hq.
  { split; [apply Z.div_pos; lia|apply Z.div_lt_upper_bound; lia]. }
  rewrite land_255, (Z.mod_small (sort_key b / 2 ^ 56) 256), shiftl_mul by lia.
  change [48; 41; 34; 27; 20; 13; 6; -1] with (shifts 8).
  pose proof (Z.mod_pos_bound (sort_key b) (2 ^ 56) ltac:(lia)).
  change 56 with (7 * Z.of_nat 8) at 3.
  rewrite decode_encode_loop; [|lia|by apply Z.divide_factor_r|lia].
  change (2 ^ (64 - 7 * Z.of_nat 8)) with (2 ^ 8).
  rewrite Z.div_mul by lia. change (7 * Z.of_nat 8) with 56.
  replace (sort_key b / 2 ^ 56 * 2 ^ 56 + sort_key b mod 2 ^ 56) with (sort_key b)
    by (rewrite (Z.div_mod (sort_key b) (2 ^ 56)) at 1; lia).
  by rewrite decoded_val.
Qed.

(** ** Big-endian integers *)

Lemma pow256_pos n : 0 < 256 ^ Z.of_nat n.
Proof. apply Z.pow_pos_nonneg; lia. Qed.

Lemma be_bytes_mod n z : be_bytes n z = be_bytes n (z mod 256 ^ Z.of_nat n).
Proof.
  assert (forall m k, (m <= k)%nat -> be_bytes m z = be_bytes m (z mod 256 ^ Z.of_nat k)) as H.
  { intros m. induction m as [|m IH]; intros k Hk; simpl; [done|]. f_equal; [|apply IH; lia].
    replace (Z.of_nat k) with (Z.of_nat m + Z.of_nat (k - m)) by lia.
    rewrite Z.pow_add_r by lia. pose proof (pow256_pos m). pose proof (pow256_pos (k - m)).
    rewrite Z.rem_mul_r by lia. rewrite (Z.mul_comm (256 ^ Z.of_nat m)), Z.div_add by lia.
    rewrite (Z.div_small (z mod _)) by (apply Z.mod_pos_bound; lia). rewrite Z.add_0_l.
    replace (Z.of_nat (k - m)) with (Z.succ (Z.of_nat (k - m - 1))) by lia.
    rewrite Z.pow_succ_r, Z.rem_mul_r by (try apply pow256_pos; lia).
    rewrite (Z.mul_comm 256), Z.mod_add, Z.mod_mod by lia. done. }
  by apply H.
Qed.

Lemma be_bytes_length n z : length (be_bytes n z) = n.
Proof. induction n as [|n IH]; simpl; congruence. Qed.

Lemma be_bytes_cmp n a b :
  0 <= a < 256 ^ Z.of_nat n -> 0 <= b < 256 ^ Z.of_nat n ->
  bytes_cmp (be_bytes n a) (be_bytes n b) = (a ?= b).
Proof.
  revert a b. induction n as [|n IH]; intros a b Ha Hb.
  { change (256 ^ Z.of_nat 0) with 1 in *. by replace a with b by lia; rewrite Z.compare_refl. }
  pose proof (pow256_pos n) as HP.
  rewrite Nat2Z.inj_succ, Z.pow_succ_r in Ha, Hb by lia.
  rewrite (split_compare a b (256 ^ Z.of_nat n)) by done.
  cbn [be_bytes]. rewrite (be_bytes_mod n a), (be_bytes_mod n b).
  assert (forall x, 0 <= x < 256 * 256 ^ Z.of_nat n ->
            (x / 256 ^ Z.of_nat n) mod 256 = x / 256 ^ Z.of_nat n) as Hs.
  { intros x Hx. apply Z.mod_small.
    split; [apply Z.div_pos; lia|apply Z.div_lt_upper_bound; lia]. }
  rewrite !Hs by done. unfold bytes_cmp in *. cbn [cmp_list].
  destruct (_ / _ ?= _ / _); [|done..]. apply IH; by apply Z.mod_pos_bound.
Qed.

Lemma be_value_bytes n z acc :
  be_value (be_bytes n z) acc = acc * 256 ^ Z.of_nat n + z mod 256 ^ Z.of_nat n.
Proof.
  revert acc. induction n as [|n IH]; intros acc.
  { simpl be_value. change (256 ^ Z.of_nat 0) with 1. rewrite Z.mod_1_r. lia. }
  cbn [be_bytes be_value]. rewrite IH. pose proof (pow256_pos n).
  rewrite Nat2Z.inj_succ, Z.pow_succ_r, (Z.mul_comm 256), (Z.rem_mul_r z) by lia. lia.
Qed.

Lemma flipped_int64 z : in_int64 z = true -> Z.lxor (uint64 z) UINT64_MSB = z + 2 ^ 63.
Proof.
  intros Hz%int64_bounds. unfold UINT64_MSB.
  rewrite lxor_msb by (apply (wrap_u_range 64); lia). unfold wrap_u.
  destruct (Z_lt_le_dec z 0).
  - replace (z mod 2 ^ 64) with (z + 2 ^ 64)
      by (rewrite <- (Z.mod_add z 1), Z.mod_small by lia; lia).
    destruct (Z.ltb_spec (z + 2 ^ 64) (2 ^ 63)); lia.
  - rewrite Z.mod_small by lia. destruct (Z.ltb_spec z (2 ^ 63)); lia.
Qed.

Lemma sortable_int64_cmp a b :
  in_int64 a = true -> in_int64 b = true ->
  bytes_cmp (EncodeSortableInt64 a) (EncodeSortableInt64 b) = (a ?= b).
Proof.
  intros Ha Hb. unfold EncodeSortableInt64. rewrite !flipped_int64 by done.
  apply int64_bounds in Ha, Hb.
  rewrite be_bytes_cmp; [|change (256 ^ Z.of_nat 8) with (2 ^ 64); lia..].
  rewrite !(Z.add_comm _ (2 ^ 63)). apply Zcompare_plus_compat.
Qed.

Lemma decode_sortable_int64 z :
  in_int64 z = true -> DecodeSortableInt64 (EncodeSortableInt64 z) = z.
Proof.
  intros Hz. unfold DecodeSortableInt64, EncodeSortableInt64.
  rewrite take_ge by (rewrite be_bytes_length; lia). rewrite be_value_bytes.
  change (256 ^ Z.of_nat 8) with (2 ^ 64). rewrite flipped_int64 by done.
  apply int64_bounds in Hz. unfold UINT64_MSB.
  rewrite Z.mul_0_l, Z.add_0_l, Z.mod_small by lia. rewrite lxor_msb by lia.
  unfold wrap_s. change (2 ^ (64 - 1)) with (2 ^ 63).
  destruct (Z.ltb_spec (z + 2 ^ 63) (2 ^ 63)).
  - replace (z + 2 ^ 63 + 2 ^ 63 + 2 ^ 63) with (z + 2 ^ 63 + 1 * 2 ^ 64) by lia.
    rewrite Z.mod_add, Z.mod_small; lia.
  - rewrite Z.mod_small; lia.
Qed.

Lemma decode_sortable_uint32 z rest :
  uintb 32 z = true -> DecodeSortableUint32 (EncodeSortableUint32 z ++ rest) = z.
Proof.
  unfold uintb. rewrite andb_true_iff, Z.leb_le, Z.ltb_lt. intros Hz.
  unfold DecodeSortableUint32, EncodeSortableUint32.
  rewrite take_app_le by (rewrite be_bytes_length; lia).
  rewrite take_ge by (rewrite be_bytes_length; lia). rewrite be_value_bytes.
  rewrite Z.mod_small; [lia|]. by change (256 ^ Z.of_nat 4) with (2 ^ 32).
Qed.

(** ** Properties of the encoding of doubles *)

(** The bytes written for two doubles that are not NaN compare (as byte
    strings, the shorter one first on a tie) exactly as the doubles do; the two
    zeros are written alike and infinities are the extremes. *)
Theorem sortable_double_monotone (a b : double) :
  doubleb a = true -> doubleb b = true -> isnan a = false -> isnan b = false ->
  bytes_cmp (sortable_double a) (sortable_double b) =
  (if d_lt a b then Lt else if d_lt b a then Gt else Eq).
Proof.
  intros Ha%doubleb_range Hb%doubleb_range Na Nb. rewrite sortable_double_cmp by done.
  unfold d_lt, d_cmp_ok. rewrite Na, Nb. cbn [negb andb].
  destruct (Z.compare_spec (dscaled a) (dscaled b)),
    (Z.ltb_spec (dscaled a) (dscaled b)), (Z.ltb_spec (dscaled b) (dscaled a)); try lia; done.
Qed.

(** Decoding the bytes of a double, whatever follows them in the buffer,
    gives the double back, bit for bit, except that minus zero becomes zero;
    the decoder never reads past the bytes that were written. *)
Theorem sortable_double_roundtrip (b : double) (rest : bytes) :
  doubleb b = true ->
  DecodeSortableDouble (sortable_double b ++ rest) =
  Some (if b =? UINT64_MSB then 0 else b).
Proof. intros Hb%doubleb_range. by apply decode_sortable_double. Qed.

Section terms.
Context {L : BidLib} {BL : BidLaws L} {I : Icu} {IL : IcuLaws I}.

(** ** The order of terms *)

(** The double a number is written as. *)
Definition written_double (v : bson_value) : option double :=
  match v with
  | V_Int32 z => Some (double_of_int z)
  | V_Int64 z =>
      if (MAX_FULL_FIDELITY_INT64 <=? z) || (z <=? - MAX_FULL_FIDELITY_INT64) then None
      else Some (double_of_int z)
  | V_Double d => if isnan d then None else Some d
  | _ => None
  end.

Lemma small_int_double z :
  Z.abs z < 2 ^ 53 ->
  doubleb (double_of_int z) = true /\ isnan (double_of_int z) = false /\
  dx (double_of_int z) = XFin (z * DSCALE).
Proof.
  intros Hz. destruct (double_of_int_range z) as [Hd Hn]; [lia|].
  split_and!; [done..|]. rewrite finite_dx by lia. split; [done|].
  by apply double_of_int_exact.
Qed.

Lemma written_double_value v a :
  wf_value v = true -> written_double v = Some a ->
  doubleb a = true /\ isnan a = false /\ dx a = binary_of v.
Proof.
  intros W. destruct v; simpl in *; try done.
  - destruct (isnan v_double) eqn:N; [done|]. by intros [= <-].
  - intros [= <-]. apply small_int_double.
    unfold in_int32, INT32_MIN, INT32_MAX in W. lia.
  - unfold MAX_FULL_FIDELITY_INT64. destruct (_ || _) eqn:E; [done|]. intros [= <-].
    apply small_int_double. apply orb_false_iff in E. lia.
Qed.

(** Among doubles that are not NaN, values are ordered as the extended
    numbers. *)
Lemma dx_compare a b :
  doubleb a = true -> doubleb b = true -> isnan a = false -> isnan b = false ->
  xnum_cmp (dx a) (dx b) = (dscaled a ?= dscaled b).
Proof.
  intros Ha%doubleb_range Hb%doubleb_range Na Nb.
  assert (forall d, 0 <= d < 2 ^ 64 -> isnan d = false -> isinf d = false ->
            Z.abs (dscaled d) < mag INF_BITS) as Hfin.
  { intros d Hd Nd Id. rewrite dscaled_abs by done. apply mag_lt.
    pose proof (d_abs_range d Hd). unfold isnan, isinf in *. lia. }
  assert (forall d, 0 <= d < 2 ^ 64 -> isinf d = true ->
            dscaled d = if d_neg d then - mag INF_BITS else mag INF_BITS) as Hinf.
  { intros d Hd Id. unfold isinf in Id. apply Z.eqb_eq in Id. unfold dscaled. by rewrite Id. }
  unfold dx. rewrite Na, Nb.
  destruct (isinf a) eqn:Ia, (isinf b) eqn:Ib; rewrite ?(Hinf a Ha), ?(Hinf b Hb) by done;
    try specialize (Hfin a Ha Na Ia); try specialize (Hfin b Hb Nb Ib).
  - assert (0 < mag INF_BITS) by (rewrite <- mag_0; apply mag_lt; by vm_compute).
    destruct (d_neg a), (d_neg b); symmetry;
      rewrite ?Z.compare_refl, ?Z.compare_lt_iff, ?Z.compare_gt_iff; simpl; lia || done.
  - destruct (d_neg a); symmetry; [apply Z.compare_lt_iff|apply Z.compare_gt_iff]; lia.
  - destruct (d_neg b); symmetry; [apply Z.compare_gt_iff|apply Z.compare_lt_iff]; lia.
  - apply xnum_cmp_fin.
Qed.

Lemma written_numbers_order n coll v w a b :
  wf_value v = true -> wf_value w = true ->
  written_double v = Some a -> written_double w = Some b ->
  bytes_cmp (sortable_double a) (sortable_double b) = bson_order (S n) coll v w.
Proof.
  intros Wv Ww Ev Ew.
  destruct (written_double_value v a Wv Ev) as (Da & Na & Ea).
  destruct (written_double_value w b Ww Ew) as (Db & Nb & Eb).
  rewrite sortable_double_cmp by (by apply doubleb_range).
  rewrite <- dx_compare, Ea, Eb by done.
  rewrite order_numbers by (destruct v; try done; destruct w; done).
  apply binary_decimal_order; try done;
    (destruct v; try done; destruct w; done).
Qed.

(** What the metadata adds to an undefined value: a missing field sorts before
    a partially missing one, which sorts before a literal. *)
Definition undefined_rank (m : Z) : Z :=
  if (m =? IndexTermUndefinedValue) || (m =? IndexTermDescendingUndefinedValue) then 0
  else if (m =? IndexTermPartialUndefinedValue) ||
          (m =? IndexTermDescendingPartialUndefinedValue) then 1
  else 2.

(** The undefined metadata only goes with an undefined value. *)
Definition consistent (m : Z) (v : bson_value) : bool :=
  (undefined_rank m =? 2) || type_eqb (value_type v) BSON_TYPE_UNDEFINED.

(** The term without its metadata byte. *)
Definition sort_body (collation : option bytes) (v : bson_value) (m : Z) : option bytes :=
  match v with
  | V_MinKey => Some [SORT_TYPE_MINKEY]
  | V_MaxKey => Some [SORT_TYPE_MAXKEY]
  | V_Undefined => Some [undefined_code m]
  | V_Null => Some [SORT_TYPE_LITERAL_NULL]
  | V_Utf8 str | V_Symbol str =>
      if IsCollationValid collation then None else Some (SORT_TYPE_UTF8 :: str ++ [0])
  | V_Bool b => Some [if b then SORT_TYPE_BOOL_TRUE else SORT_TYPE_BOOL_FALSE]
  | V_Oid oid => Some (SORT_TYPE_OID :: oid)
  | V_DateTime z => Some (SORT_TYPE_DATE_TIME :: EncodeSortableInt64 z)
  | V_Timestamp t i =>
      Some (SORT_TYPE_TIMESTAMP :: EncodeSortableUint32 t ++ EncodeSortableUint32 i)
  | V_Int32 _ | V_Int64 _ | V_Double _ =>
      match written_double v with
      | Some a => Some (SORT_TYPE_NUMBER_DOUBLE :: sortable_double a)
      | None => None
      end
  | _ => None
  end.

Lemma written_body collation v m t :
  WriteComparableIndexTermToWriter collation v m = Ok (Some t) ->
  exists wm body, comparable_metadata m = Some wm /\ sort_body collation v m = Some body /\
                  t = wm :: body.
Proof.
  unfold WriteComparableIndexTermToWriter.
  destruct (comparable_metadata m) as [wm|]; [|done]. intros H. exists wm.
  destruct v; simpl in *; repeat case_match; simplify_eq; eauto.
Qed.

(** The order of the sort codes is that of the classes. *)
Lemma code_class_order coll v w m m' c p c' p' :
  sort_body coll v m = Some (c :: p) -> sort_body coll w m' = Some (c' :: p') ->
  class_of v < class_of w -> c < c'.
Proof.
  assert (forall x mx cx px, sort_body coll x mx = Some (cx :: px) ->
    match class_of x with
    | 0 => cx = 1 | 1 => 5 <= cx <= 11 | 2 => cx = 20 | 3 => cx = 30 | 7 => cx = 34
    | 8 => 35 <= cx <= 36 | 9 => cx = 37 | 10 => cx = 38 | 15 => cx = 255 | _ => False
    end) as H.
  { intros x mx cx px. destruct x; simpl; intros E; repeat case_match; simplify_eq; try done.
    unfold undefined_code. repeat case_match; done. }
  intros H1%H H2%H Hlt. revert H1 H2 Hlt.
  destruct v; try done; destruct w; try done; simpl; unfold class_of; simpl; lia.
Qed.

Lemma sort_body_cons coll v m body : sort_body coll v m = Some body -> exists c p, body = c :: p.
Proof. destruct v; simpl; repeat case_match; intros; simplify_eq; eauto. Qed.

Lemma cmp_eta_lex (c d : comparison) : d = Eq ->
  match c with Eq => d | Lt => Lt | Gt => Gt end = c.
Proof. intros ->. by destruct c. Qed.

Lemma number_body coll v m b :
  class_of v = 2 -> sort_body coll v m = Some b ->
  exists a, written_double v = Some a /\ b = SORT_TYPE_NUMBER_DOUBLE :: sortable_double a.
Proof.
  destruct v; try discriminate; intros _; unfold sort_body;
    destruct (written_double _) as [a|]; intros [= <-]; eauto.
Qed.

Lemma uint32_bytes_cmp a b :
  uintb 32 a = true -> uintb 32 b = true ->
  bytes_cmp (EncodeSortableUint32 a) (EncodeSortableUint32 b) = (a ?= b).
Proof.
  unfold uintb. rewrite !andb_true_iff, !Z.leb_le, !Z.ltb_lt. intros.
  apply be_bytes_cmp; by change (256 ^ Z.of_nat 4) with (2 ^ 32).
Qed.

Lemma bytes_cmp_head c p q : bytes_cmp (c :: p) (c :: q) = bytes_cmp p q.
Proof. unfold bytes_cmp. simpl. by rewrite Z.compare_refl. Qed.

Lemma undefined_code_rank m m' :
  (undefined_code m ?= undefined_code m') = (undefined_rank m ?= undefined_rank m') /\
  (SORT_TYPE_LITERAL_NULL ?= undefined_code m') = (2 ?= undefined_rank m') /\
  (undefined_code m ?= SORT_TYPE_LITERAL_NULL) = (undefined_rank m ?= 2).
Proof.
  unfold undefined_code, undefined_rank.
  destruct (_ || _); [|destruct (_ || _)]; (destruct (_ || _); [|destruct (_ || _)]); done.
Qed.

Lemma consistent_rank m v :
  consistent m v = true -> value_type v <> BSON_TYPE_UNDEFINED -> undefined_rank m = 2.
Proof.
  unfold consistent, type_eqb. intros [H%Z.eqb_eq|H%bool_decide_eq_true]%orb_true_iff; done.
Qed.

Lemma text_body_order n coll v w b b' :
  GetSortOrderType (value_type v) = 3 -> GetSortOrderType (value_type w) = 3 ->
  strb (text_of v) = true -> strb (text_of w) = true ->
  (if IsCollationValid coll then None else Some (SORT_TYPE_UTF8 :: text_of v ++ [0])) = Some b ->
  (if IsCollationValid coll then None else Some (SORT_TYPE_UTF8 :: text_of w ++ [0])) = Some b' ->
  bytes_cmp b b' = bson_order (S n) coll v w.
Proof.
  intros Cv Cw Wv Ww. rewrite order_texts by done. unfold string_order.
  destruct (IsCollationValid coll); [done|]. intros [= <-] [= <-]. rewrite bytes_cmp_head.
  unfold strb in Wv, Ww. rewrite andb_true_iff in Wv, Ww.
  apply bytes_cmp_terminated; [apply Wv|apply Ww].
Qed.

(** Values of one class, none of them undefined or a number. *)
Lemma scalar_body_order n coll v w m m' b b' :
  wf_value v = true -> wf_value w = true -> class_of v = class_of w ->
  class_of v <> 1 -> class_of v <> 2 ->
  sort_body coll v m = Some b -> sort_body coll w m' = Some b' ->
  bytes_cmp b b' = bson_order (S n) coll v w.
Proof.
  intros Wv Ww Hc H1 H2 Hb Hb'.
  destruct v; try discriminate Hb; try done; destruct w; try discriminate Hc;
    try discriminate Hb'; cbn [sort_body] in Hb, Hb'; simpl in Wv, Ww; try done.
  all: try (by eapply text_body_order).
  all: simplify_eq.
  - by rewrite order_oids, bytes_cmp_head.
  - rewrite order_numbers by done. cbn [number_of].
    rewrite xnum_cmp_fin, compare_mul_pos by apply DEC_UNIT_pos.
    by destruct v_bool, v_bool0.
  - rewrite order_dates, bytes_cmp_head. by apply sortable_int64_cmp.
  - rewrite andb_true_iff in Wv, Ww. destruct Wv as [Wt Wi], Ww as [Wt' Wi'].
    rewrite order_timestamps, bytes_cmp_head, bytes_cmp_app by done.
    by rewrite !uint32_bytes_cmp.
  - by rewrite order_nulls by (simpl; auto).
  - by rewrite order_nulls by (simpl; auto; lia).
Qed.

Lemma body_order n coll v w m m' b b' :
  wf_value v = true -> wf_value w = true -> consistent m v = true -> consistent m' w = true ->
  sort_body coll v m = Some b -> sort_body coll w m' = Some b' ->
  bytes_cmp b b' =
  match bson_order (S n) coll v w with
  | Eq => undefined_rank m ?= undefined_rank m' | Lt => Lt | Gt => Gt end.
Proof.
  intros Wv Ww Cv Cw Hb Hb'.
  destruct (Z.eq_dec (class_of v) (class_of w)) as [Hc|Hc].
  2:{ rewrite order_class_ne by done.
      destruct (sort_body_cons _ _ _ _ Hb) as (c & p & ->).
      destruct (sort_body_cons _ _ _ _ Hb') as (c' & p' & ->). unfold bytes_cmp. simpl.
      destruct (Z.compare_spec (class_of v) (class_of w)) as [E|E|E]; [done|..].
      - pose proof (code_class_order _ _ _ _ _ _ _ _ _ Hb Hb' E) as Hlt.
        apply Z.compare_lt_iff in Hlt. by rewrite Hlt.
      - pose proof (code_class_order _ _ _ _ _ _ _ _ _ Hb' Hb E) as Hlt.
        apply Z.compare_gt_iff in Hlt. by rewrite Hlt. }
  destruct (Z.eq_dec (class_of v) 1) as [E1|N1].
  { rewrite order_nulls by (unfold class_of in *; auto; lia).
    destruct (undefined_code_rank m m') as (R1 & R2 & R3).
    destruct v; try discriminate; destruct w; try discriminate; simpl in Hb, Hb'; simplify_eq;
      unfold bytes_cmp; simpl; rewrite ?comparison_eta, ?R1, ?R2, ?R3;
      repeat (match goal with H : consistent ?x V_Null = true |- _ =>
                apply consistent_rank in H; [rewrite H|done] end); done. }
  assert (undefined_rank m = 2 /\ undefined_rank m' = 2) as [-> ->].
  { split; eapply consistent_rank; try done; [intros E; destruct v|intros E; destruct w]; done. }
  rewrite cmp_eta_lex by done.
  destruct (Z.eq_dec (class_of v) 2) as [E2|N2].
  - destruct (number_body coll v m b E2 Hb) as (x & Ex & ->).
    destruct (number_body coll w m' b' ltac:(lia) Hb') as (y & Ey & ->).
    rewrite bytes_cmp_head. by apply written_numbers_order.
  - by eapply scalar_body_order.
Qed.

(** ** Decoding terms *)

Lemma int64_bound_doubles :
  dscaled (double_of_int INT64_MIN) = - 2 ^ 63 * DSCALE /\
  dscaled (double_of_int INT64_MAX) = 2 ^ 63 * DSCALE /\
  isnan (double_of_int INT64_MIN) = false /\ isnan (double_of_int INT64_MAX) = false.
Proof. split_and!; vm_compute; reflexivity. Qed.

(** The double 2^63 is the one whose conversion to a 64-bit integer is not
    defined although the range test accepts it. *)
Definition TWO_63 : double := double_of_int (2 ^ 63).

Lemma d_le_int d z z' :
  isnan d = false -> isnan (double_of_int z) = false ->
  dscaled (double_of_int z) = z' * DSCALE ->
  d_le (double_of_int z) d = (z' * DSCALE <=? dscaled d) /\
  d_le d (double_of_int z) = (dscaled d <=? z' * DSCALE).
Proof. intros Nd Nz E. unfold d_le, d_cmp_ok. by rewrite Nd, Nz, E. Qed.

Lemma value_of_double_number d :
  doubleb d = true -> isnan d = false -> dscaled d <> 2 ^ 63 * DSCALE ->
  wf_value (value_of_double d) = true /\ binary_of (value_of_double d) = dx d /\
  class_of (value_of_double d) = 2 /\ value_type (value_of_double d) <> BSON_TYPE_DECIMAL128.
Proof.
  intros Hd N Hne. pose proof (doubleb_range d Hd) as Hr. pose proof DSCALE_pos as HS.
  unfold value_of_double. rewrite d_floor_eq by done.
  assert (wf_value (V_Double d) = true /\ binary_of (V_Double d) = dx d /\
    class_of (V_Double d) = 2 /\ value_type (V_Double d) <> BSON_TYPE_DECIMAL128) as Hdbl by done.
  destruct (Z.eqb_spec (dscaled d mod DSCALE) 0) as [E|_]; [|exact Hdbl].
  apply Z.mod_divide in E as [z Ez]; [|lia].
  destruct INT32_bounds as [Bmin Bmax].
  destruct (int32_double _ Bmin) as [Emin Nmin], (int32_double _ Bmax) as [Emax Nmax].
  destruct int64_bound_doubles as (Emin64 & Emax64 & Nmin64 & Nmax64).
  destruct (d_le_int d _ _ N Nmin Emin) as [-> _], (d_le_int d _ _ N Nmax Emax) as [_ ->].
  destruct (d_le_int d _ _ N Nmin64 Emin64) as [-> _], (d_le_int d _ _ N Nmax64 Emax64) as [_ ->].
  assert (forall k, (k * DSCALE <=? dscaled d) = (k <=? z)) as H1.
  { intros k. rewrite Ez. destruct (Z.leb_spec k z), (Z.leb_spec (k * DSCALE) (z * DSCALE)); nia. }
  assert (forall k, (dscaled d <=? k * DSCALE) = (z <=? k)) as H2.
  { intros k. rewrite Ez. destruct (Z.leb_spec z k), (Z.leb_spec (z * DSCALE) (k * DSCALE)); nia. }
  rewrite !H1, !H2. assert (z <> 2 ^ 63) as Hz by (intros ->; exact (Hne Ez)).
  assert (- 2 ^ 63 <= z <= 2 ^ 63 -> dx d = XFin (z * DSCALE)) as Hdx
    by (intros; rewrite finite_dx by lia; exact (conj N Ez)).
  fold (in_int32 z). destruct (in_int32 z) eqn:H32.
  - unfold cast_int32, cast_Z_int32. rewrite N, (d_trunc_exact d z Ez), H32.
    unfold in_int32, INT32_MIN, INT32_MAX in H32. rewrite Hdx by lia.
    split_and!; [exact H32|reflexivity|reflexivity|discriminate].
  - destruct ((- 2 ^ 63 <=? z) && (z <=? 2 ^ 63)) eqn:H64; [|exact Hdbl].
    assert (in_int64 z = true) as Hi by (unfold in_int64, INT64_MIN, INT64_MAX; lia).
    unfold cast_int64, cast_Z_int64. rewrite N, (d_trunc_exact d z Ez), Hi. rewrite Hdx by lia.
    split_and!; [exact Hi|reflexivity|reflexivity|discriminate].
Qed.

(** Only the double 2^63 itself is written as that double. *)
Lemma written_not_two_63 v a :
  wf_value v = true -> written_double v = Some a -> v <> V_Double TWO_63 ->
  dscaled a <> 2 ^ 63 * DSCALE.
Proof.
  intros Hw Ha Hne E. destruct (written_double_value v a Hw Ha) as (Da & Na & Ea).
  assert (dx a = XFin (2 ^ 63 * DSCALE)) as Ex by (rewrite finite_dx by lia; exact (conj Na E)).
  rewrite Ex in Ea. pose proof DSCALE_pos as HS. destruct v; try discriminate Ha; cbn [binary_of] in Ea.
  - simpl in Ha. destruct (isnan v_double); [done|]. injection Ha as <-. apply Hne. f_equal.
    assert (dscaled TWO_63 = 2 ^ 63 * DSCALE) as E2 by (vm_compute; reflexivity).
    destruct (dscaled_inj v_double TWO_63) as [H|H]; [by apply doubleb_range|done| |done|].
    + by rewrite E, E2.
    + rewrite H in E. lia.
  - injection Ea as Ea. simpl in Hw. unfold in_int32, INT32_MIN, INT32_MAX in Hw. nia.
  - injection Ea as Ea. simpl in Hw. apply int64_bounds in Hw. nia.
Qed.

(** What reading a written term must deliver: the path "$", a value equal to
    the one written, and metadata of the same kind: the same undefined rank, and
    written again with the same byte (hence the same direction). *)
Definition reads_back (coll : option bytes) (v : bson_value) (m : Z) (t : BsonIndexTerm) : Prop :=
  path t = [36] /\ wf_value (bsonValue t) = true /\
  (forall n, bson_order (S n) coll v (bsonValue t) = Eq) /\
  undefined_rank (termMetadata t) = undefined_rank m /\
  comparable_metadata (termMetadata t) = comparable_metadata m.

(** The metadata a plain term is read back with. *)
Lemma plain_metadata m wm :
  comparable_metadata m = Some wm ->
  undefined_rank (if IndexTermDescending <=? wm then IndexTermValueOnlyDescending
                  else IndexTermValueOnly) = 2 /\
  comparable_metadata (if IndexTermDescending <=? wm then IndexTermValueOnlyDescending
                       else IndexTermValueOnly) = Some wm.
Proof.
  unfold comparable_metadata, IndexTermValueOnly, IndexTermUndefinedValue,
    IndexTermPartialUndefinedValue, IndexTermDescendingPartialUndefinedValue,
    IndexTermValueOnlyDescending, IndexTermDescendingUndefinedValue.
  by_constants m ltac:(intros [= <-]; split_and!; reflexivity). done.
Qed.

Lemma reads_plain coll v v' m wm :
  comparable_metadata m = Some wm -> undefined_rank m = 2 -> wf_value v' = true ->
  (forall n, bson_order (S n) coll v v' = Eq) ->
  reads_back coll v m (mk_term (if IndexTermDescending <=? wm then IndexTermValueOnlyDescending
                                else IndexTermValueOnly) [36] v').
Proof.
  intros Hm Hr Hw Ho. destruct (plain_metadata m wm Hm) as (R & D).
  unfold reads_back. cbn [path bsonValue termMetadata]. rewrite R, Hr, D, Hm. done.
Qed.

Lemma sortable_double_size c a : 0 <= a < 2 ^ 64 -> (blen (c :: sortable_double a) <? 3) = false.
Proof.
  intros Ha. pose proof (Z.mod_pos_bound (sort_key a) (2 ^ 56) ltac:(lia)).
  rewrite sortable_double_eq, !blen_cons, encode_round by (done || lia).
  apply Z.ltb_ge. destruct (_ =? 0); rewrite blen_cons;
    match goal with |- context [blen ?l] => pose proof (blen_nonneg l) end; lia.
Qed.

Lemma reads_number coll v m wm a :
  comparable_metadata m = Some wm -> undefined_rank m = 2 -> wf_value v = true ->
  written_double v = Some a -> dscaled a <> 2 ^ 63 * DSCALE ->
  exists t, ComparableBufferToBsonIndexTerm (SORT_TYPE_NUMBER_DOUBLE :: sortable_double a) wm = Ok t /\
            reads_back coll v m t.
Proof.
  intros Hm Hr Hw Ha Hne. destruct (written_double_value v a Hw Ha) as (Da & Na & Ea).
  pose proof (doubleb_range a Da) as Ra. unfold ComparableBufferToBsonIndexTerm.
  cbn [Z.eqb SORT_TYPE_NUMBER_DOUBLE SORT_TYPE_MINKEY SORT_TYPE_UNDEFINED_VALUE
       SORT_TYPE_MAYBE_UNDEFINED_VALUE SORT_TYPE_LITERAL_NULL Pos.eqb].
  rewrite sortable_double_size by done.
  rewrite <- (app_nil_r (sortable_double a)), decode_sortable_double by done.
  assert (exists d, (if a =? 2 ^ 63 then 0 else a) = d /\ doubleb d = true /\ isnan d = false /\
            dscaled d = dscaled a /\ dx d = dx a) as (d & -> & Dd & Nd & Sd & Xd).
  { destruct (Z.eqb_spec a (2 ^ 63)) as [->|]; eexists; (split; [reflexivity|]); done. }
  rewrite <- Sd in Hne.
  destruct (value_of_double_number d Dd Nd Hne) as (W' & B' & C' & T').
  eexists. split; [reflexivity|]. apply reads_plain; [done..|]. intros n.
  assert (class_of v = 2 /\ is_number_or_bool v = true /\ value_type v <> BSON_TYPE_DECIMAL128)
    as (Cv & Nv & Tv) by (destruct v; done).
  assert (is_number_or_bool (value_of_double d) = true) as Nv'
    by (revert C'; destruct (value_of_double d); done).
  rewrite order_numbers, <- binary_decimal_order, B', Xd, Ea by (done || congruence).
  apply (cmp_refl _).
Qed.

Lemma order_refl n coll v : bson_order n coll v v = Eq.
Proof. apply (cmp_refl _). Qed.

(** Evaluates the test on the sort code and the size test in front. *)
Ltac read_code :=
  unfold ComparableBufferToBsonIndexTerm;
  cbn [Z.eqb Pos.eqb SORT_TYPE_MINKEY SORT_TYPE_UNDEFINED_VALUE SORT_TYPE_MAYBE_UNDEFINED_VALUE
       SORT_TYPE_LITERAL_NULL SORT_TYPE_NUMBER_DOUBLE SORT_TYPE_UTF8 SORT_TYPE_OID
       SORT_TYPE_BOOL_FALSE SORT_TYPE_BOOL_TRUE SORT_TYPE_DATE_TIME SORT_TYPE_TIMESTAMP
       SORT_TYPE_MAXKEY].

Lemma reads_text coll str v m wm :
  comparable_metadata m = Some wm -> undefined_rank m = 2 ->
  GetSortOrderType (value_type v) = 3 -> text_of v = str -> strb str = true ->
  exists t, ComparableBufferToBsonIndexTerm (SORT_TYPE_UTF8 :: str ++ [0]) wm = Ok t /\
            reads_back coll v m t.
Proof.
  intros Hm Hr Hc Ht Hs. read_code.
  assert (forall c, blen (c :: str ++ [0]) = blen str + 2) as E.
  { intros c. rewrite blen_cons. unfold blen. rewrite length_app. simpl. lia. }
  pose proof (blen_nonneg str). rewrite E. replace (blen str + 2 <? 2) with false by lia.
  replace (blen str + 2 - 2) with (blen str) by lia.
  unfold blen. rewrite Nat2Z.id, take_app_length.
  eexists. split; [reflexivity|]. apply reads_plain; [done..|]. intros n.
  rewrite order_texts, Ht by done. apply (cmp_refl _).
Qed.

Lemma reads_scalar coll v m wm body :
  comparable_metadata m = Some wm -> undefined_rank m = 2 -> wf_value v = true ->
  class_of v <> 2 -> class_of v <> 3 -> value_type v <> BSON_TYPE_UNDEFINED ->
  sort_body coll v m = Some body ->
  exists t, ComparableBufferToBsonIndexTerm body wm = Ok t /\ reads_back coll v m t.
Proof.
  intros Hm Hr Hw H2 H3 Hu Hb.
  destruct v; try discriminate Hb; try done; cbn [sort_body] in Hb; simplify_eq; simpl in Hw;
    try (eexists; split; [reflexivity|]; apply reads_plain; [done..|]; intros;
         apply order_refl).
  - read_code. unfold oidb, blen in Hw.
    rewrite andb_true_iff, Z.eqb_eq in Hw. destruct Hw as [Hby Hlen].
    assert (forall c, (blen (c :: v_oid) <? 13) = false) as E
      by (intros c; rewrite blen_cons; unfold blen; lia).
    rewrite E, take_ge by lia. eexists. split; [reflexivity|].
    apply reads_plain; [done..| |intros; apply order_refl].
    simpl. unfold oidb, blen. by rewrite Hby, Hlen.
  - destruct v_bool; eexists; (split; [reflexivity|]);
      (apply reads_plain; [done..|]; intros; apply order_refl).
  - read_code. change (blen _ <? 9) with false. cbv iota.
    rewrite decode_sortable_int64 by done. eexists. split; [reflexivity|].
    apply reads_plain; [done..|]. intros. apply order_refl.
  - apply andb_true_iff in Hw as [Ht Hi]. read_code. change (blen _ <? 9) with false. cbv iota.
    rewrite decode_sortable_uint32 by done.
    assert (drop 4 (EncodeSortableUint32 timestamp ++ EncodeSortableUint32 increment)
            = EncodeSortableUint32 increment ++ []) as -> by (by rewrite app_nil_r).
    rewrite decode_sortable_uint32 by done. eexists. split; [reflexivity|].
    apply reads_plain; [done..| |intros; apply order_refl]. simpl. by rewrite Ht, Hi.
Qed.

Lemma reads_undefined coll m wm :
  comparable_metadata m = Some wm ->
  exists t, ComparableBufferToBsonIndexTerm [undefined_code m] wm = Ok t /\
            reads_back coll V_Undefined m t.
Proof.
  unfold comparable_metadata, IndexTermValueOnly, IndexTermUndefinedValue,
    IndexTermPartialUndefinedValue, IndexTermDescendingPartialUndefinedValue,
    IndexTermValueOnlyDescending, IndexTermDescendingUndefinedValue.
  by_constants m ltac:(intros [= <-]; eexists; (split; [reflexivity|]);
    split_and!; try reflexivity; intros ?; apply order_nulls; [left|]; done).
  done.
Qed.

Lemma comparable_reads (coll : option bytes) (v : bson_value) (m : Z) (term : bytes) :
  wf_value v = true -> consistent m v = true ->
  v <> V_Double TWO_63 ->
  WriteComparableIndexTermToWriter coll v m = Ok (Some term) ->
  exists wm body t, term = wm :: body /\
    ComparableBufferToBsonIndexTerm body wm = Ok t /\ reads_back coll v m t.
Proof.
  intros Hw Hc Hne Hwr. destruct (written_body coll v m term Hwr) as (wm & body & Hm & Hb & ->).
  exists wm, body. enough (exists t, ComparableBufferToBsonIndexTerm body wm = Ok t /\
                                     reads_back coll v m t) as (t & ? & ?) by eauto.
  destruct (decide (value_type v = BSON_TYPE_UNDEFINED)) as [Eu|Nu].
  { destruct v; try discriminate Eu. simpl in Hb. simplify_eq. by apply reads_undefined. }
  pose proof (consistent_rank m v Hc Nu) as Hr.
  destruct (Z.eq_dec (class_of v) 2) as [E2|N2].
  { destruct (number_body coll v m body E2 Hb) as (a & Ha & ->).
    apply reads_number; [done..|]. by apply (written_not_two_63 v a). }
  destruct (Z.eq_dec (class_of v) 3) as [E3|N3].
  { assert (body = SORT_TYPE_UTF8 :: text_of v ++ [0] /\ strb (text_of v) = true) as [-> Hs].
    { destruct v; try discriminate E3; simpl in Hb, Hw; destruct (IsCollationValid coll);
        simplify_eq; done. }
    by apply reads_text. }
  by apply reads_scalar.
Qed.

(** C31: A comparable term reads back: decoding the bytes written for a
    well-formed value raises no error and gives the path "$", a value that
    compares equal to the one written (numbers may change their type, minus
    zero its sign) and metadata with the same direction and the same kind of
    undefined.  The one exception is the double 2^63. *)
Theorem comparable_term_roundtrip (coll : option bytes) (v : bson_value) (m : Z) (term : bytes) :
  wf_value v = true -> consistent m v = true ->
  v <> V_Double TWO_63 ->
  WriteComparableIndexTermToWriter coll v m = Ok (Some term) ->
  exists wm body t, term = wm :: body /\
    ComparableBufferToBsonIndexTerm body wm = Ok t /\ reads_back coll v m t.
Proof. apply comparable_reads. Qed.
End terms.

(** The double 2^63 does not read back: the range test of the decoder
    compares with [INT64_MAX] converted to double, which is 2^63, and the
    conversion that follows overflows to the smallest 64-bit integer (the
    result of the instruction on x86-64; C leaves it undefined). *)
Theorem comparable_two_63_reads_minimum :
  exists body,
    WriteComparableIndexTermToWriter None (V_Double TWO_63) IndexTermValueOnly =
      Ok (Some (IndexTermComparableV1 :: body)) /\
    ComparableBufferToBsonIndexTerm body IndexTermComparableV1 =
      Ok (mk_term IndexTermValueOnly [36] (V_Int64 INT64_MIN)).
Proof. exists [20; 195; 224]. split; vm_compute; reflexivity. Qed.

(** ** Instances *)

Section instances.
Import ExactBid FoldCase.

Lemma sortable_double_monotone_witness :
  bytes_cmp (sortable_double (double_of_int (-3))) (sortable_double (double_of_int 2)) = Lt.
Proof.
  rewrite (sortable_double_monotone (double_of_int (-3)) (double_of_int 2));
    vm_compute; reflexivity.
Defined.

Lemma sortable_double_roundtrip_witness :
  DecodeSortableDouble (sortable_double (double_of_int 2) ++ [7; 7]) = Some (double_of_int 2).
Proof. by rewrite (sortable_double_roundtrip (double_of_int 2) [7; 7] eq_refl). Defined.

Lemma comparable_term_roundtrip_witness :
  exists wm body t, [0x07; 20; 0xC0; 0] = wm :: body /\
    ComparableBufferToBsonIndexTerm body wm = Ok t /\
    reads_back None (V_Int64 2) IndexTermValueOnly t.
Proof.
  refine (comparable_term_roundtrip None (V_Int64 2) IndexTermValueOnly _ eq_refl eq_refl _ _);
    [discriminate|vm_compute; reflexivity].
Defined.
End instances.
