(* ===== verification/Arithmetic.v ===== *)
(** * Arithmetic on BSON numbers

    The sum, difference, product and quotient of BSON values of
    [pg_documentdb_core/src/io/pgbson_utils.c], with their type promotions
    (int32 to int64 to double, anything to decimal128), the remainder of
    [query/bson_dollar_operators.c] and the decimal operations of
    [types/decimal128.c] they rest on.  The aggregates $sum and $avg and the
    arithmetic expressions are their clients.  The decimal operations of the
    Intel library are parameters. *)

From stdpp Require Import base numbers list option.
From Stdlib Require Import ZArith Lia.
From S2P Require Import Prelude Binary64 DoubleArith Bson Decimal128 BsonCompare.

(** ** Decimals: [types/decimal128.c] *)

Class BidMath : Type := {
  bid128_add : decimal128 -> decimal128 -> Decimal128RoundingMode -> decimal128 * bid_flags;
  bid128_sub : decimal128 -> decimal128 -> Decimal128RoundingMode -> decimal128 * bid_flags;
  bid128_mul : decimal128 -> decimal128 -> Decimal128RoundingMode -> decimal128 * bid_flags;
  bid128_div : decimal128 -> decimal128 -> Decimal128RoundingMode -> decimal128 * bid_flags;
  bid128_fmod : decimal128 -> decimal128 -> decimal128 * bid_flags;
  bid128_pow : decimal128 -> decimal128 -> Decimal128RoundingMode -> decimal128 * bid_flags;
  bid128_abs : decimal128 -> decimal128;
  bid128_log10 : decimal128 -> Decimal128RoundingMode -> decimal128 * bid_flags;
  bid128_to_int32_xceil : decimal128 -> Z * bid_flags;
  bid128_round_integral_positive : decimal128 -> decimal128 * bid_flags;
  bid128_round_integral_negative : decimal128 -> decimal128 * bid_flags;
  bid128_round_integral_exact : decimal128 -> Decimal128RoundingMode -> decimal128 * bid_flags;
}.

(** Results of the library are decimals: two 64-bit words. *)
Definition decimalb (d : decimal128) : bool := wf_value (V_Decimal128 d).

Class BidMathLaws (L : BidLib) (A : BidMath) : Prop := {
  add_decimal : forall a b m, decimalb (bid128_add a b m).1 = true;
  sub_decimal : forall a b m, decimalb (bid128_sub a b m).1 = true;
  mul_decimal : forall a b m, decimalb (bid128_mul a b m).1 = true;
  div_decimal : forall a b m, decimalb (bid128_div a b m).1 = true;
  fmod_decimal : forall a b, decimalb (bid128_fmod a b).1 = true;
}.

(** The operations of two operands that this development uses. *)
Inductive Decimal128MathOperation : Set :=
| Decimal128MathOperation_Add | Decimal128MathOperation_Subtract
| Decimal128MathOperation_Multiply | Decimal128MathOperation_Divide
| Decimal128MathOperation_Mod | Decimal128MathOperation_Pow.

Section arithmetic.
Context {L : BidLib} {A : BidMath}.

Definition Decimal128MathematicalOperation2Operands (x y : bson_value)
  (operation : Decimal128MathOperation) : result (bson_value * Decimal128Result) :=
  let! xBid := GetBIDUINT128FromBsonValue x in
  let! yBid := GetBIDUINT128FromBsonValue y in
  let '(zBid, exceptionFlag) :=
    match operation with
    | Decimal128MathOperation_Add => bid128_add xBid yBid Decimal128RoundingMode_NearestEven
    | Decimal128MathOperation_Subtract => bid128_sub xBid yBid Decimal128RoundingMode_NearestEven
    | Decimal128MathOperation_Multiply => bid128_mul xBid yBid Decimal128RoundingMode_NearestEven
    | Decimal128MathOperation_Divide => bid128_div xBid yBid Decimal128RoundingMode_NearestEven
    | Decimal128MathOperation_Mod => bid128_fmod xBid yBid
    | Decimal128MathOperation_Pow =>
        let '(powerBid, _) := bid128_pow xBid yBid Decimal128RoundingMode_Downward in
        bid128_add powerBid (mk_decimal128 0 0) Decimal128RoundingMode_NearestEven
    end in
  Ok (V_Decimal128 zBid, GetDecimal128ResultFromFlag exceptionFlag).

Definition AddDecimal128Numbers x y :=
  Decimal128MathematicalOperation2Operands x y Decimal128MathOperation_Add.
Definition SubtractDecimal128Numbers x y :=
  Decimal128MathematicalOperation2Operands x y Decimal128MathOperation_Subtract.
Definition MultiplyDecimal128Numbers x y :=
  Decimal128MathematicalOperation2Operands x y Decimal128MathOperation_Multiply.
Definition DivideDecimal128Numbers x y :=
  Decimal128MathematicalOperation2Operands x y Decimal128MathOperation_Divide.
Definition ModDecimal128Numbers x y :=
  Decimal128MathematicalOperation2Operands x y Decimal128MathOperation_Mod.
Definition PowDecimal128Number base exponent :=
  Decimal128MathematicalOperation2Operands base exponent Decimal128MathOperation_Pow.

(** The callers that ignore the flags. *)
Definition value_of (r : result (bson_value * Decimal128Result)) : result bson_value :=
  let! (v, _) := r in Ok v.

Inductive RoundOperation : Set := RoundOperation_Round | RoundOperation_Trunc.

Definition RoundOrTruncateDecimal128Number (number : bson_value) (precision : Z)
  (operation : RoundOperation) : result (bson_value * Decimal128Result) :=
  let! numberBid := GetBIDUINT128FromBsonValue number in
  let roundMode := match operation with
                   | RoundOperation_Round => Decimal128RoundingMode_NearestEven
                   | RoundOperation_Trunc => Decimal128RoundingMode_TowardZero
                   end in
  let '(resultBid, exceptionFlag) :=
    if bid128_isInf numberBid || bid128_isNaN numberBid then (numberBid, ALL_EXCEPTION_FLAG_CLEAR)
    else if precision =? 0 then bid128_round_integral_exact numberBid roundMode
    else
      let precision :=
        if bid128_isZero numberBid then precision
        else
          let '(log10Bid, _) :=
            bid128_log10 (bid128_abs numberBid) Decimal128RoundingMode_NearestEven in
          let '(exp, _) := bid128_to_int32_xceil log10Bid in
          if 34 <? exp + precision then 34 - exp else precision in
      bid128_quantize numberBid (quantum (- precision)) roundMode in
  Ok (V_Decimal128 resultBid, GetDecimal128ResultFromFlag exceptionFlag).

(** ** Sums, differences, products and quotients: [pgbson_utils.c]

    The functions update [current] in place and set [overflowedFromInt64] on
    some of their paths: here they return the new value and the new flag. *)

Definition AddDoubleToValue (current : bson_value) (value : double) : result bson_value :=
  match current with
  | V_Decimal128 _ =>
      let! d := GetBsonValueAsDecimal128Quantized (V_Double value) in
      value_of (AddDecimal128Numbers current (V_Decimal128 d))
  | _ =>
      let! currentValue := BsonValueAsDouble current in
      Ok (V_Double (d_add currentValue value))
  end.

Definition AddInt64ToValue (current : bson_value) (value : Z) : result (bson_value * bool) :=
  match current with
  | V_Double _ =>
      let! v := AddDoubleToValue current (double_of_int value) in Ok (v, false)
  | V_Decimal128 _ =>
      let! d := GetBsonValueAsDecimal128Quantized (V_Int64 value) in
      let! v := value_of (AddDecimal128Numbers current (V_Decimal128 d)) in Ok (v, false)
  | _ =>
      let! currentSum := BsonValueAsInt64 current in
      if (0 <? value) && (INT64_MAX - value <? currentSum) ||
         (value <? 0) && (currentSum <? INT64_MIN - value) then
        let! v := AddDoubleToValue current (double_of_int value) in Ok (v, true)
      else Ok (V_Int64 (currentSum + value), false)
  end.

Definition AddInt32ToValue (current : bson_value) (value : Z) (overflowedFromInt64 : bool)
  : result (bson_value * bool) :=
  match current with
  | V_Double _ =>
      let! v := AddDoubleToValue current (double_of_int value) in Ok (v, overflowedFromInt64)
  | V_Int64 _ => AddInt64ToValue current value
  | V_Decimal128 _ =>
      let! d := GetBsonValueAsDecimal128Quantized (V_Int32 value) in
      let! v := value_of (AddDecimal128Numbers current (V_Decimal128 d)) in Ok (v, overflowedFromInt64)
  | _ =>
      let! currentValue := BsonValueAsInt64 current in
      let currentValue := currentValue + value in
      if (INT32_MAX <? currentValue) || (currentValue <? INT32_MIN)
      then Ok (V_Int64 currentValue, overflowedFromInt64)
      else Ok (V_Int32 currentValue, overflowedFromInt64)
  end.

Definition AddDecimal128ToValue (current value : bson_value) : result bson_value :=
  let! currentValue := GetBsonValueAsDecimal128Quantized current in
  value_of (AddDecimal128Numbers (V_Decimal128 currentValue) value).

Definition SubtractDecimal128FromValue (current value : bson_value) : result bson_value :=
  let! currentValue := GetBsonValueAsDecimal128Quantized current in
  value_of (SubtractDecimal128Numbers (V_Decimal128 currentValue) value).

Definition SubtractInt64FromValue (current : bson_value) (value : Z) : result (bson_value * bool) :=
  match current with
  | V_Double _ =>
      let! v := AddDoubleToValue current (d_opp (double_of_int value)) in Ok (v, false)
  | V_Decimal128 _ =>
      let! v := SubtractDecimal128FromValue current (V_Decimal128 (GetDecimal128FromInt64 value)) in
      Ok (v, false)
  | _ =>
      let! currentValue := BsonValueAsInt64 current in
      let difference := currentValue - value in
      if negb (in_int64 difference)
      then Ok (V_Double (d_sub (double_of_int currentValue) (double_of_int value)), true)
      else Ok (V_Int64 difference, false)
  end.

Definition SubtractInt32FromValue (current : bson_value) (value : Z) : result (bson_value * bool) :=
  let! (v, flag) := SubtractInt64FromValue current value in
  match v with
  | V_Int64 z =>
      if negb (type_eqb (value_type current) BSON_TYPE_INT64) && (INT32_MIN <=? z) && (z <=? INT32_MAX)
      then Ok (V_Int32 z, flag) else Ok (v, flag)
  | _ => Ok (v, flag)
  end.

(** Whether the types were supported, the value and the flag. *)
Definition AddNumberToBsonValue (state number : bson_value) (overflowedFromInt64 : bool)
  : result (bool * bson_value * bool) :=
  if negb (BsonTypeIsNumberOrBool (value_type state)) then Ok (false, state, overflowedFromInt64)
  else
    match number with
    | V_Int64 z => let! (v, flag) := AddInt64ToValue state z in Ok (true, v, flag)
    | V_Int32 z => let! (v, flag) := AddInt32ToValue state z overflowedFromInt64 in Ok (true, v, flag)
    | V_Double d => let! v := AddDoubleToValue state d in Ok (true, v, overflowedFromInt64)
    | V_Decimal128 _ => let! v := AddDecimal128ToValue state number in Ok (true, v, overflowedFromInt64)
    | _ => Ok (false, state, overflowedFromInt64)
    end.

Definition SubtractNumberFromBsonValue (state subtrahend : bson_value) (overflowedFromInt64 : bool)
  : result (bool * bson_value * bool) :=
  if negb (BsonTypeIsNumberOrBool (value_type state)) then Ok (false, state, overflowedFromInt64)
  else
    match subtrahend with
    | V_Int64 z => let! (v, flag) := SubtractInt64FromValue state z in Ok (true, v, flag)
    | V_Int32 z => let! (v, flag) := SubtractInt32FromValue state z in Ok (true, v, flag)
    | V_Double d => let! v := AddDoubleToValue state (d_opp d) in Ok (true, v, overflowedFromInt64)
    | V_Decimal128 _ =>
        let! v := SubtractDecimal128FromValue state subtrahend in Ok (true, v, overflowedFromInt64)
    | _ => Ok (false, state, overflowedFromInt64)
    end.

Definition is_decimal (v : bson_value) : bool := type_eqb (value_type v) BSON_TYPE_DECIMAL128.
Definition is_double (v : bson_value) : bool := type_eqb (value_type v) BSON_TYPE_DOUBLE.
Definition is_int64 (v : bson_value) : bool := type_eqb (value_type v) BSON_TYPE_INT64.

Definition DivideBsonValueNumbers (dividend divisor : bson_value) : result (bool * bson_value) :=
  if negb (BsonTypeIsNumberOrBool (value_type dividend)) ||
     negb (BsonTypeIsNumberOrBool (value_type divisor)) then Ok (false, dividend)
  else if is_decimal dividend || is_decimal divisor then
    let! dividend128 := if is_decimal divisor
                        then let! d := GetBsonValueAsDecimal128Quantized dividend in Ok (V_Decimal128 d)
                        else Ok dividend in
    let! divisor128 := if is_decimal divisor then Ok divisor
                       else let! d := GetBsonValueAsDecimal128Quantized divisor in Ok (V_Decimal128 d) in
    let! zero := IsDecimal128Zero divisor128 in
    if zero : bool then Err ERRCODE_DOCUMENTDB_BADVALUE
    else
      let! v := value_of (DivideDecimal128Numbers dividend128 divisor128) in Ok (true, v)
  else
    let! dividendDouble := BsonValueAsDouble dividend in
    let! divisorDouble := BsonValueAsDouble divisor in
    if d_eq divisorDouble 0 then Err ERRCODE_DOCUMENTDB_BADVALUE
    else Ok (true, V_Double (d_div dividendDouble divisorDouble)).

Definition MultiplyWithFactorAndUpdate (state factor : bson_value)
  (convertInt64OverflowToDouble : bool) : result (bool * bson_value) :=
  if negb (BsonValueIsNumber state) || negb (BsonValueIsNumber factor) then Ok (false, state)
  else if is_decimal state || is_decimal factor then
    let! s := GetBsonValueAsDecimal128Quantized state in
    let! f := GetBsonValueAsDecimal128Quantized factor in
    let! v := value_of (MultiplyDecimal128Numbers (V_Decimal128 s) (V_Decimal128 f)) in
    Ok (true, v)
  else if is_double state || is_double factor then
    let! s := BsonValueAsDouble state in
    let! f := BsonValueAsDouble factor in
    Ok (true, V_Double (d_mul s f))
  else if is_int64 state || is_int64 factor then
    let! s := BsonValueAsInt64 state in
    let! f := BsonValueAsInt64 factor in
    let product := s * f in
    if negb (in_int64 product) then
      if convertInt64OverflowToDouble then
        let! s := BsonValueAsDouble state in
        let! f := BsonValueAsDouble factor in
        Ok (true, V_Double (d_mul s f))
      else Ok (false, state)
    else Ok (true, V_Int64 product)
  else
    let! s := BsonValueAsInt64 state in
    let! f := BsonValueAsInt64 factor in
    let product := s * f in
    if (product <? INT32_MIN) || (INT32_MAX <? product) then Ok (true, V_Int64 product)
    else Ok (true, V_Int32 product).

(** The bitwise operations read the 32-bit payload of both values unless one is
    a 64-bit integer.  Their caller ($bit) passes integers, or for a missing
    field a value that is all zero. *)
Definition int32_payload (v : bson_value) : result Z :=
  match v with
  | V_Int32 z => Ok z
  | V_Eod => Ok 0
  | _ => Err ERRCODE_INTERNAL_ERROR
  end.

Definition bitwise (op : Z -> Z -> Z) (state number : bson_value) : result bson_value :=
  if is_int64 state || is_int64 number then
    let! s := BsonValueAsInt64 state in
    let! n := BsonValueAsInt64 number in
    Ok (V_Int64 (op s n))
  else
    let! s := int32_payload state in
    let! n := int32_payload number in
    Ok (V_Int32 (op s n)).

Definition BitwiseAndToBsonValue := bitwise Z.land.
Definition BitwiseOrToBsonValue := bitwise Z.lor.
Definition BitwiseXorToBsonValue := bitwise Z.lxor.

(** ** The remainder: [GetRemainderFromModBsonValues] *)

Definition check_mod_inputs (dividendValue divisorValue : bson_value) : result unit :=
  if negb (BsonValueIsNumber dividendValue) || negb (BsonValueIsNumber divisorValue)
  then Err ERRCODE_DOCUMENTDB_BADVALUE
  else
    let! inf := IsBsonValueInfinity divisorValue in
    if negb (inf =? 0) then Err ERRCODE_DOCUMENTDB_BADVALUE
    else
      let! nan := IsBsonValueNaN divisorValue in
      if nan : bool then Err ERRCODE_DOCUMENTDB_BADVALUE
      else
        let! zero := if is_decimal divisorValue then IsDecimal128Zero divisorValue else Ok false in
        let! zero := if zero : bool then Ok true
                     else let! d := BsonValueAsDouble divisorValue in Ok (d_eq d 0) in
        if zero : bool then Err ERRCODE_DOCUMENTDB_BADVALUE else Ok tt.

Definition GetRemainderFromModBsonValues (dividendValue divisorValue : bson_value)
  (validateInputs : bool) : result bson_value :=
  let! _ := if validateInputs then check_mod_inputs dividendValue divisorValue else Ok tt in
  if is_decimal dividendValue || is_decimal divisorValue then
    let! divisor := if is_decimal divisorValue then Ok divisorValue
                    else let! d := GetBsonValueAsDecimal128Quantized divisorValue in Ok (V_Decimal128 d) in
    let! dividend := if is_decimal dividendValue then Ok dividendValue
                     else let! d := GetBsonValueAsDecimal128Quantized dividendValue in Ok (V_Decimal128 d) in
    value_of (ModDecimal128Numbers dividend divisor)
  else
    let! dividend := BsonValueAsDouble dividendValue in
    let! divisor := BsonValueAsDouble divisorValue in
    let rem := fmod dividend divisor in
    let! fits := IsBsonValue32BitInteger (V_Double rem) true in
    if is_int64 dividendValue || is_int64 divisorValue then
      if negb (type_eqb (value_type dividendValue) (value_type divisorValue)) &&
         (is_double dividendValue || is_double divisorValue) &&
         (isinf dividend || isinf divisor || negb fits)
      then Ok (V_Double rem)
      else Ok (V_Int64 (cast_int64 rem))
    else if type_eqb (value_type dividendValue) BSON_TYPE_INT32 &&
            negb (isinf divisor) && negb (isinf dividend) && fits
    then Ok (V_Int32 (cast_int32 rem))
    else Ok (V_Double rem).
End arithmetic.

(** ** Integers *)

Definition integer_of (v : bson_value) : option Z :=
  match v with V_Int32 z | V_Int64 z => Some z | _ => None end.

(** The type of an integer result: 64 bits if an operand has 64 bits or the
    result needs them. *)
Definition int_result (a b : bson_value) (z : Z) : bson_value :=
  if is_int64 a || is_int64 b then V_Int64 z
  else if in_int32 z then V_Int32 z else V_Int64 z.

Section integers.
Context {L : BidLib} {A : BidMath}.

Lemma integer_range v z :
  wf_value v = true -> integer_of v = Some z ->
  in_int64 z = true /\ BsonValueAsInt64 v = Ok z /\ BsonValueAsDouble v = Ok (double_of_int z) /\
  BsonTypeIsNumberOrBool (value_type v) = true /\ BsonValueIsNumber v = true /\
  (is_int64 v = false -> in_int32 z = true).
Proof.
  destruct v; try done; cbn [wf_value integer_of]; intros W [= ->]; split_and!; try done.
  by apply in_int32_int64.
Qed.

Lemma add_overflow_check x y :
  in_int64 x = true -> in_int64 y = true ->
  (0 <? y) && (INT64_MAX - y <? x) || (y <? 0) && (x <? INT64_MIN - y) = negb (in_int64 (x + y)).
Proof.
  unfold in_int64, INT64_MAX, INT64_MIN. intros Hx Hy.
  destruct (Z.ltb_spec 0 y), (Z.ltb_spec y 0); cbn [andb orb]; lia.
Qed.

Lemma add_integers a b x y flag :
  wf_value a = true -> wf_value b = true -> integer_of a = Some x -> integer_of b = Some y ->
  AddNumberToBsonValue a b flag =
  if in_int64 (x + y)
  then Ok (true, int_result a b (x + y), if is_int64 a || is_int64 b then false else flag)
  else Ok (true, V_Double (d_add (double_of_int x) (double_of_int y)), true).
Proof.
  intros Wa Wb Ia Ib. destruct (integer_range a x Wa Ia) as (Hx & Ea & Da & Na & _).
  destruct (integer_range b y Wb Ib) as (Hy & _). unfold AddNumberToBsonValue. rewrite Na. cbn [negb].
  destruct b; try done; cbn [integer_of] in Ib; injection Ib as ->.
  - (* int32 *)
    destruct a; try done; cbn [integer_of] in Ia; injection Ia as ->; cbn [AddInt32ToValue].
    + rewrite Ea. cbn [result_bind wf_value int_result is_int64 value_type] in *.
      unfold int_result, is_int64. cbn [value_type]. change (type_eqb _ _) with false. cbn [orb].
      assert (in_int64 (x + y) = true) as ->.
      { revert Wa Wb. unfold in_int32, in_int64, INT32_MIN, INT32_MAX, INT64_MIN, INT64_MAX. lia. }
      unfold in_int32. destruct (Z.ltb_spec INT32_MAX (x + y)), (Z.ltb_spec (x + y) INT32_MIN); cbn [orb result_bind].
      * unfold INT32_MAX, INT32_MIN in *. lia.
      * by rewrite (proj2 (Z.leb_gt _ _) H), andb_false_r.
      * by rewrite (proj2 (Z.leb_gt _ _) H0).
      * by rewrite (proj2 (Z.leb_le _ _) H), (proj2 (Z.leb_le _ _) H0).
    + unfold AddInt64ToValue. rewrite Ea. cbn [result_bind]. rewrite add_overflow_check by done.
      unfold AddDoubleToValue. rewrite Da. by destruct (in_int64 (x + y)).
  - unfold AddInt64ToValue. destruct a; try done; cbn [integer_of] in Ia; injection Ia as ->;
      rewrite Ea; cbn [result_bind]; rewrite add_overflow_check by done;
      unfold AddDoubleToValue; rewrite Da; by destruct (in_int64 (x + y)).
Qed.

Lemma subtract_integers a b x y flag :
  wf_value a = true -> wf_value b = true -> integer_of a = Some x -> integer_of b = Some y ->
  SubtractNumberFromBsonValue a b flag =
  if in_int64 (x - y) then Ok (true, int_result a b (x - y), false)
  else Ok (true, V_Double (d_sub (double_of_int x) (double_of_int y)), true).
Proof.
  intros Wa Wb Ia Ib. destruct (integer_range a x Wa Ia) as (Hx & Ea & Da & Na & _).
  destruct (integer_range b y Wb Ib) as (Hy & _). unfold SubtractNumberFromBsonValue. rewrite Na. cbn [negb].
  assert (SubtractInt64FromValue a y =
    if in_int64 (x - y) then Ok (V_Int64 (x - y), false)
    else Ok (V_Double (d_sub (double_of_int x) (double_of_int y)), true)) as Es.
  { unfold SubtractInt64FromValue. destruct a; try done; rewrite Ea; cbn [result_bind];
      by destruct (in_int64 (x - y)). }
  destruct b; try done; cbn [integer_of] in Ib; injection Ib as ->.
  - unfold SubtractInt32FromValue. rewrite Es. destruct (in_int64 (x - y)); [|done].
    cbn [result_bind]. unfold int_result, in_int32.
    destruct a; try done. cbn [negb andb orb].
    change (negb (type_eqb (value_type (V_Int32 v_int32)) BSON_TYPE_INT64)) with true.
    change (is_int64 (V_Int32 v_int32) || is_int64 (V_Int32 y)) with false. cbn [andb].
    by destruct ((INT32_MIN <=? x - y) && (x - y <=? INT32_MAX)).
  - rewrite Es. unfold int_result. rewrite orb_true_r. by destruct (in_int64 (x - y)).
Qed.

Lemma multiply_integers a b x y convert :
  wf_value a = true -> wf_value b = true -> integer_of a = Some x -> integer_of b = Some y ->
  MultiplyWithFactorAndUpdate a b convert =
  Ok (if in_int64 (x * y) then (true, int_result a b (x * y))
      else if convert then (true, V_Double (d_mul (double_of_int x) (double_of_int y)))
      else (false, a)).
Proof.
  intros Wa Wb Ia Ib. destruct (integer_range a x Wa Ia) as (Hx & Ea & Da & _ & Na & Sa).
  destruct (integer_range b y Wb Ib) as (Hy & Eb & Db & _ & Nb & Sb).
  unfold MultiplyWithFactorAndUpdate. rewrite Na, Nb. cbn [negb orb].
  assert (is_decimal a || is_decimal b = false) as -> by (by destruct a, b).
  assert (is_double a || is_double b = false) as -> by (by destruct a, b).
  unfold int_result. destruct (is_int64 a || is_int64 b) eqn:E64; rewrite Ea; cbn [result_bind]; rewrite Eb;
    cbn [result_bind].
  - destruct (in_int64 (x * y)); [done|]. cbn [negb]. destruct convert; [|done]. rewrite Da. cbn [result_bind].
    by rewrite Db.
  - apply orb_false_iff in E64 as [H1 H2]. specialize (Sa H1). specialize (Sb H2).
    assert (in_int64 (x * y) = true) as ->.
    { revert Sa Sb. unfold in_int32, in_int64, INT32_MIN, INT32_MAX, INT64_MIN, INT64_MAX.
      rewrite !andb_true_iff, !Z.leb_le. nia. }
    unfold in_int32.
    destruct (Z.ltb_spec (x * y) INT32_MIN) as [H|H], (Z.ltb_spec INT32_MAX (x * y)) as [H0|H0]; cbn [orb].
    + unfold INT32_MAX, INT32_MIN in *. lia.
    + by rewrite (proj2 (Z.leb_gt _ _) H).
    + by rewrite (proj2 (Z.leb_gt _ _) H0), andb_false_r.
    + by rewrite (proj2 (Z.leb_le _ _) H), (proj2 (Z.leb_le _ _) H0).
Qed.

(** C28: Integer arithmetic is exact up to 64 bits.  The sum, difference and
    product of two integers is the exact integer when it fits in 64 bits, as a
    32-bit integer if both operands are and the result fits, as a 64-bit integer
    otherwise; an overflow is never silent: the result is the double sum,
    difference or product, with the overflow flag set, or for a product the
    refusal that the caller may ask for. *)
Theorem integer_arithmetic_exact (a b : bson_value) (x y : Z) (flag convert : bool) :
  wf_value a = true -> wf_value b = true -> integer_of a = Some x -> integer_of b = Some y ->
  AddNumberToBsonValue a b flag =
    (if in_int64 (x + y)
     then Ok (true, int_result a b (x + y), if is_int64 a || is_int64 b then false else flag)
     else Ok (true, V_Double (d_add (double_of_int x) (double_of_int y)), true)) /\
  SubtractNumberFromBsonValue a b flag =
    (if in_int64 (x - y) then Ok (true, int_result a b (x - y), false)
     else Ok (true, V_Double (d_sub (double_of_int x) (double_of_int y)), true)) /\
  MultiplyWithFactorAndUpdate a b convert =
    Ok (if in_int64 (x * y) then (true, int_result a b (x * y))
        else if convert then (true, V_Double (d_mul (double_of_int x) (double_of_int y)))
        else (false, a)).
Proof.
  intros Wa Wb Ia Ib. split_and!; [by apply add_integers|by apply subtract_integers|by apply multiply_integers].
Qed.
End integers.

(** ** Every operation on numbers gives a number *)

Definition number (v : bson_value) : Prop := wf_value v = true /\ BsonValueIsNumber v = true.

Section closed.
Context {L : BidLib} {A : BidMath} {AL : BidMathLaws L A}.

Lemma number_double d : doubleb d = true -> number (V_Double d).
Proof. by split. Qed.

Lemma number_int64 z : in_int64 z = true -> number (V_Int64 z).
Proof. by split. Qed.

Lemma number_int32 z : in_int32 z = true -> number (V_Int32 z).
Proof. by split. Qed.

Lemma number_decimal d : decimalb d = true -> number (V_Decimal128 d).
Proof. by split. Qed.

Lemma double_of_int64 z : in_int64 z = true -> doubleb (double_of_int z) = true.
Proof.
  intros Hz. apply double_of_int_range. unfold in_int64, INT64_MIN, INT64_MAX in Hz. lia.
Qed.

Create HintDb numbers discriminated.
#[local] Hint Resolve number_double number_int64 number_int32 number_decimal double_of_int64
  d_add_double d_sub_double d_mul_double d_div_double d_opp_double in_int32_int64
  add_decimal sub_decimal mul_decimal div_decimal : numbers.

(** The decimal operations on decimals. *)
Lemma decimal_result (r : decimal128 * bid_flags) :
  decimalb r.1 = true ->
  exists d, value_of (let '(zBid, fl) := r in Ok (V_Decimal128 zBid, GetDecimal128ResultFromFlag fl)) =
            Ok (V_Decimal128 d) /\ decimalb d = true.
Proof. destruct r as [z fl]. intros Hz. by exists z. Qed.

Lemma decimal_operation x y op :
  op <> Decimal128MathOperation_Pow ->
  exists d, value_of (Decimal128MathematicalOperation2Operands (V_Decimal128 x) (V_Decimal128 y) op) =
            Ok (V_Decimal128 d) /\ decimalb d = true.
Proof.
  intros Hop. unfold Decimal128MathematicalOperation2Operands, value_of.
  assert (forall d, GetBIDUINT128FromBsonValue (V_Decimal128 d) = Ok d) as Eb by done.
  rewrite !Eb. cbn [result_bind].
  destruct op; try done; apply decimal_result;
    [apply add_decimal|apply sub_decimal|apply mul_decimal|apply div_decimal|apply fmod_decimal].
Qed.

Lemma number_quantized v : number v -> exists d, GetBsonValueAsDecimal128Quantized v = Ok d.
Proof. intros [_ Hn]. destruct v; try discriminate Hn; by eexists. Qed.

Lemma number_as_double v :
  number v -> is_decimal v = false -> exists d, BsonValueAsDouble v = Ok d /\ doubleb d = true.
Proof.
  intros [W Hn] Hd. destruct v; try discriminate Hn; try discriminate Hd; cbn [wf_value] in W.
  - by exists v_double.
  - exists (double_of_int v_int32). auto with numbers.
  - exists (double_of_int v_int64). auto with numbers.
Qed.

Lemma number_cases v :
  number v -> (exists z, integer_of v = Some z) \/ (exists d, v = V_Double d /\ doubleb d = true) \/
  (exists d, v = V_Decimal128 d).
Proof. intros [W Hn]. destruct v; try discriminate Hn; eauto 8. Qed.

Lemma number_int_result a b z :
  in_int64 z = true -> number (int_result a b z).
Proof. intros Hz. unfold int_result. repeat case_match; auto with numbers. Qed.

Lemma number_or_bool v : number v -> BsonTypeIsNumberOrBool (value_type v) = true.
Proof. intros [_ Hn]. by destruct v. Qed.

Lemma integer_in_range v z : number v -> integer_of v = Some z -> in_int64 z = true.
Proof. intros [W _] Hz. destruct v; try done; injection Hz as ->; auto using in_int32_int64. Qed.

Lemma add_double_closed v d :
  number v -> doubleb d = true -> exists w, AddDoubleToValue v d = Ok w /\ number w.
Proof.
  intros Hv Hd. destruct (is_decimal v) eqn:Ed.
  - destruct v; try discriminate Ed.
    destruct (decimal_operation v_decimal128 (decimal128_of_double d true) Decimal128MathOperation_Add)
      as (w & Ew & Hw); [done|]. exists (V_Decimal128 w). split; [exact Ew|by apply number_decimal].
  - destruct (number_as_double v Hv Ed) as (d' & Ev & Hd').
    exists (V_Double (d_add d' d)). split; [|auto with numbers].
    unfold AddDoubleToValue. rewrite Ev. by destruct v.
Qed.

Lemma add_closed a b flag :
  number a -> number b -> exists v f, AddNumberToBsonValue a b flag = Ok (true, v, f) /\ number v.
Proof.
  intros Ha Hb. destruct (number_cases b Hb) as [[y Hy]|[(d & -> & Hd)|[d ->]]].
  - destruct (number_cases a Ha) as [[x Hx]|Hx].
    + rewrite (add_integers a b x y) by (apply Ha || apply Hb || done).
      pose proof (integer_in_range a x Ha Hx). pose proof (integer_in_range b y Hb Hy).
      destruct (in_int64 (x + y)) eqn:E; eexists _, _; (split; [done|]);
        [by apply number_int_result|auto with numbers].
    + unfold AddNumberToBsonValue. rewrite (number_or_bool a Ha). cbn [negb].
      pose proof (integer_in_range b y Hb Hy) as Hr.
      destruct (add_double_closed a (double_of_int y) Ha ltac:(auto with numbers)) as (w & Ew & Hw).
      destruct Hx as [(d & -> & Hd)|[d ->]], b; try done; injection Hy as ->; cbn [AddInt32ToValue AddInt64ToValue].
      1,2: rewrite Ew; eexists _, _; split; [done|done].
      * destruct (decimal_operation d (bid128_from_int32 y) Decimal128MathOperation_Add) as (v & Ev & Hv); [done|].
        change (GetBsonValueAsDecimal128Quantized (V_Int32 y)) with (Ok (bid128_from_int32 y)).
        cbn [result_bind]. unfold AddDecimal128Numbers. rewrite Ev. eexists _, _. split; [done|auto with numbers].
      * destruct (decimal_operation d (bid128_from_int64 y) Decimal128MathOperation_Add) as (v & Ev & Hv); [done|].
        change (GetBsonValueAsDecimal128Quantized (V_Int64 y)) with (Ok (bid128_from_int64 y)).
        cbn [result_bind]. unfold AddDecimal128Numbers. rewrite Ev. eexists _, _. split; [done|auto with numbers].
  - unfold AddNumberToBsonValue. rewrite (number_or_bool a Ha). cbn [negb].
    destruct (add_double_closed a d Ha Hd) as (w & -> & Hw). by eexists _, _.
  - unfold AddNumberToBsonValue, AddDecimal128ToValue. rewrite (number_or_bool a Ha). cbn [negb].
    destruct (number_quantized a Ha) as [d' ->]. cbn [result_bind].
    destruct (decimal_operation d' d Decimal128MathOperation_Add) as (v & Ev & Hv); [done|].
    unfold AddDecimal128Numbers. rewrite Ev. eexists _, _. split; [done|auto with numbers].
Qed.

Lemma subtract_decimal_closed a d :
  number a -> exists w, SubtractDecimal128FromValue a (V_Decimal128 d) = Ok (V_Decimal128 w) /\ decimalb w = true.
Proof.
  intros Ha. unfold SubtractDecimal128FromValue. destruct (number_quantized a Ha) as [d' ->].
  by apply decimal_operation.
Qed.

Lemma subtract_closed a b flag :
  number a -> number b -> exists v f, SubtractNumberFromBsonValue a b flag = Ok (true, v, f) /\ number v.
Proof.
  intros Ha Hb. destruct (number_cases b Hb) as [[y Hy]|[(d & -> & Hd)|[d ->]]].
  - pose proof (integer_in_range b y Hb Hy) as Hr.
    destruct (number_cases a Ha) as [[x Hx]|Hx].
    + rewrite (subtract_integers a b x y) by (apply Ha || apply Hb || done).
      pose proof (integer_in_range a x Ha Hx).
      destruct (in_int64 (x - y)) eqn:E; eexists _, _; (split; [done|]);
        [by apply number_int_result|auto with numbers].
    + assert (exists w, SubtractInt64FromValue a y = Ok (w, false) /\ number w /\ is_int64 w = false)
        as (w & Ew & Hw & Tw).
      { destruct Hx as [(d & -> & Hd)|[d ->]]; cbn [SubtractInt64FromValue].
        - eexists. split; [done|]. split; [auto with numbers|done].
        - destruct (subtract_decimal_closed (V_Decimal128 d) (GetDecimal128FromInt64 y) Ha) as (w & -> & Hw).
          cbn [result_bind]. eexists. by split; [|split; [apply number_decimal|]]. }
      unfold SubtractNumberFromBsonValue. rewrite (number_or_bool a Ha). cbn [negb].
      destruct b; try done; injection Hy as ->; unfold SubtractInt32FromValue; rewrite Ew; cbn [result_bind].
      * exists w, false. by destruct w.
      * by eexists _, _.
  - unfold SubtractNumberFromBsonValue. rewrite (number_or_bool a Ha). cbn [negb].
    destruct (add_double_closed a (d_opp d) Ha) as (w & -> & Hw); [auto with numbers|]. by eexists _, _.
  - unfold SubtractNumberFromBsonValue. rewrite (number_or_bool a Ha). cbn [negb].
    destruct (subtract_decimal_closed a d Ha) as (w & -> & Hw). eexists _, _. split; [done|auto with numbers].
Qed.

Lemma multiply_closed a b convert :
  number a -> number b -> exists ok v, MultiplyWithFactorAndUpdate a b convert = Ok (ok, v) /\ number v.
Proof.
  intros Ha Hb. destruct (is_decimal a || is_decimal b) eqn:Ed;
    [|destruct (is_double a || is_double b) eqn:Edbl].
  - unfold MultiplyWithFactorAndUpdate. rewrite (proj2 Ha), (proj2 Hb), Ed. cbn [negb orb].
    destruct (number_quantized a Ha) as [da ->], (number_quantized b Hb) as [db ->]. cbn [result_bind].
    destruct (decimal_operation da db Decimal128MathOperation_Multiply) as (w & Ew & Hw); [done|].
    unfold MultiplyDecimal128Numbers. rewrite Ew. eexists _, _. split; [done|auto with numbers].
  - apply orb_false_iff in Ed as [Da Db]. unfold MultiplyWithFactorAndUpdate.
    rewrite (proj2 Ha), (proj2 Hb), Da, Db, Edbl. cbn [negb orb].
    destruct (number_as_double a Ha Da) as (x & -> & Hx), (number_as_double b Hb Db) as (y & -> & Hy).
    eexists _, _. split; [done|auto with numbers].
  - destruct (number_cases a Ha) as [[x Hx]|[(d & -> & _)|[d ->]]]; [|done|done].
    destruct (number_cases b Hb) as [[y Hy]|[(d & -> & _)|[d ->]]];
      [|by rewrite orb_true_r in Edbl|by rewrite orb_true_r in Ed].
    rewrite (multiply_integers a b x y) by (apply Ha || apply Hb || done).
    pose proof (integer_in_range a x Ha Hx). pose proof (integer_in_range b y Hb Hy).
    destruct (in_int64 (x * y)) eqn:E; [|destruct convert]; eexists _, _; (split; [done|]);
      [by apply number_int_result|auto with numbers|done].
Qed.

Lemma divide_closed a b :
  number a -> number b ->
  DivideBsonValueNumbers a b = Err ERRCODE_DOCUMENTDB_BADVALUE \/
  exists v, DivideBsonValueNumbers a b = Ok (true, v) /\ number v.
Proof.
  intros Ha Hb. unfold DivideBsonValueNumbers. rewrite (number_or_bool a Ha), (number_or_bool b Hb). cbn [negb orb].
  destruct (is_decimal a || is_decimal b) eqn:Ed.
  - assert (exists da db,
      (if is_decimal b then let! d := GetBsonValueAsDecimal128Quantized a in Ok (V_Decimal128 d) else Ok a) =
        Ok (V_Decimal128 da) /\
      (if is_decimal b then Ok b else let! d := GetBsonValueAsDecimal128Quantized b in Ok (V_Decimal128 d)) =
        Ok (V_Decimal128 db)) as (da & db & -> & ->).
    { destruct (number_quantized a Ha) as [da ->], (number_quantized b Hb) as [db ->]. cbn [result_bind].
      destruct (is_decimal b) eqn:Eb; [destruct b; try discriminate Eb; by eexists _, _|].
      rewrite orb_false_r in Ed. destruct a; try discriminate Ed. by eexists _, _. }
    cbn [result_bind]. change (IsDecimal128Zero (V_Decimal128 db)) with (Ok (bid128_isZero db)).
    cbn [result_bind]. destruct (bid128_isZero db); [by left|right].
    destruct (decimal_operation da db Decimal128MathOperation_Divide) as (w & Ew & Hw); [done|].
    unfold DivideDecimal128Numbers. rewrite Ew. eexists. split; [done|auto with numbers].
  - apply orb_false_iff in Ed as [Da Db].
    destruct (number_as_double a Ha Da) as (x & -> & Hx), (number_as_double b Hb Db) as (y & -> & Hy).
    cbn [result_bind]. destruct (d_eq y 0); [by left|right]. eexists. split; [done|auto with numbers].
Qed.

End closed.

(** ** The remainder of integers *)

Section remainder.
Context {L : BidLib} {A : BidMath}.

(** The remainder of two integers below 2^53 is exact: a divisor other than
    zero gives the remainder of the truncated division, as a 64-bit integer if
    one of the operands is, as a 32-bit integer otherwise. *)
Theorem remainder_exact (a b : bson_value) (x y : Z) :
  wf_value a = true -> wf_value b = true -> integer_of a = Some x -> integer_of b = Some y ->
  Z.abs x < 2 ^ 53 -> Z.abs y < 2 ^ 53 -> y <> 0 ->
  GetRemainderFromModBsonValues a b false = Ok (int_result a b (Z.rem x y)).
Proof.
  intros Wa Wb Ia Ib Hx Hy Hne. destruct (integer_range a x Wa Ia) as (_ & _ & Da & _ & _ & Sa).
  destruct (integer_range b y Wb Ib) as (_ & _ & Db & _ & _ & Sb).
  unfold GetRemainderFromModBsonValues. cbn [result_bind].
  assert (is_decimal a || is_decimal b = false) as -> by (by destruct a, b).
  rewrite Da. cbn [result_bind]. rewrite Db. cbn [result_bind].
  destruct (fmod_int x y Hx Hy Hne) as (Er & Hnan & Hinf). set (r := fmod _ _) in *.
  destruct (double_of_int_finite x ltac:(lia)) as [_ ->]. destruct (double_of_int_finite y ltac:(lia)) as [_ ->].
  change (IsBsonValue32BitInteger (V_Double r) true) with
    (Ok (d_le r (double_of_int INT32_MAX) && d_le (double_of_int INT32_MIN) r &&
         (negb true || d_eq (d_floor r) r))). cbn [result_bind negb].
  assert (is_double a || is_double b = false) as -> by (by destruct a, b).
  rewrite andb_false_r. cbn [andb]. pose proof (Z.rem_bound_abs x y Hne) as Hr.
  assert (d_trunc r = Z.rem x y) as Et by by apply d_trunc_exact.
  unfold int_result. destruct (is_int64 a || is_int64 b) eqn:E64.
  - unfold cast_int64, cast_Z_int64. rewrite Hnan, Et.
    assert (in_int64 (Z.rem x y) = true) as ->; [|done]. unfold in_int64, INT64_MIN, INT64_MAX. lia.
  - apply orb_false_iff in E64 as [H1 H2]. specialize (Sa H1). specialize (Sb H2).
    assert (in_int32 (Z.rem x y) = true) as Hin.
    { revert Sb. unfold in_int32, INT32_MIN, INT32_MAX. rewrite !andb_true_iff, !Z.leb_le. lia. }
    rewrite Hin. assert (type_eqb (value_type a) BSON_TYPE_INT32 = true) as -> by (by destruct a).
    assert (d_le r (double_of_int INT32_MAX) && d_le (double_of_int INT32_MIN) r &&
            (false || d_eq (d_floor r) r) = true) as ->.
    { pose proof DSCALE_pos as HS. unfold in_int32 in Hin. apply andb_true_iff in Hin as [B1%Z.leb_le B2%Z.leb_le].
      unfold d_le, d_cmp_ok. rewrite Hnan.
      destruct (double_of_int_range INT32_MAX ltac:(by vm_compute)) as [_ ->].
      destruct (double_of_int_range INT32_MIN ltac:(by vm_compute)) as [_ ->].
      rewrite !double_of_int_exact, Er by (by vm_compute). cbn [negb andb orb].
      rewrite d_floor_eq, Er, Z.mod_mul by (try done; try lia; apply doubleb_iff, fmod_double;
        apply double_of_int_range; lia).
      rewrite !andb_true_iff, !Z.leb_le, Z.eqb_eq. clear -HS B1 B2. generalize dependent DSCALE. intros k Hk.
      split_and!; [nia|nia|done]. }
    cbn [andb]. unfold cast_int32, cast_Z_int32. by rewrite Hnan, Et, Hin.
Qed.
End remainder.

(** ** Instances *)

(** A decimal library whose results are all zero: the laws only say that
    results are decimals. *)
Module ZeroMath.
Definition zero : decimal128 * bid_flags := (mk_decimal128 0 0, ALL_EXCEPTION_FLAG_CLEAR).

#[export] Instance math : BidMath := {
  bid128_add _ _ _ := zero; bid128_sub _ _ _ := zero; bid128_mul _ _ _ := zero;
  bid128_div _ _ _ := zero; bid128_fmod _ _ := zero; bid128_pow _ _ _ := zero;
  bid128_abs d := d; bid128_log10 _ _ := zero; bid128_to_int32_xceil _ := (0, ALL_EXCEPTION_FLAG_CLEAR);
  bid128_round_integral_positive d := (d, ALL_EXCEPTION_FLAG_CLEAR);
  bid128_round_integral_negative d := (d, ALL_EXCEPTION_FLAG_CLEAR);
  bid128_round_integral_exact d _ := (d, ALL_EXCEPTION_FLAG_CLEAR);
}.

#[export] Instance math_laws {L : BidLib} : BidMathLaws L math.
Proof. by split. Qed.
End ZeroMath.

(** The remainder of 64-bit integers is computed with doubles: from 2^53 on
    it can be wrong.  9007199254740993 is odd, but its remainder by 2 is 0. *)
Theorem remainder_loses_precision {L : BidLib} {A : BidMath} :
  GetRemainderFromModBsonValues (V_Int64 (2 ^ 53 + 1)) (V_Int64 2) true = Ok (V_Int64 0) /\
  Z.rem (2 ^ 53 + 1) 2 = 1.
Proof. vm_compute. split; reflexivity. Qed.

Section examples.
Import ExactBid ZeroMath.

Lemma integer_arithmetic_exact_witness :
  AddNumberToBsonValue (V_Int32 (2 ^ 31 - 1)) (V_Int32 1) false = Ok (true, V_Int64 (2 ^ 31), false).
Proof.
  refine (eq_trans (proj1 (integer_arithmetic_exact (V_Int32 (2 ^ 31 - 1)) (V_Int32 1) (2 ^ 31 - 1) 1
    false true _ _ _ _)) _); vm_compute; reflexivity.
Defined.


Lemma remainder_exact_witness :
  GetRemainderFromModBsonValues (V_Int64 (-7)) (V_Int32 3) false = Ok (V_Int64 (-1)).
Proof.
  refine (eq_trans (remainder_exact (V_Int64 (-7)) (V_Int32 3) (-7) 3 _ _ _ _ _ _ _) _);
    try (vm_compute; reflexivity). discriminate.
Defined.
End examples.
