(* ===== verification/ArithmeticExpr.v ===== *)
(** * Arithmetic expressions of the aggregation pipeline

    $add, $multiply, $subtract, $divide, $mod, $pow, $abs, $ceil, $floor, $round
    and $trunc, of
    [pg_documentdb/src/operators/bson_expression_arithmetic_operators.c], on
    evaluated arguments.  An expression whose arguments are constants is
    evaluated once, when it is parsed; otherwise its arguments are evaluated
    for each document.  Both ways share the processing of one argument, modelled
    here with the two drivers around it. *)

From stdpp Require Import base numbers list option.
From Stdlib Require Import ZArith Lia.
From S2P Require Import Prelude Binary64 DoubleArith Bson Decimal128 BsonCompare Arithmetic.

Record DualArgumentExpressionState : Set := mk_dual {
  firstArgument : bson_value;
  secondArgument : bson_value;
  hasNullOrUndefined : bool;
  hasFieldExpression : bool;
}.

Definition InitializeDualArgumentExpressionState (firstValue secondValue : bson_value)
  (hasFieldExpression : bool) : DualArgumentExpressionState :=
  mk_dual firstValue secondValue
    (IsExpressionResultNullOrUndefined firstValue || IsExpressionResultNullOrUndefined secondValue)
    hasFieldExpression.

(** The state of $add. *)
Record DollarAddState : Set := mk_add { isDateTimeAdd : bool; foundUndefined : bool }.

Definition is_date (v : bson_value) : bool := type_eqb (value_type v) BSON_TYPE_DATE_TIME.

(** [floor], [ceil] and [fabs] as results: they keep the sign of a zero. *)
Definition floor_result (d : double) : double := if dscaled d =? 0 then d else d_floor d.
Definition ceil_result (d : double) : double := d_opp (floor_result (d_opp d)).

Section expressions.
Context {L : BidLib} {A : BidMath}.

Definition ThrowIfNotNumeric (value : bson_value) : result unit :=
  if negb (BsonValueIsNumber value) then Err ERRCODE_DOCUMENTDB_TYPEMISMATCH else Ok tt.

Definition ThrowIfNotNumericOrDate (value : bson_value) : result unit :=
  if negb (BsonValueIsNumber value) && negb (is_date value)
  then Err ERRCODE_DOCUMENTDB_TYPEMISMATCH else Ok tt.

(** ** $add *)

(** The number that an argument stands for; a date is its milliseconds, once. *)
Definition add_operand (currentElement : bson_value) (addState : DollarAddState)
  : result (DollarAddState * bson_value) :=
  match currentElement with
  | V_DateTime dateTime =>
      if isDateTimeAdd addState then Err ERRCODE_DOCUMENTDB_DOLLARADDONLYONEDATE
      else Ok (mk_add true (foundUndefined addState), V_Int64 dateTime)
  | _ => Ok (addState, currentElement)
  end.

(** Whether to go on, the state and the result so far. *)
Definition ProcessDollarAdd (currentElement : bson_value) (addState : DollarAddState)
  (res : bson_value) : result (bool * DollarAddState * bson_value) :=
  if type_eqb (value_type currentElement) BSON_TYPE_NULL then Ok (false, addState, V_Null)
  else if IsExpressionResultUndefined currentElement
  then Ok (true, mk_add (isDateTimeAdd addState) true, res)
  else
        let! _ := ThrowIfNotNumericOrDate currentElement in
        let! (addState, evaluatedValue) := add_operand currentElement addState in
        if isDateTimeAdd addState && (is_decimal res || is_decimal evaluatedValue) then
          let! res' := if is_decimal res then Ok res
                       else let! d := GetBsonValueAsDecimal128Quantized res in Ok (V_Decimal128 d) in
          let! evaluatedValue' :=
            if negb (is_decimal res) || is_decimal evaluatedValue then Ok evaluatedValue
            else let! d := GetBsonValueAsDecimal128Quantized evaluatedValue in Ok (V_Decimal128 d) in
          let! (sum, addDecimal128Result) := AddDecimal128Numbers res' evaluatedValue' in
          let! finite := IsDecimal128Finite sum in
          let! inRange := IsDecimal128InInt64Range sum in
          match addDecimal128Result, finite, inRange with
          | Decimal128Result_Success, true, true => Ok (true, addState, sum)
          | _, _, _ => Ok (false, addState, V_DateTime INT64_MAX)
          end
        else
          let! (_, sum, _) := AddNumberToBsonValue res evaluatedValue false in
          Ok (true, addState, sum).

Definition CheckForDateOverflow (value : bson_value) : bool :=
  match value with
  | V_Double d =>
      isnan d || d_le d (double_of_int INT64_MIN) || d_le (double_of_int INT64_MAX) d
  | _ => false
  end.

Definition ProcessDollarAddAccumulatedResult (addState : DollarAddState) (res : bson_value)
  : result bson_value :=
  let! res :=
    if isDateTimeAdd addState then
      if CheckForDateOverflow res then Err ERRCODE_DOCUMENTDB_OVERFLOW
      else if negb (foundUndefined addState) && negb (is_date res) then
        let! dateTime := BsonValueAsInt64WithRoundingMode res ConversionRoundingMode_NearestEven false in
        Ok (V_DateTime dateTime)
      else Ok res
    else Ok res in
  Ok (if foundUndefined addState then V_Null else res).

(** The loop over constant arguments, at parse time. *)
Fixpoint ParseArithmeticOperatorVariableOperands {S}
  (processOperatorFunc : bson_value -> S -> bson_value -> result (bool * S * bson_value))
  (arguments : list bson_value) (state : S) (res : bson_value) : result (S * bson_value) :=
  match arguments with
  | [] => Ok (state, res)
  | current :: rest =>
      let! (continueEnumerating, state, res) := processOperatorFunc current state res in
      if negb continueEnumerating then Ok (state, res)
      else ParseArithmeticOperatorVariableOperands processOperatorFunc rest state res
  end.

(** The loop at run time: an argument is evaluated when its turn comes. *)
Fixpoint HandlePreParsedArithmeticVariableOperands {S}
  (processOperatorFunc : bson_value -> S -> bson_value -> result (bool * S * bson_value))
  (arguments : list (result bson_value)) (state : S) (res : bson_value) : result (S * bson_value) :=
  match arguments with
  | [] => Ok (state, res)
  | argument :: rest =>
      let! current := argument in
      let! (continueEnumerating, state, res) := processOperatorFunc current state res in
      if negb continueEnumerating then Ok (state, res)
      else HandlePreParsedArithmeticVariableOperands processOperatorFunc rest state res
  end.

Definition ParseDollarAdd (arguments : list bson_value) : result bson_value :=
  let! (state, res) :=
    ParseArithmeticOperatorVariableOperands ProcessDollarAdd arguments (mk_add false false) (V_Int32 0) in
  ProcessDollarAddAccumulatedResult state res.

Definition HandlePreParsedDollarAdd (arguments : list (result bson_value)) : result bson_value :=
  let! (state, res) :=
    HandlePreParsedArithmeticVariableOperands ProcessDollarAdd arguments (mk_add false false) (V_Int32 0) in
  match res with
  | V_Null => Ok V_Null
  | _ => ProcessDollarAddAccumulatedResult state res
  end.

(** ** $multiply *)

Definition ProcessDollarMultiply (currentElement : bson_value) (state : unit) (res : bson_value)
  : result (bool * unit * bson_value) :=
  if IsExpressionResultNullOrUndefined currentElement then Ok (false, state, V_Null)
  else
    let! _ := ThrowIfNotNumeric currentElement in
    let! (_, product) := MultiplyWithFactorAndUpdate res currentElement true in
    Ok (true, state, product).

Definition ParseDollarMultiply (arguments : list bson_value) : result bson_value :=
  let! (_, res) :=
    ParseArithmeticOperatorVariableOperands ProcessDollarMultiply arguments tt (V_Int32 1) in Ok res.

Definition HandlePreParsedDollarMultiply (arguments : list (result bson_value)) : result bson_value :=
  let! (_, res) :=
    HandlePreParsedArithmeticVariableOperands ProcessDollarMultiply arguments tt (V_Int32 1) in Ok res.

(** ** The operators with two arguments *)

Definition ProcessDollarSubtract (dualState : DualArgumentExpressionState) : result bson_value :=
  if hasNullOrUndefined dualState then Ok V_Null
  else
    let minuend := firstArgument dualState in
    let subtrahend := secondArgument dualState in
    let isDateOperation := is_date minuend in
    if negb (BsonValueIsNumber minuend) && negb isDateOperation
    then Err ERRCODE_DOCUMENTDB_TYPEMISMATCH
    else if negb (BsonValueIsNumber subtrahend) && (negb isDateOperation || negb (is_date subtrahend))
    then Err ERRCODE_DOCUMENTDB_TYPEMISMATCH
    else
      match minuend with
      | V_DateTime minuendDate =>
          let '(subtrahend, isDateTimeResult) :=
            match subtrahend with V_DateTime d => (V_Int64 d, false) | _ => (subtrahend, true) end in
          let! (_, res, _) := SubtractNumberFromBsonValue (V_Int64 minuendDate) subtrahend false in
          if isDateTimeResult : bool then
            let! dateTime := BsonValueAsInt64 res in Ok (V_DateTime dateTime)
          else if negb (is_int64 res) then
            let! value := BsonValueAsInt64 res in Ok (V_Int64 value)
          else Ok res
      | _ =>
          let! (_, res, _) := SubtractNumberFromBsonValue minuend subtrahend false in Ok res
      end.

Definition ProcessDollarDivide (dualState : DualArgumentExpressionState) : result bson_value :=
  if hasNullOrUndefined dualState then Ok V_Null
  else
    let res := firstArgument dualState in
    let divisorValue := secondArgument dualState in
    if negb (BsonValueIsNumber res) || negb (BsonValueIsNumber divisorValue)
    then Err ERRCODE_DOCUMENTDB_TYPEMISMATCH
    else if is_decimal res || is_decimal divisorValue then
      let! dividend := if is_decimal divisorValue
                       then let! d := GetBsonValueAsDecimal128Quantized res in Ok (V_Decimal128 d)
                       else Ok res in
      let! divisor := if is_decimal divisorValue then Ok divisorValue
                      else let! d := GetBsonValueAsDecimal128Quantized divisorValue in Ok (V_Decimal128 d) in
      let! zero := IsDecimal128Zero divisor in
      if zero : bool then Err ERRCODE_DOCUMENTDB_BADVALUE
      else value_of (DivideDecimal128Numbers dividend divisor)
    else
      let! dividend := BsonValueAsDouble res in
      let! divisor := BsonValueAsDouble divisorValue in
      if d_eq divisor 0 then Err ERRCODE_DOCUMENTDB_BADVALUE
      else Ok (V_Double (d_div dividend divisor)).

Definition ProcessDollarMod (dualState : DualArgumentExpressionState) : result bson_value :=
  if hasNullOrUndefined dualState then Ok V_Null
  else
    let divisorValue := secondArgument dualState in
    let dividendValue := firstArgument dualState in
    if negb (BsonValueIsNumber dividendValue) || negb (BsonValueIsNumber divisorValue)
    then Err ERRCODE_DOCUMENTDB_DOLLARMODONLYNUMERIC
    else
      let! zero := if is_decimal divisorValue then IsDecimal128Zero divisorValue else Ok false in
      let! zero := if zero : bool then Ok true
                   else let! d := BsonValueAsDouble divisorValue in Ok (d_eq d 0) in
      if zero : bool then Err ERRCODE_DOCUMENTDB_DOLLARMODBYZEROPROHIBITED
      else GetRemainderFromModBsonValues dividendValue divisorValue false.

Definition CompareBsonDecimal128ToZero (value : bson_value) : result (Z * bool) :=
  CompareBsonDecimal128 value (V_Decimal128 (mk_decimal128 0 0)).

Definition ProcessDollarPow (dualState : DualArgumentExpressionState) : result bson_value :=
  if hasNullOrUndefined dualState then Ok V_Null
  else
    let baseValue := firstArgument dualState in
    let exponentValue := secondArgument dualState in
    if negb (BsonValueIsNumber baseValue) then Err ERRCODE_DOCUMENTDB_DOLLARPOWBASEMUSTBENUMERIC
    else if negb (BsonValueIsNumber exponentValue)
    then Err ERRCODE_DOCUMENTDB_DOLLARPOWEXPONENTMUSTBENUMERIC
    else
      let! b := GetBsonValueAsDecimal128 baseValue in
      let! e := GetBsonValueAsDecimal128 exponentValue in
      let baseDecimal := V_Decimal128 b in
      let exponentDecimal := V_Decimal128 e in
      let! (cmp, isComparisonValid) := CompareBsonDecimal128ToZero exponentDecimal in
      let! zeroBase := IsDecimal128Zero baseDecimal in
      if zeroBase && isComparisonValid && (cmp =? -1)
      then Err ERRCODE_DOCUMENTDB_DOLLARPOWEXPONENTINVALIDFORZEROBASE
      else
        let! (decimalPowResult, _) := PowDecimal128Number baseDecimal exponentDecimal in
        if is_decimal baseValue || is_decimal exponentValue then Ok decimalPowResult
        else
          let! base := BsonValueAsDouble baseValue in
          let! exponent := BsonValueAsDouble exponentValue in
          let forceDoubleResult := d_lt exponent 0 &&
            (d_lt base (double_of_int (-1)) || d_lt (double_of_int 1) base) in
          let! inRange := IsDecimal128InInt64Range decimalPowResult in
          if forceDoubleResult || is_double baseValue || is_double exponentValue || negb inRange then
            let! d := GetBsonDecimal128AsDouble decimalPowResult in Ok (V_Double d)
          else
            let! in32 := IsDecimal128InInt32Range decimalPowResult in
            if type_eqb (value_type baseValue) BSON_TYPE_INT32 &&
               type_eqb (value_type exponentValue) BSON_TYPE_INT32 && in32 then
              let! z := GetBsonDecimal128AsInt32 decimalPowResult ConversionRoundingMode_NearestEven in
              Ok (V_Int32 z)
            else
              let! z := GetBsonDecimal128AsInt64 decimalPowResult ConversionRoundingMode_NearestEven in
              Ok (V_Int64 z).

Definition RoundOrTruncateValue (dualState : DualArgumentExpressionState)
  (operationType : RoundOperation) : result bson_value :=
  if hasNullOrUndefined dualState then Ok V_Null
  else
    let num := firstArgument dualState in
    let precision := secondArgument dualState in
    if negb (BsonValueIsNumber num) then Err ERRCODE_DOCUMENTDB_DOLLARROUNDFIRSTARGMUSTBENUMERIC
    else
      let! precisionAsLong :=
        BsonValueAsInt64WithRoundingMode precision ConversionRoundingMode_Floor true in
      let! fixedInteger := IsBsonValueFixedInteger precision in
      if negb fixedInteger then Err ERRCODE_DOCUMENTDB_DOLLARROUNDPRECISIONMUSTBEINTEGRAL
      else if (precisionAsLong <? -20) || (100 <? precisionAsLong)
      then Err ERRCODE_DOCUMENTDB_DOLLARROUNDPRECISIONOUTOFRANGE
      else if (0 <=? precisionAsLong) &&
              (is_int64 num || type_eqb (value_type num) BSON_TYPE_INT32) then Ok num
      else
        let! d := GetBsonValueAsDecimal128Quantized num in
        let! (operationResult, _) :=
          RoundOrTruncateDecimal128Number (V_Decimal128 d) precisionAsLong operationType in
        if is_decimal num then Ok operationResult
        else if is_double num then
          let! r := GetBsonDecimal128AsDouble operationResult in Ok (V_Double r)
        else
          let! in32 := if type_eqb (value_type num) BSON_TYPE_INT32
                       then IsDecimal128InInt32Range operationResult else Ok false in
          if in32 : bool then
            let! z := GetBsonDecimal128AsInt32 operationResult ConversionRoundingMode_Floor in
            Ok (V_Int32 z)
          else
            let! inRange := IsDecimal128InInt64Range operationResult in
            if negb inRange then Err ERRCODE_DOCUMENTDB_DOLLARROUNDOVERFLOWINT64
            else
              let! z := GetBsonDecimal128AsInt64 operationResult ConversionRoundingMode_Floor in
              Ok (V_Int64 z).

Definition ProcessDollarRound dualState := RoundOrTruncateValue dualState RoundOperation_Round.
Definition ProcessDollarTrunc dualState := RoundOrTruncateValue dualState RoundOperation_Trunc.

(** ** The operators with one argument *)

(** [CeilDecimal128Number], [FloorDecimal128Number] and [AbsDecimal128Number]. *)
Definition decimal_unary (op : decimal128 -> decimal128) (value : bson_value) : result bson_value :=
  let! d := GetBIDUINT128FromBsonValue value in Ok (V_Decimal128 (op d)).

Definition ProcessDollarCeil (currentValue : bson_value) : result bson_value :=
  if IsExpressionResultNullOrUndefined currentValue then Ok V_Null
  else if negb (BsonValueIsNumber currentValue) then Err ERRCODE_DOCUMENTDB_LOCATION28765
  else
    match currentValue with
    | V_Decimal128 _ => decimal_unary (fun d => fst (bid128_round_integral_positive d)) currentValue
    | V_Double d => Ok (V_Double (ceil_result d))
    | _ => Ok currentValue
    end.

Definition ProcessDollarFloor (currentValue : bson_value) : result bson_value :=
  if IsExpressionResultNullOrUndefined currentValue then Ok V_Null
  else if negb (BsonValueIsNumber currentValue) then Err ERRCODE_DOCUMENTDB_LOCATION28765
  else
    match currentValue with
    | V_Decimal128 _ => decimal_unary (fun d => fst (bid128_round_integral_negative d)) currentValue
    | V_Double d => Ok (V_Double (floor_result d))
    | _ => Ok currentValue
    end.

Definition ProcessDollarAbs (currentValue : bson_value) : result bson_value :=
  if IsExpressionResultNullOrUndefined currentValue then Ok V_Null
  else if negb (BsonValueIsNumber currentValue) then Err ERRCODE_DOCUMENTDB_LOCATION28765
  else
    match currentValue with
    | V_Decimal128 _ => decimal_unary bid128_abs currentValue
    | V_Double d => Ok (V_Double (d_abs d))
    | _ =>
        let! z := BsonValueAsInt64 currentValue in
        if is_int64 currentValue && (z =? INT64_MIN)
        then Err ERRCODE_DOCUMENTDB_DOLLARABSCANTTAKELONGMINVALUE
        else
          let absValue := Z.abs z in
          if type_eqb (value_type currentValue) BSON_TYPE_INT32 && (absValue <=? INT32_MAX)
          then Ok (V_Int32 absValue) else Ok (V_Int64 absValue)
    end.
End expressions.

(** ** The two evaluations of $add *)

Section agreement.
Context {L : BidLib} {A : BidMath} {AL : BidMathLaws L A}.

Lemma add_step_number current state res continue state' res' :
  wf_value current = true -> current <> V_Null -> number res ->
  ProcessDollarAdd current state res = Ok (continue, state', res') ->
  res' <> V_Null /\ (continue = true -> number res').
Proof.
  intros W Hn Hres. unfold ProcessDollarAdd.
  destruct (type_eqb (value_type current) BSON_TYPE_NULL) eqn:En; [by destruct current|].
  destruct (IsExpressionResultUndefined current) eqn:Eu.
  { intros [= <- <- <-]. split; [|done]. intros ->. by destruct Hres. }
  destruct (ThrowIfNotNumericOrDate current) as [[]|] eqn:Et; cbn [result_bind]; [|done].
  assert (add_operand current state = Err ERRCODE_DOCUMENTDB_DOLLARADDONLYONEDATE \/
          exists st v, add_operand current state = Ok (st, v) /\ number v) as Hev.
  { destruct current; try discriminate; try (right; eexists _, _; split; [reflexivity|by split]).
    unfold add_operand. destruct (isDateTimeAdd state); [by left|right].
    eexists _, _. split; [reflexivity|by split]. }
  destruct Hev as [->|(st & v & -> & Hv)]; cbn [result_bind]; [done|].
  destruct (isDateTimeAdd st && (is_decimal res || is_decimal v)) eqn:Ed.
  - destruct (number_quantized res Hres) as [dr Edr], (number_quantized v Hv) as [dv Edv].
    assert (exists a b,
      (if is_decimal res then Ok res else let! d := GetBsonValueAsDecimal128Quantized res in Ok (V_Decimal128 d))
        = Ok (V_Decimal128 a) /\
      (if negb (is_decimal res) || is_decimal v then Ok v
       else let! d := GetBsonValueAsDecimal128Quantized v in Ok (V_Decimal128 d)) = Ok (V_Decimal128 b))
      as (a & b & -> & ->).
    { rewrite Edr, Edv. cbn [result_bind]. apply andb_true_iff in Ed as [_ Ed].
      destruct (is_decimal res) eqn:E1, (is_decimal v) eqn:E2; try done; cbn [negb orb];
        try (destruct res; try discriminate E1); try (destruct v; try discriminate E2); eauto. }
    cbn [result_bind].
    destruct (decimal_operation a b Decimal128MathOperation_Add) as (d & Ew & Hd); [done|].
    unfold AddDecimal128Numbers. unfold value_of in Ew.
    destruct (Decimal128MathematicalOperation2Operands _ _ _) as [[w code]|]; [|done].
    cbn [result_bind] in *. injection Ew as ->.
    destruct (IsDecimal128Finite _) as [finite|]; cbn [result_bind]; [|done].
    destruct (IsDecimal128InInt64Range _) as [inRange|]; cbn [result_bind]; [|done].
    destruct code, finite, inRange; intros [= <- <- <-]; split; try done; intros _; by apply number_decimal.
  - destruct (add_closed res v false Hres Hv) as (w & f & -> & Hw). cbn [result_bind].
    intros [= <- <- <-]. split; [|done]. intros ->. by destruct Hw.
Qed.

Lemma add_loop_agrees vs state res :
  Forall (fun v => wf_value v = true /\ v <> V_Null) vs -> number res ->
  HandlePreParsedArithmeticVariableOperands ProcessDollarAdd (Ok <$> vs) state res =
  ParseArithmeticOperatorVariableOperands ProcessDollarAdd vs state res /\
  forall state' res', ParseArithmeticOperatorVariableOperands ProcessDollarAdd vs state res = Ok (state', res') ->
    res' <> V_Null.
Proof.
  intros Hv. revert state res. induction Hv as [|v vs [W Hn] _ IH]; intros state res Hres.
  - split; [done|]. intros st r [= <- <-] ->. by destruct Hres.
  - cbn [fmap list_fmap HandlePreParsedArithmeticVariableOperands ParseArithmeticOperatorVariableOperands].
    cbn [result_bind].
    destruct (ProcessDollarAdd v state res) as [[[continue st] r]|] eqn:E; [|done]. cbn [result_bind].
    destruct (add_step_number v state res continue st r W Hn Hres E) as [Hr Hc].
    destruct continue; cbn [negb]; [by apply IH, Hc|]. split; [done|]. by intros st' r' [= <- <-].
Qed.

(** C40: $add is evaluated alike when it is parsed and when it is run, as long as
    no argument is null: constant arguments give the value that the same
    arguments give when they come from a document. *)
Theorem add_parse_run_agree (vs : list bson_value) :
  Forall (fun v => wf_value v = true /\ v <> V_Null) vs ->
  ParseDollarAdd vs = HandlePreParsedDollarAdd (Ok <$> vs).
Proof.
  intros Hv. unfold ParseDollarAdd, HandlePreParsedDollarAdd.
  destruct (add_loop_agrees vs (mk_add false false) (V_Int32 0) Hv) as [-> Hn]; [done|].
  destruct (ParseArithmeticOperatorVariableOperands _ _ _ _) as [[st r]|]; [|done]. cbn [result_bind].
  specialize (Hn st r eq_refl). by destruct r.
Qed.

(** $abs.  The absolute value of an integer is exact: a 32-bit integer stays
    one unless it is -2^31; -2^63 is refused. *)
Theorem abs_exact (v : bson_value) (z : Z) :
  wf_value v = true -> integer_of v = Some z ->
  ProcessDollarAbs v =
  if is_int64 v && (z =? INT64_MIN) then Err ERRCODE_DOCUMENTDB_DOLLARABSCANTTAKELONGMINVALUE
  else Ok (int_result v v (Z.abs z)).
Proof.
  intros W I. destruct (integer_range v z W I) as (_ & E & _ & _ & _ & S). unfold ProcessDollarAbs.
  destruct v; try done; cbn [integer_of wf_value] in *; injection I as ->; rewrite E; cbn [result_bind];
    unfold int_result.
  - change (is_int64 (V_Int32 z)) with false in *. specialize (S eq_refl).
    assert (in_int32 (Z.abs z) = (Z.abs z <=? INT32_MAX)) as ->.
    { revert S. unfold in_int32, INT32_MIN, INT32_MAX. lia. }
    by destruct (Z.abs z <=? INT32_MAX).
  - change (is_int64 (V_Int64 z)) with true. cbn [orb andb]. by destruct (z =? INT64_MIN).
Qed.

(** Differences.  The difference of two dates is the 64-bit number of
    milliseconds between them when that fits; a date minus an integer is the
    date that many milliseconds earlier when that is a date. *)
Theorem subtract_dates_exact (a b : Z) (n : bson_value) (z : Z) (hasField : bool) :
  in_int64 a = true -> in_int64 b = true -> wf_value n = true -> integer_of n = Some z ->
  in_int64 (a - b) = true -> in_int64 (a - z) = true ->
  ProcessDollarSubtract (InitializeDualArgumentExpressionState (V_DateTime a) (V_DateTime b) hasField) =
    Ok (V_Int64 (a - b)) /\
  ProcessDollarSubtract (InitializeDualArgumentExpressionState (V_DateTime a) n hasField) =
    Ok (V_DateTime (a - z)).
Proof.
  intros Ha Hb W I Hab Hn. unfold ProcessDollarSubtract, InitializeDualArgumentExpressionState. split.
  - cbn [hasNullOrUndefined firstArgument secondArgument]. cbn -[SubtractNumberFromBsonValue].
    rewrite (subtract_integers (V_Int64 a) (V_Int64 b) a b), Hab by done. done.
  - destruct n; try done; cbn [integer_of wf_value] in *; injection I as ->; cbn -[SubtractNumberFromBsonValue].
    + rewrite (subtract_integers (V_Int64 a) (V_Int32 z) a z), Hn by done. done.
    + rewrite (subtract_integers (V_Int64 a) (V_Int64 z) a z), Hn by done. done.
Qed.
End agreement.

(** A constant date plus null is the epoch.  [{ $add: [ date, null ] }] is
    null when the date comes from a document; with constants the null is turned
    into the date 1970-01-01. *)
Theorem add_constant_date_null {L : BidLib} {A : BidMath} (d : Z) :
  HandlePreParsedDollarAdd [Ok (V_DateTime d); Ok V_Null] = Ok V_Null /\
  ParseDollarAdd [V_DateTime d; V_Null] = Ok (V_DateTime 0).
Proof.
  assert (exists w, ProcessDollarAdd (V_DateTime d) (mk_add false false) (V_Int32 0) =
                    Ok (true, mk_add true false, w)) as [w Ew].
  { cbv -[AddInt64ToValue double_of_int d_add Z.ltb Z.sub Z.add INT64_MAX INT64_MIN].
    unfold AddInt64ToValue. change (BsonValueAsInt64 (V_Int32 0)) with (Ok 0). cbn [result_bind].
    by destruct ((0 <? d) && (INT64_MAX - d <? 0) || (d <? 0) && (0 <? INT64_MIN - d)); eexists. }
  unfold HandlePreParsedDollarAdd, ParseDollarAdd.
  cbn [HandlePreParsedArithmeticVariableOperands ParseArithmeticOperatorVariableOperands result_bind].
  rewrite Ew. done.
Qed.

(** A difference of dates that does not fit in 64 bits becomes the least
    64-bit integer: the greatest date minus the date -1 is negative. *)
Theorem subtract_dates_overflow {L : BidLib} {A : BidMath} :
  ProcessDollarSubtract (InitializeDualArgumentExpressionState (V_DateTime INT64_MAX) (V_DateTime (-1)) false) =
  Ok (V_Int64 INT64_MIN).
Proof. vm_compute. reflexivity. Qed.

Section examples.
Import ExactBid ZeroMath.

Lemma add_parse_run_agree_witness :
  ParseDollarAdd [V_Int32 1; V_DateTime 5; V_Undefined] =
  HandlePreParsedDollarAdd (Ok <$> [V_Int32 1; V_DateTime 5; V_Undefined]).
Proof. apply (add_parse_run_agree [V_Int32 1; V_DateTime 5; V_Undefined]). by repeat constructor. Defined.

Lemma abs_exact_witness : ProcessDollarAbs (V_Int32 (- 2 ^ 31)) = Ok (V_Int64 (2 ^ 31)).
Proof.
  refine (eq_trans (abs_exact (V_Int32 (- 2 ^ 31)) (- 2 ^ 31) _ _) _); vm_compute; reflexivity.
Defined.

Lemma subtract_dates_exact_witness :
  ProcessDollarSubtract (InitializeDualArgumentExpressionState (V_DateTime 1000) (V_DateTime 1) false) =
    Ok (V_Int64 (1000 - 1)).
Proof.
  refine (proj1 (subtract_dates_exact 1000 1 (V_Int32 7) 7 false _ _ _ _ _ _)); vm_compute; reflexivity.
Defined.
End examples.
