(* ===== verification/GinIndexTerm.v ===== *)
(** * Index terms: [pg_documentdb/src/opclass/gin_index_term.c]

    The terms stored in the GIN/RUM index and their order.  A term is a byte
    buffer whose first byte is its metadata: a document with path and value, a
    value without path, a comparable term, or a composite of other terms.  The
    index asks [gin_bson_compare] for the order of two buffers.  The theorems
    relate that comparison, with its [memcmp] shortcut for comparable terms and
    its mixed cases, to one order on decoded terms, show that this order is
    total on the terms of one index, and that composite and collated terms
    split back into their parts. *)

From stdpp Require Import base numbers list option.
From Stdlib Require Import ZArith Lia.
From S2P Require Import Prelude Binary64 Bson PgbsonElement StringView Decimal128.
From S2P Require Import Collation BsonCompare ComparableTerm.

(** ** Metadata tests *)

Definition IsIndexTermMetadataTruncated (m : Z) : bool :=
  (m =? IndexTermTruncated) || (m =? IndexTermDescendingTruncated) ||
  (m =? IndexTermValueOnlyTruncated) || (m =? IndexTermValueOnlyDescendingTruncated).

Definition IsIndexTermMetadataValueOnly (m : Z) : bool :=
  (m =? IndexTermValueOnly) || (m =? IndexTermValueOnlyTruncated) ||
  (m =? IndexTermValueOnlyDescending) || (m =? IndexTermValueOnlyDescendingTruncated).

Definition IsIndexTermMetadataComposite (m : Z) : bool := m =? IndexTermComposite.

Definition IsIndexTermMetadataValueMaybeUndefined (m : Z) : bool :=
  (m =? IndexTermPartialUndefinedValue) || (m =? IndexTermDescendingPartialUndefinedValue).

Definition IsIndexTermMetadataValueUndefined (m : Z) : bool :=
  (m =? IndexTermUndefinedValue) || (m =? IndexTermDescendingUndefinedValue).

Definition IsIndexTermTruncated (t : BsonIndexTerm) : bool :=
  IsIndexTermMetadataTruncated (termMetadata t).
Definition IsIndexTermMaybeUndefined (t : BsonIndexTerm) : bool :=
  IsIndexTermMetadataValueMaybeUndefined (termMetadata t).
Definition IsIndexTermValueUndefined (t : BsonIndexTerm) : bool :=
  IsIndexTermMetadataValueUndefined (termMetadata t).
Definition IsIndexTermValueDescending (t : BsonIndexTerm) : bool :=
  IndexTermDescending <=? termMetadata t.
Definition IsIndexTermMetadata (t : BsonIndexTerm) : bool :=
  termMetadata t =? IndexTermIsMetadata.

Definition IsRootTruncationTerm (t : BsonIndexTerm) : bool :=
  IsIndexTermTruncated t && (blen (path t) =? 0) &&
  type_eqb (value_type (bsonValue t)) BSON_TYPE_MAXKEY.

(** The first byte of a buffer; the callers never pass an empty one. *)
Definition metadata_byte (buffer : bytes) : Z :=
  match buffer with m :: _ => m | [] => IndexTermNoMetadata end.

Definition IsSerializedIndexTermComposite (term : bytes) : bool :=
  IsIndexTermMetadataComposite (metadata_byte term).
Definition IsSerializedIndexTermTruncated (term : bytes) : bool :=
  IsIndexTermMetadataTruncated (metadata_byte term).
Definition IsSerializedIndexTermMetadata (term : bytes) : bool :=
  metadata_byte term =? IndexTermIsMetadata.
Definition IsSerializedTermValueDescending (term : bytes) : bool :=
  IndexTermDescending <=? metadata_byte term.

Definition IsTermPairValueUndefined (serializedTerm : bytes) : bool :=
  let m := metadata_byte serializedTerm in
  if (m =? IndexTermUndefinedValue) || (m =? IndexTermDescendingUndefinedValue) then true
  else if (m =? IndexTermComparableV1) || (m =? IndexTermDescendingComparableV1)
  then IsComparableIndexTermValueUndefined (drop 1 serializedTerm)
  else false.

(** ** Reversed and collated terms *)

Definition FormReversedIndexTerm (sourceTerm : bytes) : bytes :=
  match sourceTerm with
  | [] => []
  | m :: rest =>
      if IndexTermDescending <=? m then uint8 (m - IndexTermDescending) :: rest
      else uint8 (m + IndexTermDescending) :: rest
  end.

Definition FormCollatedIndexTerm (sourceTerm collation : bytes) : bytes :=
  IndexTermMetadataCollationPrefixed :: collation ++ [0] ++ sourceTerm.

(** The collation, if the buffer carries one, and the rest of the buffer. *)
Definition ExtractCollationAndUpdateBuffer (buffer : bytes) : read (option bytes * bytes) :=
  if metadata_byte buffer =? IndexTermMetadataCollationPrefixed then
    read! (collation, rest) := read_cstring (drop 1 buffer) in
    Done (Some collation, rest)
  else Done (None, buffer).

(** ** Variable-length headers of composite terms

    [VARATT_IS_1B] and the size macros of PostgreSQL on a little-endian
    machine: a one-byte header has its low bit set. *)

Definition VARHDRSZ : Z := 4.
Definition VARHDRSZ_SHORT : Z := 1.
Definition VARATT_SHORT_MAX : Z := 0x7F.
Definition INDEX_MAX_KEYS : Z := 32.

Definition VARATT_IS_1B (header : Z) : bool := Z.land header 1 =? 1.

(** [GetTermSizeAndNoExHdr]: the content of the first term of the buffer and
    the rest after it. *)
Definition next_term (buffer : bytes) : read (bytes * bytes) :=
  match buffer with
  | [] => OutOfBounds
  | h :: _ =>
      if VARATT_IS_1B h then
        let overallSize := Z.land (Z.shiftr h 1) 0x7F in
        read! (_, data) := read_n VARHDRSZ_SHORT buffer in
        read_n (overallSize - VARHDRSZ_SHORT) data
      else
        read! (header, _) := read_u32 buffer in
        let overallSize := Z.land (Z.shiftr header 2) 0x3FFFFFFF in
        read! (_, data) := read_n VARHDRSZ buffer in
        read_n (overallSize - VARHDRSZ) data
  end.

(** A read outside the buffer has no defined outcome in C. *)
Definition of_read {A} (r : read A) : result A :=
  match r with
  | Done a => Ok a
  | Fails => Err ERRCODE_DOCUMENTDB_BADVALUE
  | OutOfBounds => Err ERRCODE_INTERNAL_ERROR
  end.

(** One term of a composite: a short header when the content allows it. *)
Definition composite_part (term : bytes) : bytes :=
  if blen term + VARHDRSZ_SHORT <=? VARATT_SHORT_MAX
  then Z.lor (Z.shiftl (blen term + VARHDRSZ_SHORT) 1) 1 :: term
  else le_bytes 4 (Z.shiftl (blen term + VARHDRSZ) 2) ++ term.

(** The terms are given by their contents (the caller's terms have a
    four-byte, uncompressed header). *)
Definition SerializeCompositeBsonIndexTerm (individualTerms : list bytes) : bytes :=
  match individualTerms with
  | [term] => term
  | _ => IndexTermComposite :: flat_map composite_part individualTerms
  end.

(** The parts of a serialized term; every round consumes at least the header,
    so the length of the buffer bounds the number of rounds. *)
Fixpoint split_loop (fuel : nat) (buffer : bytes) (index : Z) : result (list bytes) :=
  match buffer, fuel with
  | [], _ => Ok []
  | _, O => Err ERRCODE_INTERNAL_ERROR
  | _, S fuel' =>
      if INDEX_MAX_KEYS <=? index then Err ERRCODE_DOCUMENTDB_INTERNALERROR
      else
        let! (term, rest) := of_read (next_term buffer) in
        let! terms := split_loop fuel' rest (index + 1) in
        Ok (term :: terms)
  end.

Definition LazyInitializeSerializedCompositeIndexTerm (indexTermSerialized : bytes)
  : result (list bytes) :=
  if negb (IsSerializedIndexTermComposite indexTermSerialized) then Ok [indexTermSerialized]
  else split_loop (length indexTermSerialized) (drop 1 indexTermSerialized) 0.

Section gin.
Context {L : BidLib} {I : Icu}.

(** libbson's reader of nested documents. *)
Context (bson_iter_init_from_data : bytes -> option bson_doc).

(** The value an index term holds.  Nested documents are read here; the code
    reads them when they are first compared. *)
Definition resolve (r : raw_value) : result bson_value :=
  let fields data :=
    match bson_iter_init_from_data data with
    | Some fs => Ok fs
    | None => Err ERRCODE_INTERNAL_ERROR
    end in
  match r with
  | R_Value v => Ok v
  | R_Document data => let! fs := fields data in Ok (V_Document fs)
  | R_Array data => let! fs := fields data in Ok (V_Array fs)
  | R_CodeWScope code scope => let! fs := fields scope in Ok (V_CodeWScope code fs)
  end.

Definition InitializeBsonIndexTermFromBuffer (buffer : bytes) : result BsonIndexTerm :=
  match buffer with
  | [] => Err ERRCODE_INTERNAL_ERROR
  | m :: data =>
      if (m =? IndexTermValueOnly) || (m =? IndexTermValueOnlyTruncated) ||
         (m =? IndexTermValueOnlyDescending) || (m =? IndexTermValueOnlyDescendingTruncated)
      then
        let! raw := BsonDocumentBytesToPgbsonElementSkipLengthUnsafe data in
        let! v := resolve raw in
        Ok (mk_term m [36] v)
      else if (m =? IndexTermComparableV1) || (m =? IndexTermDescendingComparableV1)
      then ComparableBufferToBsonIndexTerm data m
      else
        let! (key, raw) := BsonDocumentBytesToPgbsonElementUnsafe data in
        let! v := resolve raw in
        Ok (mk_term m key v)
  end.

Definition InitializeBsonIndexTerm (indexTermSerialized : bytes) : result BsonIndexTerm :=
  InitializeBsonIndexTermFromBuffer indexTermSerialized.

Definition IsSerializedRootTruncationTerm (term : bytes) : result bool :=
  if negb (IsSerializedIndexTermTruncated term) then Ok false
  else let! indexTerm := InitializeBsonIndexTerm term in Ok (IsRootTruncationTerm indexTerm).

(** ** Comparison of decoded terms

    The comparison and [isComparisonValid], which keeps the value [valid] it
    had when the function returns before the values are compared. *)

Definition b2z_diff (a b : bool) : Z := Z.b2z a - Z.b2z b.

Definition term_view (t : BsonIndexTerm) : StringView :=
  mk_view (Some (path t)) (blen (path t)).

Definition CompareIndexTermPathAndValue (left right : BsonIndexTerm) (valid : bool)
  (collation : option bytes) (isMetadataSame : bool) : result (Z * bool) :=
  let cmp := CompareStringView (term_view left) (term_view right) in
  if negb (cmp =? 0) then Ok (cmp, valid)
  else
    let! (cmp, valid) :=
      CompareBsonValueAndTypeWithCollation (bsonValue left) (bsonValue right) collation in
    if negb (cmp =? 0) || isMetadataSame then Ok (cmp, valid)
    else if xorb (IsIndexTermValueUndefined left) (IsIndexTermValueUndefined right)
    then Ok (b2z_diff (IsIndexTermValueUndefined right) (IsIndexTermValueUndefined left), valid)
    else if xorb (IsIndexTermMaybeUndefined left) (IsIndexTermMaybeUndefined right)
    then Ok (b2z_diff (IsIndexTermMaybeUndefined right) (IsIndexTermMaybeUndefined left), valid)
    else if xorb (IsIndexTermTruncated left) (IsIndexTermTruncated right)
    then Ok (b2z_diff (IsIndexTermTruncated left) (IsIndexTermTruncated right), valid)
    else Ok (0, valid).

Definition CompareBsonIndexTermCore (left right : BsonIndexTerm) (valid : bool)
  (collation : option bytes) (isMetadataSame isBtreeCompareFunction : bool)
  : result (Z * bool) :=
  let isLeftDescending := IsIndexTermValueDescending left in
  let compare :=
    let! (compare, valid) :=
      CompareIndexTermPathAndValue left right valid collation isMetadataSame in
    Ok (if isLeftDescending then - compare else compare, valid) in
  if negb isMetadataSame then
    if xorb (IsIndexTermMetadata left) (IsIndexTermMetadata right)
    then Ok (b2z_diff (IsIndexTermMetadata right) (IsIndexTermMetadata left), valid)
    else if xorb isLeftDescending (IsIndexTermValueDescending right) then
      if IsRootTruncationTerm left || IsRootTruncationTerm right
      then Ok (b2z_diff (IsRootTruncationTerm right) (IsRootTruncationTerm left), valid)
      else if isBtreeCompareFunction && xorb (IsIndexTermTruncated left) (IsIndexTermTruncated right)
      then CompareIndexTermPathAndValue left right valid collation isMetadataSame
      else Err ERRCODE_DOCUMENTDB_INTERNALERROR
    else compare
  else compare.

Definition CompareBsonIndexTerm (left right : BsonIndexTerm) (collation : option bytes)
  : result (Z * bool) :=
  let isMetadataSame := termMetadata left =? termMetadata right in
  CompareBsonIndexTermCore left right true collation isMetadataSame false.

(** ** Comparison of serialized terms *)

Definition CompareBsonGinRegularTerms (leftBuffer rightBuffer : bytes) (collation : option bytes)
  (isMetadataSame valid isBtreeCompareFunction : bool) : result (Z * bool) :=
  let! leftTerm := InitializeBsonIndexTermFromBuffer leftBuffer in
  let! rightTerm := InitializeBsonIndexTermFromBuffer rightBuffer in
  CompareBsonIndexTermCore leftTerm rightTerm valid collation isMetadataSame
    isBtreeCompareFunction.

(** The loop of [CompareCompositeIndexTerms], given the comparison of two terms
    with the same metadata. *)
Fixpoint composite_loop (same : bytes -> bytes -> bool -> result (Z * bool))
  (collation : option bytes) (isBtreeCompareFunction : bool) (fuel : nat)
  (leftBuffer rightBuffer : bytes) (valid : bool) : result (Z * bool) :=
  match leftBuffer, rightBuffer with
  | _ :: _, _ :: _ =>
      match fuel with
      | O => Err ERRCODE_INTERNAL_ERROR
      | S fuel' =>
          let! (leftTermBuffer, leftRest) := of_read (next_term leftBuffer) in
          let! (rightTermBuffer, rightRest) := of_read (next_term rightBuffer) in
          let! (compareTerm, valid) :=
            if metadata_byte leftTermBuffer =? metadata_byte rightTermBuffer
            then same leftTermBuffer rightTermBuffer valid
            else
              let! leftTerm := InitializeBsonIndexTermFromBuffer leftTermBuffer in
              let! rightTerm := InitializeBsonIndexTermFromBuffer rightTermBuffer in
              CompareBsonIndexTermCore leftTerm rightTerm valid collation
                (termMetadata leftTerm =? termMetadata rightTerm) isBtreeCompareFunction in
          if negb (compareTerm =? 0) then Ok (compareTerm, valid)
          else composite_loop same collation isBtreeCompareFunction fuel' leftRest rightRest valid
      end
  | _, _ =>
      Ok (if blen rightBuffer <? blen leftBuffer then 1
          else if blen leftBuffer <? blen rightBuffer then -1 else 0, valid)
  end.

Definition CompareCompositeIndexTerms (same : bytes -> bytes -> bool -> result (Z * bool))
  (leftBuffer rightBuffer : bytes) (collation : option bytes)
  (valid isBtreeCompareFunction : bool) : result (Z * bool) :=
  composite_loop same collation isBtreeCompareFunction (length leftBuffer)
    (drop 1 leftBuffer) (drop 1 rightBuffer) valid.

(** The fuel bounds the nesting of composite terms. *)
Fixpoint CompareBsonGinIndexTermsSameMetadata (fuel : nat) (collation : option bytes)
  (isBtreeCompareFunction : bool) (leftBuffer rightBuffer : bytes) (valid : bool)
  : result (Z * bool) :=
  let minlength := Nat.min (length leftBuffer) (length rightBuffer) in
  let cmp := memcmp (take minlength leftBuffer) (take minlength rightBuffer) in
  let leftSize := blen leftBuffer in
  let rightSize := blen rightBuffer in
  if metadata_byte leftBuffer =? IndexTermComparableV1 then
    if negb (cmp =? 0) then Ok (cmp, true)
    else Ok (if leftSize <? rightSize then -1 else int32 (uint32 (leftSize - rightSize)), true)
  else if metadata_byte leftBuffer =? IndexTermDescendingComparableV1 then
    if negb (cmp =? 0) then Ok (- cmp, true)
    else Ok (if leftSize <? rightSize then 1 else - int32 (uint32 (leftSize - rightSize)), true)
  else if metadata_byte leftBuffer =? IndexTermComposite then
    match fuel with
    | O => Err ERRCODE_INTERNAL_ERROR
    | S fuel' =>
        CompareCompositeIndexTerms
          (CompareBsonGinIndexTermsSameMetadata fuel' collation isBtreeCompareFunction)
          leftBuffer rightBuffer collation true isBtreeCompareFunction
    end
  else
    CompareBsonGinRegularTerms leftBuffer rightBuffer collation true valid isBtreeCompareFunction.

Definition CompareBsonGinIndexTerms (leftBuffer rightBuffer : bytes) (collation : option bytes)
  (valid isBtreeCompareFunction : bool) : result (Z * bool) :=
  if metadata_byte leftBuffer =? metadata_byte rightBuffer
  then CompareBsonGinIndexTermsSameMetadata (length leftBuffer) collation isBtreeCompareFunction
         leftBuffer rightBuffer valid
  else if IsIndexTermMetadataComposite (metadata_byte leftBuffer) ||
          IsIndexTermMetadataComposite (metadata_byte rightBuffer)
  then Ok (if IsIndexTermMetadataComposite (metadata_byte leftBuffer) then 1 else -1, true)
  else CompareBsonGinRegularTerms leftBuffer rightBuffer collation false valid
         isBtreeCompareFunction.

Definition gin_bson_compare (left right : bytes) (collationString : option bytes) : result Z :=
  let! (compareTerm, _) := CompareBsonGinIndexTerms left right collationString false false in
  Ok compareTerm.

Definition CompareSerializedBsonIndexTerms (left right : bytes) (collation : option bytes)
  (valid : bool) : result (Z * bool) :=
  CompareBsonGinIndexTerms left right collation valid false.

Definition CompareBsonIndexTerms (left right : bytes) (isBtreeCompareFunction : bool) : result Z :=
  let prefixed b := metadata_byte b =? IndexTermMetadataCollationPrefixed in
  let! (leftCollation, leftBuffer, rightBuffer) :=
    if prefixed left || prefixed right then
      let! (leftCollation, leftBuffer) := of_read (ExtractCollationAndUpdateBuffer left) in
      let! (rightCollation, rightBuffer) := of_read (ExtractCollationAndUpdateBuffer right) in
      match leftCollation, rightCollation with
      | Some l, Some r =>
          if negb (strcmp l r =? 0) then Err ERRCODE_DOCUMENTDB_BADVALUE
          else Ok (leftCollation, leftBuffer, rightBuffer)
      | _, _ => Err ERRCODE_DOCUMENTDB_BADVALUE
      end
    else Ok (None, left, right) in
  let! (compareTerm, _) :=
    CompareBsonGinIndexTerms leftBuffer rightBuffer leftCollation false isBtreeCompareFunction in
  Ok compareTerm.

Definition bsonindexterm_compare_btree (left right : bytes) : result Z :=
  CompareBsonIndexTerms left right true.
Definition bsonindexterm_eq (left right : bytes) : result bool :=
  let! compareTerm := CompareBsonIndexTerms left right true in Ok (compareTerm =? 0).
Definition bsonindexterm_lt (left right : bytes) : result bool :=
  let! compareTerm := CompareBsonIndexTerms left right true in Ok (compareTerm <? 0).
Definition bsonindexterm_gt (left right : bytes) : result bool :=
  let! compareTerm := CompareBsonIndexTerms left right true in Ok (0 <? compareTerm).
Definition bsonindexterm_gte (left right : bytes) : result bool :=
  let! compareTerm := CompareBsonIndexTerms left right true in Ok (0 <=? compareTerm).
Definition bsonindexterm_lte (left right : bytes) : result bool :=
  let! compareTerm := CompareBsonIndexTerms left right true in Ok (compareTerm <=? 0).

End gin.

(** ** The parts of a composite term *)

(** The size limit of a PostgreSQL datum with a four-byte header. *)
Definition datum_sized (term : bytes) : Prop := blen term + VARHDRSZ < 2 ^ 30.

Lemma le_bytes_head n z : le_bytes (S n) z = z mod 256 :: le_bytes n (z / 256).
Proof. done. Qed.

Lemma next_term_part term rest :
  datum_sized term -> next_term (composite_part term ++ rest) = Done (term, rest).
Proof.
  unfold datum_sized, composite_part, VARHDRSZ, VARHDRSZ_SHORT, VARATT_SHORT_MAX.
  intros Hs. pose proof (blen_nonneg term). destruct (Z.leb_spec (blen term + 1) 0x7F).
  - assert (Z.lor (Z.shiftl (blen term + 1) 1) 1 = (blen term + 1) * 2 + 1) as ->.
    { rewrite Z.shiftl_mul_pow2 by lia. by apply (lor_disjoint _ 1 1). }
    cbn [app]. unfold next_term, VARATT_IS_1B.
    change (Z.land _ 1) with (Z.land ((blen term + 1) * 2 + 1) (Z.ones 1)).
    rewrite Z.land_ones by lia. replace (((blen term + 1) * 2 + 1) mod 2 ^ 1) with 1
      by (change (2 ^ 1) with 2; rewrite Z.add_comm, Z_mod_plus_full; done).
    rewrite Z.eqb_refl, Z.shiftr_div_pow2 by lia.
    replace (((blen term + 1) * 2 + 1) / 2 ^ 1) with (blen term + 1)
      by (change (2 ^ 1) with 2; rewrite Z.div_add_l by lia; change (1 / 2) with 0; lia).
    change 0x7F with (Z.ones 7). rewrite Z.land_ones, Z.mod_small by lia.
    change (_ :: term ++ rest) with ([(blen term + 1) * 2 + 1] ++ term ++ rest).
    unfold VARHDRSZ_SHORT. rewrite read_n_app by done. cbn [read_bind]. apply read_n_app. lia.
  - rewrite Z.shiftl_mul_pow2 by lia. rewrite <- app_assoc. set (h := (blen term + 4) * 2 ^ 2).
    assert (0 <= h < 2 ^ 32) as Hh by lia.
    unfold next_term. rewrite le_bytes_head at 1. cbn [app].
    assert (VARATT_IS_1B (h mod 256) = false) as ->.
    { unfold VARATT_IS_1B. change 1 with (Z.ones 1) at 1. rewrite Z.land_ones by lia.
      apply Z.eqb_neq. rewrite Z.mod_mod_divide by by exists 128.
      replace h with ((blen term + 4) * 2 * 2 ^ 1) by lia. by rewrite Z_mod_mult. }
    change (h mod 256 :: le_bytes 3 (h / 256) ++ term ++ rest) with (le_bytes 4 h ++ term ++ rest).
    rewrite read_u32_app by done. cbn [read_bind].
    rewrite Z.shiftr_div_pow2 by lia. unfold h. rewrite Z_div_mult by lia.
    change 0x3FFFFFFF with (Z.ones 30). rewrite Z.land_ones, Z.mod_small by lia.
    unfold VARHDRSZ. rewrite read_n_app by (by rewrite blen_le_bytes).
    cbn [read_bind]. apply read_n_app. lia.
Qed.

Lemma composite_part_cons term : exists h body, composite_part term = h :: body.
Proof. unfold composite_part. destruct (_ <=? _); [by eexists _, _|]. rewrite le_bytes_head. by eexists _, _. Qed.

Lemma split_loop_parts terms fuel index :
  Forall datum_sized terms -> (length terms <= fuel)%nat ->
  0 <= index -> index + Z.of_nat (length terms) <= INDEX_MAX_KEYS ->
  split_loop fuel (flat_map composite_part terms) index = Ok terms.
Proof.
  intros Hs. revert fuel index. induction Hs as [|term terms Ht Hs IH]; intros fuel index Hf Hi Hm.
  { by destruct fuel. }
  destruct fuel as [|fuel]; simpl in Hf, Hm; [lia|]. cbn [flat_map].
  destruct (composite_part_cons term) as (h & body & E).
  assert (split_loop (S fuel) (composite_part term ++ flat_map composite_part terms) index =
    if INDEX_MAX_KEYS <=? index then Err ERRCODE_DOCUMENTDB_INTERNALERROR
    else let! (tm, rest) := of_read (next_term (composite_part term ++ flat_map composite_part terms)) in
         let! tms := split_loop fuel rest (index + 1) in Ok (tm :: tms)) as ->
    by by rewrite E.
  rewrite (proj2 (Z.leb_gt _ _)), next_term_part by (done || lia). cbn [of_read result_bind].
  by rewrite IH by lia.
Qed.

Lemma parts_length terms : (length terms <= length (flat_map composite_part terms))%nat.
Proof.
  induction terms as [|term terms IH]; simpl; [lia|]. rewrite length_app.
  destruct (composite_part_cons term) as (h & body & ->). simpl. lia.
Qed.

(** A composite term splits back into the terms it was built from: for up to
    32 terms (PostgreSQL's limit of columns of an index), each small enough for
    a datum, reading the parts of the serialized term, with one-byte and
    four-byte headers mixed as the sizes demand, gives the terms in order.  A
    single term is stored as it is and read as it is unless it is itself marked
    composite. *)
Theorem composite_term_roundtrip (terms : list bytes) :
  Forall datum_sized terms -> Z.of_nat (length terms) <= INDEX_MAX_KEYS ->
  (forall term, terms = [term] -> IsSerializedIndexTermComposite term = false) ->
  LazyInitializeSerializedCompositeIndexTerm (SerializeCompositeBsonIndexTerm terms) = Ok terms.
Proof.
  intros Hs Hl H1. unfold LazyInitializeSerializedCompositeIndexTerm.
  destruct terms as [|t1 [|t2 terms]]; [done| |].
  - cbn [SerializeCompositeBsonIndexTerm]. by rewrite H1.
  - set (ts := t1 :: t2 :: terms) in *. change (SerializeCompositeBsonIndexTerm ts) with
      (IndexTermComposite :: flat_map composite_part ts).
    cbn [IsSerializedIndexTermComposite metadata_byte drop].
    change (negb (IsSerializedIndexTermComposite _)) with false. cbv iota.
    rewrite drop_0. apply split_loop_parts; [done| |lia|lia].
    pose proof (parts_length ts). cbn [length]. lia.
Qed.

Lemma composite_term_roundtrip_witness :
  LazyInitializeSerializedCompositeIndexTerm
    (SerializeCompositeBsonIndexTerm [[0; 1]; repeat 7 200; [4]]) = Ok [[0; 1]; repeat 7 200; [4]].
Proof.
  apply composite_term_roundtrip; [|done|done].
  repeat constructor.
Defined.

(** Changing the direction of a term twice gives the term back, and one
    change flips whether the term is descending; the content is untouched. *)
Theorem reversed_term_involution (m : Z) (content : bytes) :
  0 <= m < 256 ->
  FormReversedIndexTerm (FormReversedIndexTerm (m :: content)) = m :: content /\
  IsSerializedTermValueDescending (FormReversedIndexTerm (m :: content)) =
    negb (IsSerializedTermValueDescending (m :: content)) /\
  drop 1 (FormReversedIndexTerm (m :: content)) = content.
Proof.
  intros Hm. unfold FormReversedIndexTerm, IsSerializedTermValueDescending, metadata_byte,
    IndexTermDescending.
  destruct (Z.leb_spec 0x80 m).
  - rewrite wrap_u_small by lia. rewrite (proj2 (Z.leb_gt _ _)) by lia.
    rewrite wrap_u_small by lia. split_and!; [f_equal; lia|done|done].
  - rewrite wrap_u_small by lia. rewrite (proj2 (Z.leb_le _ _)) by lia.
    rewrite wrap_u_small by lia. split_and!; [f_equal; lia|done|done].
Qed.

Lemma reversed_term_involution_witness :
  FormReversedIndexTerm (FormReversedIndexTerm (IndexTermComparableV1 :: [7])) = IndexTermComparableV1 :: [7] /\
  IsSerializedTermValueDescending (FormReversedIndexTerm (IndexTermComparableV1 :: [7])) =
    negb (IsSerializedTermValueDescending (IndexTermComparableV1 :: [7])) /\
  drop 1 (FormReversedIndexTerm (IndexTermComparableV1 :: [7])) = [7].
Proof. apply reversed_term_involution. unfold IndexTermComparableV1. lia. Defined.

(** ** The order of decoded terms *)

Section order.
Context {L : BidLib} {BL : BidLaws L} {I : Icu} {IL : IcuLaws I}.

(** A missing value, a partially missing one, a plain one, a truncated one. *)
Definition flag_rank (t : BsonIndexTerm) : Z :=
  if IsIndexTermValueUndefined t then 0
  else if IsIndexTermMaybeUndefined t then 1
  else if IsIndexTermTruncated t then 3 else 2.

Definition path_value_order (n : nat) (coll : option bytes)
  : BsonIndexTerm -> BsonIndexTerm -> comparison :=
  cmp_lex (cmp_on path bytes_cmp)
    (cmp_lex (cmp_on bsonValue (bson_order n coll)) (cmp_on flag_rank Z.compare)).

(** The terms of an index of one direction: the metadata terms first, the
    others by path, value and kind, reversed in a descending index. *)
Definition term_order (descending : bool) (n : nat) (coll : option bytes)
  : BsonIndexTerm -> BsonIndexTerm -> comparison :=
  cmp_sum IsIndexTermMetadata (path_value_order n coll)
    (if descending then cmp_opp (path_value_order n coll) else path_value_order n coll).

#[export] Instance path_value_order_total n coll : TotalCmp (path_value_order n coll).
Proof. unfold path_value_order. apply _. Qed.

#[export] Instance term_order_total descending n coll : TotalCmp (term_order descending n coll).
Proof. unfold term_order. destruct descending; apply _. Qed.

(** A term of an index with the given direction. *)
Definition wf_term (descending : bool) (t : BsonIndexTerm) : bool :=
  cstrb (path t) && wf_value (bsonValue t) &&
  (IsIndexTermMetadata t || Bool.eqb (IsIndexTermValueDescending t) descending).

Lemma wf_term_path d t : wf_term d t = true -> cstrb (path t) = true.
Proof. unfold wf_term. rewrite !andb_true_iff. tauto. Qed.

Lemma wf_term_value d t : wf_term d t = true -> wf_value (bsonValue t) = true.
Proof. unfold wf_term. rewrite !andb_true_iff. tauto. Qed.

Lemma compare_paths l r :
  cstrb (path l) = true -> cstrb (path r) = true ->
  sgn_cmp (CompareStringView (term_view l) (term_view r)) = bytes_cmp (path l) (path r).
Proof.
  assert (forall t, cstrb (path t) = true ->
    wf_view (term_view t) = true /\ sv_view (term_view t) = path t) as H.
  { intros t Ht%cstrb_len. unfold lenb in Ht. unfold wf_view, sv_view, term_view, sv_bytes. simpl.
    pose proof (blen_nonneg (path t)). split.
    - rewrite !andb_true_iff, !Z.leb_le. lia.
    - unfold blen. rewrite Nat2Z.id. by apply take_ge. }
  intros Hl Hr. destruct (H l Hl) as [Wl El], (H r Hr) as [Wr Er].
  rewrite compare_string_view_spec; [by rewrite El, Er|done|done|].
  rewrite El. by apply cstrb_nul_free.
Qed.

(** The kinds are exclusive. *)
Lemma flag_tests t :
  IsIndexTermValueUndefined t = (flag_rank t =? 0) /\
  IsIndexTermMaybeUndefined t = (flag_rank t =? 1) /\
  IsIndexTermTruncated t = (flag_rank t =? 3).
Proof.
  unfold flag_rank, IsIndexTermValueUndefined, IsIndexTermMaybeUndefined, IsIndexTermTruncated,
    IsIndexTermMetadataValueUndefined, IsIndexTermMetadataValueMaybeUndefined,
    IsIndexTermMetadataTruncated, IndexTermUndefinedValue, IndexTermDescendingUndefinedValue,
    IndexTermPartialUndefinedValue, IndexTermDescendingPartialUndefinedValue,
    IndexTermTruncated, IndexTermDescendingTruncated, IndexTermValueOnlyTruncated,
    IndexTermValueOnlyDescendingTruncated.
  destruct t as [m k v]. cbn [termMetadata].
  by_constants m ltac:(split_and!; reflexivity). done.
Qed.

Lemma flag_rank_values t :
  flag_rank t = 0 \/ flag_rank t = 1 \/ flag_rank t = 2 \/ flag_rank t = 3.
Proof. unfold flag_rank. repeat case_match; auto. Qed.

Lemma compare_path_and_value n coll l r valid same :
  (depth (bsonValue l) <= n)%nat ->
  cstrb (path l) = true -> cstrb (path r) = true ->
  wf_value (bsonValue l) = true -> wf_value (bsonValue r) = true ->
  (same = true -> flag_rank l = flag_rank r) ->
  exists z b, CompareIndexTermPathAndValue l r valid coll same = Ok (z, b) /\
              sgn_cmp z = path_value_order n coll l r.
Proof.
  intros Hn Pl Pr Wl Wr Hs. unfold CompareIndexTermPathAndValue.
  pose proof (compare_paths l r Pl Pr) as Hp.
  unfold path_value_order, cmp_lex, cmp_on. rewrite sgn_eqb_0, Hp.
  destruct (bytes_cmp (path l) (path r)) eqn:Ep; simpl; [|by eexists _, _; rewrite Hp..].
  destruct (compare_and_type_refines n coll _ _ Hn Wl Wr) as (z & -> & Sz). cbn [result_bind].
  rewrite sgn_eqb_0, Sz. destruct (bson_order n coll _ _) eqn:Eo; simpl; [|by eexists _, _..].
  destruct same.
  { eexists _, _. split; [done|]. rewrite Sz, Hs by done. by rewrite Z.compare_refl. }
  destruct (flag_tests l) as (-> & -> & ->), (flag_tests r) as (-> & -> & ->).
  destruct (flag_rank_values l) as [-> |[-> |[-> | ->]]],
    (flag_rank_values r) as [-> |[-> |[-> | ->]]]; by eexists _, _.
Qed.

(** The core comparison on terms of one index; [same] may only be set when the
    metadata are the same. *)
Lemma compare_core_refines d n coll l r valid same btree :
  (depth (bsonValue l) <= n)%nat -> wf_term d l = true -> wf_term d r = true ->
  (same = true -> termMetadata l = termMetadata r) ->
  exists z b, CompareBsonIndexTermCore l r valid coll same btree = Ok (z, b) /\
              sgn_cmp z = term_order d n coll l r.
Proof.
  intros Hn Wl Wr Hs.
  assert (same = true -> flag_rank l = flag_rank r) as Hf.
  { intros E. specialize (Hs E). unfold flag_rank, IsIndexTermValueUndefined,
      IsIndexTermMaybeUndefined, IsIndexTermTruncated. by rewrite Hs. }
  destruct (compare_path_and_value n coll l r valid same) as (z & b & E & Sz);
    [eauto using wf_term_path, wf_term_value..|].
  unfold CompareBsonIndexTermCore, term_order, cmp_sum. rewrite E. cbn [result_bind].
  unfold wf_term in Wl, Wr. rewrite !andb_true_iff in Wl, Wr.
  destruct Wl as [_ Wl], Wr as [_ Wr].
  assert (IsIndexTermMetadata l = true -> IsIndexTermValueDescending l = false) as Hm.
  { unfold IsIndexTermMetadata, IsIndexTermValueDescending. by intros ->%Z.eqb_eq. }
  assert (same = true -> IsIndexTermMetadata l = IsIndexTermMetadata r) as Hsm.
  { intros Es. unfold IsIndexTermMetadata. by rewrite (Hs Es). }
  assert (IsIndexTermMetadata r = true -> IsIndexTermValueDescending r = false) as Hmr.
  { unfold IsIndexTermMetadata, IsIndexTermValueDescending. by intros ->%Z.eqb_eq. }
  destruct (IsIndexTermMetadata l) eqn:Ml, (IsIndexTermMetadata r) eqn:Mr; simpl in Wl, Wr.
  - rewrite Hm, Hmr by done. destruct same; simpl; eauto.
  - destruct same; [by discriminate Hsm|]. simpl. by eexists _, _.
  - destruct same; [by discriminate Hsm|]. simpl. by eexists _, _.
  - apply eqb_prop in Wl, Wr. rewrite Wl, Wr.
    destruct same, d; simpl; eexists _, _; (split; [reflexivity|]);
      unfold cmp_opp; rewrite ?sgn_cmp_opp, Sz; reflexivity.
Qed.

(** ** Serialized terms *)

Section serialized.
Context (init : bytes -> option bson_doc) {R : DocumentReader init}.

(** The buffer [buf] is a serialized form of the term [t] in an index with the
    collation [coll]: the document form, the value-only form or the comparable
    form. *)
Inductive represents (coll : option bytes) : bytes -> BsonIndexTerm -> Prop :=
| rep_document m key v :
    IsIndexTermMetadataValueOnly m = false -> m <> IndexTermComparableV1 ->
    m <> IndexTermDescendingComparableV1 -> m <> IndexTermComposite ->
    m <> IndexTermMetadataCollationPrefixed ->
    storable v = true -> cstrb key = true -> wf_value v = true ->
    blen (doc_bytes [(key, v)]) < 2 ^ 31 ->
    represents coll (m :: doc_bytes [(key, v)]) (mk_term m key v)
| rep_value_only m v :
    IsIndexTermMetadataValueOnly m = true ->
    storable v = true -> wf_value v = true ->
    blen (doc_bytes [([], v)]) < 2 ^ 31 ->
    represents coll (m :: bson_type_code (value_type v) :: 0 :: value_bytes v) (mk_term m [36] v)
| rep_comparable m v buf :
    wf_value v = true -> consistent m v = true -> v <> V_Double TWO_63 ->
    WriteComparableIndexTermToWriter coll v m = Ok (Some buf) -> blen buf < 2 ^ 31 ->
    represents coll buf (mk_term m [36] v).

Lemma resolve_raw v :
  wf_value v = true -> storable v = true -> blen (value_bytes v) < 2 ^ 31 ->
  resolve init (raw_of v) = Ok v.
Proof.
  intros W Hs Hb.
  assert (resolve_with init (raw_of v) = Some v) as E.
  { apply resolve_inverts; [|done|done]. intros fs Wf Hf Hl. apply reader_inverts; [done|done|lia]. }
  revert E. destruct v; try reflexivity; cbn [raw_of resolve resolve_with];
    destruct (init _) as [fs'|]; cbn [mbind option_bind]; try discriminate; by intros [= ->].
Qed.

Lemma value_bytes_in_doc key v : blen (value_bytes v) <= blen (doc_bytes [(key, v)]).
Proof.
  rewrite blen_doc. cbn [flat_map]. rewrite app_nil_r. unfold element_bytes. cbn [fst snd].
  blen_lia.
Qed.

(** Two terms that the order does not distinguish. *)
Definition term_equiv (coll : option bytes) (t u : BsonIndexTerm) : Prop :=
  path u = path t /\ (forall n, bson_order (S n) coll (bsonValue t) (bsonValue u) = Eq) /\
  flag_rank u = flag_rank t /\ IsIndexTermMetadata u = IsIndexTermMetadata t.

Lemma term_equiv_order d n coll t u :
  term_equiv coll t u -> term_order d (S n) coll t u = Eq.
Proof.
  intros (Hp & Hv & Hf & Hm). unfold term_order, cmp_sum. rewrite Hm.
  assert (path_value_order (S n) coll t u = Eq) as E.
  { unfold path_value_order, cmp_lex, cmp_on.
    by rewrite Hp, (cmp_refl bytes_cmp), Hv, Hf, Z.compare_refl. }
  destruct (IsIndexTermMetadata t); [done|]. destruct d; unfold cmp_opp; by rewrite E.
Qed.

Lemma undefined_rank_flag m key v :
  IsIndexTermMetadataTruncated m = false -> flag_rank (mk_term m key v) = undefined_rank m.
Proof.
  intros H. unfold flag_rank, undefined_rank, IsIndexTermValueUndefined, IsIndexTermMaybeUndefined,
    IsIndexTermTruncated, IsIndexTermMetadataValueUndefined, IsIndexTermMetadataValueMaybeUndefined.
  cbn [termMetadata]. by rewrite H.
Qed.

(** The metadata of comparable terms before and after reading. *)
Lemma comparable_metadata_cases m wm :
  comparable_metadata m = Some wm ->
  IsIndexTermMetadataTruncated m = false /\ (m =? IndexTermIsMetadata) = false /\
  m <> IndexTermComposite /\
  (wm = IndexTermComparableV1 /\ (IndexTermDescending <=? m) = false \/
   wm = IndexTermDescendingComparableV1 /\ (IndexTermDescending <=? m) = true).
Proof.
  unfold comparable_metadata, IndexTermValueOnly, IndexTermUndefinedValue,
    IndexTermPartialUndefinedValue, IndexTermDescendingPartialUndefinedValue,
    IndexTermValueOnlyDescending, IndexTermDescendingUndefinedValue.
  repeat match goal with
  | |- context [m =? ?k] =>
      lazymatch k with
      | IndexTermIsMetadata => fail
      | _ => destruct (Z.eqb_spec m k) as [->|?]; [intros [= <-]; split_and!; auto; discriminate|cbn [orb]]
      end
  end.
  done.
Qed.

Lemma term_equiv_refl coll t : term_equiv coll t t.
Proof. split_and!; try done. intros. apply (cmp_refl _). Qed.

(** What reading the buffer of a term of an index delivers. *)
Definition initializes (coll : option bytes) (d : bool) (buf : bytes) (t : BsonIndexTerm) : Prop :=
  exists u, InitializeBsonIndexTermFromBuffer init buf = Ok u /\ wf_term d u = true /\
            term_equiv coll t u /\ (depth (bsonValue u) <= depth (bsonValue t))%nat /\
            (metadata_byte buf <> IndexTermComparableV1 ->
             metadata_byte buf <> IndexTermDescendingComparableV1 ->
             termMetadata u = metadata_byte buf).

Lemma initialize_document coll d m key v :
  IsIndexTermMetadataValueOnly m = false -> m <> IndexTermComparableV1 ->
  m <> IndexTermDescendingComparableV1 -> storable v = true -> cstrb key = true ->
  wf_value v = true -> blen (doc_bytes [(key, v)]) < 2 ^ 31 ->
  wf_term d (mk_term m key v) = true ->
  initializes coll d (m :: doc_bytes [(key, v)]) (mk_term m key v).
Proof.
  intros Hvo Hc Hdc Hv Hk Hw Hsize Ht. exists (mk_term m key v).
  split_and!; [|done|apply term_equiv_refl|done|done].
  unfold InitializeBsonIndexTermFromBuffer. unfold IsIndexTermMetadataValueOnly in Hvo.
  rewrite Hvo. apply Z.eqb_neq in Hc, Hdc. rewrite Hc, Hdc. cbn [orb].
  destruct (element_read key v Hw (storable_type v Hv) Hk Hsize) as [-> _]. cbn [result_bind].
  pose proof (value_bytes_in_doc key v). rewrite resolve_raw by (done || lia). done.
Qed.

Lemma initialize_value_only coll d m v :
  IsIndexTermMetadataValueOnly m = true -> storable v = true ->
  wf_value v = true -> blen (doc_bytes [([], v)]) < 2 ^ 31 ->
  wf_term d (mk_term m [36] v) = true ->
  initializes coll d (m :: bson_type_code (value_type v) :: 0 :: value_bytes v) (mk_term m [36] v).
Proof.
  intros Hvo Hv Hw Hsize Ht. exists (mk_term m [36] v).
  split_and!; [|done|apply term_equiv_refl|done|done].
  unfold InitializeBsonIndexTermFromBuffer. unfold IsIndexTermMetadataValueOnly in Hvo.
  rewrite Hvo. destruct (element_read [] v Hw (storable_type v Hv) eq_refl Hsize) as [_ ->]. cbn [result_bind].
  pose proof (value_bytes_in_doc [] v). rewrite resolve_raw by (done || lia). done.
Qed.

Lemma comparable_byte_reader wm body :
  wm = IndexTermComparableV1 \/ wm = IndexTermDescendingComparableV1 ->
  InitializeBsonIndexTermFromBuffer init (wm :: body) = ComparableBufferToBsonIndexTerm body wm.
Proof. by intros [-> | ->]. Qed.

Lemma depth_pos v : (1 <= depth v)%nat.
Proof. destruct v; simpl; lia. Qed.

Lemma comparable_depth body wm t :
  ComparableBufferToBsonIndexTerm body wm = Ok t -> depth (bsonValue t) = 1%nat.
Proof.
  unfold ComparableBufferToBsonIndexTerm, value_of_double. destruct body as [|c p]; [done|].
  intros H. repeat (case_match; try discriminate H); injection H as <-; reflexivity.
Qed.

Lemma initialize_comparable coll d m v buf :
  wf_value v = true -> consistent m v = true -> v <> V_Double TWO_63 ->
  WriteComparableIndexTermToWriter coll v m = Ok (Some buf) ->
  wf_term d (mk_term m [36] v) = true ->
  initializes coll d buf (mk_term m [36] v).
Proof.
  intros Hw Hc Hne Hwr Ht.
  destruct (written_body coll v m buf Hwr) as (wm' & body' & Hm & _ & E').
  destruct (comparable_reads coll v m buf Hw Hc Hne Hwr) as (wm & body & t & -> & Hr & Hb).
  injection E' as <- <-. destruct Hb as (Hp & Hw' & Ho & Hrank & Hcm).
  destruct t as [mt pt vt]. cbn [path bsonValue termMetadata] in *. subst pt.
  rewrite Hm in Hcm.
  destruct (comparable_metadata_cases m wm Hm) as (T1 & M1 & _ & D1).
  destruct (comparable_metadata_cases mt wm Hcm) as (T2 & M2 & _ & D2).
  exists (mk_term mt [36] vt). split_and!.
  - rewrite comparable_byte_reader; [done|]. destruct D1 as [[? _]|[? _]]; auto.
  - unfold wf_term, IsIndexTermMetadata, IsIndexTermValueDescending in *.
    cbn [path bsonValue termMetadata] in *. rewrite M1, !andb_true_iff in Ht. rewrite M2, Hw'.
    destruct Ht as [_ Ht]. simpl in Ht |- *. rewrite <- Ht. f_equal.
    destruct D1 as [[-> ->]|[-> ->]], D2 as [[? ->]|[? ->]]; done.
  - split_and!; [done|done| |].
    + by rewrite !undefined_rank_flag.
    + unfold IsIndexTermMetadata. cbn [termMetadata]. by rewrite M1, M2.
  - apply comparable_depth in Hr. cbn [bsonValue] in *. rewrite Hr. apply depth_pos.
  - cbn [metadata_byte]. destruct D1 as [[-> _]|[-> _]]; done.
Qed.

Lemma initialize_represents coll d buf t :
  represents coll buf t -> wf_term d t = true -> initializes coll d buf t.
Proof.
  intros [] Ht; [by apply initialize_document|by apply initialize_value_only
    |by eapply initialize_comparable].
Qed.

Lemma wf_represents coll buf t :
  represents coll buf t -> metadata_byte buf <> IndexTermComposite.
Proof.
  intros [m key v|m v Hv|m v b Hw Hc Hne Hwr Hsz]; [done| |].
  - simpl. intros ->. discriminate Hv.
  - destruct (written_body coll v m b Hwr) as (wm & body & Hm & _ & ->).
    destruct (comparable_metadata_cases m wm Hm) as (_ & _ & _ & [[-> _]|[-> _]]); done.
Qed.

(** ** The comparison of serialized terms *)

Lemma memcmp_shortcut l r :
  blen l < 2 ^ 31 -> blen r < 2 ^ 31 ->
  sgn_cmp (let cmp := memcmp (take (Nat.min (length l) (length r)) l)
                             (take (Nat.min (length l) (length r)) r) in
           if negb (cmp =? 0) then cmp
           else if blen l <? blen r then -1 else int32 (uint32 (blen l - blen r))) =
  bytes_cmp l r.
Proof.
  intros Hl Hr. pose proof (blen_nonneg l). pose proof (blen_nonneg r).
  rewrite memcmp_take by lia. rewrite int32_uint32 by lia.
  rewrite <- memcmp_then_length. cbv zeta. destruct (memcmp l r =? 0); simpl; [|done].
  destruct (Z.ltb_spec (blen l) (blen r)); [|done].
  rewrite sgn_cmp_sub. symmetry. by apply Z.compare_lt_iff.
Qed.

Lemma same_metadata_comparable fuel coll btree l r valid :
  blen l < 2 ^ 31 -> blen r < 2 ^ 31 ->
  (metadata_byte l = IndexTermComparableV1 ->
   exists z b, CompareBsonGinIndexTermsSameMetadata init fuel coll btree l r valid = Ok (z, b) /\
               sgn_cmp z = bytes_cmp l r) /\
  (metadata_byte l = IndexTermDescendingComparableV1 ->
   exists z b, CompareBsonGinIndexTermsSameMetadata init fuel coll btree l r valid = Ok (z, b) /\
               sgn_cmp z = CompOpp (bytes_cmp l r)).
Proof.
  intros Hl Hr. pose proof (memcmp_shortcut l r Hl Hr) as E. cbv zeta in E.
  split; intros Hm; destruct fuel; unfold CompareBsonGinIndexTermsSameMetadata; rewrite Hm; simpl;
    rewrite <- E; destruct (_ =? 0); simpl; eexists _, _; (split; [reflexivity|]); try done;
    rewrite <- sgn_cmp_opp; try done; by destruct (_ <? _).
Qed.

Lemma comparable_pair_order d n coll m m' v v' b b' :
  wf_value v = true -> wf_value v' = true -> consistent m v = true -> consistent m' v' = true ->
  WriteComparableIndexTermToWriter coll v m = Ok (Some b) ->
  WriteComparableIndexTermToWriter coll v' m' = Ok (Some b') ->
  wf_term d (mk_term m [36] v) = true -> wf_term d (mk_term m' [36] v') = true ->
  term_order d (S n) coll (mk_term m [36] v) (mk_term m' [36] v') =
  if d then CompOpp (bytes_cmp b b') else bytes_cmp b b'.
Proof.
  intros Wv Wv' Cv Cv' Hw Hw' Ht Ht'.
  destruct (written_body coll v m b Hw) as (wm & body & Hm & Hb & ->).
  destruct (written_body coll v' m' b' Hw') as (wm' & body' & Hm' & Hb' & ->).
  destruct (comparable_metadata_cases m wm Hm) as (T1 & M1 & _ & D1).
  destruct (comparable_metadata_cases m' wm' Hm') as (T2 & M2 & _ & D2).
  assert (wm = wm') as <-.
  { unfold wf_term, IsIndexTermMetadata, IsIndexTermValueDescending in Ht, Ht'.
    cbn [termMetadata] in Ht, Ht'. rewrite M1 in Ht. rewrite M2 in Ht'.
    rewrite !andb_true_iff in Ht, Ht'. destruct Ht as [_ Ht%eqb_prop], Ht' as [_ Ht'%eqb_prop].
    destruct D1 as [[-> D1]|[-> D1]], D2 as [[-> D2]|[-> D2]]; congruence. }
  rewrite bytes_cmp_head, (body_order n coll v v' m m' body body') by done.
  unfold term_order, cmp_sum, IsIndexTermMetadata. cbn [termMetadata]. rewrite M1, M2.
  assert (path_value_order (S n) coll (mk_term m [36] v) (mk_term m' [36] v') =
          match bson_order (S n) coll v v' with
          | Eq => undefined_rank m ?= undefined_rank m' | Lt => Lt | Gt => Gt end) as E.
  { unfold path_value_order, cmp_lex, cmp_on. cbn [path bsonValue].
    rewrite (cmp_refl bytes_cmp), !undefined_rank_flag by done. done. }
  destruct d; unfold cmp_opp; by rewrite E.
Qed.

(** Comparison of the decoded terms. *)
Lemma initialized_order d n coll b1 b2 t1 t2 :
  initializes coll d b1 t1 -> initializes coll d b2 t2 -> (depth (bsonValue t1) <= S n)%nat ->
  exists u1 u2,
    InitializeBsonIndexTermFromBuffer init b1 = Ok u1 /\
    InitializeBsonIndexTermFromBuffer init b2 = Ok u2 /\
    (metadata_byte b1 = metadata_byte b2 -> metadata_byte b1 <> IndexTermComparableV1 ->
     metadata_byte b1 <> IndexTermDescendingComparableV1 -> termMetadata u1 = termMetadata u2) /\
    forall valid same btree, (same = true -> termMetadata u1 = termMetadata u2) ->
      exists z b, CompareBsonIndexTermCore u1 u2 valid coll same btree = Ok (z, b) /\
                  sgn_cmp z = term_order d (S n) coll t1 t2.
Proof.
  intros (u1 & I1 & W1 & E1 & D1 & M1) (u2 & I2 & W2 & E2 & _ & M2) Hn.
  exists u1, u2. split_and!; [done|done| |].
  { intros E Hc Hd. rewrite M1, M2 by congruence. done. }
  intros valid same btree Hs.
  destruct (compare_core_refines d (S n) coll u1 u2 valid same btree) as (z & b & -> & Sz);
    [lia|done|done|done|].
  exists z, b. split; [done|]. rewrite Sz.
  rewrite (cmp_eq_l (term_order d (S n) coll) t1 u1 t2) by by apply term_equiv_order.
  symmetry. apply cmp_eq_r; [apply _|]. by apply term_equiv_order.
Qed.

(** A buffer that starts as a comparable term is one. *)
Lemma comparable_inversion coll buf t :
  represents coll buf t ->
  metadata_byte buf = IndexTermComparableV1 \/ metadata_byte buf = IndexTermDescendingComparableV1 ->
  exists m v, t = mk_term m [36] v /\ wf_value v = true /\ consistent m v = true /\
    WriteComparableIndexTermToWriter coll v m = Ok (Some buf) /\ blen buf < 2 ^ 31.
Proof.
  intros [m key v ? Ha Hd|m v Hv|m v b Hw Hc Hne Hwr Hsz] Hb; [| |by exists m, v].
  - exfalso. cbn [metadata_byte] in Hb. tauto.
  - exfalso. cbn [metadata_byte] in Hb. by destruct Hb as [-> | ->].
Qed.

Lemma comparable_direction coll d m v wm body :
  WriteComparableIndexTermToWriter coll v m = Ok (Some (wm :: body)) ->
  wf_term d (mk_term m [36] v) = true ->
  wm = if d then IndexTermDescendingComparableV1 else IndexTermComparableV1.
Proof.
  intros Hw Ht. destruct (written_body coll v m _ Hw) as (wm' & body' & Hm & _ & [= <- <-]).
  destruct (comparable_metadata_cases m wm Hm) as (_ & M & _ & D).
  unfold wf_term, IsIndexTermMetadata, IsIndexTermValueDescending in Ht.
  cbn [termMetadata] in Ht. rewrite M, !andb_true_iff in Ht. destruct Ht as [_ Ht%eqb_prop].
  destruct D as [[-> D]|[-> D]]; rewrite D in Ht; by subst d.
Qed.

(** Two buffers with the same metadata byte compare as the terms they represent. *)
Lemma same_metadata_order fuel d n coll b1 b2 t1 t2 valid btree :
  represents coll b1 t1 -> represents coll b2 t2 ->
  wf_term d t1 = true -> wf_term d t2 = true -> (depth (bsonValue t1) <= S n)%nat ->
  metadata_byte b1 = metadata_byte b2 ->
  exists z b,
    CompareBsonGinIndexTermsSameMetadata init fuel coll btree b1 b2 valid = Ok (z, b) /\
    sgn_cmp z = term_order d (S n) coll t1 t2.
Proof.
  intros R1 R2 W1 W2 Hn E. pose proof (wf_represents coll b1 t1 R1) as C1.
  destruct (decide (metadata_byte b1 = IndexTermComparableV1 \/
                    metadata_byte b1 = IndexTermDescendingComparableV1)) as [Hc|Hc].
  - destruct (comparable_inversion coll b1 t1 R1 Hc) as (m1 & v1 & -> & Wv1 & Cv1 & Hw1 & Hs1).
    rewrite E in Hc.
    destruct (comparable_inversion coll b2 t2 R2 Hc) as (m2 & v2 & -> & Wv2 & Cv2 & Hw2 & Hs2).
    rewrite (comparable_pair_order d n coll m1 m2 v1 v2 b1 b2) by done.
    destruct (same_metadata_comparable fuel coll btree b1 b2 valid Hs1 Hs2) as [Ha Hd].
    destruct b1 as [|wm body]; [by destruct (written_body coll v1 m1 _ Hw1) as (? & ? & _ & _ & ?)|].
    pose proof (comparable_direction coll d m1 v1 wm body Hw1 W1). cbn [metadata_byte] in Ha, Hd.
    destruct d; auto.
  - assert (metadata_byte b1 <> IndexTermComparableV1 /\
            metadata_byte b1 <> IndexTermDescendingComparableV1) as [Na Nd] by tauto.
    destruct (initialized_order d n coll b1 b2 t1 t2) as (u1 & u2 & I1 & I2 & Hm & Ho);
      [by apply initialize_represents..|done|].
    destruct (Ho valid true btree) as (z & b & Hz & Sz); [auto|].
    exists z, b. split; [|done]. apply Z.eqb_neq in Na, Nd, C1.
    destruct fuel; cbn [CompareBsonGinIndexTermsSameMetadata]; rewrite Na, Nd, C1;
      unfold CompareBsonGinRegularTerms; by rewrite I1, I2.
Qed.

(** The comparison of two buffers is the order of the terms they represent. *)
Lemma gin_compare_order d n coll b1 b2 t1 t2 valid btree :
  represents coll b1 t1 -> represents coll b2 t2 ->
  wf_term d t1 = true -> wf_term d t2 = true -> (depth (bsonValue t1) <= S n)%nat ->
  exists z b, CompareBsonGinIndexTerms init b1 b2 coll valid btree = Ok (z, b) /\
              sgn_cmp z = term_order d (S n) coll t1 t2.
Proof.
  intros R1 R2 W1 W2 Hn. unfold CompareBsonGinIndexTerms.
  destruct (Z.eqb_spec (metadata_byte b1) (metadata_byte b2)); [by apply same_metadata_order|].
  pose proof (wf_represents coll b1 t1 R1) as C1. pose proof (wf_represents coll b2 t2 R2) as C2.
  unfold IsIndexTermMetadataComposite. apply Z.eqb_neq in C1, C2. rewrite C1, C2. cbn [orb].
  destruct (initialized_order d n coll b1 b2 t1 t2) as (u1 & u2 & I1 & I2 & Hm & Ho);
    [by apply initialize_represents..|done|].
  unfold CompareBsonGinRegularTerms. rewrite I1, I2. cbn [result_bind]. by apply Ho.
Qed.

(** ** Composite terms *)

(** The buffer of a term in a column of direction [d], with values nested at most
    [S n] deep. *)
Definition column (coll : option bytes) (n : nat) (d : bool) (b : bytes) (t : BsonIndexTerm) : Prop :=
  represents coll b t /\ wf_term d t = true /\ (depth (bsonValue t) <= S n)%nat /\ datum_sized b.

(** The first column that distinguishes the rows decides, in its direction. *)
Fixpoint column_order (n : nat) (coll : option bytes) (ds : list bool)
  (ts us : list BsonIndexTerm) : comparison :=
  match ds, ts, us with
  | d :: ds', t :: ts', u :: us' =>
      match term_order d n coll t u with
      | Eq => column_order n coll ds' ts' us'
      | Lt => Lt
      | Gt => Gt
      end
  | _, _, _ => Eq
  end.

(** One round of the loop. *)
Lemma composite_loop_step same coll btree fuel p1 p2 r1 r2 valid :
  datum_sized p1 -> datum_sized p2 ->
  composite_loop init same coll btree (S fuel) (composite_part p1 ++ r1) (composite_part p2 ++ r2) valid =
  let! (compareTerm, valid) :=
    if metadata_byte p1 =? metadata_byte p2 then same p1 p2 valid
    else
      let! leftTerm := InitializeBsonIndexTermFromBuffer init p1 in
      let! rightTerm := InitializeBsonIndexTermFromBuffer init p2 in
      CompareBsonIndexTermCore leftTerm rightTerm valid coll
        (termMetadata leftTerm =? termMetadata rightTerm) btree in
  if negb (compareTerm =? 0) then Ok (compareTerm, valid)
  else composite_loop init same coll btree fuel r1 r2 valid.
Proof.
  intros H1 H2. pose proof (next_term_part p1 r1 H1) as E1. pose proof (next_term_part p2 r2 H2) as E2.
  destruct (composite_part_cons p1) as (h1 & l1 & P1), (composite_part_cons p2) as (h2 & l2 & P2).
  rewrite P1, P2 in *. cbn [app] in *. cbn [composite_loop]. rewrite E1, E2. reflexivity.
Qed.

Lemma column_pair_order fuel d n coll p1 p2 t1 t2 valid btree :
  column coll n d p1 t1 -> column coll n d p2 t2 ->
  exists z b,
    (if metadata_byte p1 =? metadata_byte p2
     then CompareBsonGinIndexTermsSameMetadata init fuel coll btree p1 p2 valid
     else
       let! leftTerm := InitializeBsonIndexTermFromBuffer init p1 in
       let! rightTerm := InitializeBsonIndexTermFromBuffer init p2 in
       CompareBsonIndexTermCore leftTerm rightTerm valid coll
         (termMetadata leftTerm =? termMetadata rightTerm) btree) = Ok (z, b) /\
    sgn_cmp z = term_order d (S n) coll t1 t2.
Proof.
  intros (R1 & W1 & D1 & _) (R2 & W2 & _ & _).
  destruct (Z.eqb_spec (metadata_byte p1) (metadata_byte p2)); [by apply same_metadata_order|].
  destruct (initialized_order d n coll p1 p2 t1 t2) as (u1 & u2 & -> & -> & _ & Ho);
    [by apply initialize_represents..|done|].
  cbn [result_bind]. apply Ho. apply Z.eqb_eq.
Qed.

Lemma composite_loop_order fuel' n coll btree ds bs1 ts1 :
  Forall3 (column coll n) ds bs1 ts1 -> forall bs2 ts2 fuel valid,
  Forall3 (column coll n) ds bs2 ts2 -> (length bs1 <= fuel)%nat ->
  exists z b,
    composite_loop init (CompareBsonGinIndexTermsSameMetadata init fuel' coll btree) coll btree fuel
      (flat_map composite_part bs1) (flat_map composite_part bs2) valid = Ok (z, b) /\
    sgn_cmp z = column_order (S n) coll ds ts1 ts2.
Proof.
  induction 1 as [|d p1 t1 ds bs1 ts1 C1 _ IH]; intros bs2 ts2 fuel valid H2 Hf; inversion H2; subst.
  { exists 0, valid. by destruct fuel. }
  destruct fuel as [|fuel]; simpl in Hf; [lia|]. cbn [flat_map column_order].
  match goal with C : column _ _ _ ?p ?t |- context [term_order d _ _ t1 ?t] =>
    rename C into C2, p into p2, t into t2 end.
  rewrite composite_loop_step by (apply C1 || apply C2).
  destruct (column_pair_order fuel' d n coll p1 p2 t1 t2 valid btree C1 C2) as (z & b & -> & Sz).
  cbn [result_bind]. rewrite sgn_eqb_0, Sz.
  destruct (term_order d (S n) coll t1 t2); cbn [negb]; [|by eexists _, _..].
  apply IH; [done|lia].
Qed.

(** ** What the index relies on *)


(** The sign of the comparison of two buffers. *)
Definition gin_sign (coll : option bytes) (l r : bytes) : option comparison :=
  match gin_bson_compare init l r coll with Ok z => Some (sgn_cmp z) | Err _ => None end.

Lemma gin_sign_order d n coll b1 b2 t1 t2 :
  represents coll b1 t1 -> represents coll b2 t2 ->
  wf_term d t1 = true -> wf_term d t2 = true -> (depth (bsonValue t1) <= S n)%nat ->
  gin_sign coll b1 b2 = Some (term_order d (S n) coll t1 t2).
Proof.
  intros R1 R2 W1 W2 Hn.
  destruct (gin_compare_order d n coll b1 b2 t1 t2 false false) as (z & b & E & <-); [done..|].
  unfold gin_sign, gin_bson_compare. by rewrite E.
Qed.

(** The comparison function of the index is a total preorder on its terms,
    as the posting tree needs: for buffers that represent terms of one index,
    whatever their forms, it is reflexive, its sign is reversed when the
    arguments are swapped, and it is transitive. *)
Theorem gin_compare_total_preorder d coll b1 b2 b3 t1 t2 t3 :
  represents coll b1 t1 -> represents coll b2 t2 -> represents coll b3 t3 ->
  wf_term d t1 = true -> wf_term d t2 = true -> wf_term d t3 = true ->
  gin_sign coll b1 b1 = Some Eq /\
  gin_sign coll b2 b1 = option_map CompOpp (gin_sign coll b1 b2) /\
  (gin_sign coll b1 b2 = Some Eq -> gin_sign coll b1 b3 = gin_sign coll b2 b3) /\
  (gin_sign coll b1 b2 = Some Lt -> gin_sign coll b2 b3 = Some Lt -> gin_sign coll b1 b3 = Some Lt).
Proof.
  intros R1 R2 R3 W1 W2 W3.
  set (n := (depth (bsonValue t1) + depth (bsonValue t2) + depth (bsonValue t3))%nat).
  rewrite (gin_sign_order d n coll b1 b1 t1 t1), (gin_sign_order d n coll b1 b2 t1 t2),
    (gin_sign_order d n coll b2 b1 t2 t1), (gin_sign_order d n coll b1 b3 t1 t3),
    (gin_sign_order d n coll b2 b3 t2 t3) by (done || lia).
  split_and!.
  - by rewrite (cmp_refl (term_order d (S n) coll)).
  - simpl. by rewrite (cmp_antisym (term_order d (S n) coll) t1 t2).
  - intros [= E]. by rewrite (cmp_eq_l (term_order d (S n) coll) t1 t2 t3 E).
  - intros [= E1] [= E2]. by rewrite (cmp_lt_trans (term_order d (S n) coll) t1 t2 t3 E1 E2).
Qed.


Lemma represents_not_collated coll buf t :
  represents coll buf t -> metadata_byte buf <> IndexTermMetadataCollationPrefixed.
Proof.
  intros [m key v|m v Hv|m v b Hw Hc Hne Hwr Hsz]; [done| |].
  - simpl. intros ->. discriminate Hv.
  - destruct (written_body coll v m b Hwr) as (wm & body & Hm & _ & ->).
    destruct (comparable_metadata_cases m wm Hm) as (_ & _ & _ & [[-> _]|[-> _]]); done.
Qed.

Lemma extract_collated c buf :
  cstrb c = true ->
  ExtractCollationAndUpdateBuffer (FormCollatedIndexTerm buf c) = Done (Some c, buf).
Proof.
  unfold cstrb. intros [Hc _]%andb_true_iff.
  unfold ExtractCollationAndUpdateBuffer, FormCollatedIndexTerm. cbn [metadata_byte drop].
  rewrite Z.eqb_refl, drop_0. cbn [app]. by rewrite read_cstring_app.
Qed.

(** The operators on collated index terms.  Terms that carry the same
    collation are compared in the order of that collation, and the five
    operators answer by the sign; terms that carry different collations, or of
    which only one carries a collation, are rejected. *)
Theorem collated_term_operators d n c1 c2 b1 b2 t1 t2 :
  cstrb c1 = true -> cstrb c2 = true ->
  represents (Some c1) b1 t1 -> represents (Some c1) b2 t2 ->
  wf_term d t1 = true -> wf_term d t2 = true -> (depth (bsonValue t1) <= S n)%nat ->
  let l := FormCollatedIndexTerm b1 c1 in
  let r := FormCollatedIndexTerm b2 c1 in
  let o := term_order d (S n) (Some c1) t1 t2 in
  (exists z, bsonindexterm_compare_btree init l r = Ok z /\ sgn_cmp z = o) /\
  bsonindexterm_eq init l r = Ok (bool_decide (o = Eq)) /\
  bsonindexterm_lt init l r = Ok (bool_decide (o = Lt)) /\
  bsonindexterm_gt init l r = Ok (bool_decide (o = Gt)) /\
  bsonindexterm_lte init l r = Ok (bool_decide (o <> Gt)) /\
  bsonindexterm_gte init l r = Ok (bool_decide (o <> Lt)) /\
  bsonindexterm_compare_btree init l b2 = Err ERRCODE_DOCUMENTDB_BADVALUE /\
  (c1 <> c2 -> bsonindexterm_compare_btree init l (FormCollatedIndexTerm b2 c2) =
               Err ERRCODE_DOCUMENTDB_BADVALUE).
Proof.
  intros Hc1 Hc2 R1 R2 W1 W2 Hn l r o.
  pose proof (represents_not_collated _ _ _ R2) as N2%Z.eqb_neq.
  assert (exists z, CompareBsonIndexTerms init l r true = Ok z /\ sgn_cmp z = o) as (z & Hz & Sz).
  { unfold CompareBsonIndexTerms, l, r. rewrite !extract_collated by done.
    change (metadata_byte (FormCollatedIndexTerm b1 c1)) with IndexTermMetadataCollationPrefixed.
    rewrite Z.eqb_refl. cbn [orb of_read result_bind].
    assert ((strcmp c1 c1 =? 0) = true) as ->.
    { rewrite sgn_eqb_0, strcmp_cmp by by apply cstrb_nul_free. by rewrite (cmp_refl bytes_cmp). }
    cbn [negb result_bind].
    destruct (gin_compare_order d n (Some c1) b1 b2 t1 t2 false true) as (z & b & E & Sz); [done..|].
    exists z. by rewrite E. }
  unfold bsonindexterm_compare_btree, bsonindexterm_eq, bsonindexterm_lt, bsonindexterm_gt,
    bsonindexterm_lte, bsonindexterm_gte. rewrite Hz. cbn [result_bind].
  split_and!; [by exists z| | | | | | |].
  1-5: f_equal; rewrite <- Sz; unfold sgn_cmp; by destruct z.
  - unfold CompareBsonIndexTerms, l. rewrite extract_collated by done.
    change (metadata_byte (FormCollatedIndexTerm b1 c1)) with IndexTermMetadataCollationPrefixed.
    unfold ExtractCollationAndUpdateBuffer. rewrite N2, Z.eqb_refl. reflexivity.
  - intros Hne. unfold CompareBsonIndexTerms, l. rewrite !extract_collated by done.
    change (metadata_byte (FormCollatedIndexTerm b1 c1)) with IndexTermMetadataCollationPrefixed.
    rewrite Z.eqb_refl. cbn [orb of_read result_bind].
    assert ((strcmp c1 c2 =? 0) = false) as ->; [|done].
    rewrite sgn_eqb_0, strcmp_cmp by by apply cstrb_nul_free.
    destruct (bytes_cmp c1 c2) eqn:E; [|done..]. by apply bytes_cmp_eq in E.
Qed.
End serialized.
End order.

(** ** Instances *)

Section instances.
Import ExactBid FoldCase.

Definition two : BsonIndexTerm := mk_term IndexTermValueOnly [36] (V_Int64 2).
Definition two_buffer : bytes := [IndexTermComparableV1; 20; 0xC0; 0].
Definition doc : BsonIndexTerm :=
  mk_term IndexTermValueOnly [36] (V_Document [([97], V_Array [([48], V_Int32 1)])]).
Definition doc_buffer : bytes := [IndexTermValueOnly; 3; 0] ++ value_bytes (bsonValue doc).
Definition big : BsonIndexTerm := mk_term IndexTermNoMetadata [36] (V_Int64 (2 ^ 60 + 1)).
Definition big_buffer : bytes := IndexTermNoMetadata :: doc_bytes [([36], bsonValue big)].

Lemma two_represents coll : represents coll two_buffer two.
Proof. apply rep_comparable; [done|done|discriminate|vm_compute; reflexivity|done]. Qed.

Lemma doc_represents coll : represents coll doc_buffer doc.
Proof. by apply (rep_value_only coll IndexTermValueOnly (bsonValue doc)). Qed.

Lemma big_represents coll : represents coll big_buffer big.
Proof. by apply (rep_document coll IndexTermNoMetadata [36] (bsonValue big)). Qed.


Lemma gin_compare_total_preorder_witness :
  gin_sign read_document None two_buffer doc_buffer = Some Lt.
Proof.
  destruct (gin_compare_total_preorder read_document false None two_buffer big_buffer doc_buffer
    two big doc) as (_ & _ & _ & trans);
    [apply two_represents|apply big_represents|apply doc_represents|reflexivity..|].
  apply trans; vm_compute; reflexivity.
Defined.


Lemma collated_term_operators_witness :
  bsonindexterm_lt read_document (FormCollatedIndexTerm two_buffer [101; 110])
    (FormCollatedIndexTerm doc_buffer [101; 110]) =
  Ok (bool_decide (term_order false 4 (Some [101; 110]) two doc = Lt)).
Proof.
  refine (proj1 (proj2 (proj2 (collated_term_operators read_document false 3 [101; 110] [102; 114]
    two_buffer doc_buffer two doc eq_refl eq_refl (two_represents _) (doc_represents _)
    eq_refl eq_refl _)))).
  simpl. lia.
Defined.

(** The order of mixed terms fails at the double 2^63.  Its comparable term
    sorts after the one of 2 (by [memcmp]) but before the value-only term of the
    integer 2^60 + 1, which has no comparable form: the decoder turns 2^63 into
    the smallest integer. *)
Theorem two_63_sorted_before_smaller_integer :
  exists b63, WriteComparableIndexTermToWriter None (V_Double TWO_63) IndexTermValueOnly =
                Ok (Some b63) /\
    WriteComparableIndexTermToWriter None (V_Int64 (2 ^ 60 + 1)) IndexTermValueOnly = Ok None /\
    gin_sign read_document None b63 two_buffer = Some Gt /\
    gin_sign read_document None b63 (IndexTermValueOnly :: 18 :: 0 :: value_bytes (V_Int64 (2 ^ 60 + 1)))
      = Some Lt.
Proof. exists [7; 20; 195; 224]. split_and!; vm_compute; reflexivity. Qed.
End instances.
