(* ===== verification/BsonHash.v ===== *)
(** * Hashing of BSON values: [pg_documentdb_core/src/query/bson_hash.c]

    Three families of hash functions: the hash of the hash operator class,
    which must agree on values that [bson_compare.c] calls equal; the hash of
    shard keys and hashed indexes ([BsonValueHash]); and the hash of the set
    operators ([BsonValueHashUint32]).  PostgreSQL's byte hash functions are a
    parameter, and nothing is assumed about them: the theorems show that equal
    values feed them the same bytes in the same order. *)

From stdpp Require Import base numbers list option.
From Stdlib Require Import ZArith Lia.
From S2P Require Import Prelude Binary64 Bson PgbsonElement StringView Decimal128.
From S2P Require Import Collation BsonCompare.

(** [common/hashfn.h] of PostgreSQL. *)
Class PgHash : Type := {
  hash_bytes : bytes -> Z;
  hash_bytes_extended : bytes -> Z -> Z;
  hash_bytes_uint32_extended : Z -> Z -> Z;
  hash_combine : Z -> Z -> Z;
  hash_combine64 : Z -> Z -> Z;
}.

(** ** The hash that matches the comparison *)

Definition type_bytes (t : bson_type) : bytes := int32_bytes (bson_type_code t).

Section compare_hash.
Context {L : BidLib} {I : Icu} (EnableCollation : bool).
Context (hash_bytes_func : bytes -> Z -> Z) (hash_combine_func : Z -> Z -> Z) (seed : Z).

Definition HashStringSortKey (collationString string : bytes) : result Z :=
  let! sortKey := GetCollationSortKey collationString string in
  Ok (hash_bytes_func sortKey seed).

(** The loop over an iterator, given the hash of a value. *)
Definition BsonHashCompare_with (HashBsonValueCompare : bson_value -> result Z)
  : bson_doc -> Z -> result Z :=
  fix loop iter hashValue :=
    match iter with
    | [] => Ok hashValue
    | (path, value) :: iter' =>
        let pathHash := hash_bytes_func path seed in
        let hashValue := hash_combine_func hashValue pathHash in
        let! valueHash := HashBsonValueCompare value in
        loop iter' (hash_combine_func hashValue valueHash)
    end.

Definition hash_typed (typeCode : bson_type) (payload : bytes) : Z :=
  hash_combine_func (hash_bytes_func (type_bytes typeCode) seed) (hash_bytes_func payload seed).

Fixpoint HashBsonValueCompare (value : bson_value) (collationString : option bytes) : result Z :=
  let typeHash := hash_bytes_func (type_bytes (value_type value)) seed in
  match value with
  | V_Eod | V_MinKey => Ok (hash_bytes_func (type_bytes BSON_TYPE_MINKEY) seed)
  | V_Undefined | V_Null => Ok (hash_bytes_func (type_bytes BSON_TYPE_UNDEFINED) seed)
  | V_Int32 _ | V_Int64 _ =>
      let! int64Value := BsonValueAsInt64 value in
      Ok (hash_typed BSON_TYPE_INT64 (int64_bytes int64Value))
  | V_Double _ | V_Decimal128 _ =>
      let! isInteger := IsBsonValue64BitInteger value true in
      if isInteger : bool then
        let! int64Value := BsonValueAsInt64 value in
        Ok (hash_typed BSON_TYPE_INT64 (int64_bytes int64Value))
      else
        let! d := GetBsonValueAsDecimal128 value in
        Ok (hash_typed BSON_TYPE_INT64 (le_bytes 8 (d_low d) ++ le_bytes 8 (d_high d)))
  | V_Utf8 str | V_Symbol str =>
      let! stringHash :=
        match (if IsCollationApplicable EnableCollation collationString
               then collationString else None) with
        | None => Ok (hash_bytes_func str seed)
        | Some coll => HashStringSortKey coll str
        end in
      Ok (hash_combine_func (hash_bytes_func (type_bytes BSON_TYPE_UTF8) seed) stringHash)
  | V_Document fs | V_Array fs =>
      let! docHash :=
        BsonHashCompare_with (fun v => HashBsonValueCompare v collationString) fs 0 in
      Ok (hash_combine_func typeHash docHash)
  | V_Binary subtype data =>
      Ok (hash_combine_func
            (hash_combine_func typeHash (hash_bytes_func (int32_bytes subtype) seed))
            (hash_bytes_func data seed))
  | V_Oid oid => Ok (hash_typed BSON_TYPE_OID oid)
  | V_Bool b => Ok (hash_typed BSON_TYPE_BOOL [Z.b2z b])
  | V_DateTime z => Ok (hash_typed BSON_TYPE_DATE_TIME (int64_bytes z))
  | V_Timestamp timestamp increment =>
      Ok (hash_combine_func
            (hash_combine_func typeHash (hash_bytes_func (le_bytes 4 increment) seed))
            (hash_bytes_func (le_bytes 4 timestamp) seed))
  | V_Regex regex options =>
      let add hashValue s :=
        match s with
        | Some str => hash_combine_func hashValue (hash_bytes_func (cstring str) seed)
        | None => hashValue
        end in
      Ok (add (add typeHash regex) options)
  | V_DbPointer collection oid =>
      Ok (hash_combine_func (hash_typed BSON_TYPE_DBPOINTER collection) (hash_bytes_func oid seed))
  | V_Code code => Ok (hash_typed BSON_TYPE_CODE code)
  | V_CodeWScope code scope =>
      let! scopeHash := BsonHashCompare_with (fun v => HashBsonValueCompare v None) scope 0 in
      Ok (hash_combine_func (hash_typed BSON_TYPE_CODEWSCOPE code) scopeHash)
  | V_MaxKey => Ok typeHash
  end.

Definition BsonHashCompare (iter : bson_doc) (collationString : option bytes) : result Z :=
  BsonHashCompare_with (fun v => HashBsonValueCompare v collationString) iter 0.
End compare_hash.

(** ** The exported functions *)

Section exports.
Context {L : BidLib} {I : Icu} {H : PgHash} (EnableCollation : bool).

Definition HashBytesUint64 (b : bytes) (seed : Z) : Z := hash_bytes_extended b (uint64 seed).
Definition HashBytesUint32AsUint64 (b : bytes) (seed : Z) : Z := hash_bytes b.
Definition HashCombineUint32AsUint64 (left right : Z) : Z :=
  hash_combine (uint32 left) (uint32 right).

Definition HashBsonComparableExtended (iter : bson_doc) (seed : Z) : result Z :=
  BsonHashCompare EnableCollation HashBytesUint64 hash_combine64 seed iter None.

Definition HashBsonComparable (iter : bson_doc) (seed : Z) : result Z :=
  let! h := BsonHashCompare EnableCollation HashBytesUint32AsUint64 HashCombineUint32AsUint64
              seed iter None in
  Ok (uint32 h).

Definition HashBsonValueComparableExtended (value : bson_value) (seed : Z)
  (collationString : option bytes) : result Z :=
  HashBsonValueCompare EnableCollation HashBytesUint64 hash_combine64 seed value collationString.

Definition HashBsonValueComparable (value : bson_value) (seed : Z) : result Z :=
  let! h := HashBsonValueCompare EnableCollation HashBytesUint32AsUint64 HashCombineUint32AsUint64
              seed value None in
  Ok (uint32 h).

Context (bson_iter_init_from_data : bytes -> option bson_doc).

Definition extension_bson_hash_int4 (bson : bytes) : result Z :=
  let! iter := PgbsonInitIterator bson_iter_init_from_data bson in
  let! h := BsonHashCompare EnableCollation HashBytesUint32AsUint64 HashCombineUint32AsUint64
              0 iter None in
  Ok (uint32 h).

Definition extension_bson_hash_int8 (bson : bytes) (seed : Z) : result Z :=
  let! iter := PgbsonInitIterator bson_iter_init_from_data bson in
  BsonHashCompare EnableCollation HashBytesUint64 hash_combine64 seed iter None.
End exports.

(** ** The hash of shard keys and hashed indexes *)

Section value_hash.
Context {L : BidLib} {H : PgHash}.

Definition HashNumber (number : double) (seed : Z) : Z :=
  hash_bytes_extended (le_bytes 8 number) (uint64 seed).

(** The result is the [int64] with the bits of the hash. *)
Definition BsonValueHash (value : bson_value) (seed : Z) : Z :=
  let hashType :=
    match value_type value with
    | BSON_TYPE_INT32 | BSON_TYPE_INT64 => BSON_TYPE_DOUBLE
    | t => t
    end in
  let hashValue := int64 (hash_bytes_uint32_extended (bson_type_code hashType) (uint64 seed)) in
  let field b := int64 (hash_bytes_extended b (uint64 hashValue)) in
  match value with
  | V_Eod | V_MinKey | V_Undefined | V_Null | V_MaxKey => hashValue
  | V_Bool b => int64 (hash_bytes_uint32_extended (Z.b2z b) (uint64 hashValue))
  | V_Int32 z | V_Int64 z => int64 (HashNumber (double_of_int z) hashValue)
  | V_Double d => int64 (HashNumber d hashValue)
  | V_DateTime z => field (int64_bytes z)
  | V_Timestamp timestamp increment => field (le_bytes 4 timestamp ++ le_bytes 4 increment)
  | V_Oid oid => field oid
  | V_Decimal128 d => field (le_bytes 8 (d_low d) ++ le_bytes 8 (d_high d))
  | V_Utf8 s => field s
  | V_Document fs | V_Array fs => field (doc_bytes fs)
  | V_Symbol s => field s
  | V_Binary _ data => field data
  | V_Regex regex _ => field (cstring (default [] regex))
  | V_DbPointer collection _ => field collection
  | V_Code code => field code
  | V_CodeWScope code _ => field code
  end.

(** ** The hash of the set operators *)

Definition BsonValueHashUint32 (value : bson_value) : result Z :=
  match value with
  | V_Bool b => Ok (hash_bytes [Z.b2z b])
  | V_Int32 _ | V_Int64 _ =>
      let! z := BsonValueAsInt64 value in Ok (hash_bytes (int64_bytes z))
  | V_Double d =>
      if isnan d then Ok 1
      else
        let! isInteger := IsBsonValue64BitInteger value true in
        if isInteger : bool then
          let! z := BsonValueAsInt64 value in Ok (hash_bytes (int64_bytes z))
        else Ok (hash_bytes (le_bytes 8 d))
  | V_Decimal128 d =>
      let! nan := IsDecimal128NaN value in
      if nan : bool then Ok 1
      else
        let! isInteger := IsBsonValue64BitInteger value true in
        if isInteger : bool then
          let! z := BsonValueAsInt64 value in Ok (hash_bytes (int64_bytes z))
        else Ok (hash_bytes (take 4 (le_bytes 8 (d_low d) ++ le_bytes 8 (d_high d))))
  | V_Utf8 s => Ok (hash_bytes s)
  | V_Document fs | V_Array fs => Ok (hash_bytes (doc_bytes fs))
  | V_Binary _ data => Ok (hash_bytes data)
  | V_DateTime z => Ok (hash_bytes (int64_bytes z))
  | V_Timestamp timestamp increment =>
      Ok (hash_bytes (le_bytes 4 timestamp ++ le_bytes 4 increment))
  | V_Oid oid => Ok (hash_bytes oid)
  | V_Regex regex _ => Ok (hash_bytes (cstring (default [] regex)))
  | V_Code code => Ok (hash_bytes code)
  | V_CodeWScope code _ => Ok (hash_bytes code)
  | V_Symbol s => Ok (hash_bytes s)
  | V_DbPointer collection _ => Ok (hash_bytes collection)
  | V_Undefined | V_Null | V_Eod | V_MinKey | V_MaxKey => Ok 0
  end.
End value_hash.

(** ** Equal values have equal hashes *)

Section contract.
Context {L : BidLib} {BL : BidLaws L} {I : Icu} {IL : IcuLaws I}.

(** The double or decimal is hashed as the 64-bit integer it equals. *)
Definition integral (v : bson_value) : bool :=
  match v with
  | V_Double _ | V_Decimal128 _ =>
      match IsBsonValue64BitInteger v true with Ok b => b | Err _ => false end
  | _ => true
  end.

(** All numbers inside the value are integral. *)
Fixpoint hashable (v : bson_value) : bool :=
  match v with
  | V_Document fs | V_Array fs | V_CodeWScope _ fs => forallb (fun f => hashable f.2) fs
  | _ => integral v
  end.

Definition hashable_fields (fs : bson_doc) : bool := forallb (fun f => hashable f.2) fs.

Lemma integral_ok v :
  integral v = true -> match v with V_Double _ | V_Decimal128 _ => True | _ => False end ->
  IsBsonValue64BitInteger v true = Ok true.
Proof.
  unfold integral. destruct v; try done; intros Hi _;
    destruct (IsBsonValue64BitInteger _ true) as [[]|]; done.
Qed.

(** The value of an integer or an integral decimal, and of a double that
    equals it. *)
Lemma integral_value v :
  wf_value v = true -> class_of v = 2 -> integral v = true ->
  match v with V_Double _ => False | _ => True end ->
  exists z, in_int64 z = true /\ BsonValueAsInt64 v = Ok z /\ number_of v = XFin (z * DEC_UNIT).
Proof.
  intros W Hc Hi Hd. destruct v; try discriminate Hc; try contradiction.
  - exists v_int32. simpl in W. auto using in_int32_int64.
  - by exists v_int64.
  - apply integral_ok in Hi; [|done]. unfold IsBsonValue64BitInteger, IsBsonValue64BitIntegerCore in Hi.
    rewrite in_int64_range in Hi. cbn [result_bind] in Hi.
    destruct (match dval v_decimal128 with XFin _ => _ | _ => _ end) eqn:E; cbn [negb] in Hi; [|done].
    destruct (proj1 (decimal_fixed v_decimal128 in_int64 (fun z H => H)) (conj E Hi)) as (z & Hz & Ed).
    exists z. split_and!; [done| |done].
    unfold BsonValueAsInt64, BsonValueAsInt64WithRoundingMode, GetBsonDecimal128AsInt64.
    cbn [result_bind GetBIDUINT128FromBsonValue].
    pose proof (law_to_int64_xint v_decimal128) as Hx. unfold converts in Hx. rewrite Ed in Hx.
    pose proof DEC_UNIT_pos. rewrite Z.quot_mul, Hz in Hx by lia.
    destruct (bid128_to_int64_xint v_decimal128) as [i fl]. cbn [fst snd] in Hx.
    destruct Hx as [-> ->]. by destruct (negb _).
Qed.

Lemma double_as_int64 d z :
  doubleb d = true -> in_int64 z = true -> number_of (V_Double d) = XFin (z * DEC_UNIT) ->
  BsonValueAsInt64 (V_Double d) = Ok z.
Proof.
  intros Wd Hz E. cbn [number_of] in E. apply bid_of_integer in E; [|done|done].
  pose proof (int64_bounds z Hz). apply finite_dx in E as [N E]; [|lia].
  apply d_trunc_exact in E.
  unfold BsonValueAsInt64, BsonValueAsInt64WithRoundingMode. cbn [result_bind].
  unfold cast_int64, cast_Z_int64. by rewrite N, E, Hz.
Qed.

Lemma inf_dscaled d1 d2 :
  isinf d1 = true -> isinf d2 = true -> d_neg d1 = d_neg d2 -> dscaled d1 = dscaled d2.
Proof. unfold isinf, dscaled. intros ->%Z.eqb_eq ->%Z.eqb_eq ->. reflexivity. Qed.

Lemma dx_cast d1 d2 : dx d1 = dx d2 -> cast_int64 d1 = cast_int64 d2.
Proof.
  unfold dx, cast_int64, cast_Z_int64.
  destruct (isnan d1) eqn:N1, (isnan d2) eqn:N2;
    [reflexivity|destruct (isinf d2), (d_neg d2); discriminate
    |destruct (isinf d1), (d_neg d1); discriminate|].
  intros E. assert (dscaled d1 = dscaled d2) as H.
  { destruct (isinf d1) eqn:I1, (isinf d2) eqn:I2.
    - apply inf_dscaled; [assumption..|]. destruct (d_neg d1), (d_neg d2); congruence.
    - destruct (d_neg d1); discriminate.
    - destruct (d_neg d2); discriminate.
    - congruence. }
  unfold d_trunc. by rewrite H.
Qed.

Lemma units_inj a b : XFin (a * DEC_UNIT) = XFin (b * DEC_UNIT) -> a = b.
Proof.
  pose proof DEC_UNIT_pos as H. generalize dependent DEC_UNIT. intros u Hu [= E].
  apply Z.mul_reg_r in E; lia.
Qed.

Lemma equal_numbers_int64 v w :
  wf_value v = true -> wf_value w = true -> class_of v = 2 -> class_of w = 2 ->
  integral v = true -> integral w = true -> number_of v = number_of w ->
  exists z, BsonValueAsInt64 v = Ok z /\ BsonValueAsInt64 w = Ok z.
Proof.
  intros Wv Ww Cv Cw Iv Iw E.
  assert (forall u, class_of u = 2 -> match u with V_Double _ => False | _ => True end \/
                                      exists d, u = V_Double d) as Hcase.
  { intros u. destruct u; auto. intros _. right. by eexists. }
  destruct (Hcase v Cv) as [Dv|[d ->]], (Hcase w Cw) as [Dw|[d' ->]].
  - destruct (integral_value v Wv Cv Iv Dv) as (z & _ & Ez & Nz),
      (integral_value w Ww Cw Iw Dw) as (z' & _ & Ez' & Nz').
    exists z. split; [done|]. rewrite Ez'. f_equal. rewrite Nz, Nz' in E. symmetry. by apply units_inj.
  - destruct (integral_value v Wv Cv Iv Dv) as (z & Hz & Ez & Nz). exists z. split; [exact Ez|].
    apply double_as_int64; [exact Ww|exact Hz|by rewrite <- E].
  - destruct (integral_value w Ww Cw Iw Dw) as (z & Hz & Ez & Nz). exists z. split; [|exact Ez].
    apply double_as_int64; [exact Wv|exact Hz|by rewrite E].
  - eexists. split; [reflexivity|]. unfold BsonValueAsInt64, BsonValueAsInt64WithRoundingMode.
    cbn [result_bind]. f_equal. symmetry. apply dx_cast. apply xnum_cmp_eq.
    rewrite <- bid_of_doubles by done. by apply xnum_cmp_eq.
Qed.

Lemma lex_eq {A} (c1 c2 : A -> A -> comparison) x y :
  cmp_lex c1 c2 x y = Eq <-> c1 x y = Eq /\ c2 x y = Eq.
Proof. unfold cmp_lex. destruct (c1 x y); intuition congruence. Qed.

(** The components of two equal values of one class. *)
Lemma payload_eq fields scope coll v w :
  payload_order fields scope coll v w = Eq ->
  number_of v = number_of w /\ string_order coll (text_of v) (text_of w) = Eq /\
  code_of v = code_of w /\ fields (fields_of v) (fields_of w) = Eq /\
  scope (scope_of v) (scope_of w) = Eq /\ oid_of v = oid_of w /\
  subtype_of v = subtype_of w /\ data_of v = data_of w /\ time_of v = time_of w /\
  increment_of v = increment_of w /\ regex_of v = regex_of w /\ options_of v = options_of w.
Proof.
  unfold payload_order. rewrite !lex_eq. unfold cmp_on.
  rewrite xnum_cmp_eq, !bytes_cmp_eq, !Z.compare_eq_iff. tauto.
Qed.

Section equal.
Context (EnableCollation : bool).
Context (hash_bytes_func : bytes -> Z -> Z) (hash_combine_func : Z -> Z -> Z) (seed : Z).

Abbreviation hash v coll :=
  (HashBsonValueCompare EnableCollation hash_bytes_func hash_combine_func seed v coll).

(** Both hashes are computed, and they are the same. *)
Definition same_hash (r1 r2 : result Z) : Prop := exists h, r1 = Ok h /\ r2 = Ok h.

Definition collation_consistent (coll : option bytes) : Prop :=
  IsCollationApplicable EnableCollation coll = IsCollationValid coll.

Lemma consistent_none : collation_consistent None.
Proof. apply andb_false_r. Qed.

Lemma hash_number v w coll :
  wf_value v = true -> wf_value w = true -> class_of v = 2 -> class_of w = 2 ->
  integral v = true -> integral w = true -> number_of v = number_of w ->
  same_hash (hash v coll) (hash w coll).
Proof.
  intros Wv Ww Cv Cw Iv Iw E.
  destruct (equal_numbers_int64 v w) as (z & Ev & Ew); [done..|].
  assert (forall u, class_of u = 2 -> integral u = true -> BsonValueAsInt64 u = Ok z ->
    hash u coll =
    Ok (hash_typed hash_bytes_func hash_combine_func seed BSON_TYPE_INT64 (int64_bytes z))) as Hu.
  { intros u Cu Iu Eu. destruct u; try discriminate Cu; cbn [HashBsonValueCompare];
      rewrite ?(integral_ok _ Iu Logic.I); cbn [result_bind]; by rewrite Eu. }
  eexists. split; by apply Hu.
Qed.

Lemma hash_text v w coll :
  collation_consistent coll -> class_of v = 3 -> class_of w = 3 ->
  string_order coll (text_of v) (text_of w) = Eq -> same_hash (hash v coll) (hash w coll).
Proof.
  intros Hc Cv Cw E. unfold collation_consistent in Hc.
  assert (forall u, class_of u = 3 -> hash u coll =
    let! stringHash :=
      match (if IsCollationApplicable EnableCollation coll then coll else None) with
      | None => Ok (hash_bytes_func (text_of u) seed)
      | Some c => HashStringSortKey hash_bytes_func seed c (text_of u)
      end in
    Ok (hash_combine_func (hash_bytes_func (type_bytes BSON_TYPE_UTF8) seed) stringHash)) as Hu
    by (intros u Cu; by destruct u).
  rewrite (Hu v), (Hu w) by done. rewrite Hc. unfold string_order in E.
  destruct (if IsCollationValid coll then coll else None) as [c|].
  - apply lex_eq in E as [_ E]. apply sort_key_equal in E. unfold HashStringSortKey.
    rewrite E. destruct (sort_key_ok c (text_of w)) as [k ->]. by eexists.
  - apply bytes_cmp_eq in E. rewrite E. by eexists.
Qed.

Lemma hash_fields order coll fs gs acc :
  Forall (fun f => forall w, wf_value w = true -> hashable w = true -> order f.2 w = Eq ->
            same_hash (hash f.2 coll) (hash w coll)) fs ->
  wf_fields gs = true -> hashable_fields gs = true ->
  cmp_list (field_order order) fs gs = Eq ->
  same_hash
    (BsonHashCompare_with hash_bytes_func hash_combine_func seed (fun v => hash v coll) fs acc)
    (BsonHashCompare_with hash_bytes_func hash_combine_func seed (fun v => hash v coll) gs acc).
Proof.
  intros HF. revert gs acc. induction HF as [|[k v] fs Hv HF IH]; intros [|[k' w] gs] acc Wg Hg E;
    try discriminate E; [by eexists|].
  cbn [cmp_list] in E. destruct (field_order order (k, v) (k', w)) eqn:Ef; try discriminate E.
  unfold field_order in Ef. rewrite !lex_eq in Ef. unfold cmp_on in Ef. cbn [fst snd] in Ef, Hv.
  destruct Ef as (_ & Ek%bytes_cmp_eq & Ev). subst k'.
  apply wf_fields_cons in Wg as (_ & Ww & Wg).
  unfold hashable_fields in Hg. cbn [forallb snd] in Hg. apply andb_true_iff in Hg as [Hw Hg].
  destruct (Hv w Ww Hw Ev) as (h & E1 & E2). cbn [BsonHashCompare_with]. rewrite E1, E2.
  cbn [result_bind]. by apply IH.
Qed.

Lemma nested_hashable n coll fs :
  (forall coll v w, collation_consistent coll -> (depth v <= n)%nat -> wf_value v = true ->
     wf_value w = true -> hashable v = true -> hashable w = true ->
     bson_order n coll v w = Eq -> same_hash (hash v coll) (hash w coll)) ->
  collation_consistent coll -> (depth (V_Document fs) <= S n)%nat ->
  wf_fields fs = true -> hashable_fields fs = true ->
  Forall (fun f => forall w, wf_value w = true -> hashable w = true ->
            bson_order n coll f.2 w = Eq -> same_hash (hash f.2 coll) (hash w coll)) fs.
Proof.
  intros IH Hc Hd Wf Hf. pose proof (nested_fields n fs Hd Wf) as HF.
  unfold hashable_fields in Hf. rewrite forallb_forall in Hf.
  apply Forall_forall. intros f Hin w Ww Hw E.
  rewrite Forall_forall in HF. destruct (HF f Hin) as [Df Wv].
  apply IH; auto.
Qed.

Lemma hash_regex r o coll :
  opt_cstrb r && opt_cstrb o = true ->
  hash (V_Regex r o) coll =
  Ok (hash_combine_func
        (hash_combine_func (hash_bytes_func (type_bytes BSON_TYPE_REGEX) seed)
           (hash_bytes_func (cstring (regex_of (V_Regex r o))) seed))
        (hash_bytes_func (cstring (options_of (V_Regex r o))) seed)).
Proof. destruct r, o; simpl; rewrite ?andb_false_r; done. Qed.

(** Equality in the specified order implies equality of hashes. *)
Lemma equal_values_hash n coll v w :
  collation_consistent coll -> (depth v <= n)%nat -> wf_value v = true -> wf_value w = true ->
  hashable v = true -> hashable w = true -> bson_order n coll v w = Eq ->
  same_hash (hash v coll) (hash w coll).
Proof.
  revert coll v w. induction n as [|n IH]; intros coll v w Hc Hd Wv Ww Hv Hw E.
  { destruct v; simpl in Hd; lia. }
  cbn [bson_order] in E. apply lex_eq in E as [Ec Ep]. unfold cmp_on in Ec.
  apply Z.compare_eq_iff in Ec.
  destruct (decide (class_of v = 2)) as [C2|C2].
  { apply payload_eq in Ep as (En & _).
    apply hash_number; try done; [congruence| |]; destruct v, w; try done. }
  destruct (decide (class_of v = 3)) as [C3|C3].
  { apply payload_eq in Ep as (_ & Et & _). apply hash_text; [done|done|congruence|done]. }
  apply payload_eq in Ep as (En & _ & Eco & Ef & Es & Eo & Est & Ed & Et & Ei & Er & Eop).
  destruct v; try (by destruct C2); try (by destruct C3); destruct w; try discriminate Ec;
    cbn [text_of code_of fields_of scope_of oid_of subtype_of data_of time_of increment_of
      number_of] in *; subst; try (by eexists).
  - destruct (hash_fields (bson_order n coll) coll v_doc v_doc0 0) as (h & H1 & H2);
      [by apply (nested_hashable n)|done|done|done|].
    cbn [HashBsonValueCompare]. rewrite H1, H2. by eexists.
  - destruct (hash_fields (bson_order n coll) coll v_doc v_doc0 0) as (h & H1 & H2);
      [by apply (nested_hashable n)|done|done|done|].
    cbn [HashBsonValueCompare]. rewrite H1, H2. by eexists.
  - apply units_inj, Z.b2z_inj in En. subst. by eexists.
  - rewrite !hash_regex by done. rewrite Er, Eop. by eexists.
  - cbn [wf_value] in Wv, Ww. apply andb_true_iff in Wv as [_ Wv], Ww as [_ Ww].
    destruct (hash_fields (bson_order n None) None scope scope0 0) as (h & H1 & H2);
      [by apply (nested_hashable n); auto using consistent_none|done|done|done|].
    cbn [HashBsonValueCompare]. rewrite H1, H2. by eexists.
Qed.
End equal.
End contract.

(** ** The contracts *)

Section contracts.
Context {L : BidLib} {BL : BidLaws L} {I : Icu} {IL : IcuLaws I} {H : PgHash}.
Context (EnableCollation : bool).

(** The hash agrees with the comparison: two values that compare equal under
    a collation have the same 64-bit hash, and computing it raises no error,
    whatever PostgreSQL's hash functions are.  This covers numbers of different
    types, strings that the collation identifies, symbols against strings,
    undefined against null, and nested documents.  The numbers must be
    integral (an integer, or a double or decimal that the code recognizes as a
    64-bit integer), and collations must be enabled if one is used. *)
Theorem hash_respects_comparison (v w : bson_value) (coll : option bytes) (seed : Z) (b : bool) :
  wf_value v = true -> wf_value w = true -> hashable v = true -> hashable w = true ->
  IsCollationApplicable EnableCollation coll = IsCollationValid coll ->
  CompareBsonValueAndTypeWithCollation v w coll = Ok (0, b) ->
  exists h, HashBsonValueComparableExtended EnableCollation v seed coll = Ok h /\
            HashBsonValueComparableExtended EnableCollation w seed coll = Ok h.
Proof.
  intros Wv Ww Hv Hw Hc E.
  destruct (compare_and_type_refines (depth v) coll v w) as (z & Ez & Sz); [done..|].
  rewrite E in Ez. injection Ez as <-.
  by apply (equal_values_hash _ _ _ _ (depth v)).
Qed.

Lemma documents_hash hash_bytes_func hash_combine_func seed fl fr :
  wf_fields fl = true -> wf_fields fr = true ->
  hashable_fields fl = true -> hashable_fields fr = true ->
  doc_order (depth (V_Document fl)) None fl fr = Eq ->
  same_hash (BsonHashCompare EnableCollation hash_bytes_func hash_combine_func seed fl None)
    (BsonHashCompare EnableCollation hash_bytes_func hash_combine_func seed fr None).
Proof.
  intros Wl Wr Hl Hr E. set (n := depth (V_Document fl)) in *.
  apply (hash_fields _ _ _ _ (bson_order n None)); try done.
  apply (nested_hashable _ _ _ _ n); try done.
  - intros. by apply (equal_values_hash _ _ _ _ n).
  - apply consistent_none.
  - unfold n. lia.
Qed.


(** The double is not a NaN and not minus zero. *)
Definition plain_double (v : bson_value) : bool :=
  match v with V_Double d => negb (isnan d) && negb (d =? UINT64_MSB) | _ => true end.

Definition as_double (v : bson_value) : double :=
  match v with V_Double d => d | V_Int32 z | V_Int64 z => double_of_int z | _ => 0 end.

Definition binary_number (v : bson_value) : bool :=
  match v with V_Double _ | V_Int32 _ | V_Int64 _ => true | _ => false end.

Lemma dscaled_zero d :
  0 <= d < 2 ^ 64 -> d <> UINT64_MSB -> dscaled d = 0 -> d = 0.
Proof.
  intros Hd Hne E. pose proof (d_abs_range d Hd) as Ha. unfold dscaled in E.
  assert (mag (d_abs d) = mag 0) as Em by (rewrite mag_0; destruct (d_neg d); lia).
  apply mag_inj in Em; [|lia|lia]. unfold d_abs in Em. destruct (d_neg d); lia.
Qed.

(** A double that equals an integer is the double of that integer. *)
Lemma double_of_equal_int d z :
  0 <= d < 2 ^ 64 -> d <> UINT64_MSB -> in_int64 z = true -> dx d = XFin (z * DSCALE) ->
  double_of_int z = d.
Proof.
  intros Hd Hm Hz E. pose proof (int64_bounds z Hz). apply finite_dx in E as [_ E]; [|lia].
  destruct (Z.eq_dec z 0) as [->|Hne]; [|by apply double_of_int_repr].
  symmetry. by apply dscaled_zero.
Qed.

Lemma equal_doubles d d' :
  0 <= d < 2 ^ 64 -> 0 <= d' < 2 ^ 64 -> d <> UINT64_MSB -> d' <> UINT64_MSB ->
  isnan d = false -> isnan d' = false -> dx d = dx d' -> d = d'.
Proof.
  intros Hd Hd' Hm Hm' N N' E. unfold dx in E. rewrite N, N' in E.
  assert (dscaled d = dscaled d') as Es.
  { destruct (isinf d) eqn:I1, (isinf d') eqn:I2.
    - apply inf_dscaled; [assumption..|]. destruct (d_neg d), (d_neg d'); congruence.
    - destruct (d_neg d); discriminate.
    - destruct (d_neg d'); discriminate.
    - congruence. }
  destruct (dscaled_inj d d' Hd Hd' Es) as [|E0]; [done|].
  rewrite (dscaled_zero d), (dscaled_zero d'); congruence.
Qed.

Lemma binary_value v :
  wf_value v = true -> binary_number v = true -> plain_double v = true ->
  (exists d, v = V_Double d /\ binary_of v = dx d /\ 0 <= d < 2 ^ 64 /\ isnan d = false /\
             d <> UINT64_MSB /\ as_double v = d) \/
  (exists z, in_int64 z = true /\ binary_of v = XFin (z * DSCALE) /\ as_double v = double_of_int z).
Proof.
  intros W B P. destruct v; try discriminate B; simpl in *.
  - left. exists v_double. apply andb_true_iff in P as [N%negb_true_iff M%negb_true_iff].
    apply Z.eqb_neq in M. apply doubleb_range in W.
    split_and!; try lia; assumption || reflexivity.
  - right. exists v_int32. auto using in_int32_int64.
  - right. by exists v_int64.
Qed.

Lemma equal_as_double v w :
  wf_value v = true -> wf_value w = true -> binary_number v = true -> binary_number w = true ->
  plain_double v = true -> plain_double w = true -> binary_of v = binary_of w ->
  as_double v = as_double w.
Proof.
  intros Wv Ww Bv Bw Pv Pw E.
  destruct (binary_value v Wv Bv Pv) as [(d & _ & Ed & Hd & Nd & Md & ->)|(z & Hz & Ez & ->)],
    (binary_value w Ww Bw Pw) as [(d' & _ & Ed' & Hd' & Nd' & Md' & ->)|(z' & Hz' & Ez' & ->)].
  - apply equal_doubles; congruence.
  - symmetry. apply double_of_equal_int; congruence.
  - apply double_of_equal_int; congruence.
  - f_equal. rewrite Ez, Ez' in E. pose proof DSCALE_pos as HS. clear -E HS.
    generalize dependent DSCALE. intros u [= E] Hu. apply Z.mul_reg_r in E; lia.
Qed.

(** The hash of shard keys and hashed indexes sends equal numbers to the same
    bucket: two 32-bit or 64-bit integers or doubles that compare equal have the
    same [BsonValueHash] for every seed, and the same hash of the set operators
    if they are integral; NaN and minus zero are excluded for the former. *)
Theorem value_hash_numbers (v w : bson_value) (seed : Z) (b : bool) :
  wf_value v = true -> wf_value w = true -> binary_number v = true -> binary_number w = true ->
  plain_double v = true -> plain_double w = true ->
  CompareBsonValueAndType v w = Ok (0, b) ->
  BsonValueHash v seed = BsonValueHash w seed /\
  (integral v = true -> integral w = true -> BsonValueHashUint32 v = BsonValueHashUint32 w).
Proof.
  intros Wv Ww Bv Bw Pv Pw E.
  assert (is_number_or_bool v = true /\ is_number_or_bool w = true /\ class_of v = 2 /\
          class_of w = 2 /\ value_type v <> BSON_TYPE_DECIMAL128 /\
          value_type w <> BSON_TYPE_DECIMAL128) as (Nv & Nw & Cv & Cw & Dv & Dw)
    by (destruct v, w; done).
  assert (number_of v = number_of w) as En.
  { rewrite compare_and_type_none in E.
    destruct (compare_and_type_refines (S (depth v)) None v w) as (z & Ez & Sz); [lia|done..|].
    rewrite E in Ez. injection Ez as <-. rewrite order_numbers in Sz by congruence.
    by apply xnum_cmp_eq. }
  split.
  - assert (as_double v = as_double w) as Ed.
    { apply equal_as_double; try done. apply xnum_cmp_eq.
      rewrite binary_decimal_order by done. by apply xnum_cmp_eq. }
    destruct v, w; try discriminate Bv; try discriminate Bw; simpl in Ed;
      unfold BsonValueHash; cbn [value_type]; by rewrite Ed.
  - intros Iv Iw. destruct (equal_numbers_int64 v w) as (z & Ev & Ew); [done..|].
    assert (forall u, binary_number u = true -> integral u = true -> plain_double u = true ->
      BsonValueAsInt64 u = Ok z -> BsonValueHashUint32 u = Ok (hash_bytes (int64_bytes z))) as Hu.
    { intros u Bu Iu Pu Eu. destruct u; try discriminate Bu; unfold BsonValueHashUint32; try by rewrite Eu.
      cbn [plain_double] in Pu. apply andb_true_iff in Pu as [->%negb_true_iff _].
      rewrite (integral_ok _ Iu Logic.I). cbn [result_bind]. by rewrite Eu. }
    rewrite !Hu; done.
Qed.
End contracts.

(** Minus zero and zero compare equal, but [BsonValueHash] feeds their
    different bit patterns to the hash function: with a hash function that
    tells them apart they have different hashes, so a hashed index or a shard
    key separates them. *)
Theorem value_hash_negative_zero {L : BidLib} {I : Icu} :
  CompareBsonValueAndType (V_Double UINT64_MSB) (V_Double 0) = Ok (0, true) /\
  forall H : PgHash, exists s b1 b2, b1 <> b2 /\
    BsonValueHash (V_Double UINT64_MSB) 0 = int64 (hash_bytes_extended b1 s) /\
    BsonValueHash (V_Double 0) 0 = int64 (hash_bytes_extended b2 s).
Proof.
  split; [vm_compute; reflexivity|]. intros H.
  eexists _, (le_bytes 8 UINT64_MSB), (le_bytes 8 0). split; [discriminate|].
  split; reflexivity.
Qed.

(** ** Instances *)

Section instances.
Import ExactBid FoldCase.

(** A hash function for the examples. *)
Definition sum_hash : PgHash := {|
  hash_bytes b := fold_right Z.add 0 b;
  hash_bytes_extended b s := fold_right Z.add s b;
  hash_bytes_uint32_extended z s := z + s;
  hash_combine l r := uint32 (31 * l + r);
  hash_combine64 l r := uint64 (31 * l + r);
|}.

Definition left_doc : bson_doc :=
  [([97], V_Int32 3); ([98], V_Array [([48], V_Utf8 [99]); ([49], V_Null)])].
Definition right_doc : bson_doc :=
  [([97], V_Int64 3); ([98], V_Array [([48], V_Symbol [99]); ([49], V_Undefined)])].

Lemma hash_respects_comparison_witness :
  exists h,
    HashBsonValueComparableExtended (H := sum_hash) true (V_Document left_doc) 7 (Some [101; 110; 95]) = Ok h /\
    HashBsonValueComparableExtended (H := sum_hash) true (V_Document right_doc) 7 (Some [101; 110; 95]) = Ok h.
Proof.
  apply (hash_respects_comparison (H := sum_hash) true (V_Document left_doc) (V_Document right_doc)
    (Some [101; 110; 95]) 7 true); vm_compute; reflexivity.
Defined.


Lemma value_hash_numbers_witness :
  BsonValueHash (H := sum_hash) (V_Int64 (2 ^ 60)) 5 =
  BsonValueHash (H := sum_hash) (V_Double (double_of_int (2 ^ 60))) 5.
Proof.
  apply (value_hash_numbers (H := sum_hash) (V_Int64 (2 ^ 60)) (V_Double (double_of_int (2 ^ 60))) 5 true);
    vm_compute; reflexivity.
Defined.
End instances.
