(* ===== verification/QueryOperators.v ===== *)
(** * Query operators: [pg_documentdb/src/query/bson_dollar_operators.c]

    The runtime of the query operators.  Each operator names a field by a dotted
    path and matches a document when one of the values of the path matches; for
    null, a missing field matches as well.  Modelled are $eq, $ne, $gt, $gte,
    $lt, $lte and their negations, $in, $nin, $exists, $size, $type, $all, $regex
    and the internal $range, on documents, on the [_id] alone, and on single
    values (as inside $elemMatch).  PCRE and PostgreSQL's dynahash are
    parameters.

    The theorems relate each operator to the values of the path ([path_values])
    and to the order of values ([bson_order]). *)

From Stdlib Require Import String.
From stdpp Require Import base numbers list option.
From Stdlib Require Import ZArith Lia.
From S2P Require Import Prelude Binary64 Bson PgbsonElement StringView Traversal Decimal128.
From S2P Require Import Collation BsonCompare BsonHash.

(** ** Names and codes of types: [pgbson_utils.c] *)

Definition BsonTypeName (type : bson_type) : result bytes :=
  match type with
  | BSON_TYPE_NULL => Ok (str "null")
  | BSON_TYPE_UNDEFINED => Ok (str "undefined")
  | BSON_TYPE_MINKEY => Ok (str "minKey")
  | BSON_TYPE_MAXKEY => Ok (str "maxKey")
  | BSON_TYPE_BOOL => Ok (str "bool")
  | BSON_TYPE_INT32 => Ok (str "int")
  | BSON_TYPE_INT64 => Ok (str "long")
  | BSON_TYPE_DOUBLE => Ok (str "double")
  | BSON_TYPE_DATE_TIME => Ok (str "date")
  | BSON_TYPE_TIMESTAMP => Ok (str "timestamp")
  | BSON_TYPE_OID => Ok (str "objectId")
  | BSON_TYPE_DECIMAL128 => Ok (str "decimal")
  | BSON_TYPE_UTF8 => Ok (str "string")
  | BSON_TYPE_ARRAY => Ok (str "array")
  | BSON_TYPE_DOCUMENT => Ok (str "object")
  | BSON_TYPE_SYMBOL => Ok (str "symbol")
  | BSON_TYPE_BINARY => Ok (str "binData")
  | BSON_TYPE_REGEX => Ok (str "regex")
  | BSON_TYPE_DBPOINTER => Ok (str "dbPointer")
  | BSON_TYPE_CODE => Ok (str "javascript")
  | BSON_TYPE_CODEWSCOPE => Ok (str "javascriptWithScope")
  | BSON_TYPE_EOD => Err ERRCODE_FEATURE_NOT_SUPPORTED
  end.

Definition BsonTypeFromName (name : bytes) : result bson_type :=
  let named s := strcmp name s =? 0 in
  if named (str "null") then Ok BSON_TYPE_NULL
  else if named (str "undefined") then Ok BSON_TYPE_UNDEFINED
  else if named (str "minKey") then Ok BSON_TYPE_MINKEY
  else if named (str "maxKey") then Ok BSON_TYPE_MAXKEY
  else if named (str "bool") then Ok BSON_TYPE_BOOL
  else if named (str "int") then Ok BSON_TYPE_INT32
  else if named (str "long") then Ok BSON_TYPE_INT64
  else if named (str "double") then Ok BSON_TYPE_DOUBLE
  else if named (str "date") then Ok BSON_TYPE_DATE_TIME
  else if named (str "timestamp") then Ok BSON_TYPE_TIMESTAMP
  else if named (str "objectId") then Ok BSON_TYPE_OID
  else if named (str "decimal") then Ok BSON_TYPE_DECIMAL128
  else if named (str "string") then Ok BSON_TYPE_UTF8
  else if named (str "array") then Ok BSON_TYPE_ARRAY
  else if named (str "object") then Ok BSON_TYPE_DOCUMENT
  else if named (str "symbol") then Ok BSON_TYPE_SYMBOL
  else if named (str "binData") then Ok BSON_TYPE_BINARY
  else if named (str "regex") then Ok BSON_TYPE_REGEX
  else if named (str "dbPointer") then Ok BSON_TYPE_DBPOINTER
  else if named (str "javascript") then Ok BSON_TYPE_CODE
  else if named (str "javascriptWithScope") then Ok BSON_TYPE_CODEWSCOPE
  else Err ERRCODE_DOCUMENTDB_BADVALUE.

(** The type with a code; the cast to the enumeration keeps 32 bits. *)
Definition TryGetTypeFromInt64 (typeCode : Z) : option bson_type :=
  if typeCode =? -1 then Some BSON_TYPE_MINKEY
  else
    let type := uint32 typeCode in
    if type =? 0 then Some BSON_TYPE_EOD
    else if (type <=? 19) || (type =? 127) then bson_type_of_code type
    else None.

(** ** Parameters *)

(** PCRE through [types/pcre_regex.c]: compile a pattern, and match a string. *)
Class Pcre : Type := {
  RegexCompile : bytes -> bytes -> result unit;
  PcreRegexExecute : bytes -> bytes -> bytes -> result bool;
}.

(** PostgreSQL's [hash_search] with [HASH_FIND], over the keys entered so far,
    with the table's hash and match callbacks. *)
Class DynaHash : Type :=
  hash_find : (bson_value -> result Z) -> (bson_value -> bson_value -> result Z) ->
              list bson_value -> bson_value -> result bool.

(** A key is found when a key with the same hash matches it. *)
Class DynaHashLaws (T : DynaHash) : Prop :=
  hash_find_spec : forall hash compare (h : bson_value -> Z) (c : bson_value -> Z) keys key,
    Forall (fun k => hash k = Ok (h k) /\ compare k key = Ok (c k)) keys ->
    hash key = Ok (h key) ->
    hash_find hash compare keys key =
    Ok (existsb (fun k => (h k =? h key) && (c k =? 0)) keys).

(** The evaluation of a compiled query expression on the elements of an array,
    by PostgreSQL's executor ([query/bson_expr_eval.c]). *)
Class ExprEval : Type :=
  EvalBooleanExpressionAgainstArray : bson_value -> bson_value -> result bool.

(** ** The callbacks of the traversal *)

Section callbacks.
Context (EnableExistentialNullArrayMatch : bool).
Context {M : Type} (matchFunc : bson_value -> bool -> M -> result (bool * M)).

Definition CompareVisitTopLevelField (element : bson_field) (filterPath : StringView)
  (state : TraverseValidateState M) : result (TraverseValidateState M * bool) :=
  let! (isMatched, m) := matchFunc element.2 false (operatorState state) in
  if isMatched : bool then Ok (mk_validate m CompareResult_Match, false)
  else Ok (mk_validate m CompareResult_Mismatch, true).

Definition CompareVisitTopLevelFieldForNulls (element : bson_field) (filterPath : StringView)
  (state : TraverseValidateState M) : result (TraverseValidateState M * bool) :=
  let! (isMatched, m) := matchFunc element.2 false (operatorState state) in
  if isMatched : bool then Ok (mk_validate m CompareResult_Match, false)
  else
    Ok (mk_validate m
          (if negb EnableExistentialNullArrayMatch ||
              negb (bool_decide (compareResult state = CompareResult_PathNotFound))
           then CompareResult_Mismatch else compareResult state), true).

Definition CompareVisitArrayField (element : bson_field) (filterPath : StringView)
  (arrayIndex : Z) (state : TraverseValidateState M) : result (TraverseValidateState M * bool) :=
  let! (isInnerMatched, m) := matchFunc element.2 (arrayIndex =? 0) (operatorState state) in
  if isInnerMatched : bool then Ok (mk_validate m CompareResult_Match, false)
  else Ok (mk_validate m (compareResult state), true).

Definition CompareSetTraverseResultForNulls (state : TraverseValidateState M)
  (traverseResult : TraverseBsonResult) : result (TraverseValidateState M) :=
  Ok (mk_validate (operatorState state)
        match traverseResult with
        | TraverseBsonResult_PathNotFound => CompareResult_PathNotFound
        | TraverseBsonResult_TypeMismatch => compareResult state
        | TraverseBsonResult_ArrayIndexNotFound =>
            if negb EnableExistentialNullArrayMatch then CompareResult_PathNotFound
            else if negb (bool_decide (compareResult state = CompareResult_PathNotFound))
            then CompareResult_Mismatch else compareResult state
        end).

Definition CompareSetTraverseResult (state : TraverseValidateState M)
  (traverseResult : TraverseBsonResult) : result (TraverseValidateState M) :=
  Ok (mk_validate (operatorState state)
        match traverseResult with
        | TraverseBsonResult_PathNotFound => CompareResult_PathNotFound
        | TraverseBsonResult_ArrayIndexNotFound => CompareResult_PathNotFound
        | TraverseBsonResult_TypeMismatch => CompareResult_Mismatch
        end).

Definition CompareContinueProcessIntermediateArray (state : TraverseValidateState M)
  (value : bson_value) (isArrayIndexSearch : bool) : result (TraverseValidateState M * bool) :=
  Ok (state, negb (bool_decide (compareResult state = CompareResult_Match))).

Definition CompareExecutionFuncs : TraverseBsonExecutionFuncs (TraverseValidateState M) :=
  mk_funcs (Some CompareSetTraverseResult) CompareVisitTopLevelField (Some CompareVisitArrayField)
    CompareContinueProcessIntermediateArray None None None.

Definition CompareNullExecutionFuncs : TraverseBsonExecutionFuncs (TraverseValidateState M) :=
  mk_funcs (Some CompareSetTraverseResultForNulls) CompareVisitTopLevelFieldForNulls
    (Some CompareVisitArrayField) CompareContinueProcessIntermediateArray None None None.

Definition CompareTopLevelFieldExecutionFuncs
  : TraverseBsonExecutionFuncs (TraverseValidateState M) :=
  mk_funcs (Some CompareSetTraverseResult) CompareVisitTopLevelField None
    CompareContinueProcessIntermediateArray None None None.
End callbacks.

(** [state->traverseState = { 0 }]. *)
Definition initial_state {M} (m : M) : TraverseValidateState M :=
  mk_validate m CompareResult_PathNotFound.

(** ** Matching a value against the filter *)

Section matching.
Context {L : BidLib} {I : Icu} {P : Pcre}.

(** The comparison and whether it is valid: values of different order classes
    do not compare. *)
Definition CompareLogicalOperatorWithCollation (document filter : bson_value)
  (collationString : option bytes) : result (Z * bool) :=
  if CompareBsonSortOrderType document filter =? 0
  then CompareBsonValueAndTypeWithCollation document filter collationString
  else Ok (0, false).

Definition CompareEqualMatch (document filter : bson_value) (collationString : option bytes)
  : result bool :=
  if type_eqb (value_type filter) BSON_TYPE_NULL &&
     type_eqb (value_type document) BSON_TYPE_UNDEFINED then Ok true
  else
    let! (cmp, isPathValid) := CompareLogicalOperatorWithCollation document filter collationString in
    Ok (isPathValid && (cmp =? 0)).

Definition CompareLessMatch (document filter : bson_value) (collationString : option bytes)
  : result bool :=
  if type_eqb (value_type filter) BSON_TYPE_MAXKEY
  then Ok (negb (type_eqb (value_type document) BSON_TYPE_MAXKEY))
  else
    let! (cmp, isPathValid) := CompareLogicalOperatorWithCollation document filter collationString in
    Ok (isPathValid && (cmp <? 0)).

Definition CompareLessEqualMatch (document filter : bson_value) (collationString : option bytes)
  : result bool :=
  if type_eqb (value_type filter) BSON_TYPE_MAXKEY then Ok true
  else
    let! (cmp, isPathValid) := CompareLogicalOperatorWithCollation document filter collationString in
    Ok (isPathValid && (cmp <=? 0)).

Definition CompareGreaterMatch (document filter : bson_value) (collationString : option bytes)
  : result bool :=
  if type_eqb (value_type filter) BSON_TYPE_MINKEY
  then Ok (negb (type_eqb (value_type document) BSON_TYPE_MINKEY))
  else
    let! (cmp, isPathValid) := CompareLogicalOperatorWithCollation document filter collationString in
    Ok (isPathValid && (0 <? cmp)).

Definition CompareGreaterEqualMatch (document filter : bson_value) (collationString : option bytes)
  : result bool :=
  if type_eqb (value_type filter) BSON_TYPE_MINKEY then Ok true
  else
    let! (cmp, isPathValid) := CompareLogicalOperatorWithCollation document filter collationString in
    Ok (isPathValid && (0 <=? cmp)).

Definition CompareExistsMatch (document filter : bson_value) (collationString : option bytes)
  : result bool := Ok true.

(** The array's elements are counted up to one more than the size. *)
Fixpoint count_elements (elements : bson_doc) (arraySize actualArraySize : Z) : Z :=
  match elements with
  | [] => actualArraySize
  | _ :: rest =>
      if actualArraySize <=? arraySize
      then count_elements rest arraySize (actualArraySize + 1) else actualArraySize
  end.

Definition CompareArraySizeMatch (document filter : bson_value) : result bool :=
  match document with
  | V_Array elements =>
      let! arraySize := BsonValueAsInt64 filter in
      Ok (arraySize =? count_elements elements arraySize 0)
  | _ => Ok false
  end.

(** One entry of a $type array; [typeToMatch] is left unset by a code that is
    not valid, which the planner has excluded. *)
Definition type_entry_matches (document : bson_value) (typeName : bytes) (entry : bson_value)
  : result bool :=
  if BsonTypeIsNumberOrBool (value_type entry) then
    let! numericValue := BsonValueAsInt64 entry in
    match TryGetTypeFromInt64 numericValue with
    | Some typeToMatch => Ok (type_eqb typeToMatch (value_type document))
    | None => Err ERRCODE_INTERNAL_ERROR
    end
  else
    match entry with
    | V_Utf8 name =>
        if strcmp name (str "number") =? 0 then Ok (BsonTypeIsNumber (value_type document))
        else Ok (strcmp typeName name =? 0)
    | _ => Ok false
    end.

Fixpoint any_type_matches (document : bson_value) (typeName : bytes) (entries : bson_doc)
  : result bool :=
  match entries with
  | [] => Ok false
  | (_, entry) :: rest =>
      let! b := type_entry_matches document typeName entry in
      if b : bool then Ok true else any_type_matches document typeName rest
  end.

Definition CompareArrayTypeMatch (document filter : bson_value) (collationString : option bytes)
  : result bool :=
  match filter with
  | V_Utf8 name =>
      if strcmp name (str "number") =? 0 then Ok (BsonTypeIsNumber (value_type document))
      else
        let! typeName := BsonTypeName (value_type document) in
        Ok (strcmp typeName name =? 0)
  | V_Array entries =>
      let! typeName := BsonTypeName (value_type document) in
      any_type_matches document typeName entries
  | _ =>
      if BsonTypeIsNumberOrBool (value_type filter) then
        let! numericValue := BsonValueAsInt64 filter in
        match TryGetTypeFromInt64 numericValue with
        | Some typeToMatch => Ok (type_eqb typeToMatch (value_type document))
        | None => Err ERRCODE_INTERNAL_ERROR
        end
      else Ok false
  end.

(** [bson_text_ops.c]; a [RegexData] is the pattern and the options. *)
Definition CompareRegexTextMatch (document : bson_value) (regexData : bytes * bytes)
  : result bool :=
  match document with
  | V_Regex regex options =>
      Ok ((strcmp (default [] regex) regexData.1 =? 0) &&
          (strcmp (default [] options) regexData.2 =? 0))
  | V_Utf8 s => PcreRegexExecute regexData.1 regexData.2 s
  | _ => Ok false
  end.
End matching.

(** ** The operators on documents and on values *)

(** When a filter counts as null. *)
Definition IsQueryFilterNullForValue (filter : bson_value) : bool :=
  type_eqb (value_type filter) BSON_TYPE_NULL.

Definition ProcessQueryResultAndGetMatch {M} (isFilterNull : bool)
  (state : TraverseValidateState M) : bool :=
  if isFilterNull then negb (bool_decide (compareResult state = CompareResult_Mismatch))
  else bool_decide (compareResult state = CompareResult_Match).

(** A match function without a state of its own. *)
Definition stateless (f : bson_value -> result bool)
  (v : bson_value) (isFirstArrayTerm : bool) (m : unit) : result (bool * unit) :=
  let! b := f v in Ok (b, m).

Section queries.
Context {L : BidLib} {I : Icu} {P : Pcre} {E : ExprEval} {T : DynaHash} {H : PgHash} {F : FindField}.
Context (EnableCollation EnableExistentialNullArrayMatch : bool).

Definition TraverseBsonAndProcessQueryResult {M} (document : bson_doc)
  (execFuncs : TraverseBsonExecutionFuncs (TraverseValidateState M)) (filterPath : bytes)
  (state : TraverseValidateState M) (isFilterNull : bool) : outcome bool :=
  out! state := TraverseBson execFuncs document filterPath state in
  Some (Ok (ProcessQueryResultAndGetMatch isFilterNull state)).

Definition CompareBsonAgainstQuery (document filter : bson_doc)
  (compareFunc : bson_value -> bson_value -> option bytes -> result bool)
  (isQueryFilterNull : option (bson_value -> bool)) : outcome bool :=
  out! (filterElement, collationString) :=
    Some (PgbsonToSinglePgbsonElementWithCollation EnableCollation filter) in
  let isFilterNull := match isQueryFilterNull with None => false | Some f => f filterElement.2 end in
  let matchFunc := stateless (fun v => compareFunc v filterElement.2 collationString) in
  TraverseBsonAndProcessQueryResult document
    (if isFilterNull then CompareNullExecutionFuncs EnableExistentialNullArrayMatch matchFunc
     else CompareExecutionFuncs matchFunc)
    filterElement.1
    (if isFilterNull then mk_validate tt CompareResult_Mismatch else initial_state tt)
    isFilterNull.

Definition id_path : bytes := str "_id".

Definition CompareBsonAgainstObjectIdQuery (element filter : bson_doc)
  (compareFunc : bson_value -> bson_value -> option bytes -> result bool) : result bool :=
  let! objectIdElement := BsonIterToSinglePgbsonElement EnableCollation element in
  let! (filterElement, collationString) :=
    PgbsonToSinglePgbsonElementWithCollation EnableCollation filter in
  if negb (bool_decide (filterElement.1 = id_path)) then Err ERRCODE_INTERNAL_ERROR
  else compareFunc objectIdElement.2 filterElement.2 collationString.

(** The filter applies to the value itself when its path is empty, otherwise to
    the path below the value. *)
Definition CompareBsonValueAgainstQueryCore {M} (element : bson_value) (filterPath : bytes)
  (state : TraverseValidateState M) (matchFunc : bson_value -> bool -> M -> result (bool * M))
  (executionFuncs : TraverseBsonExecutionFuncs (TraverseValidateState M)) (isFilterNull : bool)
  : outcome bool :=
  match filterPath with
  | [] =>
      out! (b, _) := Some (matchFunc element false (operatorState state)) in Some (Ok b)
  | _ =>
      match element with
      | V_Document fields | V_Array fields =>
          TraverseBsonAndProcessQueryResult fields executionFuncs filterPath state isFilterNull
      | _ => Some (Ok false)
      end
  end.

Definition CompareBsonValueAgainstQuery (element : bson_value) (filter : bson_doc)
  (compareFunc : bson_value -> bson_value -> option bytes -> result bool)
  (isQueryFilterNull : option (bson_value -> bool)) : outcome bool :=
  out! (filterElement, collationString) :=
    Some (PgbsonToSinglePgbsonElementWithCollation EnableCollation filter) in
  let matchFunc := stateless (fun v => compareFunc v filterElement.2 collationString) in
  CompareBsonValueAgainstQueryCore element filterElement.1 (initial_state tt) matchFunc
    (CompareExecutionFuncs matchFunc)
    match isQueryFilterNull with None => false | Some f => f filterElement.2 end.

Definition negated (r : outcome bool) : outcome bool := out! b := r in Some (Ok (negb b)).

Definition null_value : option (bson_value -> bool) := Some IsQueryFilterNullForValue.

Definition bson_dollar_eq document filter :=
  CompareBsonAgainstQuery document filter CompareEqualMatch null_value.
Definition bson_dollar_gt document filter :=
  CompareBsonAgainstQuery document filter CompareGreaterMatch None.
Definition bson_dollar_gte document filter :=
  CompareBsonAgainstQuery document filter CompareGreaterEqualMatch null_value.
Definition bson_dollar_lt document filter :=
  CompareBsonAgainstQuery document filter CompareLessMatch None.
Definition bson_dollar_lte document filter :=
  CompareBsonAgainstQuery document filter CompareLessEqualMatch null_value.
Definition bson_dollar_ne document filter :=
  negated (CompareBsonAgainstQuery document filter CompareEqualMatch null_value).
Definition bson_dollar_not_gt document filter :=
  negated (CompareBsonAgainstQuery document filter CompareGreaterMatch None).
Definition bson_dollar_not_gte document filter :=
  negated (CompareBsonAgainstQuery document filter CompareGreaterEqualMatch null_value).
Definition bson_dollar_not_lt document filter :=
  negated (CompareBsonAgainstQuery document filter CompareLessMatch None).
Definition bson_dollar_not_lte document filter :=
  negated (CompareBsonAgainstQuery document filter CompareLessEqualMatch null_value).
Definition bson_dollar_type document filter :=
  CompareBsonAgainstQuery document filter CompareArrayTypeMatch None.
Definition bson_dollar_merge_join_filter document filter := bson_dollar_eq document filter.

Definition bson_dollar_eq_object_id objectId filter :=
  CompareBsonAgainstObjectIdQuery objectId filter CompareEqualMatch.
Definition bson_dollar_gt_object_id objectId filter :=
  CompareBsonAgainstObjectIdQuery objectId filter CompareGreaterMatch.
Definition bson_dollar_gte_object_id objectId filter :=
  CompareBsonAgainstObjectIdQuery objectId filter CompareGreaterEqualMatch.
Definition bson_dollar_lt_object_id objectId filter :=
  CompareBsonAgainstObjectIdQuery objectId filter CompareLessMatch.
Definition bson_dollar_lte_object_id objectId filter :=
  CompareBsonAgainstObjectIdQuery objectId filter CompareLessEqualMatch.

Definition bson_value_dollar_eq element query :=
  CompareBsonValueAgainstQuery element query CompareEqualMatch null_value.
Definition bson_value_dollar_gt element query :=
  CompareBsonValueAgainstQuery element query CompareGreaterMatch None.
Definition bson_value_dollar_gte element query :=
  CompareBsonValueAgainstQuery element query CompareGreaterEqualMatch None.
Definition bson_value_dollar_lt element query :=
  CompareBsonValueAgainstQuery element query CompareLessMatch None.
Definition bson_value_dollar_lte element query :=
  CompareBsonValueAgainstQuery element query CompareLessEqualMatch None.
Definition bson_value_dollar_ne element query :=
  negated (CompareBsonValueAgainstQuery element query CompareEqualMatch null_value).
Definition bson_value_dollar_type element query :=
  CompareBsonValueAgainstQuery element query CompareArrayTypeMatch None.

(** $exists *)

Definition IsExistPositiveMatch (filter : bson_doc) : result bool :=
  let! filterElement := BsonIterToSinglePgbsonElement EnableCollation filter in
  BsonValueAsBool filterElement.2.

Definition bson_dollar_exists (document filter : bson_doc) : outcome bool :=
  out! existsPositiveMatch := Some (IsExistPositiveMatch filter) in
  out! matched := CompareBsonAgainstQuery document filter CompareExistsMatch None in
  Some (Ok (if existsPositiveMatch : bool then matched else negb matched)).

Definition bson_dollar_distinct_exists (document filter : bson_doc) : outcome bool :=
  CompareBsonAgainstQuery document filter CompareExistsMatch None.

Definition bson_value_dollar_exists (element : bson_value) (query : bson_doc) : outcome bool :=
  out! existsPositiveMatch := Some (IsExistPositiveMatch query) in
  out! matched := CompareBsonValueAgainstQuery element query CompareExistsMatch None in
  Some (Ok (if existsPositiveMatch : bool then matched else negb matched)).

(** $size *)

Definition bson_dollar_size (document filter : bson_doc) : outcome bool :=
  out! filterElement := Some (BsonIterToSinglePgbsonElement EnableCollation filter) in
  let matchFunc := stateless (fun v => CompareArraySizeMatch v filterElement.2) in
  TraverseBsonAndProcessQueryResult document (CompareTopLevelFieldExecutionFuncs matchFunc)
    filterElement.1 (initial_state tt) false.

Definition bson_value_dollar_size (element : bson_value) (query : bson_doc) : outcome bool :=
  out! filterElement := Some (BsonIterToSinglePgbsonElement EnableCollation query) in
  let matchFunc := stateless (fun v => CompareArraySizeMatch v filterElement.2) in
  CompareBsonValueAgainstQueryCore element filterElement.1 (initial_state tt) matchFunc
    (CompareTopLevelFieldExecutionFuncs matchFunc) false.

(** $regex *)

Definition PopulateRegexFromQuery (filterElement : bson_field) (hasObjectIdArg : bool)
  : result (bytes * bytes) :=
  let! regexData :=
    match filterElement.2 with
    | V_Regex regex options => Ok (default [] regex, default [] options)
    | V_Utf8 s => Ok (s, [])
    | _ => Err ERRCODE_DOCUMENTDB_BADVALUE
    end in
  if hasObjectIdArg && negb (bool_decide (filterElement.1 = id_path))
  then Err ERRCODE_DOCUMENTDB_INTERNALERROR
  else
    let! _ := RegexCompile regexData.1 regexData.2 in
    Ok regexData.

Definition bson_dollar_regex (document filter : bson_doc) : outcome bool :=
  out! filterElement := Some (BsonIterToSinglePgbsonElement EnableCollation filter) in
  out! regexData := Some (PopulateRegexFromQuery filterElement false) in
  let matchFunc := stateless (fun v => CompareRegexTextMatch v regexData) in
  TraverseBsonAndProcessQueryResult document (CompareExecutionFuncs matchFunc) filterElement.1
    (initial_state tt) false.

Definition bson_dollar_regex_object_id (objectId filter : bson_doc) : outcome bool :=
  out! filterElement := Some (BsonIterToSinglePgbsonElement EnableCollation filter) in
  out! regexData := Some (PopulateRegexFromQuery filterElement true) in
  out! documentElement := Some (BsonIterToSinglePgbsonElement EnableCollation objectId) in
  Some (CompareRegexTextMatch documentElement.2 regexData).

Definition bson_value_dollar_regex (element : bson_value) (filter : bson_doc) : outcome bool :=
  out! filterElement := Some (BsonIterToSinglePgbsonElement EnableCollation filter) in
  out! regexData := Some (PopulateRegexFromQuery filterElement false) in
  let matchFunc := stateless (fun v => CompareRegexTextMatch v regexData) in
  CompareBsonValueAgainstQueryCore element filterElement.1 (initial_state tt) matchFunc
    (CompareExecutionFuncs matchFunc) false.

(** $in and $nin: [hashset_utils.c] and the hash table of the values that are
    neither null nor a regular expression. *)

Definition HashStringWithCollation (collationString string : bytes) : result Z :=
  let! sortKey := GetCollationSortKey collationString string in
  Ok (hash_bytes sortKey).

(** What is added to [*hashValue]. *)
Fixpoint BsonValueHashFuncCore (bsonValue : bson_value) (collationString : option bytes)
  : result Z :=
  match (if IsCollationApplicable EnableCollation collationString then collationString else None) with
  | None => BsonValueHashUint32 bsonValue
  | Some coll =>
      match bsonValue with
      | V_Utf8 s | V_Symbol s => HashStringWithCollation coll s
      | V_Document fields | V_Array fields =>
          fold_right (fun f acc =>
            let! h := BsonValueHashFuncCore f.2 collationString in
            let! sum := acc in
            Ok (uint32 (h + sum))) (Ok 0) fields
      | _ => BsonValueHashUint32 bsonValue
      end
  end.

Definition BsonValueHashFunc (value : bson_value) : result Z := BsonValueHashFuncCore value None.

Definition BsonValueHashEntryCompareFunc (left right : bson_value) : result Z :=
  let! (cmp, _) := CompareBsonValueAndType left right in Ok cmp.

Definition BsonValueWithCollationHashFunc (coll : option bytes) (value : bson_value) : result Z :=
  BsonValueHashFuncCore value coll.

Definition BsonValueWithCollationHashEntryCompareFunc (coll : option bytes)
  (left right : bson_value) : result Z :=
  let! (cmp, _) := CompareBsonValueAndTypeWithCollation left right coll in
  Ok (if cmp =? 0 then 0 else 1).

(** [hash_search(..., HASH_FIND, &found)] in the set of a query. *)
Definition set_find (coll : option bytes) (keys : list bson_value) (key : bson_value)
  : result bool :=
  if IsCollationApplicable EnableCollation coll
  then hash_find (BsonValueWithCollationHashFunc coll)
         (BsonValueWithCollationHashEntryCompareFunc coll) keys key
  else hash_find BsonValueHashFunc BsonValueHashEntryCompareFunc keys key.

Record BsonDollarInQueryState : Type := mk_in {
  in_path : bytes;
  in_regexList : list (bytes * bytes);
  in_bsonValueHashSet : list bson_value;
  in_hasNull : bool;
  in_collationString : option bytes;
}.

(** A key that is found is not entered again. *)
Fixpoint populate_in (coll : option bytes) (entries : bson_doc)
  (regexList : list (bytes * bytes)) (keys : list bson_value) (hasNull : bool)
  : result (list (bytes * bytes) * list bson_value * bool) :=
  match entries with
  | [] => Ok (regexList, keys, hasNull)
  | (_, V_Null) :: rest => populate_in coll rest regexList keys true
  | (_, V_Regex regex options) :: rest =>
      let! _ := RegexCompile (default [] regex) (default [] options) in
      populate_in coll rest (regexList ++ [(default [] regex, default [] options)]) keys hasNull
  | (_, value) :: rest =>
      let! found := set_find coll keys value in
      populate_in coll rest regexList (if found : bool then keys else keys ++ [value]) hasNull
  end.

(** [BsonValueInitIterator] of a value that is neither an array nor a document
    is an error. *)
Definition PopulateDollarInStateFromQuery (filter : bson_doc) : result BsonDollarInQueryState :=
  let! (filterElement, coll) := PgbsonToSinglePgbsonElementWithCollation EnableCollation filter in
  match filterElement.2 with
  | V_Array entries | V_Document entries =>
      let! (regexList, keys, hasNull) := populate_in coll entries [] [] false in
      Ok (mk_in filterElement.1 regexList keys hasNull coll)
  | _ => Err ERRCODE_DOCUMENTDB_BADVALUE
  end.

Fixpoint any_regex_matches (value : bson_value) (regexList : list (bytes * bytes)) : result bool :=
  match regexList with
  | [] => Ok false
  | data :: rest =>
      let! b := CompareRegexTextMatch value data in
      if b : bool then Ok true else any_regex_matches value rest
  end.

Definition CompareInMatch (query : BsonDollarInQueryState) (value : bson_value) : result bool :=
  if in_hasNull query && (type_eqb (value_type value) BSON_TYPE_NULL ||
                          type_eqb (value_type value) BSON_TYPE_UNDEFINED) then Ok true
  else
    let! found := set_find (in_collationString query) (in_bsonValueHashSet query) value in
    if found : bool then Ok true else any_regex_matches value (in_regexList query).

(** The traversal of $in and $nin on a document. *)
Definition in_traversal (document : bson_doc) (query : BsonDollarInQueryState)
  : outcome (TraverseValidateState unit) :=
  let matchFunc := stateless (CompareInMatch query) in
  let existential := EnableExistentialNullArrayMatch && in_hasNull query in
  TraverseBson
    (if existential then CompareNullExecutionFuncs EnableExistentialNullArrayMatch matchFunc
     else CompareExecutionFuncs matchFunc)
    document (in_path query)
    (if existential then mk_validate tt CompareResult_Mismatch else initial_state tt).

Definition bson_dollar_in (document filter : bson_doc) : outcome bool :=
  out! query := Some (PopulateDollarInStateFromQuery filter) in
  out! state := in_traversal document query in
  Some (Ok (ProcessQueryResultAndGetMatch (in_hasNull query) state)).

Definition bson_dollar_in_object_id (objectId filter : bson_doc) : outcome bool :=
  out! query := Some (PopulateDollarInStateFromQuery filter) in
  if negb (bool_decide (in_path query = id_path)) then Some (Err ERRCODE_INTERNAL_ERROR)
  else
    out! objectIdElement := Some (BsonIterToSinglePgbsonElement EnableCollation objectId) in
    Some (CompareInMatch query objectIdElement.2).

Definition bson_dollar_lookup_join_filter (document filter : bson_doc) : outcome bool :=
  bson_dollar_in document filter.

Definition bson_dollar_nin (document filter : bson_doc) : outcome bool :=
  out! query := Some (PopulateDollarInStateFromQuery filter) in
  out! state := in_traversal document query in
  Some (Ok (if in_hasNull query
            then bool_decide (compareResult state = CompareResult_Mismatch)
            else negb (bool_decide (compareResult state = CompareResult_Match)))).

(** The filter has a null entry; other filters than arrays are refused. *)
Definition IsQueryFilterNullForArray (filter : bson_value) : result bool :=
  match filter with
  | V_Array entries => Ok (existsb (fun e => type_eqb (value_type e.2) BSON_TYPE_NULL) entries)
  | _ => Err ERRCODE_DOCUMENTDB_BADVALUE
  end.

(** The null test is made only after a traversal. *)
Definition bson_value_dollar_in (element : bson_value) (filter : bson_doc) : outcome bool :=
  out! query := Some (PopulateDollarInStateFromQuery filter) in
  out! (filterElement, _) := Some (PgbsonToSinglePgbsonElementWithCollation EnableCollation filter) in
  let matchFunc := stateless (CompareInMatch query) in
  match in_path query, element with
  | [], _ => out! (b, _) := Some (matchFunc element false tt) in Some (Ok b)
  | _, (V_Document fields | V_Array fields) =>
      out! state := TraverseBson (CompareExecutionFuncs matchFunc) fields (in_path query)
                      (initial_state tt) in
      out! isFilterNull := Some (IsQueryFilterNullForArray filterElement.2) in
      Some (Ok (ProcessQueryResultAndGetMatch isFilterNull state))
  | _, _ => Some (Ok false)
  end.

Definition bson_value_dollar_nin (element : bson_value) (filter : bson_doc) : outcome bool :=
  negated (bson_value_dollar_in element filter).

(** $all *)

(** The expression of an entry { "$elemMatch" : ... }. *)
Definition elem_match_of (entry : bson_value) : option bson_value :=
  match entry with
  | V_Document ((key, query) :: _) => if strcmp key (str "$elemMatch") =? 0 then Some query else None
  | _ => None
  end.

Record BsonDollarAllQueryState : Type := mk_all {
  all_path : bytes;
  all_entries : bson_doc;
  all_onlyNulls : bool;
  all_hasElemMatch : bool;
  all_collationString : option bytes;
}.

Fixpoint compile_regexes (entries : bson_doc) : result unit :=
  match entries with
  | [] => Ok tt
  | (_, V_Regex regex options) :: rest =>
      let! _ := RegexCompile (default [] regex) (default [] options) in compile_regexes rest
  | _ :: rest => compile_regexes rest
  end.

Definition PopulateDollarAllStateFromQuery (filter : bson_doc) : result BsonDollarAllQueryState :=
  let! (filterElement, coll) := PgbsonToSinglePgbsonElementWithCollation EnableCollation filter in
  match filterElement.2 with
  | V_Array entries =>
      let hasElemMatch := existsb (fun e => match elem_match_of e.2 with Some _ => true | None => false end)
                            entries in
      let! _ := if hasElemMatch then Ok tt else compile_regexes entries in
      Ok (mk_all filterElement.1 entries
            (forallb (fun e => type_eqb (value_type e.2) BSON_TYPE_NULL) entries) hasElemMatch coll)
  | _ => Err ERRCODE_DOCUMENTDB_BADVALUE
  end.

(** Whether a value meets one entry.  Regular expressions beside $elemMatch,
    which the planner refuses, have no compiled pattern. *)
Definition all_entry_matches (query : BsonDollarAllQueryState) (entry value : bson_value)
  : result bool :=
  match elem_match_of entry, entry with
  | Some expression, _ =>
      match value with
      | V_Array _ => EvalBooleanExpressionAgainstArray expression value
      | _ => Ok false
      end
  | None, V_Regex regex options =>
      if all_hasElemMatch query then Err ERRCODE_INTERNAL_ERROR
      else CompareRegexTextMatch value (default [] regex, default [] options)
  | None, _ =>
      let! (cmp, isComparisonValid) :=
        CompareBsonValueAndTypeWithCollation entry value (all_collationString query) in
      Ok (isComparisonValid && (cmp =? 0))
  end.

(** The loop over the entries and [matchState]: the new states, and [res]. *)
Fixpoint all_loop (query : BsonDollarAllQueryState) (value : bson_value) (entries : bson_doc)
  (matchState : list bool) (res : bool) : result (bool * list bool) :=
  match entries, matchState with
  | (_, entry) :: rest, b :: states =>
      if b : bool then
        let! (res, states) := all_loop query value rest states res in Ok (res, b :: states)
      else
        let! matched := all_entry_matches query entry value in
        let! (res, states) := all_loop query value rest states (res && matched) in
        Ok (res, matched :: states)
  | _, _ => Ok (res, matchState)
  end.

Definition CompareAllMatch (query : BsonDollarAllQueryState) (value : bson_value)
  (isFirstArrayTerm : bool) (matchState : list bool) : result (bool * list bool) :=
  all_loop query value (all_entries query) matchState true.

Definition bson_dollar_all (document filter : bson_doc) : outcome bool :=
  out! query := Some (PopulateDollarAllStateFromQuery filter) in
  match all_entries query with
  | [] => Some (Ok false)
  | entries =>
      TraverseBsonAndProcessQueryResult document
        (if all_hasElemMatch query then CompareTopLevelFieldExecutionFuncs (CompareAllMatch query)
         else CompareExecutionFuncs (CompareAllMatch query))
        (all_path query) (initial_state (map (fun _ => false) entries)) (all_onlyNulls query)
  end.

Definition bson_value_dollar_all (element : bson_value) (filter : bson_doc) : outcome bool :=
  out! query := Some (PopulateDollarAllStateFromQuery filter) in
  match all_entries query with
  | [] => Some (Ok false)
  | entries =>
      CompareBsonValueAgainstQueryCore element (all_path query)
        (initial_state (map (fun _ => false) entries)) (CompareAllMatch query)
        (CompareExecutionFuncs (CompareAllMatch query)) (all_onlyNulls query)
  end.

(** $range *)

Record DollarRangeParams : Type := mk_range {
  minValue : bson_value;
  maxValue : bson_value;
  isMinInclusive : bool;
  isMaxInclusive : bool;
  isFullScan : bool;
  isElemMatch : bool;
  isMinIndexKey : bool;
  isMaxIndexKey : bool;
  isSample : bool;
  isMergeSortInPrefixMarker : bool;
}.

Definition bson_iter_bool (v : bson_value) : bool := match v with V_Bool b => b | _ => false end.

(** One field of the range; the fields that only the planner uses are checked
    but not kept. *)
Definition range_field (p : DollarRangeParams) (key : bytes) (v : bson_value)
  : result DollarRangeParams :=
  let named s := strcmp key s =? 0 in
  let '(mk_range mn mx mni mxi full elem mnk mxk smp mark) := p in
  if named (str "min") then Ok (mk_range v mx mni mxi full elem mnk mxk smp mark)
  else if named (str "max") then Ok (mk_range mn v mni mxi full elem mnk mxk smp mark)
  else if named (str "minInclusive")
  then Ok (mk_range mn mx (bson_iter_bool v) mxi full elem mnk mxk smp mark)
  else if named (str "maxInclusive")
  then Ok (mk_range mn mx mni (bson_iter_bool v) full elem mnk mxk smp mark)
  else if named (str "fullScan") then Ok (mk_range mn mx mni mxi true elem mnk mxk smp mark)
  else if named (str "mergeSortInPrefix")
  then Ok (mk_range mn mx mni mxi true elem mnk mxk smp true)
  else if named (str "orderByScan") then
    let! _ := BsonValueAsInt32 v in Ok (mk_range mn mx mni mxi true elem mnk mxk smp mark)
  else if named (str "elemMatchIndexOp")
  then Ok (mk_range mn mx mni mxi full true mnk mxk smp mark)
  else if named (str "minIndexOp") then
    if mxk then Err ERRCODE_INTERNAL_ERROR
    else Ok (mk_range mn mx mni mxi full elem true mxk smp mark)
  else if named (str "maxIndexOp") then
    if mnk then Err ERRCODE_INTERNAL_ERROR
    else Ok (mk_range mn mx mni mxi full elem mnk true smp mark)
  else if named (str "dedupState") then Ok p
  else if named (str "numGroupKeyPaths") then
    let! n := BsonValueAsInt32 v in
    if n <=? 0 then Err ERRCODE_DOCUMENTDB_BADVALUE
    else Ok (mk_range mn mx mni mxi true elem mnk mxk smp mark)
  else if named (str "sample") then
    let! _ := BsonValueAsInt64 v in Ok (mk_range mn mx mni mxi full elem mnk mxk true mark)
  else if named (str "indexProjectionMetadata") then Ok p
  else Err ERRCODE_INTERNAL_ERROR.

Fixpoint range_fields (p : DollarRangeParams) (fields : bson_doc) : result DollarRangeParams :=
  match fields with
  | [] => Ok p
  | (key, v) :: rest => let! p := range_field p key v in range_fields p rest
  end.

Definition InitializeQueryDollarRange (filterValue : bson_value) : result DollarRangeParams :=
  match filterValue with
  | V_Document fields | V_Array fields =>
      let! p := range_fields (mk_range V_Eod V_Eod false false false false false false false false)
                  fields in
      if isFullScan p
      then Ok (mk_range V_MinKey V_MaxKey true true true (isElemMatch p) (isMinIndexKey p)
                 (isMaxIndexKey p) (isSample p) (isMergeSortInPrefixMarker p))
      else Ok p
  | _ => Err ERRCODE_DOCUMENTDB_BADVALUE
  end.

(** The two conditions on a value. *)
Definition range_conditions (params : DollarRangeParams) (v : bson_value) : result (bool * bool) :=
  let! minCondition :=
    if isMinInclusive params then CompareGreaterEqualMatch v (minValue params) None
    else CompareGreaterMatch v (minValue params) None in
  let! maxCondition :=
    if isMaxInclusive params then CompareLessEqualMatch v (maxValue params) None
    else CompareLessMatch v (maxValue params) None in
  Ok (minCondition, maxCondition).

(** [isMinConditionSet] and [isMaxConditionSet]. *)
Definition range_state : Type := (bool * bool)%type.

Definition DollarRangeVisitTopLevelField (params : DollarRangeParams) (element : bson_field)
  (filterPath : StringView) (state : TraverseValidateState range_state)
  : result (TraverseValidateState range_state * bool) :=
  let! (minCondition, maxCondition) := range_conditions params element.2 in
  if minCondition && maxCondition
  then Ok (mk_validate (operatorState state) CompareResult_Match, false)
  else Ok (mk_validate (operatorState state) CompareResult_Mismatch, true).

Definition DollarRangeVisitArrayField (params : DollarRangeParams) (element : bson_field)
  (filterPath : StringView) (arrayIndex : Z) (state : TraverseValidateState range_state)
  : result (TraverseValidateState range_state * bool) :=
  let '(minSet, maxSet) := if arrayIndex =? 0 then (false, false) else operatorState state in
  let! (minCondition, maxCondition) := range_conditions params element.2 in
  let minSet := minSet || minCondition in
  let maxSet := maxSet || maxCondition in
  if minSet && maxSet then Ok (mk_validate (minSet, maxSet) CompareResult_Match, false)
  else Ok (mk_validate (minSet, maxSet) CompareResult_Mismatch, true).

Definition CompareDollarRangeExecutionFuncs (params : DollarRangeParams)
  : TraverseBsonExecutionFuncs (TraverseValidateState range_state) :=
  mk_funcs (Some CompareSetTraverseResult) (DollarRangeVisitTopLevelField params)
    (Some (DollarRangeVisitArrayField params)) CompareContinueProcessIntermediateArray
    None None None.

Definition bson_dollar_range (document filter : bson_doc) : outcome bool :=
  out! parsed := Some (BsonIterToSinglePgbsonElement EnableCollation filter) in
  out! params := Some (InitializeQueryDollarRange parsed.2) in
  out! (filterElement, collationString) :=
    Some (PgbsonToSinglePgbsonElementWithCollation EnableCollation filter) in
  if IsCollationValid collationString then Some (Err ERRCODE_DOCUMENTDB_INTERNALERROR)
  else if isMergeSortInPrefixMarker params then Some (Err ERRCODE_DOCUMENTDB_INTERNALERROR)
  else if isFullScan params || isElemMatch params || isMinIndexKey params || isMaxIndexKey params
  then Some (Ok true)
  else if isSample params then Some (Err ERRCODE_DOCUMENTDB_INTERNALERROR)
  else
    TraverseBsonAndProcessQueryResult document (CompareDollarRangeExecutionFuncs params)
      filterElement.1 (initial_state (false, false))
      ((isMaxInclusive params || isMinInclusive params) &&
       IsQueryFilterNullForValue filterElement.2).
End queries.

(** ** The callbacks implement the search interface *)

Definition match_visit {M} (matchFunc : bson_value -> bool -> M -> result (bool * M))
  (x : visit) (m : M) : result (bool * M) :=
  match x with
  | VisitTop v => matchFunc v false m
  | VisitElement i v => matchFunc v (i =? 0) m
  end.

Definition missed_compare (x : visit) (r : CompareResult) : CompareResult :=
  match x with VisitTop _ => CompareResult_Mismatch | VisitElement _ _ => r end.

Definition recorded_compare (r : CompareResult) (t : TraverseBsonResult) : CompareResult :=
  match t with
  | TraverseBsonResult_TypeMismatch => CompareResult_Mismatch
  | _ => CompareResult_PathNotFound
  end.

(** With the existential semantics of null, "not found" is kept. *)
Definition missed_null (x : visit) (r : CompareResult) : CompareResult :=
  match x with
  | VisitTop _ => if bool_decide (r = CompareResult_PathNotFound) then r else CompareResult_Mismatch
  | VisitElement _ _ => r
  end.

Definition recorded_null (r : CompareResult) (t : TraverseBsonResult) : CompareResult :=
  match t with
  | TraverseBsonResult_PathNotFound => CompareResult_PathNotFound
  | TraverseBsonResult_TypeMismatch => r
  | TraverseBsonResult_ArrayIndexNotFound =>
      if bool_decide (r = CompareResult_PathNotFound) then r else CompareResult_Mismatch
  end.

Ltac solve_search :=
  split; simpl;
    [ intros; unfold CompareVisitTopLevelField, CompareVisitTopLevelFieldForNulls; simpl;
      match goal with |- context [?f ?v false ?m] => destruct (f v false m) as [[[] ?]|] end; simpl;
      try done; by case_bool_decide
    | try (eexists; split; [done|]; intros; unfold CompareVisitArrayField; simpl;
           match goal with |- context [?f ?v (?i =? 0) ?m] => destruct (f v (i =? 0) m) as [[[] ?]|] end;
           done); try done
    | done
    | eexists; split; [done|]; intros ? []; simpl; try done;
      unfold CompareSetTraverseResultForNulls; simpl; by case_bool_decide
    | done | done | done
    | intros [] []; simpl; try done; by case_bool_decide
    | intros [] []; simpl; try done; by case_bool_decide ].

#[export] Instance compare_search {M} (f : bson_value -> bool -> M -> result (bool * M)) :
  SearchFuncs true (CompareExecutionFuncs f) (match_visit f) missed_compare recorded_compare.
Proof. solve_search. Qed.

#[export] Instance top_level_search {M} (f : bson_value -> bool -> M -> result (bool * M)) :
  SearchFuncs false (CompareTopLevelFieldExecutionFuncs f) (match_visit f) missed_compare
    recorded_compare.
Proof. solve_search. Qed.

#[export] Instance null_search {M} (f : bson_value -> bool -> M -> result (bool * M)) :
  SearchFuncs true (CompareNullExecutionFuncs true f) (match_visit f) missed_null recorded_null.
Proof. solve_search. Qed.

(** ** What a search finds *)

(** A match function that answers [g] finds a value where [g] holds. *)
Lemma search_stateless f g xs :
  Forall (fun x => f (visited x) = Ok (g (visited x))) xs ->
  search (match_visit (stateless f)) xs tt = Ok (existsb g (visited <$> xs), tt).
Proof.
  induction 1 as [|x xs Hx _ IH]; [done|]. cbn [search].
  assert (match_visit (stateless f) x tt = Ok (g (visited x), tt)) as ->.
  { destruct x; simpl in *; unfold stateless; by rewrite Hx. }
  cbn [result_bind]. simpl. destruct (g (visited x)); [done|]. apply IH.
Qed.

Section missing.
Context {F : FindField}.
Abbreviation result_null := (path_result true missed_null recorded_null).

Lemma null_latch keys doc inArray :
  (result_null keys doc inArray CompareResult_PathNotFound).1 = CompareResult_PathNotFound.
Proof.
  revert doc inArray. induction keys as [|key rest IH]; intros doc inArray; [done|].
  cbn [path_result]. destruct (bson_iter_find_w_len doc key) as [v|]; [|by destruct inArray].
  destruct rest as [|next rest'].
  { generalize (leaf_visits true inArray v). intros xs. cbn [fst recorded_null].
    induction xs as [|[] xs IHx]; [done|exact IHx|exact IHx]. }
  destruct v; try (by destruct inArray).
  set (first := if starts_with_digit next then _ else _).
  assert (first.1 = CompareResult_PathNotFound) as H1 by (unfold first; case_match; [by apply IH|done]).
  destruct first as [r1 nf]. cbn [fst] in H1. subst r1.
  match goal with |- context [fold_left ?f v_doc _] =>
    assert (forall b, (fold_left f v_doc (CompareResult_PathNotFound, b)).1 = CompareResult_PathNotFound)
      as Hfold end.
  { induction v_doc as [|[k e] es IHe]; intros b; [done|]. cbn [fold_left snd].
    destruct e; try apply IHe. specialize (IH v_doc false). cbn [fst].
    destruct (result_null (next :: rest') v_doc false CompareResult_PathNotFound) as [r b'].
    cbn [fst] in IH. subst r. apply IHe. }
  specialize (Hfold false). destruct (fold_left _ _ _) as [r2 enf]. cbn [fst] in Hfold. subst r2.
  by destruct (nf && enf).
Qed.

(** A traversal that returns "not found" has met a document without the field. *)
Lemma null_not_found keys doc r :
  (result_null keys doc false r).2 = true -> path_missing keys doc false = true.
Proof.
  revert doc r. induction keys as [|key rest IH]; intros doc r; [done|].
  cbn [path_result path_missing]. destruct (bson_iter_find_w_len doc key) as [v|]; [|done].
  destruct rest as [|next rest']; [done|].
  destruct v; try apply IH; try done.
  destruct (if starts_with_digit next then _ else _) as [r1 nf].
  match goal with |- context [fold_left ?f v_doc _] =>
    assert (forall acc, (fold_left f v_doc acc).2 = true -> acc.2 = true \/
      existsb (fun e => match e.2 with V_Document fields => path_missing (next :: rest') fields false
                                     | _ => false end) v_doc = true) as Hfold end.
  { induction v_doc as [|[k e] es IHe]; intros acc; [by left|]. cbn [fold_left existsb snd].
    intros Hacc%IHe. destruct Hacc as [Hacc|Hacc]; [|rewrite Hacc, orb_true_r; by right].
    destruct e; try (by left). specialize (IH v_doc acc.1).
    destruct (result_null (next :: rest') v_doc false acc.1) as [r' nf']. cbn [snd] in *.
    apply orb_true_iff in Hacc as [?|Hacc]; [by left|]. rewrite (IH Hacc). by right. }
  specialize (Hfold (r1, false)). destruct (fold_left _ _ _) as [r2 enf]. cbn [snd] in *.
  destruct nf, enf; cbn [andb fst snd]; try done. intros _.
  destruct (Hfold eq_refl) as [?|Hex]; [done|]. rewrite Hex. apply orb_true_r.
Qed.

(** The result is "not found" exactly when the field is missing somewhere. *)
Lemma null_missing keys doc inArray :
  (result_null keys doc inArray CompareResult_Mismatch).1 =
  if path_missing keys doc inArray then CompareResult_PathNotFound else CompareResult_Mismatch.
Proof.
  revert doc inArray. induction keys as [|key rest IH]; intros doc inArray; [done|].
  pose proof (null_not_found (key :: rest) doc CompareResult_Mismatch) as Hnf.
  cbn [path_missing path_result] in *.
  destruct (bson_iter_find_w_len doc key) as [v|] eqn:Ef; [|by destruct inArray].
  destruct rest as [|next rest'].
  { clear Hnf. generalize (leaf_visits true inArray v). intros xs.
    cbn [fst recorded_null]. induction xs as [|[] xs IHx]; [done|exact IHx|exact IHx]. }
  destruct v; try (by destruct inArray).
  set (first := if starts_with_digit next then result_null _ _ _ _ else _) in *.
  assert (first.1 = if starts_with_digit next && path_missing (next :: rest') v_doc true
                    then CompareResult_PathNotFound else CompareResult_Mismatch) as H1.
  { unfold first. destruct (starts_with_digit next); [apply IH|done]. }
  destruct first as [r1 nf]. cbn [fst] in H1.
  match goal with |- context [fold_left ?f v_doc _] =>
    assert (forall b (c : bool), (fold_left f v_doc
        (if c then CompareResult_PathNotFound else CompareResult_Mismatch, b)).1 =
      if c || existsb (fun e => match e.2 with
                                | V_Document fields => path_missing (next :: rest') fields false
                                | _ => false
                                end) v_doc
      then CompareResult_PathNotFound else CompareResult_Mismatch) as Hfold end.
  { clear Hnf H1 Ef. induction v_doc as [|[k e] es IHe]; intros b c; [by destruct c|].
    cbn [fold_left snd existsb].
    destruct e; try apply IHe. specialize (IH v_doc false). pose proof (null_latch (next :: rest') v_doc false) as Hl.
    cbn [fst snd].
    destruct c; [destruct (result_null _ _ _ CompareResult_PathNotFound) as [r b'];
                 cbn [fst] in Hl; subst r; by apply (IHe _ true)|].
    destruct (result_null _ _ _ CompareResult_Mismatch) as [r b']. cbn [fst] in IH. subst r.
    cbn [orb]. apply IHe. }
  specialize (Hfold false (starts_with_digit next && path_missing (next :: rest') v_doc true)).
  rewrite <- H1 in Hfold. destruct (fold_left _ _ (r1, false)) as [r2 enf]. cbn [fst] in Hfold.
  destruct (nf && enf); cbn [fst snd] in *; [|done]. by rewrite Hnf.
Qed.
End missing.

(** ** The comparison operators *)

Inductive comparison_operator : Set := OpEq | OpGt | OpGte | OpLt | OpLte.

Definition compare_func {L : BidLib} {I : Icu} (op : comparison_operator)
  : bson_value -> bson_value -> option bytes -> result bool :=
  match op with
  | OpEq => CompareEqualMatch
  | OpGt => CompareGreaterMatch
  | OpGte => CompareGreaterEqualMatch
  | OpLt => CompareLessMatch
  | OpLte => CompareLessEqualMatch
  end.

Definition op_accepts (op : comparison_operator) (c : comparison) : bool :=
  match op, c with
  | (OpEq | OpGte | OpLte), Eq => true
  | (OpGt | OpGte), Gt => true
  | (OpLt | OpLte), Lt => true
  | _, _ => false
  end.

(** The operators that a missing field satisfies against null. *)
Definition op_null (op : comparison_operator) : bool :=
  match op with OpEq | OpGte | OpLte => true | OpGt | OpLt => false end.

Section comparison.
Context {L : BidLib} {BL : BidLaws L} {I : Icu} {IL : IcuLaws I}.

(** A value stands in the relation of the operator to the filter's value: both
    are of one order class, NaN compares with NaN only, and the order decides.
    Everything else than MinKey is above MinKey, and below MaxKey. *)
Definition op_holds (op : comparison_operator) (coll : option bytes) (filter v : bson_value)
  : bool :=
  match op, filter with
  | OpGt, V_MinKey => negb (type_eqb (value_type v) BSON_TYPE_MINKEY)
  | OpGte, V_MinKey => true
  | OpLt, V_MaxKey => negb (type_eqb (value_type v) BSON_TYPE_MAXKEY)
  | OpLte, V_MaxKey => true
  | _, _ =>
      (class_of v =? class_of filter) &&
      Bool.eqb (is_xnan (number_of v)) (is_xnan (number_of filter)) &&
      op_accepts op (bson_order (depth v) coll v filter)
  end.

Lemma logical_operator coll filter v :
  wf_value v = true -> wf_value filter = true ->
  exists z valid, CompareLogicalOperatorWithCollation v filter coll = Ok (z, valid) /\
    forall op, op_accepts op (sgn_cmp z) && valid =
      (class_of v =? class_of filter) &&
      Bool.eqb (is_xnan (number_of v)) (is_xnan (number_of filter)) &&
      op_accepts op (bson_order (depth v) coll v filter).
Proof.
  intros Wv Wf. unfold CompareLogicalOperatorWithCollation.
  destruct (class_difference v filter) as [-> _].
  destruct (Z.eqb_spec (class_of v) (class_of filter)) as [E|E].
  - destruct (compare_and_type_refines (depth v) coll v filter) as (z & -> & Sz); [lia|done..|].
    rewrite (proj2 (Z.eqb_eq _ _) E). eexists _, _. split; [done|]. intros op. rewrite Sz.
    cbn [andb]. apply andb_comm.
  - eexists _, _. split; [done|]. intros op. by rewrite andb_false_r.
Qed.

Lemma compare_func_decides op coll filter v :
  wf_value v = true -> wf_value filter = true ->
  compare_func op v filter coll = Ok (op_holds op coll filter v).
Proof.
  intros Wv Wf. destruct (logical_operator coll filter v Wv Wf) as (z & valid & E & Hop).
  unfold op_holds. rewrite <- (Hop op).
  assert (forall b, valid && b = b && valid) as Hc by (intros; apply andb_comm).
  destruct op; cbn [compare_func];
    unfold CompareEqualMatch, CompareGreaterMatch, CompareGreaterEqualMatch, CompareLessMatch,
      CompareLessEqualMatch.
  1:{ destruct (type_eqb (value_type filter) BSON_TYPE_NULL &&
                type_eqb (value_type v) BSON_TYPE_UNDEFINED) eqn:Eb.
      - apply andb_true_iff in Eb as [E1 E2]. unfold type_eqb in *. rewrite bool_decide_eq_true in E1, E2.
        destruct filter, v; try done. by injection E as <- <-.
      - rewrite E. cbn [result_bind]. rewrite Hc. by destruct z. }
  all: destruct filter; cbn [value_type type_eqb]; try done; rewrite E; cbn [result_bind];
    rewrite Hc; by destruct z.
Qed.
End comparison.

(** ** Type names and codes *)

(** Type names and codes.  The name of every type (the end-of-document
    marker has none) is read back as that type, and the numeric code of every
    type is too; MinKey has the code -1, and 255, its code in the enumeration,
    is refused. *)
Theorem type_names_roundtrip (t : bson_type) :
  (t = BSON_TYPE_EOD \/ exists name, BsonTypeName t = Ok name /\ BsonTypeFromName name = Ok t) /\
  TryGetTypeFromInt64 (if type_eqb t BSON_TYPE_MINKEY then -1 else bson_type_code t) = Some t /\
  TryGetTypeFromInt64 255 = None.
Proof.
  split_and!; [|by destruct t|done].
  destruct t; try (by left); right; eexists; split; reflexivity.
Qed.

(** A type code is cut to 32 bits.  4294967298, which is no type code, is
    accepted as the code 2 of strings. *)
Theorem type_code_truncated : TryGetTypeFromInt64 (2 ^ 32 + 2) = Some BSON_TYPE_UTF8.
Proof. reflexivity. Qed.

Section operators.
Context {L : BidLib} {BL : BidLaws L} {I : Icu} {IL : IcuLaws I}.
Context {P : Pcre} {E : ExprEval} {T : DynaHash} {H : PgHash}.
Context {F : FindField} {FL : FindFieldLaws F} (EnableCollation : bool).

Definition dollar (op : comparison_operator) : bson_doc -> bson_doc -> outcome bool :=
  match op with
  | OpEq => bson_dollar_eq EnableCollation true
  | OpGt => bson_dollar_gt EnableCollation true
  | OpGte => bson_dollar_gte EnableCollation true
  | OpLt => bson_dollar_lt EnableCollation true
  | OpLte => bson_dollar_lte EnableCollation true
  end.

Definition dollar_not (op : comparison_operator) : bson_doc -> bson_doc -> outcome bool :=
  match op with
  | OpEq => bson_dollar_ne EnableCollation true
  | OpGt => bson_dollar_not_gt EnableCollation true
  | OpGte => bson_dollar_not_gte EnableCollation true
  | OpLt => bson_dollar_not_lt EnableCollation true
  | OpLte => bson_dollar_not_lte EnableCollation true
  end.

Definition dollar_object_id (op : comparison_operator) : bson_doc -> bson_doc -> result bool :=
  match op with
  | OpEq => bson_dollar_eq_object_id EnableCollation
  | OpGt => bson_dollar_gt_object_id EnableCollation
  | OpGte => bson_dollar_gte_object_id EnableCollation
  | OpLt => bson_dollar_lt_object_id EnableCollation
  | OpLte => bson_dollar_lte_object_id EnableCollation
  end.

(** What the filter asks: a path, a value and a collation. *)
Definition asks (filter : bson_doc) (path : bytes) (value : bson_value) (coll : option bytes) : Prop :=
  PgbsonToSinglePgbsonElementWithCollation EnableCollation filter = Ok ((path, value), coll) /\
  cstrb path = true /\ wf_value value = true.

(** A match function that answers on the values of the path. *)
Definition answers (inner : bool) (path : bytes) (document : bson_doc)
  (f : bson_value -> result bool) (g : bson_value -> bool) : Prop :=
  Forall (fun v => f v = Ok (g v)) (path_values inner path document).

Lemma answers_wf inner path document f g :
  wf_fields document = true -> (forall v, wf_value v = true -> f v = Ok (g v)) ->
  answers inner path document f g.
Proof.
  intros W Hf. unfold answers. pose proof (wf_path_values inner path document W) as Hw.
  revert Hw. apply Forall_impl. auto.
Qed.

Lemma search_values inner f g path document :
  answers inner path document f g ->
  search (match_visit (stateless f)) (path_visits inner (split_path path) document false) tt =
  Ok (existsb g (path_values inner path document), tt).
Proof. unfold answers, path_values. rewrite Forall_fmap. apply search_stateless. Qed.

(** The traversal of an operator without null semantics, and with it. *)
Lemma plain_query f g path document :
  cstrb path = true -> answers true path document f g ->
  TraverseBsonAndProcessQueryResult document (CompareExecutionFuncs (stateless f)) path
    (initial_state tt) false = Some (Ok (existsb g (path_values true path document))).
Proof.
  intros Hp Hf. unfold TraverseBsonAndProcessQueryResult.
  rewrite (TraverseBson_search true _ (match_visit (stateless f)) missed_compare recorded_compare) by done.
  cbn [initial_state operatorState compareResult]. rewrite (search_values true f g) by done.
  cbn [result_bind out_bind]. unfold ProcessQueryResultAndGetMatch. cbn [compareResult].
  destruct (existsb _ _); [by rewrite bool_decide_true|]. rewrite bool_decide_false; [done|].
  apply (path_result_not_match true (CompareExecutionFuncs (stateless f)) (match_visit (stateless f)));
    [apply _|done].
Qed.

Lemma null_traversal f g path document :
  cstrb path = true -> answers true path document f g ->
  TraverseBson (CompareNullExecutionFuncs true (stateless f)) document path
    (mk_validate tt CompareResult_Mismatch) =
  Some (Ok (mk_validate tt
    (if existsb g (path_values true path document) then CompareResult_Match
     else if path_missing (split_path path) document false then CompareResult_PathNotFound
     else CompareResult_Mismatch))).
Proof.
  intros Hp Hf.
  rewrite (TraverseBson_search true _ (match_visit (stateless f)) missed_null recorded_null) by done.
  cbn [operatorState compareResult]. rewrite (search_values true f g) by done.
  cbn [result_bind]. by rewrite null_missing.
Qed.

Lemma null_query f g path document :
  cstrb path = true -> answers true path document f g ->
  TraverseBsonAndProcessQueryResult document (CompareNullExecutionFuncs true (stateless f)) path
    (mk_validate tt CompareResult_Mismatch) true =
  Some (Ok (existsb g (path_values true path document) ||
            path_missing (split_path path) document false)).
Proof.
  intros Hp Hf. unfold TraverseBsonAndProcessQueryResult.
  rewrite (null_traversal f g) by done. cbn [out_bind].
  unfold ProcessQueryResultAndGetMatch. cbn [compareResult].
  by destruct (existsb _ _), (path_missing _ _ _).
Qed.

Lemma dollar_spec op document filter path value coll :
  asks filter path value coll -> wf_fields document = true ->
  dollar op document filter =
  Some (Ok (existsb (op_holds op coll value) (path_values true path document) ||
            op_null op && IsQueryFilterNullForValue value &&
            path_missing (split_path path) document false)).
Proof.
  intros (Ef & Hp & Wf) W.
  assert (dollar op document filter =
    CompareBsonAgainstQuery EnableCollation true document filter (compare_func op)
      (if op_null op then null_value else None)) as -> by by destruct op.
  unfold CompareBsonAgainstQuery. rewrite Ef. cbn [out_bind fst snd].
  assert (match (if op_null op then null_value else None) with
          | None => false | Some f => f value end = op_null op && IsQueryFilterNullForValue value) as ->
    by by destruct op.
  assert (answers true path document (fun v => compare_func op v value coll) (op_holds op coll value))
    as Hd by (apply answers_wf; [done|]; intros v Wv; by apply compare_func_decides).
  destruct (op_null op && IsQueryFilterNullForValue value); cbn [andb].
  - by apply null_query.
  - rewrite orb_false_r. by apply plain_query.
Qed.


(** C32: The shortcut on the object id.  When the filter is on "_id" and the
    document's _id is not an array, evaluating the operator on the _id alone
    gives the answer of evaluating it on the document. *)
Theorem object_id_shortcut op document filter key value coll id :
  asks filter id_path value coll -> wf_fields document = true ->
  bson_iter_find_w_len document id_path = Some id -> (forall es, id <> V_Array es) ->
  dollar op document filter = Some (dollar_object_id op [(key, id)] filter).
Proof.
  intros Ha W Hid Hna. pose proof (wf_find _ _ _ W Hid) as Wid.
  rewrite (dollar_spec op document filter id_path value coll) by done.
  assert (split_path id_path = [id_path]) as Es by done.
  assert (path_values true id_path document = [id]) as Ev.
  { unfold path_values. rewrite Es. cbn [path_visits]. rewrite Hid. unfold leaf_visits.
    destruct id; try done. by destruct (Hna v_doc). }
  assert (path_missing (split_path id_path) document false = false) as Em.
  { rewrite Es. cbn [path_missing]. by rewrite Hid. }
  rewrite Ev, Em, andb_false_r, orb_false_r. cbn [existsb]. rewrite orb_false_r.
  destruct Ha as (Ef & _ & Wf).
  assert (dollar_object_id op [(key, id)] filter =
    CompareBsonAgainstObjectIdQuery EnableCollation [(key, id)] filter (compare_func op)) as ->
    by by destruct op.
  unfold CompareBsonAgainstObjectIdQuery. cbn [BsonIterToSinglePgbsonElement result_bind].
  rewrite Ef. cbn [result_bind fst snd]. rewrite bool_decide_true by done. cbn [negb].
  by rewrite compare_func_decides.
Qed.

(** *** $exists, $size and $type *)

Lemma count_elements_spec elements size n :
  0 <= n <= size + 1 ->
  (size =? count_elements elements size n) = (size =? n + Z.of_nat (length elements)).
Proof.
  revert n. induction elements as [|f elements IH]; intros n Hn; cbn [count_elements length].
  { by rewrite Z.add_0_r. }
  destruct (Z.leb_spec n size).
  - rewrite IH by lia. f_equal. lia.
  - rewrite !(proj2 (Z.eqb_neq _ _)) by lia. done.
Qed.

Definition has_size (size : Z) (v : bson_value) : bool :=
  match v with V_Array elements => size =? Z.of_nat (length elements) | _ => false end.

(** C33: $exists and $size.  $exists with a truthy argument matches exactly the
    documents in which the path has a value, with another argument the other
    documents; $size matches when a value at the end of the path (elements of
    arrays found there not included) is an array of exactly that size, and
    never for a negative size. *)
Theorem exists_and_size_correct document filter path value positive size :
  asks filter path value None -> BsonIterToSinglePgbsonElement EnableCollation filter = Ok (path, value) ->
  wf_fields document = true ->
  BsonValueAsBool value = Ok positive -> BsonValueAsInt64 value = Ok size ->
  bson_dollar_exists EnableCollation true document filter =
    Some (Ok (Bool.eqb positive (negb (bool_decide (path_values true path document = []))))) /\
  bson_dollar_size EnableCollation document filter =
    Some (Ok (existsb (has_size size) (path_values false path document))).
Proof.
  intros (Ef & Hp & Wf) Es W Hb Hi. split.
  - unfold bson_dollar_exists, IsExistPositiveMatch. rewrite Es. cbn [result_bind snd]. rewrite Hb.
    cbn [out_bind]. unfold CompareBsonAgainstQuery. rewrite Ef. cbn [out_bind fst snd].
    rewrite (plain_query _ (fun _ => true)); [|done|by apply answers_wf]. cbn [out_bind].
    destruct (path_values true path document) as [|v vs]; by destruct positive.
  - unfold bson_dollar_size. rewrite Es. cbn [out_bind fst snd].
    unfold TraverseBsonAndProcessQueryResult.
    set (f := fun v => CompareArraySizeMatch v value).
    rewrite (TraverseBson_search false _ (match_visit (stateless f)) missed_compare recorded_compare) by done.
    cbn [initial_state operatorState compareResult].
    rewrite (search_values false f (has_size size)).
    2:{ apply answers_wf; [done|]. intros v _. unfold f, CompareArraySizeMatch. destruct v; try done. rewrite Hi.
        cbn [result_bind has_size]. f_equal. destruct (Z.leb_spec 0 (size + 1)).
        - by rewrite count_elements_spec by lia.
        - rewrite (proj2 (Z.eqb_neq _ (Z.of_nat _))) by lia. apply Z.eqb_neq.
          destruct v_doc; cbn [count_elements]; [lia|]. rewrite (proj2 (Z.leb_gt _ _)) by lia. lia. }
    cbn [result_bind out_bind]. unfold ProcessQueryResultAndGetMatch. cbn [compareResult].
    destruct (existsb _ _); [by rewrite bool_decide_true|]. rewrite bool_decide_false; [done|].
    apply (path_result_not_match false (CompareTopLevelFieldExecutionFuncs (stateless f))
             (match_visit (stateless f))); [apply _|done].
Qed.
End operators.

(** ** Instances *)

(** Regular expressions that are plain strings, a hash table that is searched
    from its first key, and conditions that are never met. *)
Module Examples.
#[export] Instance plain_pcre : Pcre := {
  RegexCompile _ _ := Ok tt;
  PcreRegexExecute pattern _ subject := Ok (bool_decide (pattern = subject));
}.

#[export] Instance no_expression : ExprEval := fun _ _ => Ok false.

#[export] Instance scan_keys : DynaHash := fun hash compare keys key =>
  let! hk := hash key in
  fold_left (fun found k =>
    let! found := found in
    let! h := hash k in
    let! c := compare k key in
    Ok (found || (h =? hk) && (c =? 0))) keys (Ok false).

#[export] Instance scan_keys_laws : DynaHashLaws scan_keys.
Proof.
  intros hash compare h c keys key Hk Hkey. unfold hash_find, scan_keys. rewrite Hkey.
  cbn [result_bind]. change (existsb _ keys) with (false || existsb (fun k => (h k =? h key) && (c k =? 0)) keys).
  generalize false. induction Hk as [|k keys [Eh Ec] _ IH]; intros found; cbn [fold_left existsb].
  - by rewrite orb_false_r.
  - cbn [result_bind]. rewrite Eh. cbn [result_bind]. rewrite Ec. cbn [result_bind]. by rewrite IH, orb_assoc.
Qed.

#[export] Existing Instance sum_hash.

(** [{ "_id": 7, "a": [ { "b": 1 }, { "b": "x" }, { "b": 10 } ] }] *)
Definition sample : bson_doc :=
  [(id_path, V_Int32 7);
   (str "a", V_Array [(str "0", V_Document [(str "b", V_Int32 1)]);
                      (str "1", V_Document [(str "b", V_Utf8 (str "x"))]);
                      (str "2", V_Document [(str "b", V_Int32 10)])])].
End Examples.

Section examples.
Import ExactBid FoldCase FindFirst Examples.


Lemma object_id_shortcut_witness :
  dollar true OpLte sample [(id_path, V_Int32 7)] =
  Some (dollar_object_id true OpLte [([], V_Int32 7)] [(id_path, V_Int32 7)]).
Proof.
  apply (object_id_shortcut true OpLte sample [(id_path, V_Int32 7)] [] (V_Int32 7) None (V_Int32 7)).
  1: split_and!.
  6: discriminate.
  all: vm_compute; reflexivity.
Defined.

Lemma exists_and_size_correct_witness :
  bson_dollar_size true sample [(str "a", V_Int32 3)] = Some (Ok true).
Proof.
  refine (eq_trans (proj2 (exists_and_size_correct true sample [(str "a", V_Int32 3)] (str "a")
    (V_Int32 3) true 3 _ _ _ _ _)) _).
  1: split_and!.
  all: vm_compute; reflexivity.
Defined.
End examples.
