(* ===== verification/QuerySets.v ===== *)
(** * Query operators over several values: $all, $in, $nin and $range

    The definitions are in [QueryOperators]; the theorems here relate the
    operators with several values to $eq, $gt and $lt: $all is the conjunction
    of equalities, $in the disjunction (where equal values have equal hashes),
    $range is stricter than the conjunction of its bounds. *)

From Stdlib Require Import String.
From stdpp Require Import base numbers list option.
From Stdlib Require Import ZArith Lia.
From S2P Require Import Prelude Binary64 Bson PgbsonElement StringView Traversal Decimal128.
From S2P Require Import Collation BsonCompare BsonHash QueryOperators.

Section sets.
Context {L : BidLib} {BL : BidLaws L} {I : Icu} {IL : IcuLaws I}.
Context {P : Pcre} {E : ExprEval} {T : DynaHash} {TL : DynaHashLaws T} {H : PgHash}.
Context {F : FindField} {FL : FindFieldLaws F} (EnableCollation : bool).

(** ** Equality *)

Lemma order_stable n m coll v w :
  (depth v <= n)%nat -> (depth v <= m)%nat -> wf_value v = true -> wf_value w = true ->
  bson_order n coll v w = bson_order m coll v w.
Proof.
  intros Hn Hm Wv Ww.
  destruct (compare_and_type_refines n coll v w Hn Wv Ww) as (z & E1 & <-).
  destruct (compare_and_type_refines m coll v w Hm Wv Ww) as (z' & E2 & <-). congruence.
Qed.

(** The value is equal to the entry: $eq. *)
Definition equals (coll : option bytes) (entry v : bson_value) : bool := op_holds OpEq coll entry v.

Lemma equals_order n coll e v :
  (depth v <= n)%nat -> wf_value e = true -> wf_value v = true ->
  equals coll e v = true <-> bson_order n coll v e = Eq.
Proof.
  intros Hn We Wv. rewrite (order_stable n (depth v)) by done.
  unfold equals, op_holds. rewrite !andb_true_iff. split.
  - intros [_ Ho]. by destruct (bson_order (depth v) coll v e).
  - intros Ho. rewrite Ho. split; [|done].
    assert (exists d, depth v = S d) as [d Hd] by (destruct v; simpl; eauto).
    rewrite Hd in Ho. cbn [bson_order] in Ho. apply lex_eq in Ho as [H1 H2].
    unfold cmp_on in H1. apply Z.compare_eq_iff in H1. rewrite H1.
    apply payload_eq in H2 as [H2 _]. rewrite H2.
    split; [apply Z.eqb_refl|apply Bool.eqb_reflx].
Qed.

(** The comparison of an entry with a value decides it. *)
Lemma entry_compare coll e v :
  wf_value e = true -> wf_value v = true ->
  exists z b, CompareBsonValueAndTypeWithCollation e v coll = Ok (z, b) /\
    (z =? 0) = equals coll e v /\ b && (z =? 0) = equals coll e v.
Proof.
  intros We Wv. set (n := Nat.max (depth e) (depth v)).
  destruct (compare_and_type_refines n coll e v) as (z & -> & Sz); [lia|done|done|].
  eexists _, _. split; [done|].
  pose proof (equals_order n coll e v ltac:(lia) We Wv) as He.
  assert ((z =? 0) = equals coll e v) as Hz.
  { apply eq_true_iff_eq. rewrite He. rewrite (cmp_antisym (bson_order n coll)), <- Sz, Z.eqb_eq.
    by destruct z. }
  split; [done|]. destruct (equals coll e v) eqn:Eq1; rewrite Hz; [|by rewrite andb_false_r].
  rewrite andb_true_r. unfold equals, op_holds in Eq1. rewrite !andb_true_iff in Eq1.
  destruct Eq1 as [[E1 E2] _]. rewrite Z.eqb_eq in E1. rewrite E1, Z.eqb_refl.
  apply Bool.eqb_prop in E2. rewrite E2. apply Bool.eqb_reflx.
Qed.

(** ** $all *)

(** An entry that is compared for equality. *)
Definition plain_entry (e : bson_value) : bool :=
  match e with
  | V_Regex _ _ => false
  | _ => match elem_match_of e with Some _ => false | None => true end
  end.

Lemma plain_entry_matches query e v :
  plain_entry e = true -> wf_value e = true -> wf_value v = true ->
  all_entry_matches query e v = Ok (equals (all_collationString query) e v).
Proof.
  intros Hp We Wv. destruct (entry_compare (all_collationString query) e v We Wv) as (z & b & Ez & _ & Hz).
  unfold all_entry_matches. unfold plain_entry in Hp.
  destruct e; try (destruct (elem_match_of _); [done|]); try done; rewrite Ez; cbn [result_bind]; by rewrite Hz.
Qed.

(** The state of each entry after a value: met before, or by this value. *)
Definition met (coll : option bytes) (v : bson_value) (entries : bson_doc) (states : list bool) : list bool :=
  zip_with (fun e b => b || equals coll e.2 v) entries states.

Lemma all_loop_spec query v entries states res :
  Forall (fun e => plain_entry e.2 = true /\ wf_value e.2 = true) entries -> wf_value v = true ->
  length states = length entries ->
  all_loop query v entries states res =
  Ok (res && forallb id (met (all_collationString query) v entries states),
      met (all_collationString query) v entries states).
Proof.
  intros He Wv. revert states res. induction He as [|[k e] entries [Hp We] _ IH]; intros states res Hl.
  { destruct states; [|done]. cbn. by rewrite andb_true_r. }
  destruct states as [|b states]; [done|]. injection Hl as Hl. cbn [all_loop]. cbn [snd] in *.
  destruct b.
  - rewrite IH by done. done.
  - rewrite plain_entry_matches by done. cbn [result_bind]. rewrite IH by done. cbn [result_bind].
    do 2 f_equal. symmetry. apply andb_assoc.
Qed.

(** After the visits [xs]. *)
Definition met_by (coll : option bytes) (vs : list bson_value) (entries : bson_doc)
  (states : list bool) : list bool :=
  zip_with (fun e b => b || existsb (equals coll e.2) vs) entries states.

Lemma met_by_cons coll v vs entries states :
  met_by coll (v :: vs) entries states = met_by coll vs entries (met coll v entries states).
Proof.
  unfold met_by, met. revert states. induction entries as [|e entries IH]; intros [|b states]; try done.
  cbn [zip_with existsb]. by rewrite IH, orb_assoc.
Qed.

Lemma met_by_nil coll entries states :
  length states = length entries -> met_by coll [] entries states = states.
Proof.
  unfold met_by. revert entries. induction states as [|b states IH]; intros [|e entries] Hl; try done.
  injection Hl as Hl. cbn. by rewrite orb_false_r, IH.
Qed.

Lemma met_mono coll vs entries states :
  length states = length entries -> forallb id states = true ->
  forallb id (met_by coll vs entries states) = true.
Proof.
  unfold met_by. revert entries. induction states as [|b states IH]; intros [|e entries] Hl Hs; try done.
  injection Hl as Hl. cbn in *. apply andb_true_iff in Hs as [Hb Hs]. unfold id in Hb. subst b. by apply IH.
Qed.

Lemma all_search query entries xs states :
  all_entries query = entries ->
  Forall (fun e => plain_entry e.2 = true /\ wf_value e.2 = true) entries ->
  Forall (fun x => wf_value (visited x) = true) xs -> length states = length entries ->
  forallb id states = false ->
  exists states', search (match_visit (CompareAllMatch query)) xs states =
    Ok (forallb id (met_by (all_collationString query) (visited <$> xs) entries states), states').
Proof.
  intros Eq He. revert states. induction xs as [|x xs IH]; intros states Hx Hl Hs.
  { exists states. cbn [search fmap list_fmap]. by rewrite met_by_nil, Hs. }
  inversion Hx as [|? ? Wx Wxs]; subst. cbn [search fmap list_fmap].
  assert (match_visit (CompareAllMatch query) x states =
          all_loop query (visited x) (all_entries query) states true) as -> by by destruct x.
  rewrite all_loop_spec by done. cbn [result_bind andb]. rewrite met_by_cons.
  assert (length (met (all_collationString query) (visited x) (all_entries query) states) =
          length (all_entries query)) as Hl'.
  { unfold met. rewrite length_zip_with. lia. }
  destruct (forallb id (met _ _ _ _)) eqn:Em.
  - eexists. do 2 f_equal. symmetry. by apply met_mono.
  - by apply IH.
Qed.

(** The array of the filter, read by $all. *)
Lemma populate_all filter path entries coll :
  asks EnableCollation filter path (V_Array entries) coll ->
  Forall (fun e => plain_entry e.2 = true /\ wf_value e.2 = true) entries ->
  PopulateDollarAllStateFromQuery EnableCollation filter =
  Ok (mk_all path entries (forallb (fun e => type_eqb (value_type e.2) BSON_TYPE_NULL) entries)
        false coll).
Proof.
  intros (Ef & _ & _) He. unfold PopulateDollarAllStateFromQuery. rewrite Ef. cbn [result_bind fst snd].
  clear Ef. assert (existsb (fun e : bson_field => match elem_match_of e.2 with Some _ => true | None => false end)
            entries = false) as ->.
  { induction He as [|[k e] entries [Hp _] _ IH]; [done|]. cbn [existsb]. rewrite IH, orb_false_r.
    unfold plain_entry in Hp. cbn [snd] in *. by destruct e; try done; destruct (elem_match_of _). }
  assert (compile_regexes entries = Ok tt) as ->; [|done].
  induction He as [|[k e] entries [Hp _] _ IH]; [done|]. by destruct e.
Qed.


(** ** $range *)

(** The values at the end of the path, and whether each was reached through its
    position in an array. *)
Fixpoint path_leaves (keys : list bytes) (doc : bson_doc) (inArray : bool)
  : list (bson_value * bool) :=
  match keys with
  | [] => []
  | key :: rest =>
      match bson_iter_find_w_len doc key with
      | None => []
      | Some v =>
          match rest with
          | [] => [(v, inArray)]
          | next :: _ =>
              match v with
              | V_Document fields => path_leaves rest fields false
              | V_Array elements =>
                  (if starts_with_digit next then path_leaves rest elements true else []) ++
                  flat_map (fun e => match e.2 with
                                     | V_Document fields => path_leaves rest fields false
                                     | _ => []
                                     end) elements
              | _ => []
              end
          end
      end
  end.

Lemma visits_of_leaves inner keys doc inArray :
  path_visits inner keys doc inArray =
  flat_map (fun l => leaf_visits inner l.2 l.1) (path_leaves keys doc inArray).
Proof.
  revert doc inArray. induction keys as [|key rest IH]; intros doc inArray; [done|].
  cbn [path_visits path_leaves]. destruct (bson_iter_find_w_len doc key) as [v|]; [|done].
  destruct rest as [|next rest']; [cbn [flat_map fst snd]; by rewrite app_nil_r|].
  destruct v; try done. rewrite flat_map_app. f_equal.
  - destruct (starts_with_digit next); [apply IH|done].
  - induction v_doc as [|[k e] es IHe]; [done|]. cbn [flat_map snd]. rewrite flat_map_app, <- IHe. f_equal.
    by destruct e.
Qed.

Section range.
Context (params : DollarRangeParams).
Hypothesis wf_min : wf_value (minValue params) = true.
Hypothesis wf_max : wf_value (maxValue params) = true.

Definition above_min (v : bson_value) : bool :=
  op_holds (if isMinInclusive params then OpGte else OpGt) None (minValue params) v.
Definition below_max (v : bson_value) : bool :=
  op_holds (if isMaxInclusive params then OpLte else OpLt) None (maxValue params) v.

(** One place: a value within both bounds, or an array with an element above
    the lower bound and an element below the upper bound. *)
Definition in_range (leaf : bson_value * bool) : bool :=
  above_min leaf.1 && below_max leaf.1 ||
  match leaf with
  | (V_Array elements, false) =>
      existsb (fun e => above_min e.2) elements && existsb (fun e => below_max e.2) elements
  | _ => false
  end.

Definition range_visit (x : visit) (m : range_state) : result (bool * range_state) :=
  match x with
  | VisitTop v =>
      let! (mn, mx) := range_conditions params v in Ok (mn && mx, m)
  | VisitElement i v =>
      let '(minSet, maxSet) := if i =? 0 then (false, false) else m in
      let! (mn, mx) := range_conditions params v in
      Ok ((minSet || mn) && (maxSet || mx), (minSet || mn, maxSet || mx))
  end.

#[export] Instance range_search :
  SearchFuncs true (CompareDollarRangeExecutionFuncs params) range_visit
    (fun _ _ => CompareResult_Mismatch) recorded_compare.
Proof.
  split; try done.
  - intros key v path st. simpl. unfold DollarRangeVisitTopLevelField. simpl.
    destruct (range_conditions params v) as [[mn mx]|]; [|done]. simpl. by destruct (mn && mx).
  - eexists. split; [done|]. intros key v path i st. simpl. unfold DollarRangeVisitArrayField. simpl.
    destruct (if i =? 0 then _ else _) as [a b].
    destruct (range_conditions params v) as [[mn mx]|]; [|done]. simpl.
    by destruct ((a || mn) && (b || mx)).
  - eexists. split; [done|]. by intros st [].
  - by intros [] r.
Qed.

Lemma conditions_spec v :
  wf_value v = true -> range_conditions params v = Ok (above_min v, below_max v).
Proof.
  intros Wv. unfold range_conditions, above_min, below_max.
  destruct (isMinInclusive params), (isMaxInclusive params);
    pose proof (fun op => compare_func_decides op None (minValue params) v Wv wf_min) as H1;
    pose proof (fun op => compare_func_decides op None (maxValue params) v Wv wf_max) as H2;
    rewrite ?(H1 OpGte), ?(H1 OpGt); 
    [change CompareGreaterEqualMatch with (compare_func OpGte); change CompareLessEqualMatch with (compare_func OpLte)
    |change CompareGreaterEqualMatch with (compare_func OpGte); change CompareLessMatch with (compare_func OpLt)
    |change CompareGreaterMatch with (compare_func OpGt); change CompareLessEqualMatch with (compare_func OpLte)
    |change CompareGreaterMatch with (compare_func OpGt); change CompareLessMatch with (compare_func OpLt)];
    by rewrite H1, H2.
Qed.

(** The elements after the first ones. *)
Lemma range_elements elements i a b :
  0 < i -> Forall (fun e : bson_field => wf_value e.2 = true) elements -> a && b = false ->
  exists m, search range_visit (elements_from elements i) (a, b) =
    Ok ((a || existsb (fun e => above_min e.2) elements) &&
        (b || existsb (fun e => below_max e.2) elements), m).
Proof.
  intros Hi He. revert i a b Hi. induction He as [|[k e] elements We _ IH]; intros i a b Hi Hab.
  { exists (a, b). cbn [existsb]. rewrite !orb_false_r, Hab. done. }
  rewrite elements_from_cons. cbn [search range_visit]. rewrite (proj2 (Z.eqb_neq i 0)) by lia.
  rewrite conditions_spec by done. cbn [result_bind existsb snd]. rewrite !orb_assoc.
  destruct ((a || above_min e) && (b || below_max e)) eqn:Em.
  - apply andb_true_iff in Em as [-> ->]. by eexists.
  - apply IH; [lia|done].
Qed.

Lemma range_leaf leaf m :
  wf_value leaf.1 = true ->
  exists m', search range_visit (leaf_visits true leaf.2 leaf.1) m = Ok (in_range leaf, m').
Proof.
  destruct leaf as [v inArray]. cbn [fst snd]. intros Wv.
  unfold leaf_visits. cbn [search range_visit]. rewrite conditions_spec by done. cbn [result_bind].
  unfold in_range. cbn [fst]. destruct (above_min v && below_max v); [by eexists|]. cbn [orb].
  destruct v; try (by eexists). destruct inArray; [by eexists|]. cbn [negb andb].
  cbn [wf_value] in Wv. rewrite forallb_forall in Wv.
  assert (Forall (fun e : bson_field => wf_value e.2 = true) v_doc) as He.
  { apply List.Forall_forall. intros e Hin%Wv. by apply andb_true_iff in Hin as [_ ?]. }
  destruct v_doc as [|[k e] elements]; [by eexists|].
  inversion He as [|? ? We Hes]; subst. rewrite elements_from_cons. cbn [search range_visit Z.eqb].
  rewrite conditions_spec by done. cbn [result_bind orb existsb snd].
  destruct (above_min e && below_max e) eqn:Em.
  - apply andb_true_iff in Em as [-> ->]. by eexists.
  - by apply range_elements.
Qed.

Lemma range_leaves leaves m :
  Forall (fun l => wf_value l.1 = true) leaves ->
  exists m', search range_visit (flat_map (fun l => leaf_visits true l.2 l.1) leaves) m =
    Ok (existsb in_range leaves, m').
Proof.
  intros Hl. revert m. induction Hl as [|l leaves Wl _ IH]; intros m; [by eexists|].
  cbn [flat_map existsb].
  pose proof (searched_app range_visit (leaf_visits true l.2 l.1)
    (flat_map (fun l => leaf_visits true l.2 l.1) leaves) m (fun m => (true, m)) (fun m => (false, m))) as Hs.
  unfold searched in Hs. destruct (range_leaf l m Wl) as [m1 E1]. rewrite E1 in Hs.
  cbn [result_bind out_bind] in Hs. destruct (in_range l); cbn [orb].
  - destruct (search _ (_ ++ _) _) as [[b m2]|]; [|done]. cbn [result_bind] in Hs.
    injection Hs. destruct b; [|done]. intros ->. by eexists.
  - destruct (IH m1) as [m2 E2]. rewrite E2 in Hs. cbn [result_bind] in Hs.
    destruct (search _ (_ ++ _) _) as [[b m3]|]; [|done]. cbn [result_bind] in Hs.
    injection Hs. intros Hs1. exists m2. destruct b, (existsb in_range leaves); by injection Hs1 as ->.
Qed.
End range.

Lemma wf_leaves keys doc inArray :
  wf_fields doc = true -> Forall (fun l => wf_value l.1 = true) (path_leaves keys doc inArray).
Proof.
  intros W. pose proof (wf_path_visits false keys doc inArray W) as Hv. rewrite visits_of_leaves in Hv.
  induction (path_leaves keys doc inArray) as [|l leaves IH]; [constructor|].
  cbn [flat_map] in Hv. rewrite Forall_app in Hv. destruct Hv as [H1 H2].
  constructor; [|by apply IH]. by inversion H1.
Qed.

(** The filter is a range with two bounds, for the index. *)
Definition asks_range (filter : bson_doc) (path : bytes) (params : DollarRangeParams) : Prop :=
  exists value coll,
    asks EnableCollation filter path value coll /\ IsCollationValid coll = false /\
    BsonIterToSinglePgbsonElement EnableCollation filter = Ok (path, value) /\
    InitializeQueryDollarRange value = Ok params /\
    isMergeSortInPrefixMarker params = false /\
    isFullScan params || isElemMatch params || isMinIndexKey params || isMaxIndexKey params = false /\
    isSample params = false /\
    wf_value (minValue params) = true /\ wf_value (maxValue params) = true.

Lemma range_spec document filter path params :
  asks_range filter path params -> wf_fields document = true ->
  bson_dollar_range EnableCollation document filter =
  Some (Ok (existsb (in_range params) (path_leaves (split_path path) document false))).
Proof.
  intros (value & coll & (Ef & Hp & _) & Hc & Es & Ei & H1 & H2 & H3 & Wmin & Wmax) W.
  unfold bson_dollar_range. rewrite Es. cbn [out_bind snd]. rewrite Ei. cbn [out_bind].
  rewrite Ef. cbn [out_bind]. rewrite Hc, H1, H2, H3. cbn [fst snd].
  assert (IsQueryFilterNullForValue value = false) as -> by by destruct value.
  rewrite andb_false_r. unfold TraverseBsonAndProcessQueryResult.
  rewrite (TraverseBson_search true _ (range_visit params) (fun _ _ => CompareResult_Mismatch)
             recorded_compare) by done.
  cbn [initial_state operatorState compareResult]. rewrite visits_of_leaves.
  destruct (range_leaves params Wmin Wmax (path_leaves (split_path path) document false) (false, false))
    as [m ->]; [by apply wf_leaves|].
  cbn [result_bind out_bind]. unfold ProcessQueryResultAndGetMatch. cbn [compareResult].
  destruct (existsb _ _); [by rewrite bool_decide_true|]. rewrite bool_decide_false; [done|].
  apply (path_result_not_match true (CompareDollarRangeExecutionFuncs params) (range_visit params));
    [apply _|done].
Qed.

Lemma in_range_values params leaf :
  in_range params leaf = true ->
  existsb (above_min params) (visited <$> leaf_visits true leaf.2 leaf.1) = true /\
  existsb (below_max params) (visited <$> leaf_visits true leaf.2 leaf.1) = true.
Proof.
  destruct leaf as [v inArray]. unfold in_range. cbn [fst snd]. rewrite orb_true_iff.
  unfold leaf_visits. cbn [fmap list_fmap existsb visited].
  intros [Hv|He]; [apply andb_true_iff in Hv as [-> ->]; done|].
  destruct v; try done. destruct inArray; [done|]. apply andb_true_iff in He as [H1 H2].
  assert (forall g i, existsb (fun e : bson_field => g e.2) v_doc = true ->
            existsb g (visited <$> elements_from v_doc i) = true) as Hg.
  { intros g. clear. induction v_doc as [|[k e] es IH]; intros i; [done|]. rewrite elements_from_cons.
    cbn. rewrite !orb_true_iff. intros [?|?]; auto. }
  cbn [andb negb]. rewrite !orb_true_iff. auto.
Qed.

(** C8: $range is exact at each place of the path and stricter than its bounds.
    It matches a document exactly when, at one place that the path leads to,
    the value lies within both bounds, or is an array with an element above the
    lower and an element below the upper bound.  Then both bounds hold of some
    value of the path, as the two operators that the range replaces require. *)
Theorem range_operator_correct document filter path params :
  asks_range filter path params -> wf_fields document = true ->
  bson_dollar_range EnableCollation document filter =
    Some (Ok (existsb (in_range params) (path_leaves (split_path path) document false))) /\
  (existsb (in_range params) (path_leaves (split_path path) document false) = true ->
   existsb (above_min params) (path_values true path document) = true /\
   existsb (below_max params) (path_values true path document) = true).
Proof.
  intros Ha W. split; [by apply range_spec|].
  unfold path_values. rewrite visits_of_leaves.
  induction (path_leaves (split_path path) document false) as [|l leaves IH]; [done|].
  cbn [existsb flat_map]. rewrite fmap_app, !existsb_app, !orb_true_iff.
  intros [Hl|Hl]; [apply in_range_values in Hl as [H1 H2]|apply IH in Hl as [H1 H2]]; auto.
Qed.

(** ** $in and $nin *)

Section membership.
Context (coll : option bytes) (known : list bson_value) (h : bson_value -> Z).

(** The collation that applies. *)
Definition applied : option bytes :=
  if IsCollationApplicable EnableCollation coll then coll else None.

(** On the values at hand the hash answers, and equal values have equal hashes. *)
Definition hash_agrees : Prop :=
  (forall v, v ∈ known -> wf_value v = true /\ BsonValueHashFuncCore EnableCollation v coll = Ok (h v)) /\
  (forall v w, v ∈ known -> w ∈ known -> equals applied v w = true -> h v = h w).

Lemma hash_agrees_list :
  Forall (fun v => wf_value v = true /\ BsonValueHashFuncCore EnableCollation v coll = Ok (h v)) known ->
  Forall (fun v => Forall (fun w => equals applied v w = true -> h v = h w) known) known ->
  hash_agrees.
Proof.
  intros Hh He. split; [intros v Hv|intros v w Hv Hw].
  - apply list_elem_of_lookup_1 in Hv as [i Hi]. exact (Forall_lookup_1 _ _ _ _ Hh Hi).
  - apply list_elem_of_lookup_1 in Hv as [i Hi], Hw as [j Hj].
    exact (Forall_lookup_1 _ _ _ _ (Forall_lookup_1 _ _ _ _ He Hi) Hj).
Qed.

Hypothesis agrees : hash_agrees.

Lemma equals_trans a b c :
  wf_value a = true -> wf_value b = true -> wf_value c = true ->
  equals applied a b = true -> equals applied a c = equals applied b c.
Proof.
  intros Wa Wb Wc. set (n := Nat.max (depth a) (Nat.max (depth b) (depth c))).
  assert (forall x y, wf_value x = true -> wf_value y = true -> (depth y <= n)%nat ->
    equals applied x y = true <-> bson_order n applied y x = Eq) as He
    by (intros; by apply equals_order).
  intros Hab%He; [|done|done|lia]. apply eq_true_iff_eq. rewrite !He by (done || lia).
  rewrite (cmp_antisym (bson_order n applied) a c), (cmp_antisym (bson_order n applied) b c).
  by rewrite (cmp_eq_l (bson_order n applied) b a c Hab).
Qed.

Lemma set_find_spec keys v :
  Forall (fun k => k ∈ known) keys -> v ∈ known ->
  set_find EnableCollation coll keys v = Ok (existsb (fun k => equals applied k v) keys).
Proof.
  intros Hk Hv. destruct agrees as [Hh Heq]. destruct (Hh v Hv) as [Wv Ev].
  set (c := fun k => match CompareBsonValueAndTypeWithCollation k v applied with
                     | Ok (z, _) => if z =? 0 then 0 else if IsCollationApplicable EnableCollation coll
                                                          then 1 else z
                     | Err _ => 0 end).
  assert (forall k, k ∈ known -> (c k =? 0) = equals applied k v /\
    (if IsCollationApplicable EnableCollation coll
     then BsonValueWithCollationHashEntryCompareFunc coll k v
     else BsonValueHashEntryCompareFunc k v) = Ok (c k)) as Hc.
  { intros k Hkk. destruct (Hh k Hkk) as [Wk _].
    destruct (entry_compare applied k v Wk Wv) as (z & b & Ez & Hz & _).
    unfold c. rewrite Ez. unfold BsonValueWithCollationHashEntryCompareFunc, BsonValueHashEntryCompareFunc.
    unfold applied in *. destruct (IsCollationApplicable EnableCollation coll).
    - rewrite Ez. cbn [result_bind]. split; [|done]. rewrite <- Hz. by destruct (z =? 0) eqn:E0.
    - rewrite compare_and_type_none, Ez. cbn [result_bind]. rewrite <- Hz.
      split; [by destruct (z =? 0) eqn:E0; rewrite ?E0|].
      destruct (Z.eqb_spec z 0) as [->|]; done. }
  assert (set_find EnableCollation coll keys v =
    Ok (existsb (fun k => (h k =? h v) && (c k =? 0)) keys)) as ->.
  { unfold set_find. destruct (IsCollationApplicable EnableCollation coll) eqn:Ea.
    - apply hash_find_spec; [|done]. revert Hk. apply Forall_impl. intros k Hkk.
      destruct (Hc k Hkk) as [_ E2]. split; [by apply Hh|done].
    - assert (forall x, BsonValueHashFunc EnableCollation x = BsonValueHashFuncCore EnableCollation x coll) as Hf.
      { intros x. unfold BsonValueHashFunc. destruct x; cbn [BsonValueHashFuncCore]; rewrite Ea;
          by destruct (IsCollationApplicable EnableCollation None). }
      apply hash_find_spec; [|by rewrite Hf]. revert Hk. apply Forall_impl. intros k Hkk.
      destruct (Hc k Hkk) as [_ E2]. rewrite Hf. split; [by apply Hh|done]. }
  f_equal. induction Hk as [|k keys Hkk _ IH]; [done|]. cbn [existsb]. rewrite IH. f_equal.
  destruct (Hc k Hkk) as [-> _]. destruct (equals applied k v) eqn:E2; [|apply andb_false_r].
  rewrite (Heq k v) by done. by rewrite Z.eqb_refl.
Qed.

Definition no_regex (e : bson_value) : bool := match e with V_Regex _ _ => false | _ => true end.

(** What the set of keys knows about a value. *)
Definition in_set (vs : list bson_value) (v : bson_value) : bool :=
  existsb (fun k => equals applied k v) vs.

Lemma in_set_cons k vs v : in_set (k :: vs) v = equals applied k v || in_set vs v.
Proof. done. Qed.

Definition not_null (e : bson_field) : bool := match e.2 with V_Null => false | _ => true end.

Lemma populate_spec entries keys hasNull :
  Forall (fun e : bson_field => no_regex e.2 = true /\ e.2 ∈ known) entries ->
  Forall (fun k => k ∈ known) keys ->
  exists keys',
    populate_in EnableCollation coll entries [] keys hasNull =
      Ok ([], keys', hasNull || existsb (fun e => negb (not_null e)) entries) /\
    Forall (fun k => k ∈ known) keys' /\
    forall v, v ∈ known ->
      in_set keys' v = in_set keys v || in_set (snd <$> List.filter not_null entries) v.
Proof.
  intros He. revert keys hasNull. induction He as [|[k e] entries [Hr Hin] _ IH]; intros keys hasNull Hk.
  { exists keys. cbn [populate_in existsb]. rewrite orb_false_r. split_and!; [done|done|].
    intros v _. cbn. by rewrite orb_false_r. }
  cbn [snd] in *. destruct agrees as [Hh _].
  assert (e = V_Null \/ e <> V_Null) as [->|Hn] by (destruct e; auto).
  - destruct (IH keys true Hk) as (keys' & E1 & Hk' & Hs). exists keys'.
    split_and!; [|done|done]. cbn [populate_in existsb not_null snd negb]. rewrite E1.
    cbn [orb]. by rewrite orb_true_r.
  - assert (not_null (k, e) = true) as Hnn by (unfold not_null; cbn [snd]; by destruct e).
    assert (populate_in EnableCollation coll ((k, e) :: entries) [] keys hasNull =
      populate_in EnableCollation coll entries []
        (if in_set keys e then keys else keys ++ [e]) hasNull) as ->.
    { cbn [populate_in]. rewrite (set_find_spec keys e Hk Hin). cbn [result_bind]. by destruct e. }
    destruct (IH (if in_set keys e then keys else keys ++ [e]) hasNull) as (keys' & E1 & Hk' & Hs).
    { destruct (in_set keys e); [done|]. apply Forall_app. split; [done|]. by constructor. }
    exists keys'. split_and!; [|done|].
    + rewrite E1. cbn [existsb]. by rewrite Hnn.
    + intros v Hv. rewrite (Hs v Hv). cbn [List.filter]. rewrite Hnn. cbn [fmap list_fmap].
      rewrite in_set_cons, orb_assoc. f_equal. cbn [snd]. destruct (in_set keys e) eqn:Ein.
      * unfold in_set in *. destruct (existsb (fun x => equals applied x v) keys) eqn:Ev; [done|].
        symmetry. apply existsb_exists in Ein as (k0 & Hk0 & Ek0). cbn [orb].
        rewrite <- (equals_trans k0 e v); [|apply Hh|apply Hh; done|apply Hh; done|done].
        -- apply not_true_is_false. intros Ec. apply not_true_iff_false in Ev. apply Ev.
           apply existsb_exists. eauto.
        -- rewrite List.Forall_forall in Hk. by apply Hk.
      * unfold in_set. rewrite existsb_app. cbn [existsb]. by rewrite orb_false_r.
Qed.

(** Null entries match null and undefined. *)
Lemma equals_null v :
  wf_value v = true ->
  equals applied V_Null v =
  type_eqb (value_type v) BSON_TYPE_NULL || type_eqb (value_type v) BSON_TYPE_UNDEFINED.
Proof.
  intros Wv. destruct (entry_compare applied V_Null v eq_refl Wv) as (z & b & Ez & Hz & _).
  rewrite <- Hz. destruct v; try (by injection Ez as <- <-).
Qed.

Lemma in_match_spec path keys hasNull v entries :
  v ∈ known -> Forall (fun k => k ∈ known) keys ->
  hasNull = existsb (fun e => negb (not_null e)) entries ->
  (forall v, v ∈ known -> in_set keys v = in_set (snd <$> List.filter not_null entries) v) ->
  CompareInMatch EnableCollation (mk_in path [] keys hasNull coll) v =
  Ok (existsb (fun e => equals applied e.2 v) entries).
Proof.
  intros Hv Hk Hn Hs. destruct agrees as [Hh _]. destruct (Hh v Hv) as [Wv _].
  unfold CompareInMatch. cbn [in_hasNull in_collationString in_bsonValueHashSet in_regexList any_regex_matches].
  rewrite <- equals_null, set_find_spec by done. cbn [result_bind]. fold (in_set keys v). rewrite Hs by done.
  assert (existsb (fun e : bson_field => equals applied e.2 v) entries =
    hasNull && equals applied V_Null v || in_set (snd <$> List.filter not_null entries) v) as ->.
  { rewrite Hn. clear. induction entries as [|[k e] entries IH]; [done|]. cbn [existsb List.filter snd].
    rewrite IH. set (n := existsb _ entries). set (w := equals applied V_Null v).
    assert (e = V_Null \/ not_null (k, e) = true) as [->|He] by (destruct e; auto).
    - cbn [not_null snd negb orb andb]. fold w. by destruct n, w.
    - rewrite He. cbn [negb orb fmap list_fmap]. rewrite in_set_cons. cbn [snd].
      destruct (equals applied e v); [by rewrite orb_true_r|done]. }
  destruct (hasNull && equals applied V_Null v); [done|]. cbn [orb]. by destruct (in_set _ v).
Qed.
End membership.

End sets.

(** ** Instances *)

Section examples.
Import ExactBid FoldCase FindFirst Examples.

(** $range and the two bounds it replaces are not interchangeable on arrays
    of documents.  On [{ "_id": 7, "a": [ { "b": 1 }, { "b": "x" }, { "b": 10 } ] }]
    both { "a.b": { $gt: 5 } } and { "a.b": { $lt: 3 } } match, each at another
    element; the range with these bounds does not. *)
Theorem range_stricter_than_conjunction :
  let range := [(str "a.b", V_Document [(str "min", V_Int32 5); (str "max", V_Int32 3);
                 (str "minInclusive", V_Bool false); (str "maxInclusive", V_Bool false)])] in
  bson_dollar_gt true true sample [(str "a.b", V_Int32 5)] = Some (Ok true) /\
  bson_dollar_lt true true sample [(str "a.b", V_Int32 3)] = Some (Ok true) /\
  bson_dollar_range true sample range = Some (Ok false).
Proof. vm_compute. split_and!; reflexivity. Qed.

(** $in misses documents that $eq finds.  Equal documents may have
    different bytes, and the set that $in searches hashes the bytes: with a hash
    that tells apart the bytes of { "c": 1 } and { "c": NumberLong(1) }, $eq with
    the one matches a field that holds the other, and $in does not. *)
Theorem in_misses_equal_documents :
  let document := [(str "a", V_Document [(str "c", V_Int64 1)])] in
  let value := V_Document [(str "c", V_Int32 1)] in
  bson_dollar_eq true true document [(str "a", value)] = Some (Ok true) /\
  bson_dollar_in true true document [(str "a", V_Array [(str "0", value)])] = Some (Ok false).
Proof. vm_compute. split; reflexivity. Qed.


Definition sample_range : bson_doc :=
  [(str "min", V_Utf8 (str "w")); (str "max", V_Utf8 (str "x")); (str "maxInclusive", V_Bool true)].

Lemma range_operator_correct_witness :
  bson_dollar_range true sample [(str "a.b", V_Document sample_range)] = Some (Ok true).
Proof.
  refine (eq_trans (proj1 (range_operator_correct true sample [(str "a.b", V_Document sample_range)] (str "a.b")
    (mk_range (V_Utf8 (str "w")) (V_Utf8 (str "x")) false true false false false false false false) _ _)) _).
  - exists (V_Document sample_range), None. split_and!; try (vm_compute; reflexivity).
    split_and!; vm_compute; reflexivity.
  - vm_compute. reflexivity.
  - vm_compute. reflexivity.
Defined.

Definition hash_value (v : bson_value) : Z :=
  match BsonValueHashFuncCore true v None with Ok z => z | Err _ => 0 end.

End examples.
