(* ===== verification/BitOperators.v ===== *)
(** * Bitwise and modulo query operators

    $bitsAllSet, $bitsAnySet, $bitsAllClear, $bitsAnyClear and $mod, of
    [pg_documentdb/src/query/bson_dollar_operators.c], and the preparation of
    their arguments in [query/query_operator.c].  A bit mask and the value under
    test are both turned into ascending arrays of the positions of their set
    bits, which are merged.  The theorems relate the operators to the bits of
    the two's complement representation ([Z.testbit]) and to the remainder of
    the truncated division ([Z.rem]). *)

From Stdlib Require Import String.
From stdpp Require Import base numbers list option sorting.
From Stdlib Require Import ZArith Lia.
From S2P Require Import Prelude Binary64 Bson PgbsonElement StringView Traversal Decimal128.
From S2P Require Import Collation BsonCompare BsonHash QueryOperators.

(** ** Arrays of positions *)

(** The key of an element of an array: its index in decimal. *)
Fixpoint decimal_digits (fuel : nat) (z : Z) (digits : bytes) : bytes :=
  match fuel with
  | O => digits
  | S fuel' =>
      if z <? 10 then (48 + z) :: digits
      else decimal_digits fuel' (z / 10) ((48 + z mod 10) :: digits)
  end.

Definition index_key (i : nat) : bytes := decimal_digits 10 (Z.of_nat i) [].

(** The array that a [pgbson_array_writer] writes for 32-bit integers. *)
Definition int32_array (elements : list Z) : bson_value :=
  V_Array (imap (fun i z => (index_key i, V_Int32 z)) elements).

(** The loop over the bits from [i] on, [n] of them. *)
Fixpoint set_bit_positions (src : bytes) (n : nat) (i : Z) : list Z :=
  match n with
  | O => []
  | S n' =>
      let bitmask := Z.shiftl 1 (Z.land i 7) in
      let rest := set_bit_positions src n' (i + 1) in
      if Z.land (default 0 (src !! Z.to_nat (Z.shiftr i 3))) bitmask =? bitmask
      then i :: rest else rest
  end.

Definition WriteSetBitPositionArray (src : bytes) (srcLength : Z) : bson_value :=
  let lengthInBits := int32 (srcLength * 8) in
  int32_array (set_bit_positions src (Z.to_nat lengthInBits) 0).

(** ** Merging two arrays of positions *)

Section bits.
Context {L : BidLib}.

(** The head of each list is the element its iterator is at. *)
Fixpoint bits_all_clear_loop (isSignExtended : bool) (source : bson_doc) : bson_doc -> result bool :=
  fix advance_filter (filter : bson_doc) : result bool :=
    match source, filter with
    | s :: source', f :: filter' =>
        let! sourceArrayElement := BsonValueAsInt32 s.2 in
        let! filterArrayElement := BsonValueAsInt32 f.2 in
        if sourceArrayElement =? filterArrayElement then Ok false
        else if sourceArrayElement <? filterArrayElement then
          match source' with
          | [] => Ok (negb isSignExtended)
          | _ => bits_all_clear_loop isSignExtended source' filter
          end
        else
          match filter' with
          | [] => Ok true
          | _ => advance_filter filter'
          end
    | _, _ => Ok true
    end.

Definition CompareArrayForBitsAllClear (source filter : bson_doc) (isSignExtended : bool)
  : result bool :=
  match filter, source with
  | [], _ | _, [] => Ok true
  | _, _ => bits_all_clear_loop isSignExtended source filter
  end.

Fixpoint bits_any_clear_loop (isSignExtended : bool) (source filter : bson_doc) : result bool :=
  match source, filter with
  | s :: source', f :: filter' =>
      let! sourceArrayElement := BsonValueAsInt32 s.2 in
      let! filterArrayElement := BsonValueAsInt32 f.2 in
      if sourceArrayElement =? filterArrayElement then
        match filter', source' with
        | [], _ => Ok false
        | _, [] => Ok (negb isSignExtended)
        | _, _ => bits_any_clear_loop isSignExtended source' filter'
        end
      else if sourceArrayElement <? filterArrayElement then
        match source' with
        | [] => Ok (negb isSignExtended)
        | _ => bits_any_clear_loop isSignExtended source' filter
        end
      else Ok true
  | _, _ => Ok true
  end.

Definition CompareArrayForBitsAnyClear (source filter : bson_doc) (isSignExtended : bool)
  : result bool :=
  match filter, source with
  | [], _ => Ok false
  | _, [] => Ok true
  | _, _ => bits_any_clear_loop isSignExtended source filter
  end.

Fixpoint bits_all_set_loop (isSignExtended : bool) (source filter : bson_doc) : result bool :=
  match source, filter with
  | s :: source', f :: filter' =>
      let! sourceArrayElement := BsonValueAsInt32 s.2 in
      let! filterArrayElement := BsonValueAsInt32 f.2 in
      if sourceArrayElement =? filterArrayElement then
        match filter', source' with
        | [], _ => Ok true
        | _, [] => Ok isSignExtended
        | _, _ => bits_all_set_loop isSignExtended source' filter'
        end
      else if sourceArrayElement <? filterArrayElement then
        match source' with
        | [] => Ok isSignExtended
        | _ => bits_all_set_loop isSignExtended source' filter
        end
      else Ok false
  | _, _ => Ok false
  end.

Definition CompareArrayForBitsAllSet (source filter : bson_doc) (isSignExtended : bool)
  : result bool :=
  match filter, source with
  | [], _ => Ok true
  | _, [] => Ok false
  | _, _ => bits_all_set_loop isSignExtended source filter
  end.

Fixpoint bits_any_set_loop (isSignExtended : bool) (source : bson_doc) : bson_doc -> result bool :=
  fix advance_filter (filter : bson_doc) : result bool :=
    match source, filter with
    | s :: source', f :: filter' =>
        let! sourceArrayElement := BsonValueAsInt32 s.2 in
        let! filterArrayElement := BsonValueAsInt32 f.2 in
        if sourceArrayElement =? filterArrayElement then Ok true
        else if sourceArrayElement <? filterArrayElement then
          match source' with
          | [] => Ok isSignExtended
          | _ => bits_any_set_loop isSignExtended source' filter
          end
        else
          match filter' with
          | [] => Ok false
          | _ => advance_filter filter'
          end
    | _, _ => Ok false
    end.

Definition CompareArrayForBitsAnySet (source filter : bson_doc) (isSignExtended : bool)
  : result bool :=
  match filter, source with
  | [], _ | _, [] => Ok false
  | _, _ => bits_any_set_loop isSignExtended source filter
  end.

(** ** The value under test *)

(** The array of the set bits of the value and whether it is sign extended;
    [None] for a value that has no bits. *)
Definition bit_source (documentValue : bson_value) : result (option (bson_value * bool)) :=
  match documentValue with
  | V_Int64 _ | V_Int32 _ =>
      let! sourceDocIntvalue := BsonValueAsInt64 documentValue in
      Ok (Some (WriteSetBitPositionArray (int64_bytes sourceDocIntvalue) 8, sourceDocIntvalue <? 0))
  | V_Decimal128 _ =>
      let! finite := IsDecimal128Finite documentValue in
      let! inRange := if finite : bool then IsDecimal128InInt64Range documentValue else Ok true in
      if finite && negb inRange then Ok None
      else
        let! intVal := if finite : bool then BsonValueAsInt64 documentValue else Ok 0 in
        Ok (Some (WriteSetBitPositionArray (int64_bytes intVal) 8, intVal <? 0))
  | V_Double _ =>
      let! isInteger := IsBsonValueUnquantized64BitInteger documentValue false in
      if negb isInteger then Ok None
      else
        let! doubleVal := BsonValueAsDouble documentValue in
        if negb (d_eq (d_floor doubleVal) doubleVal) then Ok None
        else
          let! intVal := BsonValueAsInt64 documentValue in
          Ok (Some (WriteSetBitPositionArray (int64_bytes intVal) 8, d_lt doubleVal 0))
  | V_Binary _ data => Ok (Some (WriteSetBitPositionArray data (blen data), false))
  | _ => Ok None
  end.

Definition CompareBitwiseOperator (documentValue filterArray : bson_value)
  (bitsCompareFunc : bson_doc -> bson_doc -> bool -> result bool) : result bool :=
  let! source := bit_source documentValue in
  match source with
  | None => Ok false
  | Some (sourceArray, isSignExtended) =>
      bitsCompareFunc (fields_of sourceArray) (fields_of filterArray) isSignExtended
  end.

Definition CompareBitsAllClearMatch (document filter : bson_value) (_ : option bytes) : result bool :=
  CompareBitwiseOperator document filter CompareArrayForBitsAllClear.
Definition CompareBitsAnyClearMatch (document filter : bson_value) (_ : option bytes) : result bool :=
  CompareBitwiseOperator document filter CompareArrayForBitsAnyClear.
Definition CompareBitsAllSetMatch (document filter : bson_value) (_ : option bytes) : result bool :=
  CompareBitwiseOperator document filter CompareArrayForBitsAllSet.
Definition CompareBitsAnySetMatch (document filter : bson_value) (_ : option bytes) : result bool :=
  CompareBitwiseOperator document filter CompareArrayForBitsAnySet.

(** ** $mod *)

(** [modArrVal] has passed the checks of [CreateExprForDollarMod] below, which
    exclude the last two errors here. *)
Definition CompareModOperator (srcVal modArrVal : bson_value) : result bool :=
  match fields_of modArrVal with
  | (_, divisorBsonValue) :: (_, remainderBsonValue) :: _ =>
      let! divisor := BsonValueAsInt64 divisorBsonValue in
      let! rem := BsonValueAsInt64 remainderBsonValue in
      let! isInteger := IsBsonValueUnquantized64BitInteger srcVal false in
      if negb isInteger then Ok false
      else
        let! dividend := BsonValueAsInt64 srcVal in
        if (dividend =? INT64_MIN) && (divisor =? -1) then Ok (rem =? 0)
        else if divisor =? 0 then Err ERRCODE_INTERNAL_ERROR
        else Ok (Z.rem dividend divisor =? rem)
  | _ => Err ERRCODE_INTERNAL_ERROR
  end.

Definition CompareModMatch (document filter : bson_value) (_ : option bytes) : result bool :=
  CompareModOperator document filter.

(** ** Preparation of the arguments *)

Definition IsDoubleAFixedInteger (value : double) : bool :=
  negb (isnan value) && negb (isinf value) && d_eq (d_floor value) value.

(** The checks on the positions of an array, and whether they are ascending:
    the elements and [isSorted]. *)
Fixpoint check_positions (elements : bson_doc) (prevValue : Z) (isSorted : bool)
  : result (list Z * bool) :=
  match elements with
  | [] => Ok ([], isSorted)
  | (_, element) :: rest =>
      let! is32 := IsBsonValue32BitInteger element false in
      if negb is32 then Err ERRCODE_DOCUMENTDB_BADVALUE
      else
        let! elementValue := BsonValueAsInt32 element in
        let isSorted := if (elementValue <? prevValue) && isSorted then false else isSorted in
        if elementValue <? 0 then Err ERRCODE_DOCUMENTDB_BADVALUE
        else
          let! (values, isSorted) := check_positions rest elementValue isSorted in
          Ok (elementValue :: values, isSorted)
  end.

(** [None] when the array is sorted already, and is used as it is. *)
Definition SortAndWriteInt32BsonTypeArray (bsonArray : bson_value) : result (option bson_value) :=
  let! (values, isSorted) := check_positions (fields_of bsonArray) (-1) true in
  if isSorted : bool then Ok None else Ok (Some (int32_array (merge_sort Z.le values))).

(** The array of positions that the operator is given. *)
Definition CreateExprForBitwiseQueryOperators (operatorDocValue : bson_value) : result bson_value :=
  match operatorDocValue with
  | V_Int64 int64Val =>
      let! int32Val := BsonValueAsInt32 operatorDocValue in
      if negb (int32Val =? int64Val) then Err ERRCODE_DOCUMENTDB_FAILEDTOPARSE
      else Ok (WriteSetBitPositionArray (int32_bytes int32Val) 4)
  | V_Decimal128 _ =>
      let! inRange := IsDecimal128InInt32Range operatorDocValue in
      let! fixedInteger := if inRange : bool then IsDecimal128AFixedInteger operatorDocValue
                           else Ok false in
      if negb inRange || negb fixedInteger then Err ERRCODE_DOCUMENTDB_FAILEDTOPARSE
      else
        let! intVal := BsonValueAsInt32 operatorDocValue in
        if intVal <? 0 then Err ERRCODE_DOCUMENTDB_FAILEDTOPARSE
        else Ok (WriteSetBitPositionArray (int32_bytes intVal) 4)
  | V_Double _ =>
      let! doubleVal := BsonValueAsDouble operatorDocValue in
      if negb (IsDoubleAFixedInteger doubleVal) then Err ERRCODE_DOCUMENTDB_FAILEDTOPARSE
      else
        let! intVal := BsonValueAsInt32 operatorDocValue in
        if intVal <? 0 then Err ERRCODE_DOCUMENTDB_FAILEDTOPARSE
        else Ok (WriteSetBitPositionArray (int32_bytes intVal) 4)
  | V_Int32 intVal =>
      if intVal <? 0 then Err ERRCODE_DOCUMENTDB_FAILEDTOPARSE
      else Ok (WriteSetBitPositionArray (int32_bytes intVal) 4)
  | V_Binary _ data => Ok (WriteSetBitPositionArray data (blen data))
  | V_Array _ =>
      let! sorted := SortAndWriteInt32BsonTypeArray operatorDocValue in
      Ok (default operatorDocValue sorted)
  | _ => Err ERRCODE_DOCUMENTDB_BADVALUE
  end.

(** The checks on the two elements of a $mod argument. *)
Definition check_mod_element (numElements : Z) (arrayVal : bson_value) : result unit :=
  if negb (BsonValueIsNumber arrayVal) then Err ERRCODE_DOCUMENTDB_BADVALUE
  else
    let! _ :=
      match arrayVal with
      | V_Decimal128 _ | V_Double _ =>
          let! d := GetBsonValueAsDecimal128Quantized arrayVal in
          let! finite := IsDecimal128Finite (V_Decimal128 d) in
          if negb finite then Err ERRCODE_DOCUMENTDB_BADVALUE
          else
            let! inRange := IsDecimal128InInt64Range (V_Decimal128 d) in
            if negb inRange then Err ERRCODE_DOCUMENTDB_BADVALUE else Ok tt
      | _ => Ok tt
      end in
    if numElements =? 1 then
      let! divisor := BsonValueAsInt64 arrayVal in
      if divisor =? 0 then Err ERRCODE_DOCUMENTDB_BADVALUE else Ok tt
    else Ok tt.

Fixpoint check_mod_elements (elements : bson_doc) (numElements : Z) : result Z :=
  match elements with
  | [] => Ok numElements
  | (_, arrayVal) :: rest =>
      let numElements := numElements + 1 in
      if numElements =? 3 then Err ERRCODE_DOCUMENTDB_BADVALUE
      else
        let! _ := check_mod_element numElements arrayVal in
        check_mod_elements rest numElements
  end.

Definition CreateExprForDollarMod (operatorDocValue : bson_value) : result bson_value :=
  match operatorDocValue with
  | V_Array elements =>
      let! numElements := check_mod_elements elements 0 in
      if numElements <? 2 then Err ERRCODE_DOCUMENTDB_BADVALUE else Ok operatorDocValue
  | _ => Err ERRCODE_DOCUMENTDB_BADVALUE
  end.
End bits.

(** ** The operators *)

Section operators.
Context {L : BidLib} {I : Icu} {F : FindField} (EnableCollation : bool).

Definition bits_query (compareFunc : bson_value -> bson_value -> option bytes -> result bool)
  (document filter : bson_doc) : outcome bool :=
  CompareBsonAgainstQuery EnableCollation true document filter compareFunc None.

Definition bson_dollar_bits_all_clear := bits_query CompareBitsAllClearMatch.
Definition bson_dollar_bits_any_clear := bits_query CompareBitsAnyClearMatch.
Definition bson_dollar_bits_all_set := bits_query CompareBitsAllSetMatch.
Definition bson_dollar_bits_any_set := bits_query CompareBitsAnySetMatch.
Definition bson_dollar_mod := bits_query CompareModMatch.

Definition value_query (compareFunc : bson_value -> bson_value -> option bytes -> result bool)
  (element : bson_value) (query : bson_doc) : outcome bool :=
  CompareBsonValueAgainstQuery EnableCollation element query compareFunc None.

Definition bson_value_dollar_bits_all_clear := value_query CompareBitsAllClearMatch.
Definition bson_value_dollar_bits_any_clear := value_query CompareBitsAnyClearMatch.
Definition bson_value_dollar_bits_all_set := value_query CompareBitsAllSetMatch.
Definition bson_value_dollar_bits_any_set := value_query CompareBitsAnySetMatch.
Definition bson_value_dollar_mod := value_query CompareModMatch.
End operators.

(** ** Bits of a string of bytes and of an integer *)

(** Bit [p], counted from the lowest bit of the first byte. *)
Definition byte_bit (src : bytes) (p : Z) : bool :=
  Z.testbit (default 0 (src !! Z.to_nat (p / 8))) (p mod 8).

Lemma mask_bit x k : 0 <= k -> (Z.land x (Z.shiftl 1 k) =? Z.shiftl 1 k) = Z.testbit x k.
Proof.
  intros Hk. rewrite Z.shiftl_1_l. destruct (Z.testbit x k) eqn:E.
  - apply Z.eqb_eq, Z.bits_inj'. intros n Hn. rewrite Z.land_spec, Z.pow2_bits_eqb by done.
    destruct (Z.eqb_spec k n) as [->|]; [by rewrite E|by rewrite andb_false_r].
  - apply Z.eqb_neq. intros H. pose proof (f_equal (fun z => Z.testbit z k) H) as Hb. cbv beta in Hb.
    rewrite Z.land_spec, E, Z.pow2_bits_true in Hb by done. done.
Qed.

Lemma set_bit_positions_spec src n i :
  0 <= i ->
  StronglySorted Z.lt (set_bit_positions src n i) /\
  forall p, p ∈ set_bit_positions src n i <-> i <= p < i + Z.of_nat n /\ byte_bit src p = true.
Proof.
  revert i. induction n as [|n IH]; intros i Hi; cbn [set_bit_positions].
  { split; [constructor|]. intros p. rewrite elem_of_nil. lia. }
  destruct (IH (i + 1) ltac:(lia)) as [Hs Hm].
  assert (Z.land i 7 = i mod 8) as -> by apply (Z.land_ones i 3 ltac:(lia)).
  assert (Z.shiftr i 3 = i / 8) as -> by (by rewrite Z.shiftr_div_pow2).
  rewrite mask_bit by (apply Z.mod_pos_bound; lia). fold (byte_bit src i).
  destruct (byte_bit src i) eqn:Eb; split; try done.
  - constructor; [done|]. apply Forall_lookup. intros k p Hk. apply list_elem_of_lookup_2, Hm in Hk. lia.
  - intros p. rewrite elem_of_cons, Hm. split; [intros [->|]|]; [by split; [lia|]|split; [lia|tauto]|].
    intros [H1 H2]. destruct (decide (p = i)); [by left|right]. split; [lia|done].
  - intros p. rewrite Hm. split; [split; [lia|tauto]|]. intros [H1 H2].
    destruct (decide (p = i)) as [->|]; [congruence|]. split; [lia|done].
Qed.

Lemma le_bytes_bit n z p :
  0 <= p < 8 * Z.of_nat n -> byte_bit (le_bytes n z) p = Z.testbit z p.
Proof.
  unfold byte_bit. revert z p. induction n as [|n IH]; intros z p Hp; [lia|]. cbn [le_bytes].
  destruct (decide (p < 8)) as [Hlt|Hge].
  - rewrite Z.div_small by lia. rewrite (Z.mod_small p 8) by lia. cbn. apply (Z.mod_pow2_bits_low z 8). lia.
  - replace (p / 8) with (Z.succ ((p - 8) / 8)) by (Z.to_euclidean_division_equations; lia).
    assert (0 <= (p - 8) / 8) by (apply Z.div_pos; lia).
    rewrite Z2Nat.inj_succ by done. cbn [lookup list_lookup].
    replace (p mod 8) with ((p - 8) mod 8) by (Z.to_euclidean_division_equations; lia).
    change (list_lookup ?k ?l) with (l !! k). rewrite IH by lia.
    change 256 with (2 ^ 8). rewrite Z.div_pow2_bits by lia. f_equal. lia.
Qed.

Lemma int64_bit z p : 0 <= p < 64 -> byte_bit (int64_bytes z) p = Z.testbit z p.
Proof.
  intros Hp. unfold int64_bytes. rewrite le_bytes_bit by lia.
  apply (Z.mod_pow2_bits_low z 64). lia.
Qed.

Lemma int32_bit z p : 0 <= p < 32 -> byte_bit (int32_bytes z) p = Z.testbit z p.
Proof.
  intros Hp. unfold int32_bytes. rewrite le_bytes_bit by lia.
  apply (Z.mod_pow2_bits_low z 32). lia.
Qed.

(** The bits above the width of a negative number are set. *)
Lemma testbit_sign z n p : - 2 ^ n <= z < 0 -> 0 <= n <= p -> Z.testbit z p = true.
Proof.
  intros Hz Hp. replace z with (Z.lnot (- z - 1)) by (unfold Z.lnot; lia).
  rewrite Z.lnot_spec by lia. rewrite (testbit_high _ n) by lia. done.
Qed.

(** ** The merges *)

(** A position is set: it is one of the source, or above all of them in a
    sign-extended source. *)
Definition set_at (isSignExtended : bool) (source : list Z) (p : Z) : bool :=
  existsb (Z.eqb p) source ||
  isSignExtended && match last source with Some l => l <? p | None => false end.

Lemma set_at_single isSignExtended s p : s < p -> set_at isSignExtended [s] p = isSignExtended.
Proof.
  intros Hs. unfold set_at. cbn. rewrite (proj2 (Z.eqb_neq _ _)), (proj2 (Z.ltb_lt _ _)) by lia.
  by rewrite andb_true_r.
Qed.

Lemma set_at_skip isSignExtended s s' source p :
  s < p -> set_at isSignExtended (s :: s' :: source) p = set_at isSignExtended (s' :: source) p.
Proof. intros Hs. unfold set_at. cbn [existsb last]. by rewrite (proj2 (Z.eqb_neq p s)) by lia. Qed.

Lemma set_at_head isSignExtended s source : set_at isSignExtended (s :: source) s = true.
Proof. unfold set_at. cbn. by rewrite Z.eqb_refl. Qed.

Lemma last_ge s source l : StronglySorted Z.lt (s :: source) -> last (s :: source) = Some l -> s <= l.
Proof.
  intros [_ Hf]%StronglySorted_inv Hl. rewrite last_lookup in Hl. apply list_elem_of_lookup_2 in Hl.
  apply elem_of_cons in Hl as [->|Hl]; [lia|]. rewrite List.Forall_forall in Hf.
  apply list_elem_of_In, Hf in Hl. lia.
Qed.

Lemma set_at_below isSignExtended s source p :
  StronglySorted Z.lt (s :: source) -> p < s -> set_at isSignExtended (s :: source) p = false.
Proof.
  intros Hs Hp. unfold set_at. apply orb_false_iff. split.
  - apply not_true_iff_false. rewrite existsb_exists. intros (x & Hx & ->%Z.eqb_eq).
    apply StronglySorted_inv in Hs as [_ Hf]. rewrite List.Forall_forall in Hf.
    destruct Hx as [->|Hx]; [lia|]. apply Hf in Hx. lia.
  - apply andb_false_iff. right. destruct (last (s :: source)) as [l|] eqn:El; [|done].
    apply (last_ge _ _ _ Hs) in El. apply Z.ltb_ge. lia.
Qed.

Section merges.
Context {L : BidLib}.

(** The fields of an array hold the positions. *)
Definition reads (fields : bson_doc) (positions : list Z) : Prop :=
  Forall2 (fun f p => BsonValueAsInt32 f.2 = Ok p) fields positions.

Lemma reads_int32_array positions : reads (fields_of (int32_array positions)) positions.
Proof.
  unfold reads, int32_array. cbn [fields_of]. generalize index_key. 
  induction positions as [|p positions IH]; intros key; [constructor|].
  rewrite imap_cons. constructor; [done|]. apply (IH (fun i => key (S i))).
Qed.

(** Ascending positions, the first one above a bound. *)
Lemma forallb_const {A} (f : A -> bool) (b : bool) (P : A -> Prop) x xs :
  Forall P (x :: xs) -> (forall y, P y -> f y = b) -> forallb f (x :: xs) = b.
Proof.
  intros Hp Hf. revert x Hp. induction xs as [|y ys IH]; intros x Hp; cbn [forallb].
  - apply Forall_inv in Hp. rewrite (Hf x Hp). apply andb_true_r.
  - pose proof (Forall_inv_tail Hp) as Ht. apply Forall_inv in Hp. rewrite (Hf x Hp).
    pose proof (IH y Ht) as E. cbn [forallb] in E. rewrite E. apply andb_diag.
Qed.

Lemma forallb_ext_on {A} (f g : A -> bool) (P : A -> Prop) xs :
  Forall P xs -> (forall y, P y -> f y = g y) -> forallb f xs = forallb g xs.
Proof.
  intros Hp Hf. induction Hp as [|x xs Hx _ IH]; [done|]. cbn [forallb]. by rewrite (Hf x Hx), IH.
Qed.

Lemma all_set_merge isSignExtended source filter ss fs :
  reads source ss -> reads filter fs -> ss <> [] -> fs <> [] ->
  StronglySorted Z.lt ss -> StronglySorted Z.lt fs ->
  bits_all_set_loop isSignExtended source filter = Ok (forallb (set_at isSignExtended ss) fs).
Proof.
  intros Hss. revert filter fs. induction Hss as [|[k sv] s source ss Es Hss IH]; [done|].
  intros filter fs Hfs _ Hne Hs Hf. destruct Hfs as [|[k' fv] f filter fs Ef Hfs]; [done|].
  cbn [bits_all_set_loop]. rewrite Es. cbn [result_bind]. rewrite Ef. cbn [result_bind].
  pose proof (StronglySorted_inv Hs) as [Hs' Hsl]. pose proof (StronglySorted_inv Hf) as [Hf' Hfl].
  destruct (Z.eqb_spec s f) as [->|Hsf]; [|destruct (Z.ltb_spec s f) as [Hlt|Hge]].
  - cbn [forallb]. rewrite set_at_head. cbn [andb].
    destruct Hfs as [|[k1 fv1] f1 filter fs Ef1 Hfs]; [done|].
    destruct Hss as [|[k2 sv2] s2 source ss Es2 Hss].
    + f_equal. symmetry. by apply (forallb_const _ _ (Z.lt f)); [|apply set_at_single].
    + rewrite (IH _ (f1 :: fs)) by (done || by constructor). f_equal. symmetry.
      apply (forallb_ext_on _ _ (Z.lt f)); [done|]. intros y Hy. by apply set_at_skip.
  - assert (Forall (Z.lt s) (f :: fs)) as Hsf'.
    { constructor; [done|]. eapply Forall_impl; [done|]. simpl. lia. }
    destruct Hss as [|[k2 sv2] s2 source ss Es2 Hss].
    + f_equal. symmetry. by apply (forallb_const _ _ (Z.lt s)); [|apply set_at_single].
    + rewrite (IH _ (f :: fs)) by (done || by constructor). f_equal. symmetry.
      apply (forallb_ext_on _ _ (Z.lt s)); [done|]. intros y Hy. by apply set_at_skip.
  - cbn [forallb]. rewrite set_at_below by (done || lia). done.
Qed.

Lemma existsb_negb {A} (f : A -> bool) xs : existsb f xs = negb (forallb (fun x => negb (f x)) xs).
Proof. induction xs as [|x xs IH]; [done|]. cbn. rewrite IH. by destruct (f x). Qed.

Lemma any_set_merge isSignExtended source filter ss fs :
  reads source ss -> reads filter fs -> ss <> [] -> fs <> [] ->
  StronglySorted Z.lt ss -> StronglySorted Z.lt fs ->
  bits_any_set_loop isSignExtended source filter = Ok (existsb (set_at isSignExtended ss) fs).
Proof.
  intros Hss. revert filter fs. induction Hss as [|[k sv] s source ss Es Hss IH]; [done|].
  intros filter fs Hfs _ Hne Hs Hf. induction Hfs as [|[k' fv] f filter fs Ef Hfs IHf]; [done|].
  cbn [bits_any_set_loop]. rewrite Es. cbn [result_bind]. rewrite Ef. cbn [result_bind].
  pose proof (StronglySorted_inv Hs) as [Hs' Hsl]. pose proof (StronglySorted_inv Hf) as [Hf' Hfl].
  destruct (Z.eqb_spec s f) as [->|Hsf]; [|destruct (Z.ltb_spec s f) as [Hlt|Hge]].
  - cbn [existsb]. by rewrite set_at_head.
  - assert (Forall (Z.lt s) (f :: fs)) as Hsf'.
    { constructor; [done|]. eapply Forall_impl; [done|]. simpl. lia. }
    rewrite existsb_negb. destruct Hss as [|[k2 sv2] s2 source ss Es2 Hss].
    + f_equal. rewrite (forallb_const _ (negb isSignExtended) (Z.lt s)); [by rewrite negb_involutive|done|].
      intros y Hy. by rewrite set_at_single.
    + rewrite (IH _ (f :: fs)) by (done || by constructor). rewrite existsb_negb. do 2 f_equal. symmetry.
      apply (forallb_ext_on _ _ (Z.lt s)); [done|]. intros y Hy. by rewrite set_at_skip.
  - cbn [existsb]. rewrite set_at_below by (done || lia). cbn [orb].
    destruct Hfs as [|f1 p1 filter fs Ef1 Hfs]; [done|].
    specialize (IHf ltac:(done) Hf'). cbn [bits_any_set_loop] in IHf. rewrite Es in IHf. exact IHf.
Qed.

Definition negated_result (r : result bool) : result bool := let! b := r in Ok (negb b).

(** The clear operators answer the opposite of the set operators. *)
Lemma any_clear_loop_negates isSignExtended source filter :
  bits_any_clear_loop isSignExtended source filter =
  negated_result (bits_all_set_loop isSignExtended source filter).
Proof.
  revert filter. induction source as [|s source IH]; intros [|f filter]; [done..|].
  cbn [bits_any_clear_loop bits_all_set_loop]. unfold negated_result.
  destruct (BsonValueAsInt32 s.2) as [zs|]; [cbn [result_bind]|done].
  destruct (BsonValueAsInt32 f.2) as [zf|]; [cbn [result_bind]|done].
  destruct (zs =? zf); [|destruct (zs <? zf); [|done]].
  - destruct filter; [done|]. destruct source; [done|]. apply IH.
  - destruct source; [done|]. apply IH.
Qed.

Lemma all_clear_loop_negates isSignExtended source filter :
  bits_all_clear_loop isSignExtended source filter =
  negated_result (bits_any_set_loop isSignExtended source filter).
Proof.
  revert filter. induction source as [|s source IH]; [by intros []|].
  induction filter as [|f filter IHf]; [done|].
  cbn [bits_all_clear_loop bits_any_set_loop]. unfold negated_result.
  destruct (BsonValueAsInt32 s.2) as [zs|] eqn:Es; [cbn [result_bind]|done].
  destruct (BsonValueAsInt32 f.2) as [zf|]; [cbn [result_bind]|done].
  destruct (zs =? zf); [done|]. destruct (zs <? zf).
  - destruct source; [done|]. apply IH.
  - destruct filter; [done|].
    cbn [bits_all_clear_loop bits_any_set_loop] in IHf. rewrite Es in IHf. exact IHf.
Qed.

Lemma bits_arrays_correct isSignExtended source filter ss fs :
  reads source ss -> reads filter fs -> StronglySorted Z.lt ss -> StronglySorted Z.lt fs ->
  let all := forallb (set_at isSignExtended ss) fs in
  let any := existsb (set_at isSignExtended ss) fs in
  CompareArrayForBitsAllSet source filter isSignExtended = Ok all /\
  CompareArrayForBitsAnySet source filter isSignExtended = Ok any /\
  CompareArrayForBitsAllClear source filter isSignExtended = Ok (negb any) /\
  CompareArrayForBitsAnyClear source filter isSignExtended = Ok (negb all).
Proof.
  intros Hss Hfs Hs Hf all any.
  destruct fs as [|f fs]; [inversion Hfs; subst; by destruct source|].
  destruct ss as [|s ss].
  { assert (all = false) as -> by (unfold all, set_at; cbn; by rewrite andb_false_r).
    assert (any = false) as ->.
    { unfold any. rewrite existsb_negb. apply negb_false_iff, forallb_forall. intros x _.
      unfold set_at. cbn. by rewrite andb_false_r. }
    inversion Hss; subst. inversion Hfs; subst. done. }
  pose proof (all_set_merge isSignExtended source filter _ _ Hss Hfs ltac:(done) ltac:(done) Hs Hf) as Ha.
  pose proof (any_set_merge isSignExtended source filter _ _ Hss Hfs ltac:(done) ltac:(done) Hs Hf) as Hy.
  destruct source as [|s' source]; [inversion Hss|]. destruct filter as [|f' filter]; [inversion Hfs|].
  unfold CompareArrayForBitsAllSet, CompareArrayForBitsAnySet, CompareArrayForBitsAllClear,
    CompareArrayForBitsAnyClear.
  rewrite any_clear_loop_negates, all_clear_loop_negates, Ha, Hy. done.
Qed.
End merges.

(** ** The numbers under test *)

Section numbers.
Context {L : BidLib} {BL : BidLaws L}.

(** The integer part of a number, if it is in the 64-bit range. *)
Definition integer_part (v : bson_value) : option Z :=
  match v with
  | V_Int32 z | V_Int64 z => Some z
  | V_Double d =>
      match dx d with
      | XFin a => let z := Z.quot a DSCALE in if in_int64 z then Some z else None
      | _ => None
      end
  | V_Decimal128 d =>
      match dval d with
      | XFin u => let z := Z.quot u DEC_UNIT in if in_int64 z then Some z else None
      | _ => None
      end
  | _ => None
  end.

Lemma in_int64_iff z : in_int64 z = true <-> - 2 ^ 63 <= z < 2 ^ 63.
Proof. unfold in_int64, INT64_MIN, INT64_MAX. lia. Qed.

Lemma quot_in_int64 u k :
  0 < k -> in_int64 (Z.quot u k) = true <-> - (2 ^ 63 + 1) * k < u < 2 ^ 63 * k.
Proof.
  intros Hk. rewrite in_int64_iff. pose proof (Z.quot_rem' u k) as E.
  pose proof (Z.rem_bound_abs u k ltac:(lia)) as Hr.
  destruct (Z.le_ge_cases 0 u) as [Hu|Hu].
  - pose proof (Z.rem_bound_pos u k Hu Hk). split; nia.
  - assert (- k < Z.rem u k <= 0) by (split; [lia|]; pose proof (Z.rem_nonpos u k ltac:(lia) Hu); lia).
    split; nia.
Qed.

(** 2^63, and the first double below -2^63. *)
Definition two63 : double := 1086 * 2 ^ 52.
Definition below_min : double := UINT64_MSB + 1086 * 2 ^ 52 + 1.

Lemma two63_value : dx two63 = XFin (2 ^ 63 * DSCALE).
Proof. vm_compute. reflexivity. Qed.

Lemma below_min_value : dx below_min = XFin (- (2 ^ 63 + 2048) * DSCALE).
Proof. vm_compute. reflexivity. Qed.

Lemma bid_of_exact b z :
  doubleb b = true -> dx b = XFin (z * DSCALE) -> Z.abs z < 10 ^ 34 ->
  dval (bid_of b) = XFin (z * DEC_UNIT).
Proof.
  intros Hb Hx Hz. pose proof (law_from_binary64 b Hb) as Hl. rewrite Hx in Hl.
  destruct Hl as (u & Eu & _ & He). unfold bid_of. rewrite Eu. f_equal. pose proof DSCALE_pos as HS.
  specialize (He (Z.divide_factor_r DSCALE z)). rewrite Z.abs_mul, (Z.abs_eq DSCALE) in He by lia.
  specialize (He ltac:(nia)). clear -He HS. generalize dependent DSCALE. intros k He Hk. nia.
Qed.

Lemma two63_decimal : dval (bid_of two63) = XFin (2 ^ 63 * DEC_UNIT).
Proof. apply bid_of_exact; [vm_compute; reflexivity|apply two63_value|vm_compute; reflexivity]. Qed.

Lemma below_min_decimal : dval (bid_of below_min) = XFin (- (2 ^ 63 + 2048) * DEC_UNIT).
Proof. apply bid_of_exact; [vm_compute; reflexivity|apply below_min_value|vm_compute; reflexivity]. Qed.

(** No double lies strictly between -2^63 - 2048 and -2^63. *)
Lemma double_gap_at_min b a :
  doubleb b = true -> dx b = XFin a -> a < - 2 ^ 63 * DSCALE -> a <= - (2 ^ 63 + 2048) * DSCALE.
Proof.
  intros Hb Hx Ha. unfold dx in Hx.
  assert (dscaled b = a) as <- by (repeat case_match; congruence). clear Hx.
  unfold doubleb in Hb. apply andb_true_iff in Hb as [Hb1%Z.leb_le Hb2%Z.ltb_lt].
  pose proof (d_abs_range b ltac:(lia)) as Hr. pose proof (mag_nonneg (d_abs b) ltac:(lia)) as Hm.
  pose proof DSCALE_pos. unfold dscaled in *. destruct (d_neg b); [|lia].
  assert (mag (1086 * 2 ^ 52) = 2 ^ 63 * DSCALE) as E1 by (vm_compute; reflexivity).
  assert (mag (1086 * 2 ^ 52 + 1) = (2 ^ 63 + 2048) * DSCALE) as E2 by (vm_compute; reflexivity).
  assert (1086 * 2 ^ 52 < d_abs b) as Hlt.
  { destruct (Z.lt_trichotomy (1086 * 2 ^ 52) (d_abs b)) as [?|[Heq|Hgt]];
      [done|rewrite <- Heq in *; lia|].
    pose proof (mag_lt (d_abs b) (1086 * 2 ^ 52) ltac:(lia)). lia. }
  assert (mag (1086 * 2 ^ 52 + 1) <= mag (d_abs b)) as Hle.
  { destruct (decide (d_abs b = 1086 * 2 ^ 52 + 1)) as [->|]; [lia|].
    apply Z.lt_le_incl, mag_lt. lia. }
  lia.
Qed.

(** The range test on a double, through its decimal. *)
Lemma double_in_range d :
  doubleb d = true ->
  match dval (bid_of d) with XFin u => in_int64 (Z.quot u DEC_UNIT) | _ => false end =
  match dx d with XFin a => in_int64 (Z.quot a DSCALE) | _ => false end.
Proof.
  intros Hd. pose proof DEC_UNIT_pos as HU. pose proof DSCALE_pos as HS.
  pose proof (bid_of_doubles d two63 Hd eq_refl) as Hhi.
  pose proof (bid_of_doubles d below_min Hd eq_refl) as Hlo.
  pose proof (bid_of_int_double (- 2 ^ 63) d eq_refl Hd) as Hmin.
  rewrite two63_decimal, two63_value in Hhi. rewrite below_min_decimal, below_min_value in Hlo.
  pose proof (law_from_binary64 d Hd) as Hl. unfold bid_of in *.
  destruct (dx d) as [| |a|] eqn:Ea; [by rewrite Hl..| |by rewrite Hl].
  destruct Hl as (u & Eu & _). rewrite Eu in *. rewrite !xnum_cmp_fin in Hhi, Hlo, Hmin.
  apply eq_true_iff_eq. rewrite !quot_in_int64 by done.
  pose proof (double_gap_at_min d a Hd Ea) as Hgap.
  split; intros [H1 H2]; split.
  - destruct (Z.compare_spec (- 2 ^ 63 * DSCALE) a) as [?|?|Hlt]; [lia|lia|].
    specialize (Hgap Hlt). clear -Hgap H1 Hlo HU HS.
    destruct (Z.compare_spec a (- (2 ^ 63 + 2048) * DSCALE)) as [Ec|Ec|Ec]; [| |lia].
    + apply Z.compare_eq_iff in Hlo. nia.
    + rewrite Z.compare_lt_iff in Hlo. nia.
  - apply (proj1 (Z.compare_lt_iff _ _)). rewrite <- Hhi. exact H2.
  - destruct (Z.compare_spec (- 2 ^ 63 * DSCALE) a) as [E|E|Hlt].
    + apply Z.compare_eq_iff in Hmin. nia.
    + rewrite Z.compare_lt_iff in Hmin. nia.
    + specialize (Hgap Hlt). clear -Hgap H1 HS. nia.
  - apply (proj1 (Z.compare_lt_iff _ _)). rewrite Hhi. exact H2.
Qed.

Lemma integer_test v :
  wf_value v = true ->
  IsBsonValueUnquantized64BitInteger v false =
  Ok (match integer_part v with Some _ => true | None => false end).
Proof.
  intros W. unfold IsBsonValueUnquantized64BitInteger, IsBsonValue64BitIntegerCore, integer_part.
  destruct v; try done; simpl in W.
  - destruct (as_decimal (V_Double v_double)) as (d & -> & Ed); [done..|]. cbn [result_bind].
    rewrite in_int64_range, Ed. cbn [result_bind negb number_of]. rewrite double_in_range by done.
    destruct (dx v_double) as [| |a|]; try done. by destruct (in_int64 _).
  - rewrite in_int64_range. cbn [result_bind negb]. destruct (dval v_decimal128) as [| |u|]; try done.
    by destruct (in_int64 _).
Qed.

Lemma integer_value_of v z :
  wf_value v = true -> integer_part v = Some z -> BsonValueAsInt64 v = Ok z /\ in_int64 z = true.
Proof.
  unfold integer_part, BsonValueAsInt64, BsonValueAsInt64WithRoundingMode. cbn [result_bind].
  destruct v; try done; cbn [wf_value]; intros W E.
  - destruct (dx v_double) as [| |a|] eqn:Ea; try done. unfold dx in Ea.
    destruct (isnan v_double) eqn:En; [done|]. destruct (isinf v_double); [by destruct (d_neg v_double)|].
    assert (dscaled v_double = a) as Ed by congruence. cbv zeta in E. rewrite <- Ed in E.
    unfold cast_int64, cast_Z_int64, d_trunc. rewrite En.
    destruct (in_int64 (Z.quot (dscaled v_double) DSCALE)) eqn:Er; [|done]. injection E as <-. by split.
  - injection E as <-. split; [done|by apply in_int32_int64].
  - by injection E as <-.
  - unfold GetBsonDecimal128AsInt64. cbn [GetBIDUINT128FromBsonValue CheckDecimal128Type result_bind].
    pose proof (law_to_int64_xint v_decimal128) as Hc. unfold converts in Hc.
    destruct (dval v_decimal128) as [| |u|]; try done. cbv zeta in E.
    destruct (in_int64 (Z.quot u DEC_UNIT)) eqn:Er; [|done]. injection E as <-. split; [|done].
    unfold GetBIDUINT128FromBsonValue, CheckDecimal128Type. cbn [result_bind type_eqb value_type].
    destruct (bid128_to_int64_xint v_decimal128) as [i fl]. cbn [fst snd] in Hc. destruct Hc as [-> Hf].
    destruct (IsOperationSuccess fl); [done|]. cbn [negb]. by rewrite Hf.
Qed.

(** The bits of a value; [None] for a value that no bitwise operator matches. *)
Definition value_bits (v : bson_value) : option (Z -> bool) :=
  match v with
  | V_Int32 z | V_Int64 z => Some (Z.testbit z)
  | V_Double d =>
      if dscaled d mod DSCALE =? 0 then Z.testbit <$> integer_part v else None
  | V_Decimal128 d =>
      match dval d with
      | XFin _ => Z.testbit <$> integer_part v
      | _ => Some (fun _ => false)
      end
  | V_Binary _ data => Some (byte_bit data)
  | _ => None
  end.

(** An array of positions and the sign extension represent the bits. *)
Definition represents (source : bson_value * bool) (bits : Z -> bool) : Prop :=
  exists positions,
    reads (fields_of source.1) positions /\ StronglySorted Z.lt positions /\
    forall p, 0 <= p -> set_at source.2 positions p = bits p.

Lemma existsb_elem p positions : existsb (Z.eqb p) positions = true <-> p ∈ positions.
Proof.
  rewrite existsb_exists, list_elem_of_In. split; [by intros (x & Hx & ->%Z.eqb_eq)|].
  intros Hp. exists p. by rewrite Z.eqb_refl.
Qed.

Lemma last_max x (xs : list Z) :
  StronglySorted Z.lt xs -> x ∈ xs -> Forall (fun y => y <= x) xs -> last xs = Some x.
Proof.
  intros Hs. induction Hs as [|y ys Hs IH Hy]; [by intros ?%not_elem_of_nil|].
  intros [->|Hin]%elem_of_cons Hle; destruct ys as [|y' ys'].
  - done.
  - exfalso. apply Forall_inv_tail, Forall_inv in Hle. apply Forall_inv in Hy. lia.
  - by apply not_elem_of_nil in Hin.
  - change (last (y :: y' :: ys')) with (last (y' :: ys')). apply IH; [done|by apply Forall_inv_tail in Hle].
Qed.

Lemma represents_int64 z :
  in_int64 z = true ->
  represents (WriteSetBitPositionArray (int64_bytes z) 8, z <? 0) (Z.testbit z).
Proof.
  intros Hz%in_int64_iff. unfold WriteSetBitPositionArray.
  change (Z.to_nat (int32 (8 * 8))) with 64%nat.
  destruct (set_bit_positions_spec (int64_bytes z) 64 0 ltac:(lia)) as [Hs Hm].
  set (positions := set_bit_positions _ _ _) in *. exists positions.
  split_and!; [apply reads_int32_array|done|]. intros p Hp. unfold set_at. cbn [snd].
  destruct (decide (p < 64)) as [Hlt|Hge].
  - assert (existsb (Z.eqb p) positions = Z.testbit z p) as ->.
    { apply eq_true_iff_eq. rewrite existsb_elem, Hm, int64_bit by lia. intuition lia. }
    destruct (Z.testbit z p) eqn:Eb; [done|]. cbn [orb].
    destruct (last positions) as [l|] eqn:El; [|by rewrite andb_false_r].
    destruct (Z.ltb_spec z 0); [|done]. cbn [andb]. apply Z.ltb_ge.
    rewrite (last_max 63) in El; [injection El as <-; lia|done| |].
    + apply Hm. split; [lia|]. rewrite int64_bit by lia. by apply (testbit_sign z 63); lia.
    + apply Forall_lookup. intros i x Hx. apply list_elem_of_lookup_2, Hm in Hx. lia.
  - rewrite (proj1 (not_true_iff_false (existsb (Z.eqb p) positions))) by (rewrite existsb_elem, Hm; lia). cbn [orb].
    destruct (Z.ltb_spec z 0); cbn [andb]; [|by rewrite (testbit_high z 63) by lia].
    rewrite (last_max 63); [|done| |].
    + rewrite (testbit_sign z 63) by lia. apply Z.ltb_lt. lia.
    + apply Hm. split; [lia|]. rewrite int64_bit by lia. by apply (testbit_sign z 63); lia.
    + apply Forall_lookup. intros i x Hx. apply list_elem_of_lookup_2, Hm in Hx. lia.
Qed.

Lemma represents_zero :
  represents (WriteSetBitPositionArray (int64_bytes 0) 8, false) (fun _ => false).
Proof.
  destruct (represents_int64 0 eq_refl) as (positions & H1 & H2 & H3). exists positions.
  split_and!; [done..|]. intros p Hp. exact (eq_trans (H3 p Hp) (Z.bits_0 p)).
Qed.

Lemma represents_bytes data :
  blen data < 2 ^ 28 -> represents (WriteSetBitPositionArray data (blen data), false) (byte_bit data).
Proof.
  intros Hl. unfold WriteSetBitPositionArray, blen in *.
  rewrite (wrap_s_small 32 (Z.of_nat (length data) * 8)) by lia.
  destruct (set_bit_positions_spec data (Z.to_nat (Z.of_nat (length data) * 8)) 0 ltac:(lia)) as [Hs Hm].
  eexists. split_and!; [apply reads_int32_array|done|]. intros p Hp. unfold set_at. cbn [snd andb].
  rewrite orb_false_r. apply eq_true_iff_eq. rewrite existsb_elem, Hm.
  split; [tauto|]. intros Hb. split; [|done]. rewrite Z2Nat.id by lia. split; [lia|].
  unfold byte_bit in Hb. destruct (data !! Z.to_nat (p / 8)) as [x|] eqn:Ex; [|by rewrite Z.bits_0 in Hb].
  apply lookup_lt_Some in Ex. pose proof (Z.div_pos p 8 Hp ltac:(lia)).
  pose proof (Z.div_mod p 8 ltac:(lia)). pose proof (Z.mod_pos_bound p 8 ltac:(lia)). lia.
Qed.

(** Binary data whose bits the code can count in an [int]. *)
Definition countable (v : bson_value) : bool :=
  match v with V_Binary _ data => blen data <? 2 ^ 28 | _ => true end.

Lemma integral_sign d z :
  isnan d = false -> dscaled d = z * DSCALE -> d_lt d 0 = (z <? 0).
Proof.
  intros Hn Hz. unfold d_lt, d_cmp_ok. rewrite Hn, Hz. change (isnan 0) with false. cbn [negb andb].
  change (dscaled 0) with 0. pose proof DSCALE_pos. clear -H. generalize dependent DSCALE. intros k Hk.
  destruct (Z.ltb_spec z 0); [apply Z.ltb_lt|apply Z.ltb_ge]; nia.
Qed.

Lemma bit_source_spec v :
  wf_value v = true -> countable v = true ->
  match value_bits v with
  | None => bit_source v = Ok None
  | Some bits => exists source, bit_source v = Ok (Some source) /\ represents source bits
  end.
Proof.
  intros W Hc. pose proof (integer_test v W) as Ht. pose proof (integer_value_of v) as Hv.
  destruct v; try done; cbn [value_bits bit_source].
  - rewrite Ht. cbn [wf_value] in W. destruct (integer_part (V_Double v_double)) as [z|] eqn:Ez.
    2:{ cbn [result_bind negb]. by destruct (dscaled v_double mod DSCALE =? 0). }
    destruct (Hv z W eq_refl) as [Ei Hi]. rewrite Ei. cbn [result_bind negb BsonValueAsDouble BsonValueAsDoubleCore].
    assert (isnan v_double = false) as Hn.
    { unfold integer_part, dx in Ez. by destruct (isnan v_double). }
    unfold doubleb in W. apply andb_true_iff in W as [W1%Z.leb_le W2%Z.ltb_lt].
    change (BsonValueAsDouble (V_Double v_double)) with (Ok v_double). cbn [result_bind].
    rewrite d_floor_eq by (done || lia). destruct (Z.eqb_spec (dscaled v_double mod DSCALE) 0) as [Hmod|]; [|done].
    cbn [negb]. eexists. split; [done|].
    assert (dscaled v_double = z * DSCALE) as Hd.
    { unfold integer_part, dx in Ez. rewrite Hn in Ez.
      destruct (isinf v_double); [by destruct (d_neg v_double)|]. cbv zeta in Ez.
      destruct (in_int64 _); [|done]. injection Ez as <-. pose proof DSCALE_pos as HS.
      clear -Hmod HS. generalize dependent DSCALE. intros k Hm Hk.
      apply Z.div_exact in Hm; [|lia]. rewrite Hm at 2. rewrite (Z.mul_comm k), Z.quot_mul by lia. lia. }
    rewrite (integral_sign v_double z) by done. by apply represents_int64.
  - apply Z.ltb_lt in Hc. eexists. split; [done|]. by apply represents_bytes.
  - destruct (Hv v_int32 W eq_refl) as [Ei Hi]. rewrite Ei. eexists. split; [done|]. by apply represents_int64.
  - destruct (Hv v_int64 W eq_refl) as [Ei Hi]. rewrite Ei. eexists. split; [done|]. by apply represents_int64.
  - assert (IsDecimal128Finite (V_Decimal128 v_decimal128) = Ok (is_xfin (dval v_decimal128))) as ->
      by (unfold IsDecimal128Finite; cbn; by rewrite law_isFinite).
    cbn [result_bind]. rewrite in_int64_range.
    destruct (dval v_decimal128) as [| |u|] eqn:Ed; cbn [is_xfin result_bind andb negb];
      try (eexists; split; [done|]; apply represents_zero).
    destruct (integer_part (V_Decimal128 v_decimal128)) as [z|] eqn:Ez.
    + destruct (Hv z W eq_refl) as [Ei Hi]. rewrite Ei.
      unfold integer_part in Ez. rewrite Ed in Ez. cbv zeta in Ez.
      destruct (in_int64 (Z.quot u DEC_UNIT)); [|done]. eexists. split; [done|]. by apply represents_int64.
    + unfold integer_part in Ez. rewrite Ed in Ez. cbv zeta in Ez. by destruct (in_int64 (Z.quot u DEC_UNIT)).
Qed.

(** What each operator asks of a value's bits. *)
Definition bits_answer (ask : (Z -> bool) -> bool) (v : bson_value) : bool :=
  match value_bits v with Some bits => ask bits | None => false end.

Lemma bits_match v filter positions coll :
  wf_value v = true -> countable v = true -> reads (fields_of filter) positions ->
  StronglySorted Z.lt positions -> Forall (fun p => 0 <= p) positions ->
  CompareBitsAllSetMatch v filter coll = Ok (bits_answer (fun bits => forallb bits positions) v) /\
  CompareBitsAnySetMatch v filter coll = Ok (bits_answer (fun bits => existsb bits positions) v) /\
  CompareBitsAllClearMatch v filter coll =
    Ok (bits_answer (fun bits => negb (existsb bits positions)) v) /\
  CompareBitsAnyClearMatch v filter coll =
    Ok (bits_answer (fun bits => negb (forallb bits positions)) v).
Proof.
  intros W Hc Hr Hs Hp. pose proof (bit_source_spec v W Hc) as Hb.
  unfold CompareBitsAllSetMatch, CompareBitsAnySetMatch, CompareBitsAllClearMatch,
    CompareBitsAnyClearMatch, CompareBitwiseOperator, bits_answer.
  destruct (value_bits v) as [bits|]; [|rewrite Hb; done].
  destruct Hb as ([source isSignExtended] & -> & ss & Hss & Hsorted & Hbits). cbn [result_bind fst snd] in *.
  destruct (bits_arrays_correct isSignExtended _ _ ss positions Hss Hr Hsorted Hs) as (-> & -> & -> & ->).
  assert (forallb (set_at isSignExtended ss) positions = forallb bits positions) as ->
    by by apply (forallb_ext_on _ _ (fun p => 0 <= p)).
  assert (existsb (set_at isSignExtended ss) positions = existsb bits positions) as ->.
  { rewrite !existsb_negb. f_equal. apply (forallb_ext_on _ _ (fun p => 0 <= p)); [done|].
    intros y Hy. by rewrite Hbits. }
  done.
Qed.
End numbers.

(** ** The operators are correct *)

Section correctness.
Context {L : BidLib} {BL : BidLaws L} {I : Icu} {F : FindField} {FL : FindFieldLaws F}.
Context (EnableCollation : bool).

Lemma bits_query_spec compareFunc g document filter path value coll :
  asks EnableCollation filter path value coll ->
  Forall (fun v => compareFunc v value coll = Ok (g v)) (path_values true path document) ->
  bits_query EnableCollation compareFunc document filter =
  Some (Ok (existsb g (path_values true path document))).
Proof.
  intros (Ef & Hp & _) Hg. unfold bits_query, CompareBsonAgainstQuery. rewrite Ef. cbn [out_bind fst snd].
  by apply plain_query.
Qed.


Lemma mask_positions m :
  0 <= m < 2 ^ 31 ->
  exists argument positions,
    CreateExprForBitwiseQueryOperators (V_Int32 m) = Ok argument /\
    reads (fields_of argument) positions /\ StronglySorted Z.lt positions /\
    Forall (fun p => 0 <= p) positions /\
    (forall p, p ∈ positions <-> 0 <= p /\ Z.testbit m p = true).
Proof.
  intros Hm. cbn [CreateExprForBitwiseQueryOperators]. rewrite (proj2 (Z.ltb_ge _ _)) by lia.
  unfold WriteSetBitPositionArray. change (Z.to_nat (int32 (4 * 8))) with 32%nat.
  destruct (set_bit_positions_spec (int32_bytes m) 32 0 ltac:(lia)) as [Hs Hp].
  eexists _, _. split; [done|]. split; [apply reads_int32_array|]. split; [done|]. split.
  - apply Forall_lookup. intros i x Hx. apply list_elem_of_lookup_2, Hp in Hx. lia.
  - intros p. rewrite Hp. split; intros [H1 H2].
    + rewrite int32_bit in H2 by lia. split; [lia|done].
    + destruct (decide (p < 32)); [rewrite int32_bit by lia; split; [lia|done]|].
      rewrite (testbit_high m 31) in H2 by lia. done.
Qed.

Lemma forallb_mask z m positions :
  0 <= m -> (forall p, p ∈ positions <-> 0 <= p /\ Z.testbit m p = true) ->
  forallb (Z.testbit z) positions = (Z.land z m =? m) /\
  existsb (Z.testbit z) positions = negb (Z.land z m =? 0).
Proof.
  intros Hm Hp. split; apply eq_true_iff_eq.
  - rewrite forallb_forall, Z.eqb_eq. split.
    + intros H. apply Z.bits_inj'. intros n Hn. rewrite Z.land_spec.
      destruct (Z.testbit m n) eqn:E; [|by rewrite andb_false_r].
      by rewrite H by (apply list_elem_of_In, Hp; done).
    + intros H p [Hp0 Hb]%list_elem_of_In%Hp. rewrite <- H, Z.land_spec in Hb. by apply andb_true_iff in Hb as [? _].
  - rewrite existsb_exists, negb_true_iff, Z.eqb_neq. split.
    + intros (p & [Hp0 Hb]%list_elem_of_In%Hp & Hz) H.
      pose proof (f_equal (fun x => Z.testbit x p) H) as E. cbv beta in E.
      rewrite Z.land_spec, Hb, Hz, Z.bits_0 in E. done.
    + intros H. set (l := Z.land z m). assert (0 <= l) by (apply Z.land_nonneg; lia).
      assert (0 < l) by lia. pose proof (Z.bit_log2 l ltac:(lia)) as Hb. unfold l at 1 in Hb.
      rewrite Z.land_spec in Hb. apply andb_true_iff in Hb as [Hz Hb]. exists (Z.log2 l). split; [|done].
      apply list_elem_of_In, Hp. split; [apply Z.log2_nonneg|done].
Qed.

(** Bit masks.  A 32-bit mask that is not negative is turned into an
    argument with which the operators compute what the bitwise and of the mask
    with any 64-bit integer says: equal to the mask, not zero, zero, different
    from the mask. *)
Theorem bit_mask_correct (m z : Z) (coll : option bytes) :
  0 <= m < 2 ^ 31 -> in_int64 z = true ->
  exists argument,
    CreateExprForBitwiseQueryOperators (V_Int32 m) = Ok argument /\
    CompareBitsAllSetMatch (V_Int64 z) argument coll = Ok (Z.land z m =? m) /\
    CompareBitsAnySetMatch (V_Int64 z) argument coll = Ok (negb (Z.land z m =? 0)) /\
    CompareBitsAllClearMatch (V_Int64 z) argument coll = Ok (Z.land z m =? 0) /\
    CompareBitsAnyClearMatch (V_Int64 z) argument coll = Ok (negb (Z.land z m =? m)).
Proof.
  intros Hm Hz. destruct (mask_positions m Hm) as (argument & positions & E & Hr & Hs & Hp & Hb).
  exists argument. split; [done|].
  destruct (forallb_mask z m positions ltac:(lia) Hb) as [Hall Hany].
  destruct (bits_match (V_Int64 z) argument positions coll) as (-> & -> & -> & ->); [done..|].
  unfold bits_answer, value_bits. rewrite Hall, Hany, negb_involutive. done.
Qed.

(** ** The preparation of an array of positions *)

Lemma check_positions_spec elements prev sorted values sorted' :
  check_positions elements prev sorted = Ok (values, sorted') ->
  reads elements values /\ Forall (fun p => 0 <= p) values /\
  (sorted' = true -> sorted = true /\ Sorted Z.le (prev :: values)).
Proof.
  revert prev sorted values sorted'.
  induction elements as [|[k v] rest IH]; intros prev sorted values sorted'; cbn [check_positions].
  { intros [= <- <-]. split_and!; [constructor..|]. intros ->. split; [done|]. by repeat constructor. }
  destruct (IsBsonValue32BitInteger v false) as [[]|]; cbn [result_bind negb]; [|done..].
  destruct (BsonValueAsInt32 v) as [z|] eqn:Ev; cbn [result_bind]; [|done].
  destruct (Z.ltb_spec z 0) as [|Hz]; [done|].
  destruct (check_positions rest z _) as [[values' s]|] eqn:Er; cbn [result_bind]; [|done].
  intros [= <- <-]. apply IH in Er as (Hr & Hp & Hs). split_and!; [by constructor..|].
  intros ->. destruct (Hs eq_refl) as [Hsorted Hord]. destruct (Z.ltb_spec z prev) as [|Hle].
  - destruct sorted; done.
  - split; [done|]. constructor; [done|]. by constructor.
Qed.

Lemma strictly_sorted (xs : list Z) : StronglySorted Z.le xs -> NoDup xs -> StronglySorted Z.lt xs.
Proof.
  induction 1 as [|x xs Hs IH Hx]; [constructor|]. intros [Hn Hd]%NoDup_cons. constructor; [by apply IH|].
  apply Forall_lookup. intros i y Hi. pose proof (Forall_lookup_1 _ _ _ _ Hx Hi) as Hle. simpl in Hle.
  apply list_elem_of_lookup_2 in Hi. assert (x <> y) by (by intros ->). lia.
Qed.

Lemma prepared_positions elements argument :
  CreateExprForBitwiseQueryOperators (V_Array elements) = Ok argument ->
  exists given positions,
    reads elements given /\ reads (fields_of argument) positions /\ Permutation given positions /\
    StronglySorted Z.le positions /\ Forall (fun p => 0 <= p) positions.
Proof.
  cbn [CreateExprForBitwiseQueryOperators]. unfold SortAndWriteInt32BsonTypeArray. cbn [fields_of].
  destruct (check_positions elements (-1) true) as [[values sorted]|] eqn:Ec; cbn [result_bind]; [|done].
  apply check_positions_spec in Ec as (Hr & Hp & Hs).
  destruct sorted; cbn [result_bind default]; intros [= <-]; exists values.
  - exists values. destruct (Hs eq_refl) as [_ Hord].
    apply Sorted_StronglySorted, StronglySorted_inv in Hord as [Hord _]; [done|apply _].
  - exists (merge_sort Z.le values). pose proof (merge_sort_Permutation Z.le values) as Hperm.
    split_and!; [done|apply reads_int32_array|by symmetry|by apply StronglySorted_merge_sort; apply _|].
    apply Forall_lookup. intros i x Hx. apply list_elem_of_lookup_2 in Hx. rewrite Hperm in Hx.
    apply list_elem_of_lookup_1 in Hx as [j Hj]. exact (Forall_lookup_1 _ _ _ _ Hp Hj).
Qed.

(** Arrays of positions are sorted first.  When the argument of a bitwise
    operator is an array, the operator gets an ascending permutation of its
    positions, none of them negative, or the query is refused; if no position
    occurs twice the operator gets them in strictly ascending order, and so
    $bitsAllSet matches a value exactly if it has all the given bits set. *)
Theorem bit_positions_prepared elements argument v coll :
  CreateExprForBitwiseQueryOperators (V_Array elements) = Ok argument ->
  wf_value v = true -> countable v = true ->
  exists given positions,
    reads elements given /\ reads (fields_of argument) positions /\ Permutation given positions /\
    StronglySorted Z.le positions /\ Forall (fun p => 0 <= p) positions /\
    (NoDup given ->
     StronglySorted Z.lt positions /\
     CompareBitsAllSetMatch v argument coll = Ok (bits_answer (fun bits => forallb bits given) v)).
Proof.
  intros E W Hc. destruct (prepared_positions elements argument E) as (given & positions & H1 & H2 & H3 & H4 & H5).
  exists given, positions. split_and!; [done..|]. intros Hd. rewrite H3 in Hd.
  pose proof (strictly_sorted _ H4 Hd) as Hs. split; [done|].
  destruct (bits_match v argument positions coll W Hc H2 Hs H5) as (-> & _). f_equal.
  unfold bits_answer. destruct (value_bits v) as [bits|]; [|done]. apply eq_true_iff_eq.
  rewrite !forallb_forall. setoid_rewrite <- list_elem_of_In. by setoid_rewrite H3.
Qed.

(** ** $mod *)

Lemma mod_element_integer n v :
  wf_value v = true -> check_mod_element n v = Ok tt ->
  exists z, BsonValueAsInt64 v = Ok z /\ (n = 1 -> z <> 0).
Proof.
  intros W. unfold check_mod_element. destruct (negb (BsonValueIsNumber v)) eqn:Hn; [done|].
  destruct (match v with V_Decimal128 _ | V_Double _ => _ | _ => _ end) as [[]|] eqn:Em;
    cbn [result_bind]; [|done]. intros Hd.
  assert (exists z, BsonValueAsInt64 v = Ok z) as [z Hz].
  { destruct v; try discriminate Hn; try (by eexists).
    assert (GetBsonValueAsDecimal128Quantized (V_Decimal128 v_decimal128) = Ok v_decimal128) as Eq by done.
    rewrite Eq in Em. cbn [result_bind] in Em.
    destruct (IsDecimal128Finite _) as [[]|]; cbn [result_bind negb] in Em; try done.
    rewrite in_int64_range in Em. cbn [result_bind] in Em.
    assert (exists z, integer_part (V_Decimal128 v_decimal128) = Some z) as [z Hz].
    { cbn [integer_part]. destruct (dval v_decimal128) as [| |u|]; try done. cbv zeta.
      destruct (in_int64 (Z.quot u DEC_UNIT)); [by eexists|done]. }
    exists z. by apply integer_value_of. }
  exists z. split; [done|]. intros ->. rewrite Hz in Hd. cbn in Hd. destruct (Z.eqb_spec z 0); done.
Qed.

Lemma mod_argument elements argument :
  wf_value (V_Array elements) = true ->
  CreateExprForDollarMod (V_Array elements) = Ok argument ->
  exists k1 v1 k2 v2 divisor rem,
    elements = [(k1, v1); (k2, v2)] /\ argument = V_Array elements /\
    BsonValueAsInt64 v1 = Ok divisor /\ BsonValueAsInt64 v2 = Ok rem /\ divisor <> 0.
Proof.
  intros W. cbn [CreateExprForDollarMod].
  destruct (check_mod_elements elements 0) as [n|] eqn:Ec; cbn [result_bind]; [|done].
  destruct (Z.ltb_spec n 2) as [|Hn]; [done|]. intros [= <-].
  cbn [wf_value] in W. destruct elements as [|[k1 v1] [|[k2 v2] rest]]; cbn [check_mod_elements] in Ec.
  - injection Ec as <-. lia.
  - destruct (check_mod_element _ v1); cbn in Ec; [|done]. injection Ec as <-. lia.
  - cbn [forallb snd fst] in W. apply andb_true_iff in W as [[_ W1]%andb_true_iff W].
    apply andb_true_iff in W as [[_ W2]%andb_true_iff _].
    change (0 + 1 =? 3) with false in Ec. change (0 + 1 + 1 =? 3) with false in Ec. cbv iota in Ec.
    destruct (check_mod_element (0 + 1) v1) as [[]|] eqn:E1; cbn [result_bind] in Ec; [|done].
    destruct (check_mod_element (0 + 1 + 1) v2) as [[]|] eqn:E2; cbn [result_bind] in Ec; [|done].
    destruct rest as [|[k3 v3] rest]; [|done].
    apply mod_element_integer in E1 as (divisor & H1 & Hd); [|done].
    apply mod_element_integer in E2 as (rem & H2 & _); [|done].
    exists k1, v1, k2, v2, divisor, rem. split_and!; auto.
Qed.

(** C34: $mod is the remainder of the truncated division.  With an argument that
    the query parser accepts, which is an array of a divisor that is not zero
    and a remainder, $mod matches a document exactly when one of the values of
    the path is a number whose integer part is in the 64-bit range and leaves
    that remainder; no document makes it fail, -2^63 with the divisor -1
    included. *)
Theorem mod_operator_correct document filter path elements argument coll :
  CreateExprForDollarMod (V_Array elements) = Ok argument ->
  asks EnableCollation filter path argument coll -> wf_fields document = true ->
  exists divisor rem,
    divisor <> 0 /\
    BsonValueAsInt64 <$> (snd <$> elements) = [Ok divisor; Ok rem] /\
    bson_dollar_mod EnableCollation document filter =
    Some (Ok (existsb (fun v => match integer_part v with
                                | Some z => Z.rem z divisor =? rem
                                | None => false
                                end) (path_values true path document))).
Proof.
  intros Em Ha W. pose proof (proj2 (proj2 Ha)) as Wa.
  assert (argument = V_Array elements) as Earg.
  { cbn [CreateExprForDollarMod] in Em. destruct (check_mod_elements _ _); cbn [result_bind] in Em; [|done].
    destruct (_ <? _); congruence. }
  rewrite Earg in Wa. apply mod_argument in Em as (k1 & v1 & k2 & v2 & divisor & rem & -> & -> & E1 & E2 & Hd);
    [|done].
  exists divisor, rem. split; [done|]. split; [cbn [fmap list_fmap snd]; by rewrite E1, E2|].
  apply (bits_query_spec _ _ _ _ path _ coll Ha). pose proof (wf_path_values true path document W) as Hw.
  eapply Forall_impl; [exact Hw|]. intros v Wv. cbv beta.
  unfold CompareModMatch, CompareModOperator. cbn [fields_of]. rewrite E1, E2. cbn [result_bind].
  rewrite integer_test by done. cbn [result_bind].
  destruct (integer_part v) as [z|] eqn:Ez; [|done]. cbn [negb].
  destruct (integer_value_of v z Wv Ez) as [-> _]. cbn [result_bind].
  rewrite (proj2 (Z.eqb_neq divisor 0)) by done.
  destruct (Z.eqb_spec z INT64_MIN) as [->|]; cbn [andb]; [|done].
  destruct (Z.eqb_spec divisor (-1)) as [->|]; [|done].
  change (Z.rem INT64_MIN (-1)) with 0. by rewrite Z.eqb_sym.
Qed.
End correctness.

(** ** Instances *)

Section examples.
Import ExactBid FoldCase FindFirst.

(** A position given twice is an error that the operators do not see.  The
    array [1, 1] is ascending, so it is used as it is; $bitsAllSet then does not
    match 6, whose bit 1 is set, and $bitsAnyClear matches it. *)
Theorem duplicate_bit_positions (coll : option bytes) :
  let argument := V_Array [(index_key 0, V_Int32 1); (index_key 1, V_Int32 1)] in
  CreateExprForBitwiseQueryOperators argument = Ok argument /\
  Z.testbit 6 1 = true /\
  CompareBitsAllSetMatch (V_Int32 6) argument coll = Ok false /\
  CompareBitsAnyClearMatch (V_Int32 6) argument coll = Ok true.
Proof. vm_compute. split_and!; reflexivity. Qed.

(** A negative mask is refused unless it is a 64-bit integer.  -1 as a
    32-bit integer is an error; the same number as a 64-bit integer is accepted
    and asks for the bits 0 to 31. *)
Theorem negative_long_mask_accepted :
  CreateExprForBitwiseQueryOperators (V_Int32 (-1)) = Err ERRCODE_DOCUMENTDB_FAILEDTOPARSE /\
  CreateExprForBitwiseQueryOperators (V_Int64 (-1)) = Ok (int32_array (seqZ 0 32)).
Proof. vm_compute. split; reflexivity. Qed.

Definition bits_document : bson_doc := [(str "a", V_Array [(str "0", V_Int32 5); (str "1", V_Int64 (-2))])].
Definition bits_filter (positions : list Z) : bson_doc := [(str "a", int32_array positions)].


Lemma bit_mask_correct_witness :
  exists argument,
    CreateExprForBitwiseQueryOperators (V_Int32 6) = Ok argument /\
    CompareBitsAllSetMatch (V_Int64 (-2)) argument None = Ok (Z.land (-2) 6 =? 6) /\
    CompareBitsAnySetMatch (V_Int64 (-2)) argument None = Ok (negb (Z.land (-2) 6 =? 0)) /\
    CompareBitsAllClearMatch (V_Int64 (-2)) argument None = Ok (Z.land (-2) 6 =? 0) /\
    CompareBitsAnyClearMatch (V_Int64 (-2)) argument None = Ok (negb (Z.land (-2) 6 =? 6)).
Proof. apply (bit_mask_correct 6 (-2) None); [lia|reflexivity]. Defined.

Lemma bit_positions_prepared_witness :
  exists argument given positions,
    CreateExprForBitwiseQueryOperators (int32_array [4; 1]) = Ok argument /\
    reads (fields_of (int32_array [4; 1])) given /\ reads (fields_of argument) positions.
Proof.
  destruct (bit_positions_prepared (fields_of (int32_array [4; 1])) (int32_array [1; 4]) (V_Int32 6) None)
    as (given & positions & H1 & H2 & _).
  1-3: vm_compute; reflexivity.
  exists (int32_array [1; 4]), given, positions. split_and!; [vm_compute; reflexivity|exact H1|exact H2].
Defined.

Lemma mod_operator_correct_witness :
  exists divisor rem,
    divisor <> 0 /\
    BsonValueAsInt64 <$> (snd <$> [(str "0", V_Int32 3); (str "1", V_Int64 (-2))]) = [Ok divisor; Ok rem] /\
    bson_dollar_mod true bits_document
      [(str "a", V_Array [(str "0", V_Int32 3); (str "1", V_Int64 (-2))])] =
    Some (Ok (existsb (fun v => match integer_part v with
                                | Some z => Z.rem z divisor =? rem
                                | None => false
                                end) (path_values true (str "a") bits_document))).
Proof.
  apply (mod_operator_correct true bits_document _ (str "a")
    [(str "0", V_Int32 3); (str "1", V_Int64 (-2))]
    (V_Array [(str "0", V_Int32 3); (str "1", V_Int64 (-2))]) None).
  2: split_and!.
  all: vm_compute; reflexivity.
Defined.
End examples.
