(* ===== verification/NumericAggregates.v ===== *)
(** * The aggregates $sum and $avg

    [bson_sum_avg_transition], its inverse for moving windows, the combination
    of partial aggregates and the final functions, of
    [pg_documentdb/src/aggregation/bson_aggregates.c].  PostgreSQL calls them:
    a group is a sequence of transitions, a moving window a sequence of
    transitions and inverse transitions, a parallel aggregate combines the
    states of its workers.  The theorems follow such sequences. *)

From stdpp Require Import base numbers list option.
From Stdlib Require Import ZArith Lia.
From S2P Require Import Prelude Binary64 DoubleArith Bson PgbsonElement Decimal128 BsonCompare Arithmetic.

Record BsonNumericAggState : Set := mk_numeric {
  agg_sum : bson_value;
  agg_count : Z;
}.

Section aggregate.
Context {L : BidLib} {A : BidMath} (EnableCollation : bool).

(** The value added by one row, if it counts. *)
Definition row_value (currentValue : option bson_doc) : result (option bson_value) :=
  match currentValue with
  | None | Some [] => Ok None
  | Some doc => let! element := BsonIterToSinglePgbsonElement EnableCollation doc in Ok (Some element.2)
  end.

(** The state is NULL for the first row; [aggregateContext] says whether the
    executor called the function for an aggregate. *)
Definition bson_sum_avg_transition (aggregateContext : bool) (state : option BsonNumericAggState)
  (currentValue : option bson_doc) : result BsonNumericAggState :=
  let! currentState := match state with
                       | None => if negb aggregateContext then Err ERRCODE_INTERNAL_ERROR
                                 else Ok (mk_numeric (V_Int32 0) 0)
                       | Some s => Ok s
                       end in
  let! value := row_value currentValue in
  match value with
  | None => Ok currentState
  | Some v =>
      let! (added, sum, _) := AddNumberToBsonValue (agg_sum currentState) v false in
      Ok (mk_numeric sum (if added : bool then agg_count currentState + 1 else agg_count currentState))
  end.

(** NULL means that the inverse cannot be applied. *)
Definition bson_sum_avg_minvtransition (windowContext : bool) (state : option BsonNumericAggState)
  (currentValue : option bson_doc) : result (option BsonNumericAggState) :=
  if negb windowContext then Err ERRCODE_INTERNAL_ERROR
  else
    match state with
    | None => Ok None
    | Some currentState =>
        let! value := row_value currentValue in
        match value with
        | None => Ok (Some currentState)
        | Some v =>
            if 0 <? agg_count currentState then
              let! (subtracted, sum, _) := SubtractNumberFromBsonValue (agg_sum currentState) v false in
              Ok (Some (mk_numeric sum (if subtracted : bool then agg_count currentState - 1
                                        else agg_count currentState)))
            else Ok (Some currentState)
        end
    end.

Definition bson_sum_final (state : option BsonNumericAggState) : bson_doc :=
  [([], match state with Some s => agg_sum s | None => V_Int32 0 end)].

Definition bson_avg_final (state : option BsonNumericAggState) : result bson_doc :=
  match state with
  | None => Ok [([], V_Null)]
  | Some s =>
      if agg_count s =? 0 then Ok [([], V_Null)]
      else
        let! sum := BsonValueAsDouble (agg_sum s) in
        Ok [([], V_Double (d_div sum (double_of_int (agg_count s))))]
  end.

Definition bson_sum_avg_combine (aggregateContext : bool) (left right : option BsonNumericAggState)
  : result (option BsonNumericAggState) :=
  if negb aggregateContext then Err ERRCODE_INTERNAL_ERROR
  else
    match left, right with
    | None, None => Ok None
    | None, Some r => Ok (Some r)
    | Some l, None => Ok (Some l)
    | Some l, Some r =>
        let! (_, sum, _) := AddNumberToBsonValue (agg_sum l) (agg_sum r) false in
        Ok (Some (mk_numeric sum (agg_count l + agg_count r)))
    end.

(** ** Sequences of calls *)

(** The rows of a group, in order. *)
Fixpoint aggregate (state : option BsonNumericAggState) (rows : list (option bson_doc))
  : result (option BsonNumericAggState) :=
  match rows with
  | [] => Ok state
  | row :: rest =>
      let! s := bson_sum_avg_transition true state row in
      aggregate (Some s) rest
  end.

(** A row with a value. *)
Definition row (v : bson_value) : option bson_doc := Some [([], v)].

Definition total (zs : list Z) : Z := fold_right Z.add 0 zs.

(** The state holds the sum of the integers. *)
Definition holds (state : BsonNumericAggState) (zs : list Z) : Prop :=
  wf_value (agg_sum state) = true /\ integer_of (agg_sum state) = Some (total zs) /\
  agg_count state = Z.of_nat (length zs).

(** An integer value. *)
Definition holds_integer (v : bson_value) (z : Z) : Prop :=
  wf_value v = true /\ integer_of v = Some z.

(** The states of a moving window over integers: rows enter at one end and
    leave at the other; every window sum fits in 64 bits. *)
Inductive window : BsonNumericAggState -> list Z -> Prop :=
| window_start v z state :
    holds_integer v z -> bson_sum_avg_transition true None (row v) = Ok state -> window state [z]
| window_enter state zs v z state' :
    window state zs -> holds_integer v z -> in_int64 (total (zs ++ [z])) = true ->
    bson_sum_avg_transition true (Some state) (row v) = Ok state' -> window state' (zs ++ [z])
| window_leave state zs v z state' :
    window state (z :: zs) -> holds_integer v z -> in_int64 (total zs) = true ->
    bson_sum_avg_minvtransition true (Some state) (row v) = Ok (Some state') -> window state' zs.

Lemma total_app xs ys : total (xs ++ ys) = total xs + total ys.
Proof. induction xs as [|x xs IH]; [done|]. cbn. unfold total in *. lia. Qed.

Lemma int_result_value a b z :
  in_int64 z = true -> wf_value (int_result a b z) = true /\ integer_of (int_result a b z) = Some z.
Proof. intros Hz. unfold int_result. repeat case_match; done. Qed.

Lemma integer_bounds v z : holds_integer v z -> in_int64 z = true.
Proof. intros [W I]. by apply (integer_range v z). Qed.

(** One row enters, one row leaves. *)
Lemma enter_row state zs v z :
  holds state zs -> holds_integer v z -> in_int64 (total (zs ++ [z])) = true ->
  exists state', bson_sum_avg_transition true (Some state) (row v) = Ok state' /\ holds state' (zs ++ [z]).
Proof.
  intros (Ws & Is & Cs) [Wv Iv] Hz. rewrite total_app in Hz. cbn [total fold_right] in Hz. rewrite Z.add_0_r in Hz.
  unfold bson_sum_avg_transition. cbn [result_bind row row_value BsonIterToSinglePgbsonElement snd].
  rewrite (add_integers _ _ (total zs) z), Hz by done. cbn [result_bind].
  eexists. split; [done|].
  destruct (int_result_value (agg_sum state) v (total zs + z) Hz) as [W E].
  split_and!; cbn [agg_sum agg_count]; [done| |by rewrite Cs, length_app, Nat2Z.inj_add].
  rewrite E, total_app. cbn. f_equal. lia.
Qed.

Lemma first_row v z :
  holds_integer v z -> exists state, bson_sum_avg_transition true None (row v) = Ok state /\ holds state [z].
Proof.
  intros Hv. apply (enter_row (mk_numeric (V_Int32 0) 0) [] v z); [done|done|].
  cbn. rewrite Z.add_0_r. by apply (integer_bounds v).
Qed.

Lemma leave_row state zs v z :
  holds state (z :: zs) -> holds_integer v z -> in_int64 (total zs) = true ->
  exists state', bson_sum_avg_minvtransition true (Some state) (row v) = Ok (Some state') /\ holds state' zs.
Proof.
  intros (Ws & Is & Cs) [Wv Iv] Hz. cbn [length] in Cs.
  unfold bson_sum_avg_minvtransition. cbn [negb result_bind row row_value BsonIterToSinglePgbsonElement snd].
  rewrite (proj2 (Z.ltb_lt _ _)) by lia.
  rewrite (subtract_integers _ _ (total (z :: zs)) z) by done. cbn [total fold_right].
  replace (z + fold_right Z.add 0 zs - z) with (total zs) by (unfold total; lia).
  rewrite Hz. cbn [result_bind]. eexists. split; [done|].
  destruct (int_result_value (agg_sum state) v (total zs) Hz) as [W E].
  split_and!; cbn [agg_sum agg_count]; [done|done|]. rewrite Cs. lia.
Qed.

Lemma window_holds state zs : window state zs -> holds state zs.
Proof.
  induction 1 as [v z state Hv E|state zs v z state' _ IH Hv Hz E|state zs v z state' _ IH Hv Hz E].
  - destruct (first_row v z Hv) as (s & Es & Hs). congruence.
  - destruct (enter_row state zs v z IH Hv Hz) as (s & Es & Hs). congruence.
  - destruct (leave_row state zs v z IH Hv Hz) as (s & Es & Hs). congruence.
Qed.


(** Groups: the sums of all beginnings fit. *)
Definition sums_fit (start : Z) (zs : list Z) : Prop :=
  forall n, in_int64 (start + total (take n zs)) = true.

Lemma sums_fit_cons start z zs :
  sums_fit start (z :: zs) -> in_int64 (start + z) = true /\ sums_fit (start + z) zs.
Proof.
  intros H. split.
  - specialize (H 1%nat). cbn in H. by rewrite Z.add_0_r in H.
  - intros n. specialize (H (S n)). cbn [take total fold_right] in H. by rewrite <- Z.add_assoc.
Qed.

Lemma aggregate_holds state zs vs ys :
  holds state zs -> Forall2 holds_integer vs ys -> sums_fit (total zs) ys ->
  exists state', aggregate (Some state) (row <$> vs) = Ok (Some state') /\ holds state' (zs ++ ys).
Proof.
  intros Hs Hv. revert state zs Hs. induction Hv as [|v y vs ys Hv _ IH]; intros state zs Hs Hf.
  - exists state. by rewrite app_nil_r.
  - apply sums_fit_cons in Hf as [Hy Hf].
    assert (total (zs ++ [y]) = total zs + y) as Et by (rewrite total_app; cbn; lia).
    destruct (enter_row state zs v y Hs Hv) as (s & Es & Hs'); [by rewrite Et|].
    cbn [fmap list_fmap aggregate]. rewrite Es. cbn [result_bind].
    destruct (IH s (zs ++ [y]) Hs') as (s' & Es' & Hh); [by rewrite Et|].
    exists s'. split; [done|]. by rewrite <- app_assoc in Hh.
Qed.

Lemma group_holds v y vs ys :
  Forall2 holds_integer (v :: vs) (y :: ys) -> sums_fit 0 (y :: ys) ->
  exists state, aggregate None (row <$> v :: vs) = Ok (Some state) /\ holds state (y :: ys).
Proof.
  intros Hv Hf. inversion Hv as [|? ? ? ? H1 H2]; subst.
  destruct (first_row v y H1) as (s & Es & Hs). cbn [fmap list_fmap aggregate]. rewrite Es. cbn [result_bind].
  apply sums_fit_cons in Hf as [_ Hf]. apply (aggregate_holds s [y]); [done|done|].
  cbn. by rewrite Z.add_0_r.
Qed.

(** $sum and $avg of a group.  If the sums of its beginnings fit in 64 bits,
    the group's sum is exact, $avg divides it by the number of rows, and a group
    aggregated in two parts whose states are combined gives the same sum and
    count. *)
Theorem group_sum_correct v y vs ys v' y' vs' ys' :
  Forall2 holds_integer (v :: vs) (y :: ys) -> Forall2 holds_integer (v' :: vs') (y' :: ys') ->
  sums_fit 0 (y :: ys) -> sums_fit 0 (y' :: ys') -> in_int64 (total ((y :: ys) ++ y' :: ys')) = true ->
  exists left right combined,
    aggregate None (row <$> v :: vs) = Ok (Some left) /\
    aggregate None (row <$> v' :: vs') = Ok (Some right) /\
    integer_of (agg_sum left) = Some (total (y :: ys)) /\
    bson_avg_final (Some left) =
      Ok [([], V_Double (d_div (double_of_int (total (y :: ys)))
                               (double_of_int (Z.of_nat (length (y :: ys))))))] /\
    bson_sum_avg_combine true (Some left) (Some right) = Ok (Some combined) /\
    holds combined ((y :: ys) ++ y' :: ys').
Proof.
  intros H1 H2 F1 F2 Ht. destruct (group_holds v y vs ys H1 F1) as (left & El & Hl).
  destruct (group_holds v' y' vs' ys' H2 F2) as (right & Er & Hr).
  destruct Hl as (Wl & Il & Cl), Hr as (Wr & Ir & Cr).
  exists left, right. rewrite total_app in Ht.
  eexists. split_and!; [done|done|done| | |].
  - unfold bson_avg_final. rewrite Cl. rewrite (proj2 (Z.eqb_neq _ _)) by (cbn [length]; lia).
    destruct (integer_range (agg_sum left) _ Wl Il) as (_ & _ & -> & _). done.
  - unfold bson_sum_avg_combine. cbn [negb].
    rewrite (add_integers _ _ (total (y :: ys)) (total (y' :: ys'))), Ht by done. done.
  - destruct (int_result_value (agg_sum left) (agg_sum right) _ Ht) as [W E].
    split_and!; cbn [agg_sum agg_count]; [done|by rewrite E, total_app|].
    rewrite Cl, Cr, length_app. lia.
Qed.
End aggregate.

(** A window does not recover from infinity.  When a row with Infinity has
    entered the window and left it again, the sum of the empty window is NaN;
    before the row entered it was 0. *)
Theorem window_sum_after_infinity {L : BidLib} {A : BidMath} (EnableCollation : bool) :
  let empty := mk_numeric (V_Int32 0) 0 in
  let infinity := row (V_Double INF_BITS) in
  exists state nan,
    bson_sum_avg_transition EnableCollation true (Some empty) infinity = Ok state /\
    bson_sum_avg_minvtransition EnableCollation true (Some state) infinity =
      Ok (Some (mk_numeric (V_Double nan) 0)) /\
    isnan nan = true.
Proof.
  exists (mk_numeric (V_Double INF_BITS) 1), DEFAULT_NAN. split_and!; vm_compute; reflexivity.
Qed.

Section examples.
Import ExactBid ZeroMath.


Lemma sums_fit_small a b : sums_fit 0 [a; b] <-> in_int64 a = true /\ in_int64 (a + b) = true.
Proof.
  split.
  - intros H. split; [specialize (H 1%nat)|specialize (H 2%nat)]; cbn in H; by rewrite Z.add_0_r in H.
  - intros [Ha Hb] [|[|n]]; [done| |].
    + cbn. by rewrite Z.add_0_r.
    + rewrite take_ge by (cbn; lia). cbn. by rewrite Z.add_0_r.
Qed.

Lemma group_sum_correct_witness :
  exists left right combined,
    aggregate true None (row <$> [V_Int32 3; V_Int64 4]) = Ok (Some left) /\
    aggregate true None (row <$> [V_Int32 5; V_Int32 (-5)]) = Ok (Some right) /\
    integer_of (agg_sum left) = Some (total [3; 4]) /\
    bson_avg_final (Some left) =
      Ok [([], V_Double (d_div (double_of_int (total [3; 4])) (double_of_int (Z.of_nat (length [3; 4])))))] /\
    bson_sum_avg_combine true (Some left) (Some right) = Ok (Some combined) /\
    holds combined ([3; 4] ++ [5; -5]).
Proof.
  apply (group_sum_correct true (V_Int32 3) 3 [V_Int64 4] [4] (V_Int32 5) 5 [V_Int32 (-5)] [-5]);
    [repeat constructor|repeat constructor|by apply sums_fit_small|by apply sums_fit_small|reflexivity].
Defined.
End examples.
