(* ===== verification/UpdateOperators.v ===== *)
(** * Update operators

    [pg_documentdb/src/update/bson_update_operators.c] and
    [pg_documentdb/src/utils/sort_utils.c]: what each update operator writes for
    a field, given the value that is there ([V_Eod] if the field is missing) and
    the argument of the operator.  The writer of an operator keeps what was
    written for the field and whether that is a change. *)

From Stdlib Require Import String.
From stdpp Require Import base numbers list option sorting.
From Stdlib Require Import ZArith Lia.
From S2P Require Import Prelude Binary64 Bson PgbsonElement StringView Traversal Decimal128.
From S2P Require Import Collation BsonCompare BsonHash Arithmetic QueryOperators BitOperators.

(** ** Parameters *)

(** A query expression that PostgreSQL's executor evaluates on a value: the
    document of the expression, its collation, and whether it is an array filter. *)
Record ExprEvalState : Type := mk_expr {
  expr_document : bson_value;
  expr_collation : option bytes;
  expr_arrayFilter : bool;
}.

Class QueryExpression : Type := {
  CreateQualForBsonValueExpression : ExprEvalState -> result unit;
  ExpressionEval : ExprEvalState -> bson_value -> result bool;
}.

(** libbson's search along a dotted path. *)
Class FindDescendant : Type := bson_iter_find_descendant : bson_doc -> bytes -> option bson_value.

(** PostgreSQL's [qsort_arg]. *)
Class QSort : Type := qsort_arg : forall {A : Type}, (A -> A -> result Z) -> list A -> result (list A).

(** Where the comparison is a total order on the elements, they are sorted. *)
Class QSortLaws (Q : QSort) : Prop :=
  qsort_sorts : forall {A : Type} (cmp : A -> A -> result Z) (order : A -> A -> comparison) l,
    TotalCmp order ->
    (forall x y, In x l -> In y l -> exists z, cmp x y = Ok z /\ sgn_cmp z = order x y) ->
    exists l', qsort_arg cmp l = Ok l' /\ l' ≡ₚ l /\ StronglySorted (fun x y => order x y <> Gt) l'.

(** ** Writers *)

Inductive ModifyType : Set :=
| MODIFY_TYPE_NOCHANGE
| MODIFY_TYPE_OPERATOR_WRITTEN
| MODIFY_TYPE_CHANGED.

#[export] Instance modify_type_eq_dec : EqDecision ModifyType.
Proof. solve_decision. Defined.

Definition modify_max (a b : ModifyType) : ModifyType :=
  match a, b with
  | MODIFY_TYPE_CHANGED, _ | _, MODIFY_TYPE_CHANGED => MODIFY_TYPE_CHANGED
  | MODIFY_TYPE_OPERATOR_WRITTEN, _ | _, MODIFY_TYPE_OPERATOR_WRITTEN => MODIFY_TYPE_OPERATOR_WRITTEN
  | _, _ => MODIFY_TYPE_NOCHANGE
  end.

Record UpdateOperatorWriter : Type := mk_writer {
  writer_written : option bson_value;
  writer_modifyType : ModifyType;
}.

Record UpdateArrayWriter : Type := mk_array_writer {
  array_written : list bson_value;
  array_modifyType : ModifyType;
}.

Definition UpdateWriterWriteModifiedValue (writer : UpdateOperatorWriter) (value : bson_value)
  : UpdateOperatorWriter := mk_writer (Some value) MODIFY_TYPE_CHANGED.

Definition UpdateWriterSkipValue (writer : UpdateOperatorWriter) : UpdateOperatorWriter :=
  mk_writer (writer_written writer) MODIFY_TYPE_CHANGED.

Definition UpdateWriterGetArrayWriter (writer : UpdateOperatorWriter) : UpdateArrayWriter :=
  mk_array_writer [] MODIFY_TYPE_OPERATOR_WRITTEN.

Definition UpdateArrayWriterWriteOriginalValue (writer : UpdateArrayWriter) (value : bson_value)
  : UpdateArrayWriter := mk_array_writer (array_written writer ++ [value]) (array_modifyType writer).

Definition UpdateArrayWriterWriteValueWithModifyType (writer : UpdateArrayWriter) (value : bson_value)
  (modifyType : ModifyType) : UpdateArrayWriter :=
  mk_array_writer (array_written writer ++ [value]) modifyType.

Definition UpdateArrayWriterWriteModifiedValue (writer : UpdateArrayWriter) (value : bson_value)
  : UpdateArrayWriter := UpdateArrayWriterWriteValueWithModifyType writer value MODIFY_TYPE_CHANGED.

Definition UpdateArrayWriterSkipValue (writer : UpdateArrayWriter) : UpdateArrayWriter :=
  mk_array_writer (array_written writer) MODIFY_TYPE_CHANGED.

(** The array that a [pgbson_array_writer] writes. *)
Definition array_value (elements : list bson_value) : bson_value :=
  V_Array (imap (fun i v => (index_key i, v)) elements).

Definition UpdateArrayWriterFinalize (writer : UpdateOperatorWriter) (arrayWriter : UpdateArrayWriter)
  : UpdateOperatorWriter :=
  mk_writer (Some (array_value (array_written arrayWriter)))
    (modify_max (writer_modifyType writer) (array_modifyType arrayWriter)).

(** ** State *)

Record CurrentDocumentState : Type := mk_docstate {
  documentId : bson_value;
  isUpsert : bool;
  sourceDocument : bson_doc;
  collationString : option bytes;
}.

Record UpdateSetValueState : Type := mk_setstate {
  set_isArray : bool;
  set_hasArrayAncestors : bool;
}.

Record BsonUpdateDollarPullState : Type := mk_pull {
  pull_evalState : ExprEvalState;
  pull_isValue : bool;
}.

(** The state of a node for its operator: nothing, the source of $rename, or the
    expression of $pull. *)
Inductive UpdateNodeContext : Type :=
| NoContext
| RenameContext (sourcePath : bytes)
| PullContext (pullState : BsonUpdateDollarPullState).

(** The elements of an array or the values of a document, in order. *)
Definition elements_of (v : bson_value) : list bson_value := map snd (fields_of v).

(** ** Sorting: [utils/sort_utils.c] *)

Inductive SortDirection : Set := SortDirection_Ascending | SortDirection_Descending.

Inductive SortContext : Type :=
| SortType_No_Sort
| SortType_ObjectFieldSort (sortSpecList : list (bytes * SortDirection))
| SortType_WholeElementSort (sortDirection : SortDirection).

Definition ElementWithIndex : Type := bson_value * Z.

Definition key_ends_with (key : bytes) (c : Z) : bool := bool_decide (last key = Some c).
Definition key_starts_with (key : bytes) (c : Z) : bool := bool_decide (head key = Some c).

Definition DOLLAR : Z := 36.
Definition D_ONE : double := double_of_int 1.
Definition D_MINUS_ONE : double := double_of_int (-1).

Section operators.
Context {L : BidLib} {A : BidMath} {I : Icu} {T : DynaHash} {H : PgHash} {F : FindField}.
Context {E : QueryExpression} {FD : FindDescendant} {Q : QSort}.
Context (EnableCollation : bool).

Definition check_sort_field (f : bson_field) : result (bytes * SortDirection) :=
  let (key, sortVal) := f in
  if bool_decide (key = []) then Err ERRCODE_DOCUMENTDB_BADVALUE
  else if key_starts_with key dot || key_ends_with key dot then Err ERRCODE_DOCUMENTDB_BADVALUE
  else
    let! valid := if negb (BsonValueIsNumber sortVal) then Ok false
                  else let! d := BsonValueAsDouble sortVal in Ok (d_eq d D_ONE || d_eq d D_MINUS_ONE) in
    if negb valid then Err ERRCODE_DOCUMENTDB_BADVALUE
    else
      let! i := BsonValueAsInt64 sortVal in
      Ok (key, if i =? 1 then SortDirection_Ascending else SortDirection_Descending).

Fixpoint check_sort_fields (fields : bson_doc) : result (list (bytes * SortDirection)) :=
  match fields with
  | [] => Ok []
  | f :: rest =>
      let! spec := check_sort_field f in
      let! specs := check_sort_fields rest in
      Ok (spec :: specs)
  end.

Definition ValidateSortSpecAndSetSortContext (sortBsonValue : bson_value) : result SortContext :=
  match sortBsonValue with
  | V_Eod => Ok SortType_No_Sort
  | _ =>
      if negb (BsonValueIsNumber sortBsonValue) then
        match sortBsonValue with
        | V_Document fields =>
            let! sortSpecList := check_sort_fields fields in
            if bool_decide (fields = []) then Err ERRCODE_DOCUMENTDB_BADVALUE
            else Ok (SortType_ObjectFieldSort sortSpecList)
        | _ => Err ERRCODE_DOCUMENTDB_BADVALUE
        end
      else
        let! sortOrder := BsonValueAsDouble sortBsonValue in
        if d_eq sortOrder D_ONE || d_eq sortOrder D_MINUS_ONE
        then Ok (SortType_WholeElementSort
                   (if d_eq sortOrder D_ONE then SortDirection_Ascending else SortDirection_Descending))
        else Err ERRCODE_DOCUMENTDB_BADVALUE
  end.

(** The value of a sort key in an element. *)
Definition sort_key (key : bytes) (v : bson_value) : bson_value :=
  match v with
  | V_Document fields => default V_Null (bson_iter_find_descendant fields key)
  | _ => V_Null
  end.

Fixpoint compare_fields (collation : option bytes) (specs : list (bytes * SortDirection))
  (left right : bson_value) : result (Z * SortDirection) :=
  match specs with
  | [] => Ok (0, SortDirection_Ascending)
  | (key, direction) :: rest =>
      let! (cmp, _) :=
        CompareBsonValueAndTypeWithCollation (sort_key key left) (sort_key key right) collation in
      if negb (cmp =? 0) then Ok (cmp, direction)
      else compare_fields collation rest left right
  end.

Definition CompareBsonValuesForSort (sortContext : SortContext) (collation : option bytes)
  (left right : ElementWithIndex) : result Z :=
  let! (cmp, direction) :=
    match sortContext with
    | SortType_WholeElementSort direction =>
        let! (cmp, _) := CompareBsonValueAndTypeWithCollation left.1 right.1 collation in
        Ok (cmp, direction)
    | SortType_ObjectFieldSort specs => compare_fields collation specs left.1 right.1
    | SortType_No_Sort => Ok (0, SortDirection_Ascending)
    end in
  if cmp =? 0 then Ok (int32 (uint32 (left.2 - right.2)))
  else Ok (match direction with
           | SortDirection_Ascending => cmp
           | SortDirection_Descending => int32 (- cmp)
           end).

(** ** Evaluation of expressions: [query/bson_expr_eval.c] *)

Fixpoint eval_any (evalState : ExprEvalState) (elements : list bson_value) : result bool :=
  match elements with
  | [] => Ok false
  | v :: rest =>
      let! matched := ExpressionEval evalState v in
      if matched : bool then Ok true else eval_any evalState rest
  end.

Definition EvalBooleanExpressionAgainstValue (evalState : ExprEvalState) (queryValue : bson_value)
  (shouldRecurseIfArray : bool) : result bool :=
  let! matched := ExpressionEval evalState queryValue in
  match queryValue with
  | V_Array fields =>
      if negb matched && shouldRecurseIfArray then eval_any evalState (map snd fields) else Ok matched
  | _ => Ok matched
  end.

Fixpoint matching_indices (evalState : ExprEvalState) (shouldRecurseIfArray : bool)
  (elements : list bson_value) (index : Z) : result (list Z) :=
  match elements with
  | [] => Ok []
  | v :: rest =>
      let! matched := EvalBooleanExpressionAgainstValue evalState v shouldRecurseIfArray in
      let! indices := matching_indices evalState shouldRecurseIfArray rest (index + 1) in
      Ok (if matched : bool then index :: indices else indices)
  end.

Definition EvalExpressionAgainstArrayGetAllMatchingIndices (evalState : ExprEvalState)
  (arrayValue : bson_value) (shouldRecurseIfArray : bool) : result (list Z) :=
  match arrayValue with
  | V_Array fields => matching_indices evalState shouldRecurseIfArray (map snd fields) 0
  | _ => Err ERRCODE_DOCUMENTDB_BADVALUE
  end.

(** ** The operators on single values *)

Definition initial_writer : UpdateOperatorWriter := mk_writer None MODIFY_TYPE_NOCHANGE.

Definition HandleUpdateDollarSet (existingValue : bson_value) (writer : UpdateOperatorWriter)
  (updateValue : bson_value) (state : CurrentDocumentState) : result UpdateOperatorWriter :=
  let! same := if isUpsert state then Ok false
               else BsonValueEqualsStrict (Some updateValue) (Some existingValue) in
  if same : bool then Ok writer else Ok (UpdateWriterWriteModifiedValue writer updateValue).

Definition HandleUpdateDollarSetOnInsert (writer : UpdateOperatorWriter) (updateValue : bson_value)
  (state : CurrentDocumentState) : result UpdateOperatorWriter :=
  if isUpsert state then Ok (UpdateWriterWriteModifiedValue writer updateValue) else Ok writer.

Definition HandleUpdateDollarUnset (existingValue : bson_value) (writer : UpdateOperatorWriter)
  (setValueState : UpdateSetValueState) : result UpdateOperatorWriter :=
  if set_isArray setValueState then Ok (UpdateWriterWriteModifiedValue writer V_Null)
  else
    match existingValue with
    | V_Eod => Ok writer
    | _ => Ok (UpdateWriterSkipValue writer)
    end.

Definition HandleUpdateDollarInc (existingValue : bson_value) (writer : UpdateOperatorWriter)
  (updateValue : bson_value) : result UpdateOperatorWriter :=
  if negb (BsonTypeIsNumber (value_type updateValue)) then Err ERRCODE_DOCUMENTDB_TYPEMISMATCH
  else if negb (BsonTypeIsNumberOrBool (value_type updateValue)) then Err ERRCODE_DOCUMENTDB_TYPEMISMATCH
  else
    match existingValue with
    | V_Eod => Ok (UpdateWriterWriteModifiedValue writer updateValue)
    | _ =>
        let! (added, valueToModify, overflowedFromInt64) :=
          AddNumberToBsonValue existingValue updateValue false in
        if negb added then Err ERRCODE_DOCUMENTDB_TYPEMISMATCH
        else if overflowedFromInt64 : bool then Err ERRCODE_DOCUMENTDB_BADVALUE
        else Ok (UpdateWriterWriteModifiedValue writer valueToModify)
    end.

Definition HandleUpdateDollarMin (existingValue : bson_value) (writer : UpdateOperatorWriter)
  (updateValue : bson_value) (state : CurrentDocumentState) : result UpdateOperatorWriter :=
  match existingValue with
  | V_Eod => Ok (UpdateWriterWriteModifiedValue writer updateValue)
  | _ =>
      let! (cmp, isComparisonValid) :=
        CompareBsonValueAndTypeWithCollation updateValue existingValue (collationString state) in
      if (cmp <? 0) && isComparisonValid then Ok (UpdateWriterWriteModifiedValue writer updateValue)
      else Ok writer
  end.

Definition HandleUpdateDollarMax (existingValue : bson_value) (writer : UpdateOperatorWriter)
  (updateValue : bson_value) (state : CurrentDocumentState) : result UpdateOperatorWriter :=
  match existingValue with
  | V_Eod => Ok (UpdateWriterWriteModifiedValue writer updateValue)
  | _ =>
      let! (cmp, isComparisonValid) :=
        CompareBsonValueAndTypeWithCollation updateValue existingValue (collationString state) in
      if (0 <? cmp) && isComparisonValid then Ok (UpdateWriterWriteModifiedValue writer updateValue)
      else Ok writer
  end.

(** $bit *)
Inductive MongoBitwiseOperatorType : Set :=
| BITWISE_OPERATOR_AND | BITWISE_OPERATOR_OR | BITWISE_OPERATOR_XOR | BITWISE_OPERATOR_UNKNOWN.

Definition GetMongoBitwiseOperator (key : bytes) : MongoBitwiseOperatorType :=
  if bool_decide (key = str "and") then BITWISE_OPERATOR_AND
  else if bool_decide (key = str "or") then BITWISE_OPERATOR_OR
  else if bool_decide (key = str "xor") then BITWISE_OPERATOR_XOR
  else BITWISE_OPERATOR_UNKNOWN.

Definition is_integer_type (t : bson_type) : bool :=
  type_eqb t BSON_TYPE_INT32 || type_eqb t BSON_TYPE_INT64.

Definition ValidateBitwiseInputParams (operatorType : MongoBitwiseOperatorType)
  (state modifier : bson_value) : result unit :=
  match operatorType with
  | BITWISE_OPERATOR_UNKNOWN => Err ERRCODE_DOCUMENTDB_BADVALUE
  | _ =>
      if negb (is_integer_type (value_type modifier)) then Err ERRCODE_DOCUMENTDB_BADVALUE
      else if negb (type_eqb (value_type state) BSON_TYPE_EOD) && negb (is_integer_type (value_type state))
      then Err ERRCODE_DOCUMENTDB_BADVALUE
      else Ok tt
  end.

Fixpoint bit_loop (existingValue : bson_value) (fields : bson_doc) (valueToModify : bson_value)
  : result bson_value :=
  match fields with
  | [] => Ok valueToModify
  | (key, value) :: rest =>
      let operatorType := GetMongoBitwiseOperator key in
      let! _ := ValidateBitwiseInputParams operatorType existingValue value in
      let! valueToModify :=
        match operatorType with
        | BITWISE_OPERATOR_AND => BitwiseAndToBsonValue valueToModify value
        | BITWISE_OPERATOR_OR => BitwiseOrToBsonValue valueToModify value
        | BITWISE_OPERATOR_XOR => BitwiseXorToBsonValue valueToModify value
        | BITWISE_OPERATOR_UNKNOWN => Err ERRCODE_DOCUMENTDB_BADVALUE
        end in
      bit_loop existingValue rest valueToModify
  end.

Definition HandleUpdateDollarBit (existingValue : bson_value) (writer : UpdateOperatorWriter)
  (updateValue : bson_value) (state : CurrentDocumentState) : result UpdateOperatorWriter :=
  match updateValue with
  | V_Document [] => Err ERRCODE_DOCUMENTDB_BADVALUE
  | V_Document fields =>
      let! valueToModify := bit_loop existingValue fields existingValue in
      let! same := if isUpsert state then Ok false
                   else BsonValueEqualsStrict (Some existingValue) (Some valueToModify) in
      if same : bool then Ok writer else Ok (UpdateWriterWriteModifiedValue writer valueToModify)
  | _ => Err ERRCODE_DOCUMENTDB_BADVALUE
  end.

(** $mul *)
Definition zero_like (factor : bson_value) : result bson_value :=
  match factor with
  | V_Int32 _ => Ok (V_Int32 0)
  | V_Int64 _ => Ok (V_Int64 0)
  | V_Double _ => Ok (V_Double 0)
  | V_Decimal128 _ => Ok (V_Decimal128 SetDecimal128Zero)
  | _ => Err ERRCODE_DOCUMENTDB_TYPEMISMATCH
  end.

Definition HandleUpdateDollarMul (existingValue : bson_value) (writer : UpdateOperatorWriter)
  (updateValue : bson_value) (state : CurrentDocumentState) : result UpdateOperatorWriter :=
  if negb (BsonTypeIsNumber (value_type updateValue)) then Err ERRCODE_DOCUMENTDB_TYPEMISMATCH
  else
    match existingValue with
    | V_Eod =>
        let! zero := zero_like updateValue in Ok (UpdateWriterWriteModifiedValue writer zero)
    | _ =>
        if negb (BsonValueIsNumber existingValue) then Err ERRCODE_DOCUMENTDB_TYPEMISMATCH
        else
          let! (multiplied, valueToModify) :=
            MultiplyWithFactorAndUpdate existingValue updateValue false in
          if negb multiplied then Err ERRCODE_DOCUMENTDB_BADVALUE
          else
            let! same := if isUpsert state then Ok false
                         else BsonValueEqualsStrict (Some valueToModify) (Some existingValue) in
            if same : bool then Ok writer else Ok (UpdateWriterWriteModifiedValue writer valueToModify)
    end.

(** $currentDate, at a time of the system clock in seconds and nanoseconds. *)
Definition HandleUpdateDollarCurrentDate (clock : Z * Z) (writer : UpdateOperatorWriter)
  (updateValue : bson_value) : result UpdateOperatorWriter :=
  let (tv_sec, tv_nsec) := clock in
  let date := V_DateTime (int64 (uint64 (tv_sec * 1000 + tv_nsec / 1000000))) in
  let timestamp := V_Timestamp (uint32 tv_sec) (uint32 tv_nsec) in
  match updateValue with
  | V_Bool _ => Ok (UpdateWriterWriteModifiedValue writer date)
  | V_Document ((key, value) :: _) =>
      if negb (bool_decide (key = str "$type")) && negb (bool_decide (key = str "$$type"))
      then Err ERRCODE_DOCUMENTDB_BADVALUE
      else
        match value with
        | V_Utf8 typename =>
            if strcmp typename (str "timestamp") =? 0 then Ok (UpdateWriterWriteModifiedValue writer timestamp)
            else if strcmp typename (str "date") =? 0 then Ok (UpdateWriterWriteModifiedValue writer date)
            else Err ERRCODE_DOCUMENTDB_BADVALUE
        | _ => Err ERRCODE_DOCUMENTDB_BADVALUE
        end
  | _ => Err ERRCODE_DOCUMENTDB_BADVALUE
  end.

(** $rename *)
Definition RenameVisitTopLevelField (element : bson_field) (filterPath : StringView) (state : bson_value)
  : result (bson_value * bool) := Ok (element.2, type_eqb (value_type element.2) BSON_TYPE_EOD).

Definition RenameSetTraverseErrorResult (state : bson_value) (traverseResult : TraverseBsonResult)
  : result bson_value := Ok V_Eod.

Definition RenameProcessIntermediateArray (state value : bson_value) (isArrayIndexSearch : bool)
  : result (bson_value * bool) := Err ERRCODE_DOCUMENTDB_BADVALUE.

(** The traversal returns for every path ([traversal_terminates]). *)
Definition RenameSourceGetValue (sourceDocument : bson_doc) (sourcePathString : bytes) : result bson_value :=
  let renameExecutionFuncs :=
    mk_funcs (Some RenameSetTraverseErrorResult) RenameVisitTopLevelField None
      RenameProcessIntermediateArray None None None in
  match TraverseBson renameExecutionFuncs sourceDocument sourcePathString V_Eod with
  | Some r => r
  | None => Err ERRCODE_INTERNAL_ERROR
  end.

Definition HandleUpdateDollarRename (writer : UpdateOperatorWriter) (sourcePath : bytes)
  (setValueState : UpdateSetValueState) (state : CurrentDocumentState) : result UpdateOperatorWriter :=
  if set_isArray setValueState || set_hasArrayAncestors setValueState then Err ERRCODE_DOCUMENTDB_BADVALUE
  else
    let! renameSourceValue := RenameSourceGetValue (sourceDocument state) sourcePath in
    match renameSourceValue with
    | V_Eod => Ok writer
    | _ => Ok (UpdateWriterWriteModifiedValue writer renameSourceValue)
    end.

Definition HandleUpdateDollarRenameSource (existingValue : bson_value) (writer : UpdateOperatorWriter)
  (setValueState : UpdateSetValueState) : result UpdateOperatorWriter :=
  if set_isArray setValueState || set_hasArrayAncestors setValueState then Err ERRCODE_DOCUMENTDB_BADVALUE
  else HandleUpdateDollarUnset existingValue writer setValueState.

(** ** The operators on arrays *)

(** $pull: the loop over the array and the indices left to remove; the current
    one stays the last one when all are used. *)
Fixpoint pull_loop (elements : list bson_value) (index : Z) (matchingIndices : list Z)
  (currentPullIndex : Z) (arrayWriter : UpdateArrayWriter) : UpdateArrayWriter :=
  match elements with
  | [] => arrayWriter
  | v :: rest =>
      if index =? currentPullIndex then
        pull_loop rest (index + 1) (tail matchingIndices)
          (default currentPullIndex (head (tail matchingIndices))) (UpdateArrayWriterSkipValue arrayWriter)
      else pull_loop rest (index + 1) matchingIndices currentPullIndex
             (UpdateArrayWriterWriteOriginalValue arrayWriter v)
  end.

Definition HandleUpdateDollarPull (existingValue : bson_value) (writer : UpdateOperatorWriter)
  (updateNodeContext : UpdateNodeContext) : result UpdateOperatorWriter :=
  match updateNodeContext with
  | PullContext pullState =>
      match existingValue with
      | V_Eod => Ok writer
      | V_Array fields =>
          let! matchingIndices :=
            EvalExpressionAgainstArrayGetAllMatchingIndices (pull_evalState pullState) existingValue
              (negb (pull_isValue pullState)) in
          match matchingIndices with
          | [] => Ok writer
          | first :: _ =>
              let arrayWriter := UpdateWriterGetArrayWriter writer in
              Ok (UpdateArrayWriterFinalize writer
                    (pull_loop (map snd fields) 0 matchingIndices first arrayWriter))
          end
      | _ => Err ERRCODE_DOCUMENTDB_BADVALUE
      end
  | _ => Err ERRCODE_INTERNAL_ERROR
  end.

(** $pullAll *)
Fixpoint pull_all_contains (collation : option bytes) (v : bson_value) (removed : list bson_value) : result bool :=
  match removed with
  | [] => Ok false
  | r :: rest =>
      let! equal := BsonValueEqualsWithCollation v r collation in
      if equal : bool then Ok true else pull_all_contains collation v rest
  end.

Fixpoint pull_all_loop (collation : option bytes) (elements removed : list bson_value)
  (arrayWriter : UpdateArrayWriter) : result UpdateArrayWriter :=
  match elements with
  | [] => Ok arrayWriter
  | v :: rest =>
      let! found := pull_all_contains collation v removed in
      pull_all_loop collation rest removed
        (if found : bool then UpdateArrayWriterSkipValue arrayWriter
         else UpdateArrayWriterWriteOriginalValue arrayWriter v)
  end.

Definition HandleUpdateDollarPullAll (existingValue : bson_value) (writer : UpdateOperatorWriter)
  (updateValue : bson_value) (state : CurrentDocumentState) : result UpdateOperatorWriter :=
  match updateValue with
  | V_Array removed =>
      match existingValue with
      | V_Eod => Ok writer
      | V_Array elements =>
          let! arrayWriter := pull_all_loop (collationString state) (map snd elements) (map snd removed)
                                (UpdateWriterGetArrayWriter writer) in
          Ok (UpdateArrayWriterFinalize writer arrayWriter)
      | _ => Err ERRCODE_DOCUMENTDB_BADVALUE
      end
  | _ => Err ERRCODE_DOCUMENTDB_BADVALUE
  end.

(** $addToSet: the search for $each stops at the second kind of key. *)
Fixpoint add_to_set_spec (fields : bson_doc) (elementsToAdd : option bson_value) (unexpectedKey : bool)
  : result (option bson_value * bool) :=
  match fields with
  | [] => Ok (elementsToAdd, unexpectedKey)
  | (key, value) :: rest =>
      let! (elementsToAdd, unexpectedKey) :=
        if bool_decide (key = str "$each") then
          match value with
          | V_Array _ => Ok (Some value, unexpectedKey)
          | _ => Err ERRCODE_DOCUMENTDB_TYPEMISMATCH
          end
        else Ok (elementsToAdd, true) in
      match elementsToAdd, unexpectedKey with
      | Some _, true => Ok (elementsToAdd, unexpectedKey)
      | _, _ => add_to_set_spec rest elementsToAdd unexpectedKey
      end
  end.

Definition ValidateAddToSetWithDollarEach (updateValue : bson_value) : result (option bson_value) :=
  match updateValue with
  | V_Document fields =>
      let! (elementsToAdd, unexpectedKey) := add_to_set_spec fields None false in
      match elementsToAdd, unexpectedKey with
      | Some _, true => Err ERRCODE_DOCUMENTDB_BADVALUE
      | _, _ => Ok elementsToAdd
      end
  | _ => Ok None
  end.

(** The hash table holds every key that was entered; entering a key that is
    there leaves it as it is. *)
Fixpoint enter_existing (collation : option bytes) (elements known : list bson_value)
  (arrayWriter : UpdateArrayWriter) : result (list bson_value * UpdateArrayWriter) :=
  match elements with
  | [] => Ok (known, arrayWriter)
  | v :: rest =>
      let! found := set_find EnableCollation collation known v in
      enter_existing collation rest (if found : bool then known else known ++ [v])
        (UpdateArrayWriterWriteValueWithModifyType arrayWriter v MODIFY_TYPE_OPERATOR_WRITTEN)
  end.

Fixpoint add_each (collation : option bytes) (elements known : list bson_value)
  (arrayWriter : UpdateArrayWriter) : result UpdateArrayWriter :=
  match elements with
  | [] => Ok arrayWriter
  | v :: rest =>
      let! found := set_find EnableCollation collation known v in
      if found : bool then add_each collation rest known arrayWriter
      else add_each collation rest (known ++ [v]) (UpdateArrayWriterWriteModifiedValue arrayWriter v)
  end.

Definition AddToSetWriteFinalArray (writer : UpdateOperatorWriter) (existingValue elementsToAdd : bson_value)
  (isEach : bool) (collation : option bytes) : result UpdateOperatorWriter :=
  let! (known, arrayWriter) :=
    enter_existing collation (elements_of existingValue) [] (UpdateWriterGetArrayWriter writer) in
  let! arrayWriter :=
    if isEach then add_each collation (elements_of elementsToAdd) known arrayWriter
    else
      let! found := set_find EnableCollation collation known elementsToAdd in
      Ok (if found : bool then arrayWriter
          else UpdateArrayWriterWriteModifiedValue arrayWriter elementsToAdd) in
  Ok (UpdateArrayWriterFinalize writer arrayWriter).

Definition HandleUpdateDollarAddToSet (existingValue : bson_value) (writer : UpdateOperatorWriter)
  (updateValue : bson_value) (state : CurrentDocumentState) : result UpdateOperatorWriter :=
  match existingValue with
  | V_Eod | V_Array _ =>
      let! elementsToAdd := ValidateAddToSetWithDollarEach updateValue in
      match elementsToAdd with
      | Some each => AddToSetWriteFinalArray writer existingValue each true (collationString state)
      | None => AddToSetWriteFinalArray writer existingValue updateValue false (collationString state)
      end
  | _ => Err ERRCODE_DOCUMENTDB_BADVALUE
  end.

(** $push *)
Record DollarPushUpdateState : Type := mk_push {
  push_dollarEachArray : bson_value;
  push_position : Z;
  push_slice : Z;
  push_sortContext : SortContext;
}.

Definition UINT32_MAX : Z := 2 ^ 32 - 1.

(** The values of the clauses, and whether a key is not a clause. *)
Record PushClauses : Type := mk_clauses {
  clause_position : bson_value;
  clause_each : bson_value;
  clause_sort : bson_value;
  clause_slice : bson_value;
  clause_other : bool;
}.

Fixpoint push_clauses (fields : bson_doc) (c : PushClauses) : result PushClauses :=
  match fields with
  | [] => Ok c
  | (key, value) :: rest =>
      let c :=
        if bool_decide (key = str "$position")
        then mk_clauses value (clause_each c) (clause_sort c) (clause_slice c) (clause_other c)
        else if bool_decide (key = str "$each")
        then mk_clauses (clause_position c) value (clause_sort c) (clause_slice c) (clause_other c)
        else if bool_decide (key = str "$sort")
        then mk_clauses (clause_position c) (clause_each c) value (clause_slice c) (clause_other c)
        else if bool_decide (key = str "$slice")
        then mk_clauses (clause_position c) (clause_each c) (clause_sort c) value (clause_other c)
        else mk_clauses (clause_position c) (clause_each c) (clause_sort c) (clause_slice c) true in
      if clause_other c && negb (type_eqb (value_type (clause_each c)) BSON_TYPE_EOD)
      then Err ERRCODE_DOCUMENTDB_BADVALUE
      else push_clauses rest c
  end.

(** An optional integer; without it the greatest 32-bit number. *)
Definition push_integer (value : bson_value) : result Z :=
  match value with
  | V_Eod => Ok UINT32_MAX
  | _ =>
      if BsonValueIsNumber value then
        let! fixed := IsBsonValue64BitInteger value true in
        if fixed : bool then BsonValueAsInt64 value else Err ERRCODE_DOCUMENTDB_BADVALUE
      else Err ERRCODE_DOCUMENTDB_BADVALUE
  end.

(** [None] if there are no modifiers. *)
Definition ValidateUpdateSpecAndSetPushUpdateState (fieldUpdateValue : bson_value)
  : result (option DollarPushUpdateState) :=
  match fieldUpdateValue with
  | V_Document fields =>
      let! c := push_clauses fields (mk_clauses V_Eod V_Eod V_Eod V_Eod false) in
      match clause_each c with
      | V_Eod => Ok None
      | V_Array _ =>
          let! slice := push_integer (clause_slice c) in
          let! position := push_integer (clause_position c) in
          let! sortContext := ValidateSortSpecAndSetSortContext (clause_sort c) in
          Ok (Some (mk_push (clause_each c) position slice sortContext))
      | _ => Err ERRCODE_DOCUMENTDB_BADVALUE
      end
  | _ => Ok None
  end.

(** The elements up to the position, and those that are left. *)
Fixpoint push_before (existing : list bson_value) (index position : Z) : list bson_value * list bson_value :=
  match existing with
  | [] => ([], [])
  | v :: rest =>
      if index <? position then let (before, after) := push_before rest (index + 1) position in (v :: before, after)
      else ([], existing)
  end.

(** The elements of the array, with the new ones at the position. *)
Definition push_at (existing each : list bson_value) (position : Z) : list bson_value :=
  let existingArrLen := Z.of_nat (length existing) in
  let position := if position <? 0
                  then (if position <=? - existingArrLen then 0 else existingArrLen + position)
                  else position in
  let (before, after) := push_before existing 0 position in
  before ++ each ++ after.

Definition push_slice_range (slice elementsArrLen : Z) : Z * Z :=
  if slice <? 0
  then ((if slice <=? - elementsArrLen then 0 else elementsArrLen + slice), elementsArrLen)
  else (0, if elementsArrLen <? slice then elementsArrLen else slice).

(** The elements after all modifications, with the range of the slice. *)
Definition ApplyDollarPushModifiers (existing : list bson_value) (pushState : DollarPushUpdateState)
  (collation : option bytes) : result (list bson_value * (Z * Z)) :=
  let elements := push_at existing (elements_of (push_dollarEachArray pushState)) (push_position pushState) in
  let! elements :=
    match push_sortContext pushState with
    | SortType_No_Sort => Ok elements
    | sortContext =>
        let! sorted := qsort_arg (CompareBsonValuesForSort sortContext collation)
                         (imap (fun i v => (v, Z.of_nat i)) elements) in
        Ok (map fst sorted)
    end in
  Ok (elements, push_slice_range (push_slice pushState) (Z.of_nat (length elements))).

Definition write_all (write : UpdateArrayWriter -> bson_value -> UpdateArrayWriter)
  (elements : list bson_value) (arrayWriter : UpdateArrayWriter) : UpdateArrayWriter :=
  fold_left write elements arrayWriter.

Definition HandleUpdateDollarPush (existingValue : bson_value) (writer : UpdateOperatorWriter)
  (updateValue : bson_value) (state : CurrentDocumentState) : result UpdateOperatorWriter :=
  let! pushState := ValidateUpdateSpecAndSetPushUpdateState updateValue in
  let! existing := match existingValue with
                   | V_Eod => Ok []
                   | V_Array fields => Ok (map snd fields)
                   | _ => Err ERRCODE_DOCUMENTDB_BADVALUE
                   end in
  let arrayWriter := UpdateWriterGetArrayWriter writer in
  match pushState with
  | None =>
      let arrayWriter := write_all UpdateArrayWriterWriteOriginalValue existing arrayWriter in
      Ok (UpdateArrayWriterFinalize writer (UpdateArrayWriterWriteModifiedValue arrayWriter updateValue))
  | Some pushState =>
      let! (elementsArr, (sliceStart, sliceEnd)) :=
        ApplyDollarPushModifiers existing pushState (collationString state) in
      let arrayWriter :=
        write_all UpdateArrayWriterWriteModifiedValue
          (take (Z.to_nat (sliceEnd - sliceStart)) (drop (Z.to_nat sliceStart) elementsArr)) arrayWriter in
      let arrayWriter :=
        if (sliceEnd <=? sliceStart) && negb (bool_decide (existing = []))
        then UpdateArrayWriterSkipValue arrayWriter else arrayWriter in
      Ok (UpdateArrayWriterFinalize writer arrayWriter)
  end.

(** $pop: from the second element on, the element or the one before it. *)
Fixpoint pop_loop (isFirst : bool) (previous : option bson_value) (elements : list bson_value)
  (arrayWriter : UpdateArrayWriter) : UpdateArrayWriter :=
  match elements with
  | [] => arrayWriter
  | v :: rest =>
      pop_loop isFirst (Some v) rest
        (match previous with
         | None => UpdateArrayWriterSkipValue arrayWriter
         | Some p => UpdateArrayWriterWriteModifiedValue arrayWriter (if isFirst then v else p)
         end)
  end.

Definition HandleUpdateDollarPop (existingValue : bson_value) (writer : UpdateOperatorWriter)
  (updateValue : bson_value) : result UpdateOperatorWriter :=
  if negb (BsonTypeIsNumber (value_type updateValue)) then Err ERRCODE_DOCUMENTDB_FAILEDTOPARSE
  else
    let! doubleVal := BsonValueAsDouble updateValue in
    if negb (d_eq (d_floor doubleVal) doubleVal) then Err ERRCODE_DOCUMENTDB_FAILEDTOPARSE
    else if negb (cast_int32 doubleVal =? 1) && negb (cast_int32 doubleVal =? -1)
    then Err ERRCODE_DOCUMENTDB_FAILEDTOPARSE
    else
      match existingValue with
      | V_Eod => Ok writer
      | V_Array fields =>
          Ok (UpdateArrayWriterFinalize writer
                (pop_loop (cast_int32 doubleVal =? -1) None (map snd fields)
                   (UpdateWriterGetArrayWriter writer)))
      | _ => Err ERRCODE_DOCUMENTDB_BADVALUE
      end.

(** ** The table of operators *)

Inductive update_operator : Set :=
| op_set | op_inc | op_min | op_max | op_unset | op_push | op_pop | op_rename | op_renameSource
| op_setOnInsert | op_pullAll | op_addToSet | op_mul | op_bit | op_currentDate | op_pull.

(** The call through the function pointer of a node. *)
Definition writeFunc (op : update_operator) (clock : Z * Z) (existingValue : bson_value)
  (writer : UpdateOperatorWriter) (updateValue : bson_value) (context : UpdateNodeContext)
  (setValueState : UpdateSetValueState) (state : CurrentDocumentState) : result UpdateOperatorWriter :=
  match op with
  | op_set => HandleUpdateDollarSet existingValue writer updateValue state
  | op_inc => HandleUpdateDollarInc existingValue writer updateValue
  | op_min => HandleUpdateDollarMin existingValue writer updateValue state
  | op_max => HandleUpdateDollarMax existingValue writer updateValue state
  | op_unset => HandleUpdateDollarUnset existingValue writer setValueState
  | op_push => HandleUpdateDollarPush existingValue writer updateValue state
  | op_pop => HandleUpdateDollarPop existingValue writer updateValue
  | op_rename =>
      match context with
      | RenameContext sourcePath => HandleUpdateDollarRename writer sourcePath setValueState state
      | _ => Err ERRCODE_INTERNAL_ERROR
      end
  | op_renameSource => HandleUpdateDollarRenameSource existingValue writer setValueState
  | op_setOnInsert => HandleUpdateDollarSetOnInsert writer updateValue state
  | op_pullAll => HandleUpdateDollarPullAll existingValue writer updateValue state
  | op_addToSet => HandleUpdateDollarAddToSet existingValue writer updateValue state
  | op_mul => HandleUpdateDollarMul existingValue writer updateValue state
  | op_bit => HandleUpdateDollarBit existingValue writer updateValue state
  | op_currentDate => HandleUpdateDollarCurrentDate clock writer updateValue
  | op_pull => HandleUpdateDollarPull existingValue writer context
  end.
End operators.

(** ** Instances *)

(** Expressions that compare with one value, a search through documents, and a
    sort by insertion. *)
Module UpdateSamples.
#[export] Instance value_expression {L : BidLib} {I : Icu} : QueryExpression := {
  CreateQualForBsonValueExpression _ := Ok tt;
  ExpressionEval state v :=
    match expr_document state with V_Document [(_, x)] => BsonValueEquals x v | _ => Ok false end;
}.

Fixpoint find_keys (doc : bson_doc) (keys : list bytes) : option bson_value :=
  match keys with
  | [] => None
  | key :: rest =>
      match snd <$> List.find (fun f => bool_decide (f.1 = key)) doc, rest with
      | Some v, [] => Some v
      | Some (V_Document d), _ => find_keys d rest
      | _, _ => None
      end
  end.

#[export] Instance search_documents : FindDescendant := fun doc path => find_keys doc (split_path path).

Fixpoint insert_sorted {A} (cmp : A -> A -> result Z) (x : A) (l : list A) : result (list A) :=
  match l with
  | [] => Ok [x]
  | y :: rest =>
      let! c := cmp x y in
      if c <=? 0 then Ok (x :: l) else let! rest := insert_sorted cmp x rest in Ok (y :: rest)
  end.

Fixpoint insertion_sort {A} (cmp : A -> A -> result Z) (l : list A) : result (list A) :=
  match l with
  | [] => Ok []
  | x :: rest => let! sorted := insertion_sort cmp rest in insert_sorted cmp x sorted
  end.

#[export] Instance sort_by_insertion : QSort := fun _ cmp l => insertion_sort cmp l.

Lemma insert_sorted_spec {A} (cmp : A -> A -> result Z) (order : A -> A -> comparison) (T : TotalCmp order) x l :
  (forall y, In y l -> exists z, cmp x y = Ok z /\ sgn_cmp z = order x y) ->
  StronglySorted (fun x y => order x y <> Gt) l ->
  exists l', insert_sorted cmp x l = Ok l' /\ l' ≡ₚ x :: l /\ StronglySorted (fun x y => order x y <> Gt) l'.
Proof.
  intros Hc Hs. induction Hs as [|y l Hs IH Hy]; [by exists [x]; split; [|split; [|repeat constructor]]|].
  cbn [insert_sorted]. destruct (Hc y ltac:(by left)) as (z & -> & Hz). cbn [result_bind].
  assert (order x y <> Gt <-> z <= 0) as Hle by (rewrite <- Hz; by destruct z).
  destruct (Z.leb_spec z 0) as [Hz0|Hz0].
  - exists (x :: y :: l). split_and!; [done..|]. apply Hle in Hz0. repeat constructor; try done.
    eapply Forall_impl; [exact Hy|]. intros w Hw. by apply (cmp_le_trans order x y w).
  - destruct IH as (l' & -> & Hp & Hl'); [intros w Hw; apply Hc; by right|]. exists (y :: l').
    split_and!; [done| |].
    + rewrite Hp. apply Permutation_swap.
    + constructor; [done|]. rewrite Hp. constructor; [|done].
      intros Hgt%(cmp_gt_lt order). apply Z.lt_gt in Hz0. destruct z; try done. rewrite Hgt in Hz. done.
Qed.

#[export] Instance sort_by_insertion_laws : QSortLaws sort_by_insertion.
Proof.
  intros A cmp order l T Hc. unfold qsort_arg, sort_by_insertion. induction l as [|x l IH].
  { exists []. split_and!; [done..|constructor]. }
  cbn [insertion_sort]. destruct IH as (l' & -> & Hp & Hs); [intros; apply Hc; by right|]. cbn [result_bind].
  destruct (insert_sorted_spec cmp order T x l') as (l'' & -> & Hp' & Hs'); [|done|].
  { intros y Hy. apply Hc; [by left|right]. by rewrite <- Hp. }
  exists l''. split_and!; [done| |done]. by rewrite Hp', Hp.
Qed.
End UpdateSamples.
