(* ===== verification/UpdateTree.v ===== *)
(** * The update tree

    [pg_documentdb/src/update/bson_update_operators_workflow.c] with the path
    trees of [pg_documentdb/src/aggregation/bson_tree.c].  The operators of an
    update are collected in a tree whose paths from the root are the dotted paths
    of the fields; a second pass walks a document along the tree and writes the
    updated document.

    A node of the tree is its field, its data and its children in the order in
    which they were added; the C code keeps the children in a ring.  The hooks
    that record changes for change streams are not set and are left out. *)

From Stdlib Require Import String.
From stdpp Require Import base numbers list option sorting.
From Stdlib Require Import ZArith Lia.
From S2P Require Import Prelude Binary64 Bson PgbsonElement StringView Traversal Decimal128.
From S2P Require Import Collation BsonCompare BsonHash Arithmetic QueryOperators BitOperators UpdateOperators.

(** ** Nodes *)

Inductive NodeType : Set :=
| NodeType_Intermediate | NodeType_LeafExcluded | NodeType_LeafIncluded | NodeType_LeafField.

#[export] Instance node_type_eq_dec : EqDecision NodeType.
Proof. solve_decision. Defined.

Inductive PositionalData : Type :=
| PositionalType_None
| PositionalType_QueryFilter (querySpec : bson_value) (collation : option bytes)
| PositionalType_ArrayFilter (expression : ExprEvalState)
| PositionalType_All.

Definition is_positional (p : PositionalData) : bool :=
  match p with PositionalType_None => false | _ => true end.

(** [leaf_writeFunc] is [None] for the node of the [_id] that no operator names. *)
Record BsonUpdateLeafNode : Type := mk_leaf {
  leaf_value : bson_value;
  leaf_writeFunc : option update_operator;
  leaf_context : UpdateNodeContext;
  leaf_positional : PositionalData;
  leaf_relativePath : bytes;
}.

(** Of the node at the other end of a $rename the code uses the type and the path. *)
Record BsonUpdateIntermediatePathNode : Type := mk_intermediate {
  inter_positional : PositionalData;
  hasExpressionFieldsInChildren : bool;
  hasPositionalChildren : bool;
  HasIntermediateIncludeChildren : bool;
  sourceOrTargetNodeForRenameOP : option (NodeType * bytes);
}.

#[warnings="-register-all"]
Inductive BsonPathNode : Type :=
| LeafNode (field : bytes) (nodeType : NodeType) (leaf : BsonUpdateLeafNode)
| IntermediateNode (field : bytes) (node : BsonUpdateIntermediatePathNode) (children : list BsonPathNode).

(** The induction principle that reaches the children. *)
Section node_induction.
Context (P : BsonPathNode -> Prop).
Context (Hleaf : forall f t l, P (LeafNode f t l)).
Context (Hnode : forall f d cs, Forall P cs -> P (IntermediateNode f d cs)).

Fixpoint node_nested_ind (n : BsonPathNode) : P n :=
  match n with
  | LeafNode f t l => Hleaf f t l
  | IntermediateNode f d cs =>
      Hnode f d cs
        ((fix all (cs : list BsonPathNode) : Forall P cs :=
            match cs with
            | [] => Forall_nil_2 _
            | c :: cs' => Forall_cons_2 _ c cs' (node_nested_ind c) (all cs')
            end) cs)
  end.
End node_induction.

Definition node_field (n : BsonPathNode) : bytes :=
  match n with LeafNode f _ _ | IntermediateNode f _ _ => f end.

Definition nodeType (n : BsonPathNode) : NodeType :=
  match n with LeafNode _ t _ => t | IntermediateNode _ _ _ => NodeType_Intermediate end.

Definition IsIntermediateNodeWithField (n : BsonPathNode) : bool :=
  match n with LeafNode _ _ _ => false | IntermediateNode _ d _ => hasExpressionFieldsInChildren d end.

Definition GetPositionalData (n : BsonPathNode) : PositionalData :=
  match n with LeafNode _ _ l => leaf_positional l | IntermediateNode _ d _ => inter_positional d end.

Definition IdField : bytes := str "_id".

(** The child with a field, and its replacement. *)
Definition find_child (field : bytes) (children : list BsonPathNode) : option BsonPathNode :=
  List.find (fun c => bool_decide (node_field c = field)) children.

Fixpoint replace_child (field : bytes) (new : BsonPathNode) (children : list BsonPathNode) : list BsonPathNode :=
  match children with
  | [] => []
  | c :: rest => if bool_decide (node_field c = field) then new :: rest else c :: replace_child field new rest
  end.

(** The fields of a path.  The loop over the path ends when no character is
    left, so that a dot at the end does not add a field. *)
Definition path_fields (path : bytes) : list bytes :=
  if key_ends_with path dot then removelast (split_path path) else split_path path.

(** ** Parameters *)

(** The index of the first array element that a query matches, from
    [aggregation/bson_positional_query.c], which has PostgreSQL's executor
    evaluate the query. *)
Class PositionalQuery : Type := {
  GetPositionalQueryData : bson_value -> option bytes -> result unit;
  MatchPositionalQueryAgainstDocument : bson_value -> option bytes -> bson_doc -> result Z;
}.
(** ** Adding nodes: [aggregation/bson_tree.c] *)

Section operators.
Context {L : BidLib} {A : BidMath} {I : Icu} {T : DynaHash} {H : PgHash} {F : FindField}.
Context {E : QueryExpression} {FD : FindDescendant} {Q : QSort} {PQ : PositionalQuery}.

Definition DetermineChildNodeType (value : bson_value) (forceLeafExpression : bool) : result NodeType :=
  if forceLeafExpression || negb (BsonTypeIsNumberOrBool (value_type value)) then Ok NodeType_LeafField
  else
    let! d := BsonValueAsDouble value in
    Ok (if negb (d_eq d 0) then NodeType_LeafIncluded else NodeType_LeafExcluded).

Definition with_field (hasFields : bool) (d : BsonUpdateIntermediatePathNode) : BsonUpdateIntermediatePathNode :=
  mk_intermediate (inter_positional d) (hasExpressionFieldsInChildren d || hasFields) (hasPositionalChildren d)
    (HasIntermediateIncludeChildren d) (sourceOrTargetNodeForRenameOP d).

(** The children with the node of a path, whether it was there, and the path of
    the node: a shorter one if a leaf is on the way. *)
Section traverse.
Context (createLeaf : bytes -> result BsonUpdateLeafNode).
Context (createIntermediate : bytes -> result BsonUpdateIntermediatePathNode).
Context (leafNodeType : NodeType) (hasField : bool).

Fixpoint TraverseDottedPathAndGetNode (fields : list bytes) (children : list BsonPathNode)
  : result (list BsonPathNode * bool * list bytes) :=
  match fields with
  | [] => Ok (children, true, [])
  | [f] =>
      match find_child f children with
      | Some _ => Ok (children, true, [f])
      | None => let! leaf := createLeaf f in Ok (children ++ [LeafNode f leafNodeType leaf], false, [f])
      end
  | f :: rest =>
      match find_child f children with
      | Some (LeafNode _ _ _) => Ok (children, true, [f])
      | Some (IntermediateNode _ d kids) =>
          let! (kids, alreadyExists, path) := TraverseDottedPathAndGetNode rest kids in
          Ok (replace_child f (IntermediateNode f (with_field hasField d) kids) children, alreadyExists, f :: path)
      | None =>
          let! d := createIntermediate f in
          let! (kids, alreadyExists, path) := TraverseDottedPathAndGetNode rest [] in
          Ok (children ++ [IntermediateNode f (with_field hasField d) kids], alreadyExists, f :: path)
      end
  end.
End traverse.

Fixpoint node_at (fields : list bytes) (children : list BsonPathNode) : option BsonPathNode :=
  match fields with
  | [] => None
  | [f] => find_child f children
  | f :: rest =>
      match find_child f children with
      | Some (IntermediateNode _ _ kids) => node_at rest kids
      | _ => None
      end
  end.

(** ** Array filters *)

Definition IsArrayFilterLogicalOperator (key : bytes) : bool :=
  bool_decide (key = str "$or") || bool_decide (key = str "$and") || bool_decide (key = str "$nor").

(** The fields that an array filter adds to the query of its element. *)
Definition WriteCurrentArrayFilterValue (entryValue : bson_value) : bson_doc :=
  match entryValue with
  | V_Document fields =>
      if existsb (fun f => key_starts_with f.1 DOLLAR) fields then fields else [(str "$eq", entryValue)]
  | _ => [(str "$eq", entryValue)]
  end.

(** [isalnum] in the C locale. *)
Definition isalnum (c : Z) : bool :=
  (48 <=? c) && (c <=? 57) || (65 <=? c) && (c <=? 90) || (97 <=? c) && (c <=? 122).

(** All branches have the same identifier. *)
Definition same_identifier (topLevelKey identifier : bytes) : result bytes :=
  match topLevelKey with
  | [] => Ok identifier
  | _ => if bool_decide (identifier = topLevelKey) then Ok identifier else Err ERRCODE_DOCUMENTDB_FAILEDTOPARSE
  end.

(** A key that is not a logical operator: the identifier, and what is written. *)
Definition filter_field (key : bytes) (value : bson_value) (isNestedInLogicalOp : bool)
  (topLevelKey : bytes) : result (bytes * bson_doc) :=
  match key with
  | [] => Err ERRCODE_DOCUMENTDB_BADVALUE
  | c :: _ =>
      if negb (isalnum c) then Err ERRCODE_DOCUMENTDB_BADVALUE
      else
        let view := CreateStringViewFromStringWithLength key (blen key) in
        let prefix := StringViewFindPrefix view dot in
        let! (fieldPath, suffix) :=
          if sv_length prefix =? 0 then Ok (key, [])
          else
            let! suffix := StringViewSubstring view (sv_length prefix + 1) in
            Ok (sv_view prefix, sv_view suffix) in
        let! topLevelKey := same_identifier topLevelKey fieldPath in
        match suffix with
        | [] =>
            Ok (topLevelKey,
                if isNestedInLogicalOp then [([], value)] else WriteCurrentArrayFilterValue value)
        | _ => Ok (topLevelKey, [(suffix, V_Document (WriteCurrentArrayFilterValue value))])
        end
  end.

(** The identifier of a filter, and the filter without it. *)
Fixpoint ProcessArrayFilterDocument (document : bson_value) (isNestedInLogicalOp : bool)
  : result (bytes * bson_doc) :=
  match document with
  | V_Document [] => Err ERRCODE_DOCUMENTDB_FAILEDTOPARSE
  | V_Document fields =>
      (fix loop (fields : bson_doc) (topLevelKey : bytes) : result (bytes * bson_doc) :=
         match fields with
         | [] => Ok (topLevelKey, [])
         | (key, value) :: rest =>
             let! (topLevelKey, written) :=
               if IsArrayFilterLogicalOperator key then
                 match value with
                 | V_Array [] => Err ERRCODE_DOCUMENTDB_BADVALUE
                 | V_Array elements =>
                     let! (topLevelKey, subs) :=
                       (fix entries (elements : bson_doc) (topLevelKey : bytes) : result (bytes * list bson_value) :=
                          match elements with
                          | [] => Ok (topLevelKey, [])
                          | (_, sub) :: more =>
                              match sub with
                              | V_Document _ =>
                                  let! (subIdentifier, subDoc) := ProcessArrayFilterDocument sub true in
                                  let! topLevelKey :=
                                    match subIdentifier with
                                    | [] => Ok topLevelKey
                                    | _ => same_identifier topLevelKey subIdentifier
                                    end in
                                  let! (topLevelKey, subs) := entries more topLevelKey in
                                  Ok (topLevelKey, V_Document subDoc :: subs)
                              | _ => Err ERRCODE_DOCUMENTDB_BADVALUE
                              end
                          end) elements topLevelKey in
                     Ok (topLevelKey, [(key, array_value subs)])
                 | _ => Err ERRCODE_DOCUMENTDB_BADVALUE
                 end
               else filter_field key value isNestedInLogicalOp topLevelKey in
             let! (topLevelKey, more) := loop rest topLevelKey in
             Ok (topLevelKey, written ++ more)
         end) fields []
  | _ => Err ERRCODE_INTERNAL_ERROR
  end.

(** The table of the filters by identifier. *)
Fixpoint build_array_filters (elements : list bson_value) (filters : list (bytes * bson_value))
  : result (list (bytes * bson_value)) :=
  match elements with
  | [] => Ok filters
  | (V_Document _ as element) :: rest =>
      let! (identifier, document) := ProcessArrayFilterDocument element false in
      match identifier with
      | [] => Err ERRCODE_DOCUMENTDB_FAILEDTOPARSE
      | _ =>
          if existsb (fun f => bool_decide (f.1 = identifier)) filters
          then Err ERRCODE_DOCUMENTDB_FAILEDTOPARSE
          else build_array_filters rest (filters ++ [(identifier, V_Document document)])
      end
  | _ => Err ERRCODE_DOCUMENTDB_TYPEMISMATCH
  end.

Definition BuildExpressionForArrayFilters (arrayFilters : option bson_value)
  : result (list (bytes * bson_value)) :=
  match arrayFilters with
  | None => Ok []
  | Some v => build_array_filters (elements_of v) []
  end.

(** ** Building the tree *)

Record PositionalUpdateSpec : Type := mk_positional {
  pos_querySpec : bson_value;
  pos_arrayFilters : list (bytes * bson_value);
  pos_collation : option bytes;
}.

Record BsonUpdateTreeState : Type := mk_treestate {
  updateFunc : option update_operator;
  updateFuncState : UpdateNodeContext;
  positionalSpec : PositionalUpdateSpec;
}.

Definition PositionalType_AllString : bytes := str "$[]".
Definition PositionalFilterString : bytes := str "$".

(** The identifier in [$[identifier]]. *)
Definition filter_identifier (path : bytes) : option bytes :=
  if (3 <? blen path) && bool_decide (take 2 path = str "$[") && key_ends_with path 93
  then Some (take (length path - 3) (drop 2 path)) else None.

Definition GetNodePositionalDataFromPath (path : bytes) (spec : PositionalUpdateSpec) : result PositionalData :=
  if bool_decide (path = PositionalType_AllString) then Ok PositionalType_All
  else if bool_decide (path = PositionalFilterString) then
    let! _ := GetPositionalQueryData (pos_querySpec spec) (pos_collation spec) in
    Ok (PositionalType_QueryFilter (pos_querySpec spec) (pos_collation spec))
  else
    match filter_identifier path with
    | Some identifier =>
        match List.find (fun f => bool_decide (f.1 = identifier)) (pos_arrayFilters spec) with
        | None => Err ERRCODE_DOCUMENTDB_BADVALUE
        | Some (_, queryValue) =>
            let expr := mk_expr queryValue (pos_collation spec) true in
            let! _ := CreateQualForBsonValueExpression expr in
            Ok (PositionalType_ArrayFilter expr)
        end
    | None => Ok PositionalType_None
    end.

Definition ValidateNodePathInTree (path : bytes) : result unit :=
  if bool_decide (path = []) || key_ends_with path dot then Err ERRCODE_DOCUMENTDB_BADVALUE else Ok tt.

Definition CreateUpdateLeafNode (state : BsonUpdateTreeState) (value : bson_value) (relativePath path : bytes)
  : result BsonUpdateLeafNode :=
  let! _ := ValidateNodePathInTree path in
  let! positional := GetNodePositionalDataFromPath path (positionalSpec state) in
  Ok (mk_leaf value (updateFunc state) (updateFuncState state) positional relativePath).

Definition CreateUpdateIntermediateNode (state : BsonUpdateTreeState) (path : bytes)
  : result BsonUpdateIntermediatePathNode :=
  let! _ := ValidateNodePathInTree path in
  let! positional := GetNodePositionalDataFromPath path (positionalSpec state) in
  Ok (mk_intermediate positional false false false None).

Definition TraverseDottedPathAndGetOrAddNodeCore (path : bytes) (value : bson_value)
  (state : BsonUpdateTreeState) (forceLeafExpression : bool) (children : list BsonPathNode)
  : result (list BsonPathNode * bool * list bytes) :=
  let! leafNodeType := DetermineChildNodeType value forceLeafExpression in
  TraverseDottedPathAndGetNode (CreateUpdateLeafNode state value path) (CreateUpdateIntermediateNode state)
    leafNodeType (bool_decide (leafNodeType = NodeType_LeafField)) (path_fields path) children.

Definition TraverseDottedPathAndGetOrAddField path value state children :=
  TraverseDottedPathAndGetOrAddNodeCore path value state true children.
Definition TraverseDottedPathAndGetOrAddValue path value state children :=
  TraverseDottedPathAndGetOrAddNodeCore path value state false children.

(** Only the [_id] may be named again. *)
Definition HandleNodeExistsInTree (node : list bytes) (updatePath : bytes) (value : bson_value)
  (state : BsonUpdateTreeState) (children : list BsonPathNode) : result (list BsonPathNode) :=
  match node_at node children with
  | Some (LeafNode field _ _) =>
      if bool_decide (updatePath = IdField) then
        let! leaf := CreateUpdateLeafNode state value updatePath field in
        Ok (replace_child field (LeafNode field NodeType_LeafField leaf) children)
      else Err ERRCODE_DOCUMENTDB_CONFLICTINGUPDATEOPERATORS
  | _ => Err ERRCODE_DOCUMENTDB_CONFLICTINGUPDATEOPERATORS
  end.

(** What a node adds to its ancestors, from the root down along its path; and
    whether the node or one of them is positional. *)
Fixpoint UpdateParentDataInTree (node : list bytes) (markAsIncludeAncestor : bool)
  (renameNode : option (NodeType * bytes)) (parent : BsonUpdateIntermediatePathNode)
  (children : list BsonPathNode)
  : result (BsonUpdateIntermediatePathNode * list BsonPathNode * bool) :=
  match node with
  | [] => Ok (parent, children, false)
  | f :: rest =>
      match find_child f children with
      | None => Err ERRCODE_INTERNAL_ERROR
      | Some child =>
          let! (child, below) :=
            match child with
            | IntermediateNode field d kids =>
                let! (d, kids, below) := UpdateParentDataInTree rest markAsIncludeAncestor renameNode d kids in
                Ok (IntermediateNode field d kids, below)
            | LeafNode _ _ _ => Ok (child, false)
            end in
          let children := replace_child f child children in
          let positional := is_positional (GetPositionalData child) in
          let hasPositional := hasPositionalChildren parent || positional in
          if hasPositional && existsb (fun c => negb (is_positional (GetPositionalData c))) children
          then Err ERRCODE_DOCUMENTDB_CONFLICTINGUPDATEOPERATORS
          else
            Ok (mk_intermediate (inter_positional parent) (hasExpressionFieldsInChildren parent) hasPositional
                  (HasIntermediateIncludeChildren parent || markAsIncludeAncestor) renameNode,
                children, below || positional)
      end
  end.

(** The positional segments [.$] of a path. *)
Fixpoint count_positional (path : bytes) : nat :=
  match path with
  | [] => 0
  | c :: rest =>
      ((if bool_decide (c = dot) then
          match rest with
          | d :: after =>
              if bool_decide (d = DOLLAR) && match after with [] => true | e :: _ => bool_decide (e = dot) end
              then 1 else 0
          | [] => 0
          end
        else 0) + count_positional rest)%nat
  end.

Definition ValidateSpecPathForUpdateTree (updatePath : bytes) : result unit :=
  if bool_decide (updatePath = []) then Err ERRCODE_DOCUMENTDB_EMPTYFIELDNAME
  else if key_ends_with updatePath dot then Err ERRCODE_DOCUMENTDB_EMPTYFIELDNAME
  else
    let first := default [] (head (split_path updatePath)) in
    if key_starts_with updatePath DOLLAR &&
       (bool_decide (first = PositionalType_AllString) || bool_decide (first = PositionalFilterString))
    then Err ERRCODE_DOCUMENTDB_BADVALUE
    else if (1 <? count_positional updatePath)%nat then Err ERRCODE_DOCUMENTDB_BADVALUE
    else Ok tt.

(** The root of the tree. *)
Definition UpdateTree : Type := BsonUpdateIntermediatePathNode * list BsonPathNode.

(** A node for a path, with the conflicts: the tree and the path of the node. *)
Definition add_node (path : bytes) (value : bson_value) (state : BsonUpdateTreeState)
  (forceLeafExpression : bool) (existsValue : bson_value) (existsState : BsonUpdateTreeState)
  (children : list BsonPathNode) : result (list BsonPathNode * list bytes) :=
  let! (children, alreadyExists, node) :=
    TraverseDottedPathAndGetOrAddNodeCore path value state forceLeafExpression children in
  if alreadyExists : bool then
    let! children := HandleNodeExistsInTree node path existsValue existsState children in
    Ok (children, node)
  else Ok (children, node).

(** $pull *)
Fixpoint pull_fields (fields : bson_doc) (hasDollarField hasPlainField : bool) : result bool :=
  match fields with
  | [] => Ok hasPlainField
  | (key, _) :: rest =>
      if key_starts_with key DOLLAR then
        if hasPlainField then Err ERRCODE_DOCUMENTDB_BADVALUE else pull_fields rest true hasPlainField
      else
        if hasDollarField then Err ERRCODE_DOCUMENTDB_BADVALUE else pull_fields rest hasDollarField true
  end.

Definition HandlePullWriterGetState (updateValue : bson_value) (collation : option bytes)
  : result BsonUpdateDollarPullState :=
  let! (document, isValue) :=
    match updateValue with
    | V_Document fields => let! isValue := pull_fields fields false false in Ok (updateValue, isValue)
    | _ => Ok (V_Document [(str "$eq", updateValue)], true)
    end in
  let expr := mk_expr document collation false in
  let! _ := CreateQualForBsonValueExpression expr in
  Ok (mk_pull expr isValue).

Definition node_context (op : update_operator) (value : bson_value) (spec : PositionalUpdateSpec)
  : result UpdateNodeContext :=
  match op with
  | op_pull => let! pullState := HandlePullWriterGetState value (pos_collation spec) in Ok (PullContext pullState)
  | _ => Ok NoContext
  end.

Fixpoint HandleBasicUpdateTree (op : update_operator) (spec : PositionalUpdateSpec) (updateSpec : bson_doc)
  (tree : UpdateTree) : result UpdateTree :=
  match updateSpec with
  | [] => Ok tree
  | (updatePath, value) :: rest =>
      let! _ := ValidateSpecPathForUpdateTree updatePath in
      let! context := node_context op value spec in
      let state := mk_treestate (Some op) context spec in
      let! (children, node) := add_node updatePath value state true value state tree.2 in
      let! (root, children, _) := UpdateParentDataInTree node false None tree.1 children in
      HandleBasicUpdateTree op spec rest (root, children)
  end.

Definition rename_node (children : list BsonPathNode) (node : list bytes) : option (NodeType * bytes) :=
  match node_at node children with
  | Some (LeafNode _ t l) => Some (t, leaf_relativePath l)
  | _ => None
  end.

Fixpoint HandleRenameUpdateTree (spec : PositionalUpdateSpec) (updateSpec : bson_doc) (tree : UpdateTree)
  : result UpdateTree :=
  match updateSpec with
  | [] => Ok tree
  | (updatePath, value) :: rest =>
      let! _ := ValidateSpecPathForUpdateTree updatePath in
      let sourceState := mk_treestate (Some op_renameSource) NoContext spec in
      let! (children, sourceNode) :=
        add_node updatePath (V_Int32 0) sourceState false (V_Int32 0) sourceState tree.2 in
      match value with
      | V_Utf8 renamePath =>
          let! _ := ValidateSpecPathForUpdateTree renamePath in
          let targetState := mk_treestate (Some op_rename) (RenameContext updatePath) spec in
          let! (children, targetNode) :=
            add_node renamePath (V_Int32 1) targetState false value sourceState children in
          let! (root, children, dynamic) :=
            UpdateParentDataInTree sourceNode false (rename_node children targetNode) tree.1 children in
          if dynamic : bool then Err ERRCODE_DOCUMENTDB_BADVALUE
          else
            let! (root, children, dynamic) :=
              UpdateParentDataInTree targetNode true (rename_node children sourceNode) root children in
            if dynamic : bool then Err ERRCODE_DOCUMENTDB_BADVALUE
            else HandleRenameUpdateTree spec rest (root, children)
      | _ => Err ERRCODE_DOCUMENTDB_BADVALUE
      end
  end.

Fixpoint HandleUnsetUpdateTree (spec : PositionalUpdateSpec) (updateSpec : bson_doc) (tree : UpdateTree)
  : result UpdateTree :=
  match updateSpec with
  | [] => Ok tree
  | (updatePath, value) :: rest =>
      let state := mk_treestate (Some op_unset) NoContext spec in
      let! (children, node) := add_node updatePath (V_Int32 0) state false value state tree.2 in
      let! (root, children, _) := UpdateParentDataInTree node false None tree.1 children in
      HandleUnsetUpdateTree spec rest (root, children)
  end.

Definition HandleSetOnInsertUpdateTree (spec : PositionalUpdateSpec) (isUpsert : bool) (updateSpec : bson_doc)
  (tree : UpdateTree) : result UpdateTree :=
  if negb isUpsert then Ok tree else HandleBasicUpdateTree op_setOnInsert spec updateSpec tree.

(** The table of the operators. *)
Definition MongoUpdateOperators : list (bytes * update_operator) :=
  [(str "$set", op_set); (str "$inc", op_inc); (str "$min", op_min); (str "$max", op_max);
   (str "$unset", op_unset); (str "$push", op_push); (str "$pop", op_pop); (str "$rename", op_rename);
   (str "$setOnInsert", op_setOnInsert); (str "$pullAll", op_pullAll); (str "$addToSet", op_addToSet);
   (str "$mul", op_mul); (str "$bit", op_bit); (str "$currentDate", op_currentDate); (str "$pull", op_pull)].

Definition updateTreeFunc (op : update_operator) (spec : PositionalUpdateSpec) (isUpsert : bool)
  (updateSpec : bson_doc) (tree : UpdateTree) : result UpdateTree :=
  match op with
  | op_unset => HandleUnsetUpdateTree spec updateSpec tree
  | op_rename => HandleRenameUpdateTree spec updateSpec tree
  | op_setOnInsert => HandleSetOnInsertUpdateTree spec isUpsert updateSpec tree
  | _ => HandleBasicUpdateTree op spec updateSpec tree
  end.

Fixpoint read_operators (spec : PositionalUpdateSpec) (isUpsert : bool) (updateSpec : bson_doc)
  (tree : UpdateTree) : result UpdateTree :=
  match updateSpec with
  | [] => Ok tree
  | (updateOperator, value) :: rest =>
      match List.find (fun o => bool_decide (o.1 = updateOperator)) MongoUpdateOperators with
      | None => Err ERRCODE_DOCUMENTDB_FAILEDTOPARSE
      | Some (_, op) =>
          match value with
          | V_Document fields =>
              let! tree := updateTreeFunc op spec isUpsert fields tree in
              read_operators spec isUpsert rest tree
          | _ => Err ERRCODE_DOCUMENTDB_FAILEDTOPARSE
          end
      end
  end.

(** The [_id] is the first node. *)
Definition empty_root : BsonUpdateIntermediatePathNode :=
  mk_intermediate PositionalType_None false false false None.

Definition id_leaf : BsonUpdateLeafNode := mk_leaf (V_Int32 0) None NoContext PositionalType_None IdField.

Definition ReadUpdateSpecAndUpdateTree (spec : PositionalUpdateSpec) (isUpsert : bool) (updateSpec : bson_doc)
  : result UpdateTree :=
  read_operators spec isUpsert updateSpec (empty_root, [LeafNode IdField NodeType_LeafExcluded id_leaf]).

(** A filter is used if a node has its identifier: the code marks a filter when
    it creates a node for it, and no node but the [_id] is replaced. *)
Fixpoint uses_filter (identifier : bytes) (n : BsonPathNode) : bool :=
  bool_decide (filter_identifier (node_field n) = Some identifier) ||
  match n with
  | LeafNode _ _ _ => false
  | IntermediateNode _ _ kids => existsb (uses_filter identifier) kids
  end.

Definition PostValidateArrayFilters (filters : list (bytes * bson_value)) (tree : UpdateTree) : result unit :=
  if forallb (fun f => existsb (uses_filter f.1) tree.2) filters then Ok tt
  else Err ERRCODE_DOCUMENTDB_FAILEDTOPARSE.

Definition GetOperatorUpdateState (updateSpec querySpec : bson_value) (arrayFilters : option bson_value)
  (collation : option bytes) (isUpsert : bool) : result UpdateTree :=
  match updateSpec with
  | V_Document fields =>
      let! filters := BuildExpressionForArrayFilters arrayFilters in
      let! tree := ReadUpdateSpecAndUpdateTree (mk_positional querySpec filters collation) isUpsert fields in
      let! _ := PostValidateArrayFilters filters tree in
      Ok tree
  | _ => Err ERRCODE_DOCUMENTDB_BADVALUE
  end.

(** ** Applying the tree to a document *)

Section apply.
Context (EnableCollation : bool) (clock : Z * Z) (state : CurrentDocumentState).

(** What is written for a leaf, and whether that is a change. *)
Definition WriteCurrentNode (leaf : BsonUpdateLeafNode) (currentValue : bson_value) (isArray hasArrayAncestors : bool)
  : result (option bson_value * bool) :=
  match leaf_writeFunc leaf with
  | None => Err ERRCODE_INTERNAL_ERROR
  | Some op =>
      let! w := writeFunc EnableCollation op clock currentValue initial_writer (leaf_value leaf)
                  (leaf_context leaf) (mk_setstate isArray hasArrayAncestors) state in
      let written :=
        match writer_modifyType w, currentValue with
        | MODIFY_TYPE_NOCHANGE, V_Eod => writer_written w
        | MODIFY_TYPE_NOCHANGE, _ => Some currentValue
        | _, _ => writer_written w
        end in
      Ok (written, bool_decide (writer_modifyType w = MODIFY_TYPE_CHANGED))
  end.

Definition field_index (field : bytes) : Z :=
  StringViewToPositiveInteger (Some (CreateStringViewFromStringWithLength field (blen field))).

(** The index for [$] is the same for all nodes of a document; the code keeps it
    after the first search. *)
Definition IsNodeMatchForIteratorPath (node : BsonPathNode) (fieldPath : bytes) (isArray : bool)
  (currentValue : bson_value) : result bool :=
  match GetPositionalData node with
  | PositionalType_QueryFilter querySpec collation =>
      let! matchedIndex := MatchPositionalQueryAgainstDocument querySpec collation (sourceDocument state) in
      if matchedIndex <? 0 then Err ERRCODE_DOCUMENTDB_BADVALUE
      else if isArray then Ok (bool_decide (index_key (Z.to_nat matchedIndex) = fieldPath))
      else Err ERRCODE_DOCUMENTDB_BADVALUE
  | PositionalType_ArrayFilter expression =>
      if isArray then EvalBooleanExpressionAgainstValue expression currentValue true
      else Err ERRCODE_DOCUMENTDB_BADVALUE
  | PositionalType_All => if isArray then Ok true else Err ERRCODE_DOCUMENTDB_BADVALUE
  | PositionalType_None =>
      if isArray then
        let arrayIndex := field_index (node_field node) in
        if arrayIndex <? 0 then Err ERRCODE_DOCUMENTDB_PATHNOTVIABLE
        else Ok (arrayIndex =? field_index fieldPath)
      else Ok (bool_decide (fieldPath = node_field node))
  end.

(** *** Fields that are not in the document *)

(** The loop over the children, without those that were handled. *)
Section unresolved.
Context (unresolved : BsonPathNode -> result (option bson_value * bool)) (isRootLevel : bool) (handled : list nat).

Fixpoint unresolved_children (children : list BsonPathNode) (index : nat) : result (bson_doc * bool) :=
  match children with
  | [] => Ok ([], false)
  | node :: rest =>
      let! (written, modified) :=
        if isRootLevel && bool_decide (node_field node = IdField) then Ok (None, false)
        else if bool_decide (index ∈ handled) then Ok (None, false)
        else if isRootLevel && key_starts_with (node_field node) DOLLAR && negb (isUpsert state)
        then Err ERRCODE_DOCUMENTDB_BADVALUE
        else unresolved node in
      let! (fields, modifiedRest) := unresolved_children rest (S index) in
      Ok (match written with Some v => (node_field node, v) :: fields | None => fields end,
          modified || modifiedRest)
  end.
End unresolved.

Definition writes_children (d : BsonUpdateIntermediatePathNode) : bool :=
  hasExpressionFieldsInChildren d || HasIntermediateIncludeChildren d.

(** What is written for a node whose field is missing. *)
Fixpoint unresolved_node (hasArrayAncestors : bool) (node : BsonPathNode) : result (option bson_value * bool) :=
  match node with
  | LeafNode _ NodeType_LeafExcluded _ => Ok (None, false)
  | LeafNode _ _ leaf => WriteCurrentNode leaf V_Eod false hasArrayAncestors
  | IntermediateNode _ d children =>
      if writes_children d then
        if hasPositionalChildren d then Err ERRCODE_DOCUMENTDB_BADVALUE
        else
          let! (fields, modified) :=
            unresolved_children (unresolved_node hasArrayAncestors) false [] children 0 in
          Ok (Some (V_Document fields), modified)
      else Ok (None, false)
  end.

Definition HandleUnresolvedDocumentFields (d : BsonUpdateIntermediatePathNode) (children : list BsonPathNode)
  (handled : list nat) (isRootLevel hasArrayAncestors : bool) : result (bson_doc * bool) :=
  if hasPositionalChildren d then Err ERRCODE_DOCUMENTDB_BADVALUE
  else unresolved_children (unresolved_node hasArrayAncestors) isRootLevel handled children 0.

(** The same for an index past the end of an array. *)
Definition unresolved_element (node : BsonPathNode) : result (option bson_value * bool) :=
  match node with
  | LeafNode _ _ leaf => WriteCurrentNode leaf V_Eod true true
  | IntermediateNode _ d children =>
      if writes_children d then
        let! (fields, modified) := HandleUnresolvedDocumentFields d children [] false true in
        Ok (Some (V_Document fields), modified)
      else Ok (None, false)
  end.

(** The greatest index of a node that writes something. *)
Definition grows_array (node : BsonPathNode) : bool :=
  match node with
  | LeafNode _ NodeType_LeafExcluded _ => false
  | LeafNode _ _ _ => true
  | IntermediateNode _ d _ => writes_children d
  end.

Fixpoint max_index (children : list BsonPathNode) (maxIndex : Z) : result Z :=
  match children with
  | [] => Ok maxIndex
  | child :: rest =>
      if negb (grows_array child) then max_index rest maxIndex
      else
        let pathIndex := field_index (node_field child) in
        if 0 <=? pathIndex then max_index rest (Z.max pathIndex maxIndex)
        else if is_positional (GetPositionalData child) then max_index rest maxIndex
        else Err ERRCODE_DOCUMENTDB_FAILEDTOPARSE
  end.

(** The loop over the indices from the length of the array on. *)
Fixpoint fill_array (children : list BsonPathNode) (count : nat) (index : Z) : result (list bson_value * bool) :=
  match count with
  | O => Ok ([], false)
  | S count =>
      let! (written, modified) :=
        match List.find (fun c => field_index (node_field c) =? index) children with
        | Some child => unresolved_element child
        | None => Ok (Some V_Null, true)
        end in
      let! (values, modifiedRest) := fill_array children count (index + 1) in
      Ok (match written with Some v => v :: values | None => values end, modified || modifiedRest)
  end.

Definition HandleUnresolvedArrayFields (children : list BsonPathNode) (currentMaxIndex : Z)
  : result (list bson_value * bool) :=
  let! maxIndex := max_index children INT32_MIN in
  if (currentMaxIndex <? maxIndex) && (1500000 <? maxIndex - currentMaxIndex)
  then Err ERRCODE_DOCUMENTDB_CANNOTBACKFILLARRAY
  else fill_array children (Z.to_nat (maxIndex - currentMaxIndex + 1)) currentMaxIndex.

(** *** Fields that are in the document *)

(** The first child that matches, its index, and what it writes. *)
Definition find_match {R} (matches : BsonPathNode -> result bool) (update : BsonPathNode -> result R) :=
  fix go (children : list BsonPathNode) (index : nat) : result (option (nat * R)) :=
    match children with
    | [] => Ok None
    | child :: rest =>
        let! matched := matches child in
        if matched : bool then let! r := update child in Ok (Some (index, r))
        else go rest (S index)
    end.

Definition update_result : Type := option bson_value * bool.

(** The fields of a document, what is written for them, and the children that
    were handled. *)
Fixpoint update_fields (handle : bytes -> bson_value -> result (option (nat * update_result)))
  (isRootLevel : bool) (fields : bson_doc) (handled : list nat) : result (bson_doc * bool * list nat) :=
  match fields with
  | [] => Ok ([], false, handled)
  | (key, value) :: rest =>
      if isRootLevel && bool_decide (key = IdField) then update_fields handle isRootLevel rest handled
      else
        let! r := handle key value in
        let '(written, modified, handled) :=
          match r with
          | None => (Some value, false, handled)
          | Some (index, (written, modified)) => (written, modified, index :: handled)
          end in
        let! (out, modifiedRest, handled) := update_fields handle isRootLevel rest handled in
        Ok (match written with Some v => (key, v) :: out | None => out end, modified || modifiedRest, handled)
  end.

(** In an array the handled children are not looked at again. *)
Definition update_elements (handle : bytes -> bson_value -> result (option (nat * update_result)))
  (elements : bson_doc) : result (list bson_value * bool) :=
  let! (out, modified, _) := update_fields handle false elements [] in
  Ok (map snd out, modified).

(** A node other than a document or an array under an intermediate node.  A
    $rename fails if its source is there, or if this is on the way to its target. *)
Definition IsAnErrorForIntermediateNodeOfDollarRenameOp (renameNode : option (NodeType * bytes)) : bool :=
  match renameNode with
  | None => false
  | Some (NodeType_LeafExcluded, relativePath) =>
      match bson_iter_find_descendant (sourceDocument state) relativePath with Some _ => true | None => false end
  | Some _ => true
  end.

(** What a node writes for the value of its field. *)
Fixpoint update_node (node : BsonPathNode) (isArray hasArrayAncestors : bool) (value : bson_value)
  : result update_result :=
  match node with
  | LeafNode _ _ leaf => WriteCurrentNode leaf value isArray hasArrayAncestors
  | IntermediateNode _ d children =>
      match value with
      | V_Document fields =>
          let! (out, modified, handled) :=
            update_fields
              (fun key v => find_match (fun c => IsNodeMatchForIteratorPath c key false v)
                              (fun c => update_node c false hasArrayAncestors v) children 0)
              false fields [] in
          let! (added, modifiedRest) := HandleUnresolvedDocumentFields d children handled false hasArrayAncestors in
          Ok (Some (V_Document (out ++ added)), modified || modifiedRest)
      | V_Array elements =>
          let! (out, modified) :=
            update_elements
              (fun key v => find_match (fun c => IsNodeMatchForIteratorPath c key true v)
                              (fun c => update_node c true true v) children 0) elements in
          let! (added, modifiedRest) := HandleUnresolvedArrayFields children (Z.of_nat (length elements)) in
          Ok (Some (array_value (out ++ added)), modified || modifiedRest)
      | _ =>
          if hasExpressionFieldsInChildren d then Err ERRCODE_DOCUMENTDB_PATHNOTVIABLE
          else if isArray then Err ERRCODE_DOCUMENTDB_BADVALUE
          else if IsAnErrorForIntermediateNodeOfDollarRenameOp (sourceOrTargetNodeForRenameOP d)
          then Err ERRCODE_DOCUMENTDB_PATHNOTVIABLE
          else Ok (Some value, false)
      end
  end.

Definition HandleCurrentIteratorPosition (children : list BsonPathNode) (isArray hasArrayAncestors : bool)
  (key : bytes) (value : bson_value) : result (option (nat * update_result)) :=
  find_match (fun c => IsNodeMatchForIteratorPath c key isArray value)
    (fun c => update_node c isArray hasArrayAncestors value) children 0.

Definition TraverseDocumentAndApplyUpdate (fields : bson_doc) (tree : UpdateTree) (isRootLevel hasArrayAncestors : bool)
  : result (bson_doc * bool) :=
  let! (out, modified, handled) :=
    update_fields (HandleCurrentIteratorPosition tree.2 false hasArrayAncestors) isRootLevel fields [] in
  let! (added, modifiedRest) :=
    HandleUnresolvedDocumentFields tree.1 tree.2 handled isRootLevel hasArrayAncestors in
  Ok (out ++ added, modified || modifiedRest).

Definition HandleUpdateDocumentId (new_oid : bytes) (tree : UpdateTree) : result update_result :=
  match find_child IdField tree.2 with
  | None => Err ERRCODE_INTERNAL_ERROR
  | Some (IntermediateNode _ _ _) => Err ERRCODE_DOCUMENTDB_BADVALUE
  | Some (LeafNode _ NodeType_LeafExcluded _) =>
      match documentId state with
      | V_Eod => Ok (Some (V_Oid new_oid), true)
      | id => Ok (Some id, false)
      end
  | Some (LeafNode _ _ leaf) => WriteCurrentNode leaf (documentId state) false false
  end.
End apply.

(** libbson's validation of a document. *)
Context (PgbsonValidateInputBson : bson_doc -> result unit) (EnableCollation : bool).

Definition ValidateIdField (idValue : bson_value) : result unit :=
  match idValue with
  | V_Array _ | V_Undefined | V_Regex _ _ => Err ERRCODE_DOCUMENTDB_BADVALUE
  | V_Document fields =>
      if existsb (fun f => key_starts_with f.1 DOLLAR) fields
      then Err ERRCODE_DOCUMENTDB_DOLLARPREFIXEDFIELDNAME else Ok tt
  | _ => Ok tt
  end.

(** [None] if nothing changes. *)
Definition ProcessUpdateOperatorWithState (clock : Z * Z) (new_oid : bytes) (sourceDoc : bson_doc)
  (tree : UpdateTree) (collation : option bytes) (isUpsert : bool) : result (option bson_doc) :=
  let documentId := default V_Eod (bson_iter_find_w_len sourceDoc IdField) in
  let state := mk_docstate documentId isUpsert sourceDoc collation in
  let! (id, idUpdated) := HandleUpdateDocumentId EnableCollation clock state new_oid tree in
  let! (fields, documentUpdated) :=
    TraverseDocumentAndApplyUpdate EnableCollation clock state sourceDoc tree true false in
  if negb (idUpdated || documentUpdated) && negb isUpsert then Ok None
  else
    let finalDoc := match id with Some v => (IdField, v) :: fields | None => fields end in
    let newIdValue := default V_Eod (bson_iter_find_w_len finalDoc IdField) in
    let! changed :=
      match newIdValue, documentId with
      | V_Eod, _ => Ok true
      | _, V_Eod => Ok false
      | _, _ => let! same := BsonValueEquals newIdValue documentId in Ok (negb same)
      end in
    if changed : bool then Err ERRCODE_DOCUMENTDB_IMMUTABLEFIELD
    else
      let! _ := PgbsonValidateInputBson finalDoc in
      let! _ := ValidateIdField newIdValue in
      Ok (Some finalDoc).
End operators.

(** A query that no element matches. *)
Module NoPositionalQuery.
#[export] Instance no_match : PositionalQuery := {
  GetPositionalQueryData _ _ := Ok tt;
  MatchPositionalQueryAgainstDocument _ _ _ := Ok (-1);
}.
End NoPositionalQuery.
