(* ===== verification/UpdateApply.v ===== *)
(** * Applying an update

    What the walk along the update tree ([UpdateTree.v]) writes: at the path of a
    leaf the value that its operator writes for the old value, and everywhere
    else the old document.  The statements are for paths through documents; a
    document on the way has no key twice. *)

From Stdlib Require Import String.
From stdpp Require Import base numbers list option sorting.
From Stdlib Require Import ZArith Lia.
From S2P Require Import Prelude Binary64 Bson PgbsonElement StringView Traversal Decimal128.
From S2P Require Import Collation BsonCompare BsonHash Arithmetic QueryOperators BitOperators UpdateOperators UpdateTree.

(** ** Values at paths *)

(** The value of a key. *)
Definition field_value (doc : bson_doc) (key : bytes) : option bson_value :=
  snd <$> List.find (fun f => bool_decide (f.1 = key)) doc.

(** The value at a path, through documents. *)
Fixpoint get_path (doc : bson_doc) (path : list bytes) : option bson_value :=
  match path with
  | [] => None
  | [f] => field_value doc f
  | f :: rest =>
      match field_value doc f with
      | Some (V_Document d) => get_path d rest
      | _ => None
      end
  end.

(** The documents along a path have no key twice, and it does not pass an array. *)
Fixpoint plain_along (path : list bytes) (doc : bson_doc) : Prop :=
  NoDup (map fst doc) /\
  match path with
  | f :: (_ :: _) as rest =>
      match field_value doc f with
      | Some (V_Document d) => plain_along rest d
      | Some (V_Array _) => False
      | _ => True
      end
  | _ => True
  end.

(** A value other than a document is on the way. *)
Fixpoint blocked (path : list bytes) (doc : bson_doc) : Prop :=
  match path with
  | f :: (_ :: _) as rest =>
      match field_value doc f with
      | Some (V_Document d) => blocked rest d
      | Some _ => True
      | None => False
      end
  | _ => False
  end.

(** The leaf at a path of the tree. *)
Definition leaf_at (path : list bytes) (children : list BsonPathNode) : option (NodeType * BsonUpdateLeafNode) :=
  match node_at path children with
  | Some (LeafNode _ t leaf) => Some (t, leaf)
  | _ => None
  end.

(** A path that is neither a part of a path of the tree nor an extension of one. *)
Fixpoint outside (path : list bytes) (children : list BsonPathNode) : bool :=
  match path with
  | [] => false
  | f :: rest =>
      match find_child f children with
      | None => true
      | Some (LeafNode _ _ _) => false
      | Some (IntermediateNode _ _ kids) => outside rest kids
      end
  end.

(** The intermediate nodes on the way to a node have a property. *)
Fixpoint along (P : BsonUpdateIntermediatePathNode -> bool) (path : list bytes) (children : list BsonPathNode) : Prop :=
  match path with
  | f :: (_ :: _) as rest =>
      match find_child f children with
      | Some (IntermediateNode _ d kids) => P d = true /\ along P rest kids
      | _ => True
      end
  | _ => True
  end.

(** ** Trees without positional operators *)

#[warnings="-register-all"]
Inductive plain_node : BsonPathNode -> Prop :=
| plain_leaf f t leaf :
    t <> NodeType_Intermediate -> leaf_positional leaf = PositionalType_None -> plain_node (LeafNode f t leaf)
| plain_intermediate f d kids :
    inter_positional d = PositionalType_None -> hasPositionalChildren d = false ->
    NoDup (map node_field kids) -> Forall plain_node kids -> plain_node (IntermediateNode f d kids).

Definition plain_children (children : list BsonPathNode) : Prop :=
  NoDup (map node_field children) /\ Forall plain_node children.

(** The flags of the ancestors: a field below, or the target of a $rename. *)
Definition flags_ok (children : list BsonPathNode) : Prop :=
  forall path t leaf, leaf_at path children = Some (t, leaf) ->
    (t = NodeType_LeafField -> along hasExpressionFieldsInChildren path children) /\
    (t = NodeType_LeafIncluded -> along HasIntermediateIncludeChildren path children).

(** ** Lookup *)

Lemma field_value_nil key : field_value [] key = None.
Proof. done. Qed.

Lemma field_value_cons k v doc key :
  field_value ((k, v) :: doc) key = if bool_decide (k = key) then Some v else field_value doc key.
Proof. unfold field_value. cbn. by destruct (bool_decide (k = key)). Qed.

Lemma field_value_app l r key :
  field_value (l ++ r) key = match field_value l key with Some v => Some v | None => field_value r key end.
Proof.
  induction l as [|[k v] l IH]; [done|]. cbn [app]. rewrite !field_value_cons.
  by destruct (bool_decide (k = key)).
Qed.

Lemma field_value_none doc key : key ∉ map fst doc -> field_value doc key = None.
Proof.
  induction doc as [|[k v] doc IH]; [done|]. cbn [map fst]. rewrite not_elem_of_cons. intros [Hk Hr].
  rewrite field_value_cons, bool_decide_eq_false_2 by congruence. by apply IH.
Qed.

Lemma field_value_some doc key v : field_value doc key = Some v -> (key, v) ∈ doc.
Proof.
  induction doc as [|[k w] doc IH]; [done|]. rewrite field_value_cons.
  rewrite elem_of_cons. case_bool_decide; intros E; [left; congruence|right; by apply IH].
Qed.

Lemma field_value_elem doc key v : NoDup (map fst doc) -> (key, v) ∈ doc -> field_value doc key = Some v.
Proof.
  induction doc as [|[k w] doc IH]; intros N E; [by apply not_elem_of_nil in E|].
  cbn [map fst] in N. apply NoDup_cons in N as [Nk N]. rewrite field_value_cons.
  apply elem_of_cons in E as [[= -> ->]|E]; [by rewrite bool_decide_eq_true_2|].
  rewrite bool_decide_eq_false_2; [by apply IH|]. intros ->. apply Nk.
  by apply (list_elem_of_fmap_2 fst _ _ E).
Qed.

Lemma find_child_cons c children f :
  find_child f (c :: children) = if bool_decide (node_field c = f) then Some c else find_child f children.
Proof. done. Qed.

Lemma find_child_field f children c : find_child f children = Some c -> node_field c = f /\ c ∈ children.
Proof.
  intros E. apply List.find_some in E as [E1 E2]. split; [by apply bool_decide_eq_true in E2|].
  by apply list_elem_of_In.
Qed.

Lemma find_child_none f children : find_child f children = None <-> f ∉ map node_field children.
Proof.
  induction children as [|c children IH]; [split; [intros _; apply not_elem_of_nil|done]|].
  rewrite find_child_cons. cbn [map]. rewrite not_elem_of_cons.
  case_bool_decide; [|rewrite IH]; [split; [done|intros []; congruence]|].
  split; [intros; split; congruence|by intros []].
Qed.

Lemma plain_child f children c :
  plain_children children -> find_child f children = Some c -> plain_node c.
Proof.
  intros [_ Hc] [_ E]%find_child_field. by apply (proj1 (Forall_forall _ _) Hc).
Qed.

Lemma plain_kids f d kids : plain_node (IntermediateNode f d kids) -> plain_children kids.
Proof. by inversion 1. Qed.

Lemma leaf_at_nil path : leaf_at path [] = None.
Proof. by destruct path as [|f [|g path]]. Qed.

Lemma leaf_at_one f children :
  leaf_at [f] children = match find_child f children with Some (LeafNode _ t leaf) => Some (t, leaf) | _ => None end.
Proof. done. Qed.

Lemma leaf_at_cons f g path children :
  leaf_at (f :: g :: path) children =
  match find_child f children with Some (IntermediateNode _ _ kids) => leaf_at (g :: path) kids | _ => None end.
Proof. unfold leaf_at. cbn [node_at]. by destruct (find_child f children) as [[]|]. Qed.

Lemma leaf_at_type path children t leaf :
  plain_children children -> leaf_at path children = Some (t, leaf) -> t <> NodeType_Intermediate.
Proof.
  revert children. induction path as [|f [|g path] IH]; intros children Hp E0; [done|..].
  - rewrite leaf_at_one in E0. destruct (find_child f children) as [[]|] eqn:Ec; try done.
    injection E0 as -> ->. pose proof (plain_child _ _ _ Hp Ec) as Hc. by inversion Hc.
  - rewrite leaf_at_cons in E0. destruct (find_child f children) as [[]|] eqn:Ec; try done.
    apply (IH _ (plain_kids _ _ _ (plain_child _ _ _ Hp Ec)) E0).
Qed.

(** ** One level of the walk *)

Section apply.
Context {L : BidLib} {A : BidMath} {I : Icu} {T : DynaHash} {H : PgHash} {F : FindField}.
Context {E : QueryExpression} {FD : FindDescendant} {Q : QSort} {PQ : PositionalQuery}.
Context (EnableCollation : bool) (clock : Z * Z) (state : CurrentDocumentState).

(** The position of the child with a field. *)
Fixpoint child_index (field : bytes) (children : list BsonPathNode) : nat :=
  match children with
  | [] => 0
  | c :: rest => if bool_decide (node_field c = field) then 0 else S (child_index field rest)
  end.

Lemma plain_match node key value :
  plain_node node -> IsNodeMatchForIteratorPath state node key false value = Ok (bool_decide (key = node_field node)).
Proof. intros Hn. unfold IsNodeMatchForIteratorPath. destruct Hn as [f t leaf _ Hp|f d kids Hp]; cbn; by rewrite Hp. Qed.

Lemma find_match_plain {R} (update : BsonPathNode -> result R) children key value index :
  Forall plain_node children ->
  find_match (fun c => IsNodeMatchForIteratorPath state c key false value) update children index =
  match find_child key children with
  | None => Ok None
  | Some c => let! r := update c in Ok (Some ((index + child_index key children)%nat, r))
  end.
Proof.
  revert index. induction children as [|c children IH]; intros index Hc; [done|].
  apply Forall_cons in Hc as [Hn Hc]. cbn [find_match]. fold (@find_match R). rewrite plain_match by done.
  cbn [result_bind]. rewrite find_child_cons. cbn [child_index].
  destruct (decide (node_field c = key)) as [Hk|Hk].
  - rewrite !bool_decide_eq_true_2 by congruence. by rewrite Nat.add_0_r.
  - rewrite !bool_decide_eq_false_2 by congruence. rewrite IH by done.
    case_match; [|done]. by rewrite Nat.add_succ_r.
Qed.

(** What the loop over the fields leaves at a key. *)
Lemma update_fields_spec handle isRootLevel fields handled out modified handled' :
  NoDup (map fst fields) ->
  update_fields handle isRootLevel fields handled = Ok (out, modified, handled') ->
  (forall k, k ∈ map fst out -> k ∈ map fst fields) /\
  (forall k v, (isRootLevel && bool_decide (k = IdField)) = false -> field_value fields k = Some v ->
     (handle k v = Ok None /\ field_value out k = Some v) \/
     (exists i w m, handle k v = Ok (Some (i, (w, m))) /\ field_value out k = w /\ i ∈ handled')) /\
  (forall i, i ∈ handled' -> i ∈ handled \/
     exists k v r, (k, v) ∈ fields /\ handle k v = Ok (Some (i, r))) /\
  (forall i, i ∈ handled -> i ∈ handled').
Proof.
  revert handled out modified handled'. induction fields as [|[k v] fields IH];
    intros handled out modified handled' N E0; cbn [update_fields] in E0.
  { injection E0 as <- <- <-. repeat split; auto. done. }
  cbn [map fst] in N. apply NoDup_cons in N as [Nk N].
  destruct (isRootLevel && bool_decide (k = IdField)) eqn:Er.
  { destruct (IH _ _ _ _ N E0) as (H1 & H2 & H3 & H4). split_and!; [..|done].
    - intros k' Hk'. right. by apply H1.
    - intros k' v' Hr. rewrite field_value_cons. destruct (decide (k = k')) as [<-|Hk]; [congruence|].
      rewrite bool_decide_eq_false_2 by done. by apply H2.
    - intros i [Hi|(k' & v' & r & Hi & Hh)]%H3; [by left|right]. exists k', v', r. split; [by right|done]. }
  destruct (handle k v) as [r|] eqn:Eh; [|done]. cbn [result_bind] in E0.
  set (step := match r with None => _ | Some _ => _ end) in E0.
  destruct step as [[written m] handled1] eqn:Es.
  destruct (update_fields handle isRootLevel fields handled1) as [[[out1 m1] handled2]|] eqn:Eu; [|done].
  injection E0 as <- <- <-. destruct (IH _ _ _ _ N Eu) as (H1 & H2 & H3 & H4).
  assert (field_value out1 k = None) as Ho by (apply field_value_none; intros Hin; by apply Nk, H1).
  assert (forall k', field_value (match written with Some w => (k, w) :: out1 | None => out1 end) k' =
            if bool_decide (k = k') then written else field_value out1 k') as Hf.
  { intros k'. destruct written; [apply field_value_cons|]. by destruct (bool_decide_reflect (k = k')) as [<-|]. }
  split_and!.
  - intros k'. destruct written; cbn [map fst]; rewrite ?elem_of_cons; intros; destruct_or?; auto.
  - intros k' v' Hr. rewrite field_value_cons, Hf. destruct (decide (k = k')) as [Hk|Hk].
    2: { rewrite !(bool_decide_eq_false_2 (k = k')) by done. by apply H2. }
    rewrite !(bool_decide_eq_true_2 (k = k')) by done.
    intros [= <-]. subst k'. unfold step in Es. destruct r as [[i [w m']]|]; injection Es as <- <- <-.
    + right. exists i, w, m'. split_and!; [done..|]. apply H4. by left.
    + by left.
  - intros i [Hi|(k' & v' & r' & Hi & Hh)]%H3.
    2: { right. exists k', v', r'. split; [by right|done]. }
    unfold step in Es. destruct r as [[j [w m']]|]; injection Es as <- <- <-; [|by left].
    apply elem_of_cons in Hi as [->|Hi]; [|by left]. right. exists k, v, (w, m'). split; [by left|done].
  - intros i Hi. apply H4. unfold step in Es. destruct r as [[j [w m']]|]; injection Es as <- <- <-; [by right|done].
Qed.

(** What the loop over the children that were not handled adds. *)
Lemma unresolved_children_spec unresolved isRootLevel handled children index added modified :
  NoDup (map node_field children) ->
  unresolved_children state unresolved isRootLevel handled children index = Ok (added, modified) ->
  (forall k, find_child k children = None -> field_value added k = None) /\
  (forall k c, (isRootLevel && bool_decide (k = IdField)) = false -> find_child k children = Some c ->
     if bool_decide ((index + child_index k children)%nat ∈ handled) then field_value added k = None
     else exists m, unresolved c = Ok (field_value added k, m)).
Proof.
  revert index added modified. induction children as [|c children IH];
    intros index added modified N E0; cbn [unresolved_children] in E0.
  { injection E0 as <- <-. split; [done|]. intros k c _ [=]. }
  cbn [map] in N. apply NoDup_cons in N as [Nc N].
  set (skip := isRootLevel && bool_decide (node_field c = IdField)) in E0.
  set (first := if skip then _ else _) in E0.
  destruct first as [[written m]|] eqn:Ef; [|done]. cbn [result_bind] in E0.
  destruct (unresolved_children state unresolved isRootLevel handled children (S index)) as [[added1 m1]|] eqn:Eu; [|done].
  injection E0 as <- <-. destruct (IH _ _ _ N Eu) as [H1 H2].
  assert (field_value added1 (node_field c) = None) as Ho by (by apply H1, find_child_none).
  assert (forall k, field_value (match written with Some w => (node_field c, w) :: added1 | None => added1 end) k =
            if bool_decide (node_field c = k) then written else field_value added1 k) as Hf.
  { intros k. destruct written; [apply field_value_cons|]. by destruct (bool_decide_reflect (node_field c = k)) as [<-|]. }
  split.
  - intros k. rewrite find_child_cons, Hf. by case_bool_decide; [|apply H1].
  - intros k c' Hr. rewrite find_child_cons, Hf. cbn [child_index]. destruct (decide (node_field c = k)) as [Hk|Hk].
    + rewrite !(bool_decide_eq_true_2 (node_field c = k)) by done. intros [= <-]. rewrite Nat.add_0_r.
      unfold first, skip in Ef. rewrite Hk, Hr in Ef.
      destruct (bool_decide (index ∈ handled)); [by injection Ef as <- <-|].
      destruct (isRootLevel && _ && _) in Ef; [done|]. by exists m.
    + rewrite !(bool_decide_eq_false_2 (node_field c = k)) by done. intros Hc.
      rewrite Nat.add_succ_r. exact (H2 k c' Hr Hc).
Qed.

Lemma child_index_inj children k1 k2 c1 c2 :
  find_child k1 children = Some c1 -> find_child k2 children = Some c2 ->
  child_index k1 children = child_index k2 children -> k1 = k2.
Proof.
  induction children as [|c children IH]; [done|]. rewrite !find_child_cons. cbn [child_index].
  destruct (bool_decide_reflect (node_field c = k1)), (bool_decide_reflect (node_field c = k2)); try done.
  - intros; congruence.
  - intros E1 E2 [= Ei]. by apply IH.
Qed.

(** What one level of the walk leaves at a key. *)
Definition level_result (hasArrayAncestors : bool) (child : option BsonPathNode) (old new : option bson_value) : Prop :=
  match child, old with
  | None, _ => new = old
  | Some c, Some v => exists m, update_node EnableCollation clock state c false hasArrayAncestors v = Ok (new, m)
  | Some c, None => exists m, unresolved_node EnableCollation clock state hasArrayAncestors c = Ok (new, m)
  end.

Lemma handled_child hasArrayAncestors children fields isRootLevel out m handled i :
  plain_children children -> NoDup (map fst fields) ->
  update_fields (HandleCurrentIteratorPosition EnableCollation clock state children false hasArrayAncestors)
    isRootLevel fields [] = Ok (out, m, handled) ->
  i ∈ handled -> exists k c, is_Some (field_value fields k) /\ find_child k children = Some c /\ i = child_index k children.
Proof.
  intros Hp N Hu Hi. destruct (update_fields_spec _ _ _ _ _ _ _ N Hu) as (_ & _ & H3 & _).
  destruct (H3 _ Hi) as [[]%not_elem_of_nil|(k & v & r & Hin & Hh)]. exists k.
  unfold HandleCurrentIteratorPosition in Hh. rewrite find_match_plain in Hh by apply Hp.
  destruct (find_child k children) as [c|]; [|done]. exists c.
  destruct (update_node _ _ _ c false hasArrayAncestors v); [|done]. injection Hh as <- <-.
  split_and!; [|done..]. exists v. by apply field_value_elem.
Qed.

Lemma level_spec d children fields isRootLevel hasArrayAncestors out m handled added m' k :
  plain_children children -> NoDup (map fst fields) ->
  update_fields (HandleCurrentIteratorPosition EnableCollation clock state children false hasArrayAncestors)
    isRootLevel fields [] = Ok (out, m, handled) ->
  HandleUnresolvedDocumentFields EnableCollation clock state d children handled isRootLevel hasArrayAncestors =
    Ok (added, m') ->
  (isRootLevel && bool_decide (k = IdField)) = false ->
  level_result hasArrayAncestors (find_child k children) (field_value fields k) (field_value (out ++ added) k).
Proof.
  intros Hp N Hu Hn Hr. pose proof (fun i => handled_child _ _ _ _ _ _ _ i Hp N Hu) as Hhand.
  destruct (update_fields_spec _ _ _ _ _ _ _ N Hu) as (H1 & H2 & _ & _).
  unfold HandleUnresolvedDocumentFields in Hn. destruct (hasPositionalChildren d); [done|].
  destruct (unresolved_children_spec _ _ _ _ _ _ _ (proj1 Hp) Hn) as [U1 U2].
  rewrite field_value_app. unfold level_result. destruct (field_value fields k) as [v|] eqn:Ev.
  - destruct (H2 k v Hr Ev) as [[Hh ->]|(i & w & m0 & Hh & -> & Hi)];
      unfold HandleCurrentIteratorPosition in Hh; rewrite find_match_plain in Hh by apply Hp;
      destruct (find_child k children) as [c|] eqn:Ec; [| | |done].
    + by destruct (update_node _ _ _ c false hasArrayAncestors v).
    + done.
    + destruct (update_node _ _ _ c false hasArrayAncestors v) as [[w' m'']|]; [|done].
      injection Hh as <- -> ->. exists m0. specialize (U2 k c Hr Ec).
      rewrite bool_decide_eq_true_2 in U2 by done. rewrite U2. by destruct w.
  - assert (field_value out k = None) as ->.
    { apply field_value_none. intros (f & -> & Hf)%H1%list_elem_of_fmap_1. destruct f as [k v]. cbn [fst] in Ev.
      by rewrite (field_value_elem _ _ _ N Hf) in Ev. }
    destruct (find_child k children) as [c|] eqn:Ec; [|by apply U1].
    specialize (U2 k c Hr Ec). destruct (bool_decide_reflect ((0 + child_index k children)%nat ∈ handled)) as [Hin|];
      [|by destruct U2 as [m0 ->]; exists m0].
    destruct (Hhand _ Hin) as (k' & c' & [v' Hv'] & Hc' & Hx).
    rewrite (child_index_inj children k k' c c' Ec Hc' Hx), Hv' in Ev. done.
Qed.

(** ** Paths that are missing *)

Lemma unresolved_path path hasArrayAncestors children added m t leaf :
  plain_children children ->
  leaf_at path children = Some (t, leaf) ->
  (t = NodeType_LeafField -> along hasExpressionFieldsInChildren path children) ->
  (t = NodeType_LeafIncluded -> along HasIntermediateIncludeChildren path children) ->
  unresolved_children state (unresolved_node EnableCollation clock state hasArrayAncestors) false [] children 0 =
    Ok (added, m) ->
  if bool_decide (t = NodeType_LeafExcluded) then get_path added path = None
  else exists m, WriteCurrentNode EnableCollation clock state leaf V_Eod false hasArrayAncestors = Ok (get_path added path, m).
Proof.
  revert children added m. induction path as [|f [|g path] IH]; intros children added m Hp Hl Hf Hi Hu; [done|..];
    pose proof (leaf_at_type _ _ _ _ Hp Hl) as Ht;
    destruct (unresolved_children_spec _ _ _ _ _ _ _ (proj1 Hp) Hu) as [_ U2].
  - rewrite leaf_at_one in Hl. destruct (find_child f children) as [[f' t' leaf'|]|] eqn:Ec; try done.
    injection Hl as -> ->. destruct (U2 f _ eq_refl Ec) as [m0 Hc]. cbn [unresolved_node] in Hc. cbn [get_path].
    destruct t; [done|by injection Hc as <- _|..]; by exists m0.
  - rewrite leaf_at_cons in Hl. destruct (find_child f children) as [[|f' d kids]|] eqn:Ec; try done.
    destruct (U2 f _ eq_refl Ec) as [m0 Hc]. cbn [along] in Hf, Hi. rewrite Ec in Hf, Hi.
    pose proof (plain_child _ _ _ Hp Ec) as Hn. pose proof (plain_kids _ _ _ Hn) as Hk.
    assert (hasPositionalChildren d = false) as Hd by (by inversion Hn).
    cbn [unresolved_node] in Hc. rewrite Hd in Hc. destruct (writes_children d) eqn:Ew.
    + destruct (unresolved_children _ _ _ _ kids 0) as [[fields m1]|] eqn:Eu; [|done]. injection Hc as Hv _.
      change (get_path added (f :: g :: path)) with
        (match field_value added f with Some (V_Document d) => get_path d (g :: path) | _ => None end).
      rewrite <- Hv. apply (IH kids fields m1); try done; [intros X; by apply Hf|intros X; by apply Hi].
    + injection Hc as Hv _. cbn [get_path]. rewrite <- Hv.
      unfold writes_children in Ew. apply orb_false_iff in Ew as [Ew1 Ew2].
      destruct t; [done|done|destruct (Hi eq_refl); congruence|destruct (Hf eq_refl); congruence].
Qed.

(** ** Paths of the tree *)

Lemma traverse_level d children fields isRootLevel hasArrayAncestors out m k :
  plain_children children -> NoDup (map fst fields) ->
  TraverseDocumentAndApplyUpdate EnableCollation clock state fields (d, children) isRootLevel hasArrayAncestors =
    Ok (out, m) ->
  (isRootLevel && bool_decide (k = IdField)) = false ->
  level_result hasArrayAncestors (find_child k children) (field_value fields k) (field_value out k).
Proof.
  intros Hp N Ht. unfold TraverseDocumentAndApplyUpdate in Ht. cbn [fst snd] in Ht.
  destruct (update_fields _ _ fields []) as [[[out1 m1] handled]|] eqn:Eu; [|done]. cbn [result_bind] in Ht.
  destruct (HandleUnresolvedDocumentFields _ _ _ d children handled isRootLevel hasArrayAncestors)
    as [[added m2]|] eqn:En; [|done].
  injection Ht as <- <-. by apply (level_spec d children fields isRootLevel hasArrayAncestors out1 m1 handled added m2).
Qed.

Lemma update_node_document f d kids hasArrayAncestors fields :
  update_node EnableCollation clock state (IntermediateNode f d kids) false hasArrayAncestors (V_Document fields) =
  let! (out, m) := TraverseDocumentAndApplyUpdate EnableCollation clock state fields (d, kids) false hasArrayAncestors in
  Ok (Some (V_Document out), m).
Proof.
  cbn [update_node]. unfold TraverseDocumentAndApplyUpdate. cbn [fst snd].
  change (update_fields _ false fields []) with
    (update_fields (HandleCurrentIteratorPosition EnableCollation clock state kids false hasArrayAncestors) false fields []).
  destruct (update_fields _ false fields []) as [[[out1 m1] handled]|]; [|done]. cbn [result_bind].
  by destruct (HandleUnresolvedDocumentFields _ _ _ d kids handled false hasArrayAncestors) as [[added m2]|].
Qed.

Lemma get_path_cons doc f g path :
  get_path doc (f :: g :: path) =
  match field_value doc f with Some (V_Document d) => get_path d (g :: path) | _ => None end.
Proof. done. Qed.

(** What is at the path of a leaf after the update. *)
Definition leaf_result (hasArrayAncestors : bool) (t : NodeType) (leaf : BsonUpdateLeafNode)
  (old new : option bson_value) : Prop :=
  match old with
  | Some v => exists m, WriteCurrentNode EnableCollation clock state leaf v false hasArrayAncestors = Ok (new, m)
  | None =>
      if bool_decide (t = NodeType_LeafExcluded) then new = None
      else exists m, WriteCurrentNode EnableCollation clock state leaf V_Eod false hasArrayAncestors = Ok (new, m)
  end.

(** An intermediate node on the way. *)
Lemma update_below f d kids hasArrayAncestors path old new t leaf :
  plain_children kids ->
  leaf_at path kids = Some (t, leaf) -> path <> [] ->
  (t = NodeType_LeafField -> hasExpressionFieldsInChildren d = true /\ along hasExpressionFieldsInChildren path kids) ->
  (t = NodeType_LeafIncluded -> HasIntermediateIncludeChildren d = true /\ along HasIntermediateIncludeChildren path kids) ->
  hasPositionalChildren d = false ->
  (forall fields, old = Some (V_Document fields) -> forall out m,
     TraverseDocumentAndApplyUpdate EnableCollation clock state fields (d, kids) false hasArrayAncestors = Ok (out, m) ->
     leaf_result hasArrayAncestors t leaf (get_path fields path) (get_path out path)) ->
  (forall es, old <> Some (V_Array es)) ->
  (t = NodeType_LeafIncluded -> forall v, old = Some v -> value_type v = BSON_TYPE_DOCUMENT) ->
  level_result hasArrayAncestors (Some (IntermediateNode f d kids)) old new ->
  leaf_result hasArrayAncestors t leaf
    (match old with Some (V_Document d) => get_path d path | _ => None end)
    (match new with Some (V_Document d) => get_path d path | _ => None end).
Proof.
  intros Hk Hl Hne Hf Hi Hd Hdoc Harr Hinc Hr. unfold level_result in Hr. destruct old as [v|].
  - destruct (type_eqb (value_type v) BSON_TYPE_DOCUMENT) eqn:Et.
    { destruct v; try done. rewrite update_node_document in Hr. destruct Hr as [m Hr].
      destruct (TraverseDocumentAndApplyUpdate _ _ _ v_doc _ _ _) as [[out m1]|] eqn:Eu; [|done].
      injection Hr as <- <-. by apply (Hdoc _ eq_refl out m1). }
    assert (t = NodeType_LeafExcluded /\ new = Some v) as [-> ->].
    { destruct Hr as [m Hr]. pose proof (leaf_at_type _ _ _ _ Hk Hl) as Htt. cbn [update_node] in Hr.
      destruct t; [done|..|destruct (Hf eq_refl) as [He _]; rewrite He in Hr; destruct v; try done; by destruct (Harr v_doc)].
      - destruct v; try done; try (by destruct (Harr v_doc));
          (destruct (hasExpressionFieldsInChildren d); [done|]);
          (destruct (IsAnErrorForIntermediateNodeOfDollarRenameOp _ _); [done|]); by injection Hr as <- <-.
      - specialize (Hinc eq_refl v eq_refl). by rewrite Hinc in Et. }
    by destruct v.
  - destruct Hr as [m Hr]. cbn [unresolved_node] in Hr. rewrite Hd in Hr.
    pose proof (leaf_at_type _ _ _ _ Hk Hl) as Htt. unfold leaf_result. destruct (writes_children d) eqn:Ew.
    + destruct (unresolved_children _ _ _ _ kids 0) as [[fields m1]|] eqn:Eu; [|done]. injection Hr as <- <-.
      apply (unresolved_path path hasArrayAncestors kids fields m1 t leaf); try done; intros X;
        [by apply Hf|by apply Hi].
    + injection Hr as <- <-. unfold writes_children in Ew. apply orb_false_iff in Ew as [Ew1 Ew2].
      destruct t; [done|done|destruct (Hi eq_refl); congruence|destruct (Hf eq_refl); congruence].
Qed.

Lemma update_leaf path d children fields isRootLevel hasArrayAncestors out m t leaf :
  plain_children children -> flags_ok children ->
  plain_along path fields ->
  TraverseDocumentAndApplyUpdate EnableCollation clock state fields (d, children) isRootLevel hasArrayAncestors =
    Ok (out, m) ->
  (isRootLevel && bool_decide (head path = Some IdField)) = false ->
  leaf_at path children = Some (t, leaf) ->
  (t = NodeType_LeafIncluded -> ~ blocked path fields) ->
  leaf_result hasArrayAncestors t leaf (get_path fields path) (get_path out path).
Proof.
  intros Hp Hflags. pose proof (fun t leaf => Hflags path t leaf) as Hfl. clear Hflags.
  revert d children fields isRootLevel out m Hp Hfl. induction path as [|f [|g path] IH];
    intros d children fields isRootLevel out m Hp Hfl Ha Ht Hid Hl Hb; [done|..];
    assert ((isRootLevel && bool_decide (f = IdField)) = false) as Hr
      by (rewrite <- Hid; f_equal; by apply bool_decide_ext; split; [intros ->|intros [=]]);
    pose proof (traverse_level d children fields _ _ _ _ f Hp (proj1 Ha) Ht Hr) as Hlev.
  - rewrite leaf_at_one in Hl. destruct (find_child f children) as [[f' t' leaf'|]|] eqn:Ec; try done.
    injection Hl as -> ->. cbn [get_path]. unfold level_result in Hlev. unfold leaf_result.
    pose proof (plain_child _ _ _ Hp Ec) as Hn.
    destruct (field_value fields f) as [v|]; [done|]. cbn [unresolved_node] in Hlev.
    destruct Hlev as [m0 Hlev]. destruct t; [by inversion Hn|by injection Hlev as <- _|..]; by exists m0.
  - destruct (Hfl _ _ Hl) as [Hf Hi]. rewrite leaf_at_cons in Hl.
    cbn [along] in Hf, Hi. destruct (find_child f children) as [[|f' d' kids]|] eqn:Ec; try done.
    pose proof (plain_child _ _ _ Hp Ec) as Hn. pose proof (plain_kids _ _ _ Hn) as Hk.
    rewrite !get_path_cons. destruct Ha as [N Ha].
    apply (update_below f' d' kids hasArrayAncestors (g :: path)); try done.
    + by inversion Hn.
    + intros fields' Hold out' m' Ht'. rewrite Hold in Ha.
      apply (IH d' kids fields' false out' m'); try done.
      * intros t' leaf' Hl'. rewrite Hl in Hl'. injection Hl' as <- <-. split; intros X; [by apply Hf|by apply Hi].
      * intros X Hbl. apply (Hb X). cbn [blocked]. by rewrite Hold.
    + intros es Hold. by rewrite Hold in Ha.
    + intros X v Hold. specialize (Hb X). cbn [blocked] in Hb. rewrite Hold in Hb. destruct v; try done; by destruct Hb.
Qed.

(** ** Paths outside the tree *)

Lemma unresolved_outside path hasArrayAncestors children added m :
  plain_children children -> outside path children = true ->
  unresolved_children state (unresolved_node EnableCollation clock state hasArrayAncestors) false [] children 0 =
    Ok (added, m) ->
  get_path added path = None.
Proof.
  revert children added m. induction path as [|f path IH]; intros children added m Hp Ho Hu; [done|].
  destruct (unresolved_children_spec _ _ _ _ _ _ _ (proj1 Hp) Hu) as [U1 U2]. cbn [outside] in Ho.
  destruct (find_child f children) as [[|f' d kids]|] eqn:Ec; [done| |].
  - destruct path as [|g path]; [done|]. rewrite get_path_cons. destruct (U2 f _ eq_refl Ec) as [m0 Hc].
    cbn [unresolved_node] in Hc.
    destruct (writes_children d); [|by injection Hc as <- _]. destruct (hasPositionalChildren d); [done|].
    destruct (unresolved_children _ _ _ _ kids 0) as [[fields m1]|] eqn:Eu; [|done]. injection Hc as <- _.
    apply (IH kids fields m1); try done. apply (plain_kids f' d), (plain_child f children); done.
  - specialize (U1 f Ec). destruct path as [|g path]; [done|]. by rewrite get_path_cons, U1.
Qed.

Lemma update_frame path d children fields isRootLevel hasArrayAncestors out m :
  plain_children children -> plain_along path fields ->
  TraverseDocumentAndApplyUpdate EnableCollation clock state fields (d, children) isRootLevel hasArrayAncestors =
    Ok (out, m) ->
  (isRootLevel && bool_decide (head path = Some IdField)) = false ->
  outside path children = true ->
  get_path out path = get_path fields path.
Proof.
  revert d children fields isRootLevel out m. induction path as [|f path IH];
    intros d children fields isRootLevel out m Hp Ha Ht Hid Ho; [done|].
  assert ((isRootLevel && bool_decide (f = IdField)) = false) as Hr
    by (rewrite <- Hid; f_equal; by apply bool_decide_ext; split; [intros ->|intros [=]]).
  pose proof (traverse_level d children fields _ _ _ _ f Hp (proj1 Ha) Ht Hr) as Hlev.
  cbn [outside] in Ho. destruct (find_child f children) as [[|f' d' kids]|] eqn:Ec; [done| |].
  2: { unfold level_result in Hlev. destruct path; [done|]. by rewrite !get_path_cons, Hlev. }
  destruct path as [|g path]; [done|]. rewrite !get_path_cons. destruct Ha as [N Ha].
  pose proof (plain_kids _ _ _ (plain_child _ _ _ Hp Ec)) as Hk.
  unfold level_result in Hlev. destruct (field_value fields f) as [v|].
  - destruct (type_eqb (value_type v) BSON_TYPE_DOCUMENT) eqn:Et.
    { destruct v; try done. destruct Hlev as [m0 Hlev]. rewrite update_node_document in Hlev.
      destruct (TraverseDocumentAndApplyUpdate _ _ _ v_doc _ _ _) as [[out' m1]|] eqn:Eu; [|done].
      injection Hlev as <- _. by apply (IH d' kids v_doc false out' m1). }
    destruct Hlev as [m0 Hlev]. cbn [update_node] in Hlev.
    destruct v; try done; (destruct (hasExpressionFieldsInChildren d'); [done|]);
      (destruct (IsAnErrorForIntermediateNodeOfDollarRenameOp _ _); [done|]); by injection Hlev as <- <-.
  - destruct Hlev as [m0 Hlev]. cbn [unresolved_node] in Hlev.
    destruct (writes_children d'); [|by injection Hlev as <- _]. destruct (hasPositionalChildren d'); [done|].
    destruct (unresolved_children _ _ _ _ kids 0) as [[added m1]|] eqn:Eu; [|done]. injection Hlev as <- _.
    by apply (unresolved_outside (g :: path) hasArrayAncestors kids added m1).
Qed.

(** ** Arrays *)

(** The key of an element is its index. *)
Lemma decimal_digits_spec fuel z digits :
  0 <= z < 10 ^ Z.of_nat (S fuel) ->
  exists front, decimal_digits (S fuel) z digits = front ++ digits /\ front <> [] /\
    forallb is_digit front = true /\ dec_value front 0 = z.
Proof.
  revert z digits. induction fuel as [|fuel IH]; intros z digits Hz.
  - cbn [decimal_digits]. change (10 ^ Z.of_nat 1) with 10 in Hz. rewrite (proj2 (Z.ltb_lt z 10)) by lia.
    exists [48 + z]. split_and!; [done..| |cbn; lia]. cbn. unfold is_digit. lia.
  - remember (S fuel) as fuel1 eqn:Hfu. cbn [decimal_digits]. destruct (Z.ltb_spec z 10).
    + exists [48 + z]. split_and!; [done..| |cbn; lia]. cbn. unfold is_digit. lia.
    + rewrite Nat2Z.inj_succ, Z.pow_succ_r in Hz by lia. subst fuel1.
      destruct (IH (z / 10) ((48 + z mod 10) :: digits)) as (front & -> & _ & Hd & Hv).
      { split; [apply Z.div_pos; lia|apply Z.div_lt_upper_bound; lia]. }
      pose proof (Z.mod_pos_bound z 10 ltac:(lia)). exists (front ++ [48 + z mod 10]).
      rewrite <- app_assoc, forallb_app, Hd. split_and!; [done|by destruct front| |].
      * cbn. unfold is_digit. lia.
      * unfold dec_value in Hv |- *. rewrite fold_left_app, Hv. cbn. pose proof (Z.div_mod z 10). lia.
Qed.

Lemma field_index_key i : Z.of_nat i < 2 ^ 31 -> field_index (index_key i) = Z.of_nat i.
Proof.
  intros Hi. unfold index_key. destruct (decimal_digits_spec 9 (Z.of_nat i) []) as (front & -> & Hne & Hd & Hv);
    [change (10 ^ Z.of_nat 10) with 10000000000; lia|].
  rewrite app_nil_r. unfold field_index, StringViewToPositiveInteger, CreateStringViewFromStringWithLength. cbn [sv_length].
  assert (sv_view (mk_view (Some front) (blen front)) = front) as ->.
  { unfold sv_view, blen. cbn. rewrite Nat2Z.id. apply firstn_all. }
  rewrite (proj2 (Z.eqb_neq (blen front) 0)).
  - rewrite positive_integer_loop_digits; [done|done|lia|lia].
  - intros Hb. apply Hne. destruct front; [done|]. unfold blen in Hb. cbn [length] in Hb. lia.
Qed.

(** The child for an index. *)
Definition array_child (index : Z) (children : list BsonPathNode) : option BsonPathNode :=
  List.find (fun c => field_index (node_field c) =? index) children.

Lemma find_match_array {R} (update : BsonPathNode -> result R) children i value index r :
  Forall plain_node children -> Z.of_nat i < 2 ^ 31 ->
  find_match (fun c => IsNodeMatchForIteratorPath state c (index_key i) true value) update children index = Ok r ->
  match array_child (Z.of_nat i) children with
  | None => r = None
  | Some c => exists j x, r = Some (j, x) /\ update c = Ok x
  end.
Proof.
  intros Hc Hi. revert index. induction Hc as [|c children Hn _ IH]; intros index; [by intros [= <-]|].
  cbn [find_match]. fold (@find_match R). unfold IsNodeMatchForIteratorPath at 1.
  assert (GetPositionalData c = PositionalType_None) as -> by (by destruct Hn as [??? _ Hp|??? Hp]).
  cbn [array_child List.find]. destruct (Z.ltb_spec (field_index (node_field c)) 0) as [Hneg|Hneg]; [done|].
  rewrite field_index_key by done. cbn [result_bind].
  destruct (field_index (node_field c) =? Z.of_nat i); [|apply IH].
  destruct (update c) as [x|]; [|done]. intros [= <-]. by exists index, x.
Qed.

(** A loop in which every field is written. *)
Lemma update_fields_all handle fields handled out m handled' :
  (forall k v i w n, (k, v) ∈ fields -> handle k v = Ok (Some (i, (w, n))) -> is_Some w) ->
  update_fields handle false fields handled = Ok (out, m, handled') ->
  Forall2 (fun f o : bson_field =>
    (handle f.1 f.2 = Ok None /\ o.2 = f.2) \/ exists i n, handle f.1 f.2 = Ok (Some (i, (Some o.2, n)))) fields out.
Proof.
  revert handled out m handled'. induction fields as [|[k v] fields IH]; intros handled out m handled' Hs Hu;
    cbn [update_fields andb] in Hu; [by injection Hu as <- _ _|].
  destruct (handle k v) as [r|] eqn:Eh; [|done]. cbn [result_bind] in Hu.
  assert (forall k v i w n, (k, v) ∈ fields -> handle k v = Ok (Some (i, (w, n))) -> is_Some w) as Hs'
    by (intros ????? Hin; apply Hs; by right).
  destruct r as [[i [w n]]|].
  - destruct (Hs k v i w n ltac:(by left) Eh) as [w' ->].
    destruct (update_fields handle false fields (i :: handled)) as [[[out1 m1] handled2]|] eqn:Eu; [|done].
    injection Hu as <- _ _. constructor; [right; by exists i, n|]. by apply (IH _ _ _ _ Hs' Eu).
  - destruct (update_fields handle false fields handled) as [[[out1 m1] handled2]|] eqn:Eu; [|done].
    injection Hu as <- _ _. constructor; [by left|]. by apply (IH _ _ _ _ Hs' Eu).
Qed.

(** The results of an operator, one branch after the other. *)
Ltac result_cases H :=
  repeat match type of H with
  | Ok _ = Ok _ => injection H as <-
  | Err _ = Ok _ => discriminate H
  | result_bind ?m _ = Ok _ => destruct m as [?|]; cbn [result_bind] in H; [|discriminate H]
  | match ?x with _ => _ end = Ok _ => destruct x
  end.

(** An operator leaves an element of an array in its place: it writes a value, or
    does not change it. *)
Lemma operator_writes_element op context updateValue current w hasArrayAncestors :
  current <> V_Eod ->
  writeFunc EnableCollation op clock current initial_writer updateValue context (mk_setstate true hasArrayAncestors) state =
    Ok w ->
  writer_modifyType w = MODIFY_TYPE_NOCHANGE \/ is_Some (writer_written w).
Proof.
  intros Hc Hw.
  assert (forall writer : UpdateOperatorWriter, writer = initial_writer \/ is_Some (writer_written writer) ->
    writer_modifyType writer = MODIFY_TYPE_NOCHANGE \/ is_Some (writer_written writer)) as Hi
    by (intros writer [->|Hx]; [by left|by right]).
  apply Hi. clear Hi. destruct op; cbn [writeFunc] in Hw;
    unfold HandleUpdateDollarSet, HandleUpdateDollarInc, HandleUpdateDollarMin, HandleUpdateDollarMax,
      HandleUpdateDollarUnset, HandleUpdateDollarPush, HandleUpdateDollarPop, HandleUpdateDollarRename,
      HandleUpdateDollarRenameSource, HandleUpdateDollarSetOnInsert, HandleUpdateDollarPullAll,
      HandleUpdateDollarAddToSet, AddToSetWriteFinalArray, HandleUpdateDollarMul, HandleUpdateDollarBit,
      HandleUpdateDollarCurrentDate, HandleUpdateDollarPull in Hw;
    cbn [set_isArray orb] in Hw; result_cases Hw; first [by left|right; by eexists].
Qed.

Lemma update_node_element node hasArrayAncestors value w m :
  value <> V_Eod -> update_node EnableCollation clock state node true hasArrayAncestors value = Ok (w, m) -> is_Some w.
Proof.
  intros Hv Hu. destruct node as [f t leaf|f d kids]; cbn [update_node] in Hu.
  - unfold WriteCurrentNode in Hu. destruct (leaf_writeFunc leaf) as [op|]; [|done].
    destruct (writeFunc _ _ _ _ _ _ _ _ _) as [r|] eqn:Ew; [|done]. cbn [result_bind] in Hu.
    injection Hu as <- <-. apply operator_writes_element in Ew as [->|[x Hx]]; [..|done].
    + destruct value; try done; by eexists.
    + rewrite Hx. destruct (writer_modifyType r); [destruct value|..]; by eexists.
  - result_cases Hu; by eexists.
Qed.

(** What is written for an index past the end. *)
Definition fills (children : list BsonPathNode) (index : Z) (w : bson_value) : Prop :=
  match array_child index children with
  | None => w = V_Null
  | Some c => exists m, unresolved_element EnableCollation clock state c = Ok (Some w, m)
  end.

Lemma fill_array_spec children count index values m :
  (forall c w n, c ∈ children -> unresolved_element EnableCollation clock state c = Ok (w, n) -> is_Some w) ->
  fill_array EnableCollation clock state children count index = Ok (values, m) ->
  length values = count /\ forall j w, values !! j = Some w -> fills children (index + Z.of_nat j) w.
Proof.
  intros Hc. revert index values m. induction count as [|count IH]; intros index values m Hf; cbn [fill_array] in Hf.
  { by injection Hf as <- <-. }
  fold (array_child index children) in Hf.
  assert (exists w rest m', fills children index w /\ values = w :: rest /\
    fill_array EnableCollation clock state children count (index + 1) = Ok (rest, m')) as (w & rest & m' & Hw & -> & Hr).
  { unfold fills. destruct (array_child index children) as [c|] eqn:Ec.
    - destruct (unresolved_element EnableCollation clock state c) as [[w n]|] eqn:Eu; [|done]. cbn [result_bind] in Hf.
      apply List.find_some in Ec as [Ec _]. apply list_elem_of_In in Ec. destruct (Hc _ _ _ Ec Eu) as [w' ->].
      destruct (fill_array _ _ _ children count (index + 1)) as [[rest m']|]; [|done]. injection Hf as <- _.
      exists w', rest, m'. split_and!; [by exists n|done..].
    - cbn [result_bind] in Hf. destruct (fill_array _ _ _ children count (index + 1)) as [[rest m']|]; [|done].
      injection Hf as <- _. by exists V_Null, rest, m'. }
  destruct (IH _ _ _ Hr) as [Hl Hj]. split; [cbn; by rewrite Hl|]. intros [|j] v Hv; cbn in Hv.
  - injection Hv as <-. by rewrite Z.add_0_r.
  - specialize (Hj j v Hv). by replace (index + Z.of_nat (S j)) with (index + 1 + Z.of_nat j) by lia.
Qed.

End apply.

(** ** Examples *)

Section examples.
Import ExactBid ZeroMath FoldCase FindFirst Examples UpdateSamples NoPositionalQuery.

Definition set_leaf (field value : bytes) : BsonPathNode :=
  LeafNode field NodeType_LeafField (mk_leaf (V_Utf8 value) (Some op_set) NoContext PositionalType_None field).

Definition array_children : list BsonPathNode := [set_leaf (str "1") (str "x"); set_leaf (str "3") (str "y")].

Definition array_values : list bson_value := [V_Utf8 (str "a"); V_Utf8 (str "b")].

Definition array_state : CurrentDocumentState := mk_docstate V_Null false [] None.

Lemma array_updated :
  update_node true (0, 0) array_state (IntermediateNode (str "f") empty_root array_children) false false
    (array_value array_values) =
  Ok (Some (array_value [V_Utf8 (str "a"); V_Utf8 (str "x"); V_Null; V_Utf8 (str "y")]), true).
Proof. vm_compute. reflexivity. Qed.

End examples.
