(* ===== verification/UpdateBuild.v ===== *)
(** * Building the update tree, and the update as a whole

    The tree that is built from an update has one leaf for each path of the
    update, and the update fails if one of its paths is a part of another one.
    With [UpdateApply.v] this gives what an update does to a document. *)

From Stdlib Require Import String.
From stdpp Require Import base numbers list option sorting.
From Stdlib Require Import ZArith Lia.
From S2P Require Import Prelude Binary64 Bson PgbsonElement StringView Traversal Decimal128 Collation.
From S2P Require Import BsonCompare BsonHash Arithmetic QueryOperators BitOperators UpdateOperators UpdateTree UpdateApply.

(** ** Conflicts *)

(** One of the paths is a part of the other, or they are the same. *)
Fixpoint conflict (p q : list bytes) : bool :=
  match p, q with
  | a :: p, b :: q => bool_decide (a = b) && conflict p q
  | _, _ => true
  end.

Definition entry : Type := list bytes * (NodeType * BsonUpdateLeafNode).

Definition entry_leaf (entries : list entry) (path : list bytes) : option (NodeType * BsonUpdateLeafNode) :=
  snd <$> List.find (fun e => bool_decide (e.1 = path)) entries.

Definition disjoint_from (entries : list entry) (path : list bytes) : bool :=
  forallb (fun e => negb (conflict e.1 path)) entries.

Fixpoint no_conflicts (entries : list entry) : bool :=
  match entries with
  | [] => true
  | e :: rest => disjoint_from rest e.1 && no_conflicts rest
  end.

Lemma conflict_sym p q : conflict p q = conflict q p.
Proof.
  revert q. induction p as [|a p IH]; intros [|b q]; try done. cbn [conflict]. rewrite IH. f_equal.
  by apply bool_decide_ext.
Qed.

Lemma conflict_refl p : conflict p p = true.
Proof. induction p; [done|]. cbn. by rewrite bool_decide_eq_true_2. Qed.

Lemma disjoint_snoc entries e path :
  disjoint_from (entries ++ [e]) path = disjoint_from entries path && negb (conflict e.1 path).
Proof. unfold disjoint_from. rewrite forallb_app. cbn. by rewrite andb_true_r. Qed.

Lemma no_conflicts_snoc entries e :
  no_conflicts (entries ++ [e]) = no_conflicts entries && disjoint_from entries e.1.
Proof.
  induction entries as [|x entries IH]; [done|]. cbn [app no_conflicts]. rewrite IH, disjoint_snoc.
  cbn [disjoint_from forallb]. fold (disjoint_from entries e.1). rewrite (conflict_sym e.1).
  destruct (disjoint_from entries x.1), (negb (conflict x.1 e.1)), (no_conflicts entries); done.
Qed.

Lemma no_conflicts_app l r : no_conflicts (l ++ r) = true -> no_conflicts l = true.
Proof.
  induction r as [|e r IH] using rev_ind; [by rewrite app_nil_r|].
  rewrite app_assoc, no_conflicts_snoc. intros [X _]%andb_prop. by apply IH.
Qed.

Lemma entry_leaf_snoc entries e path :
  entry_leaf (entries ++ [e]) path =
  match entry_leaf entries path with
  | Some x => Some x
  | None => if bool_decide (e.1 = path) then Some e.2 else None
  end.
Proof.
  unfold entry_leaf. induction entries as [|x entries IH]; cbn [app List.find].
  - by destruct (bool_decide (e.1 = path)).
  - by destruct (bool_decide (x.1 = path)).
Qed.

Lemma entry_leaf_disjoint entries path : disjoint_from entries path = true -> entry_leaf entries path = None.
Proof.
  unfold entry_leaf. induction entries as [|x entries IH]; [done|]. cbn [disjoint_from forallb List.find].
  intros [Hx He]%andb_prop. destruct (bool_decide_reflect (x.1 = path)) as [<-|]; [by rewrite conflict_refl in Hx|].
  by apply IH.
Qed.

(** ** Changing one child *)

Definition replaced (f : bytes) (new : BsonPathNode) (children children' : list BsonPathNode) : Prop :=
  forall g, find_child g children' = if bool_decide (g = f) then Some new else find_child g children.

Lemma find_child_app l r f :
  find_child f (l ++ r) = match find_child f l with Some c => Some c | None => find_child f r end.
Proof.
  induction l as [|c l IH]; [done|]. cbn [app]. rewrite !find_child_cons. by destruct (bool_decide (node_field c = f)).
Qed.

Lemma replaced_app f new children :
  find_child f children = None -> node_field new = f -> replaced f new children (children ++ [new]).
Proof.
  intros Hn Hf g. rewrite find_child_app, find_child_cons. rewrite Hf.
  destruct (bool_decide_reflect (g = f)) as [->|Hg]; [by rewrite Hn, bool_decide_eq_true_2|].
  rewrite (bool_decide_eq_false_2 (f = g)) by congruence. by destruct (find_child g children).
Qed.

Lemma replaced_child f new children c :
  find_child f children = Some c -> node_field new = f -> replaced f new children (replace_child f new children).
Proof.
  intros Hc Hf g. induction children as [|x children IH]; [done|]. rewrite find_child_cons in Hc |- *.
  cbn [replace_child]. destruct (bool_decide_reflect (node_field x = f)) as [Hx|Hx].
  - rewrite find_child_cons, Hf, Hx. by destruct (bool_decide_reflect (g = f)), (bool_decide_reflect (f = g)); congruence.
  - rewrite find_child_cons, IH by done.
    destruct (bool_decide_reflect (node_field x = g)), (bool_decide_reflect (g = f)); congruence.
Qed.

Lemma replace_child_fields f new children :
  node_field new = f -> map node_field (replace_child f new children) = map node_field children.
Proof.
  intros Hf. induction children as [|x children IH]; [done|]. cbn [replace_child map].
  destruct (bool_decide_reflect (node_field x = f)) as [Hx|Hx]; cbn [map]; congruence.
Qed.

Lemma replace_child_forall P f new children :
  Forall P children -> P new -> Forall P (replace_child f new children).
Proof.
  intros Hc Hn. induction Hc as [|x children Hx Hc IH]; [constructor|]. cbn [replace_child].
  case_bool_decide; by constructor.
Qed.

Lemma plain_replace f new children :
  plain_children children -> node_field new = f -> plain_node new -> plain_children (replace_child f new children).
Proof.
  intros [N Hc] Hf Hn. split; [by rewrite replace_child_fields|by apply replace_child_forall].
Qed.

Lemma plain_app f new children :
  plain_children children -> find_child f children = None -> node_field new = f -> plain_node new ->
  plain_children (children ++ [new]).
Proof.
  intros [N Hc] Hf Hn Hp. split; [|by apply Forall_app; split; [|constructor]].
  rewrite map_app, NoDup_app. cbn [map]. split_and!; [done| |apply NoDup_singleton].
  intros x Hx ->%list_elem_of_singleton. by apply (proj1 (find_child_none f children)) in Hf; subst.
Qed.

Lemma replaced_leaf_at f t leaf children children' path :
  find_child f children = None -> replaced f (LeafNode f t leaf) children children' ->
  leaf_at path children' = if bool_decide (path = [f]) then Some (t, leaf) else leaf_at path children.
Proof.
  intros Hn Hr. destruct path as [|g [|h path]]; [done|..].
  - rewrite !leaf_at_one, (Hr g). destruct (bool_decide_reflect (g = f)) as [->|Hg].
    + by rewrite bool_decide_eq_true_2.
    + by rewrite bool_decide_eq_false_2 by congruence.
  - rewrite !leaf_at_cons, (Hr g), (bool_decide_eq_false_2 (g :: h :: path = [f])) by done.
    destruct (bool_decide_reflect (g = f)) as [->|Hg]; [by rewrite Hn|done].
Qed.

(** The children below a field, none if it is missing. *)
Definition kids_of (f : bytes) (children : list BsonPathNode) : list BsonPathNode :=
  match find_child f children with Some (IntermediateNode _ _ kids) => kids | _ => [] end.

Definition no_leaf (f : bytes) (children : list BsonPathNode) : Prop :=
  forall f' t leaf, find_child f children <> Some (LeafNode f' t leaf).

Lemma leaf_at_kids f g path children : leaf_at (f :: g :: path) children = leaf_at (g :: path) (kids_of f children).
Proof.
  rewrite leaf_at_cons. unfold kids_of. destruct (find_child f children) as [[]|]; try done; by rewrite leaf_at_nil.
Qed.

Lemma outside_kids f g path children :
  no_leaf f children -> outside (f :: g :: path) children = outside (g :: path) (kids_of f children).
Proof.
  intros Hn. cbn [outside]. unfold kids_of. destruct (find_child f children) as [[]|] eqn:Ec; try done.
  by destruct (Hn _ _ _ Ec).
Qed.

(** What a changed intermediate node means for the paths of a tree. *)
Section replaced_intermediate.
Context (f : bytes) (d : BsonUpdateIntermediatePathNode) (kids : list BsonPathNode).
Context (children children' : list BsonPathNode).
Context (Hr : replaced f (IntermediateNode f d kids) children children') (Hn : no_leaf f children).

Lemma replaced_leaf_at_below p x :
  p <> [] ->
  (forall q, leaf_at q kids = if bool_decide (q = p) then x else leaf_at q (kids_of f children)) ->
  forall q, leaf_at q children' = if bool_decide (q = f :: p) then x else leaf_at q children.
Proof.
  intros Hp Hk [|g [|h q]]; [by rewrite bool_decide_eq_false_2| |].
  - rewrite (bool_decide_eq_false_2 ([g] = f :: p)) by congruence. rewrite !leaf_at_one, (Hr g).
    destruct (bool_decide_reflect (g = f)) as [->|]; [|done].
    destruct (find_child f children) as [[]|] eqn:Ec; try done. by destruct (Hn _ _ _ Ec).
  - destruct (bool_decide_reflect (g = f)) as [->|Hg].
    + rewrite (leaf_at_kids f h q children), leaf_at_cons, (Hr f), (bool_decide_eq_true_2 (f = f)), (Hk (h :: q)) by done.
      by destruct (bool_decide_reflect (h :: q = p)), (bool_decide_reflect (f :: h :: q = f :: p)); congruence.
    + rewrite !leaf_at_cons, (Hr g), !bool_decide_eq_false_2 by congruence. done.
Qed.

Lemma replaced_outside_below p :
  p <> [] ->
  (forall q, outside q kids = outside q (kids_of f children) && negb (conflict p q)) ->
  forall q, outside q children' = outside q children && negb (conflict (f :: p) q).
Proof.
  intros Hp Hk [|g q]; [done|]. cbn [conflict]. destruct (decide (f = g)) as [<-|Hg].
  - rewrite bool_decide_eq_true_2 by done. cbn [andb].
    change (outside (f :: q) children') with
      (match find_child f children' with None => true | Some (LeafNode _ _ _) => false
       | Some (IntermediateNode _ _ kids) => outside q kids end).
    rewrite (Hr f), bool_decide_eq_true_2, Hk by done. destruct q as [|h q]; [|by rewrite outside_kids].
    cbn [outside]. destruct p; [done|]. cbn. by rewrite andb_false_r.
  - rewrite (bool_decide_eq_false_2 (f = g)) by done. cbn [outside]. rewrite (Hr g), bool_decide_eq_false_2 by congruence.
    cbn. by rewrite andb_true_r.
Qed.

Lemma replaced_along P q x :
  (forall f' d' kids', find_child f children = Some (IntermediateNode f' d' kids') -> P d' = true -> P d = true) ->
  (forall q x, leaf_at q (kids_of f children) = Some x -> along P q (kids_of f children) -> along P q kids) ->
  leaf_at q children = Some x -> along P q children -> along P q children'.
Proof.
  intros Hd Hk Hl Ha. destruct q as [|g [|h q]]; [done..|]. cbn [along] in Ha |- *. rewrite (Hr g).
  destruct (bool_decide_reflect (g = f)) as [->|Hg]; [|done]. rewrite leaf_at_kids in Hl.
  unfold kids_of in Hk, Hl.
  destruct (find_child f children) as [[|f' d' kids']|] eqn:Ec; [by rewrite leaf_at_nil in Hl| |by rewrite leaf_at_nil in Hl].
  destruct Ha as [Ha1 Ha2]. split; [by eapply Hd|]. by apply (Hk (h :: q) x).
Qed.
End replaced_intermediate.

(** ** Adding a leaf *)

Section insert.
Context (createLeaf : bytes -> result BsonUpdateLeafNode).
Context (createIntermediate : bytes -> result BsonUpdateIntermediatePathNode).
Context (t : NodeType) (hasField : bool) (leaf : BsonUpdateLeafNode) (good : bytes -> Prop).
Context (Hleaf : forall f, good f -> createLeaf f = Ok leaf).
Context (Hinter : forall f, good f -> createIntermediate f = Ok (mk_intermediate PositionalType_None false false false None)).
Context (Hplain : leaf_positional leaf = PositionalType_None) (Ht : t <> NodeType_Intermediate).

(** The tree with a leaf at a path. *)
Record inserted (p : list bytes) (children children' : list BsonPathNode) : Prop := {
  inserted_plain : plain_children children';
  inserted_leaf : forall q, leaf_at q children' = if bool_decide (q = p) then Some (t, leaf) else leaf_at q children;
  inserted_outside : forall q, outside q children' = outside q children && negb (conflict p q);
  inserted_along : forall P : BsonUpdateIntermediatePathNode -> bool, (forall b d, P d = true -> P (with_field b d) = true) ->
    forall q x, leaf_at q children = Some x -> along P q children -> along P q children';
  inserted_fields : hasField = true -> along hasExpressionFieldsInChildren p children';
}.

Lemma insert_here f children :
  plain_children children -> find_child f children = None -> inserted [f] children (children ++ [LeafNode f t leaf]).
Proof.
  intros Hc Hn. pose proof (replaced_app f (LeafNode f t leaf) children Hn eq_refl) as Hr. constructor.
  - apply (plain_app f); [done..|]. by constructor.
  - intros q. by apply (replaced_leaf_at f).
  - intros [|g q]; [done|]. cbn [outside conflict]. rewrite (Hr g).
    destruct (decide (g = f)) as [->|Hg]; [by rewrite !bool_decide_eq_true_2, Hn by done|].
    rewrite !bool_decide_eq_false_2 by congruence. cbn. by rewrite andb_true_r.
  - intros P _ [|g [|h q]] x Hl Ha; [done..|]. cbn [along] in Ha |- *. rewrite (Hr g).
    by destruct (bool_decide_reflect (g = f)) as [->|].
  - done.
Qed.

Lemma insert_below f d p children kids children' :
  p <> [] -> no_leaf f children -> plain_children children' ->
  replaced f (IntermediateNode f (with_field hasField d) kids) children children' ->
  (forall f' d' kids', find_child f children = Some (IntermediateNode f' d' kids') -> d' = d) ->
  inserted p (kids_of f children) kids -> inserted (f :: p) children children'.
Proof.
  intros Hp Hn Hpl Hr Hd [I1 I2 I3 I4 I5]. constructor; [done|..].
  - by apply (replaced_leaf_at_below f (with_field hasField d) kids).
  - by apply (replaced_outside_below f (with_field hasField d) kids).
  - intros P HP q x. apply (replaced_along f (with_field hasField d) kids); [done|..].
    + intros f' d' kids' Ec. rewrite (Hd _ _ _ Ec). apply HP.
    + intros q' x'. by apply I4.
  - intros Hf. destruct p as [|g p]; [done|]. cbn [along]. rewrite (Hr f), bool_decide_eq_true_2 by done.
    split; [|by apply I5]. cbn. rewrite Hf. apply orb_true_r.
Qed.

Lemma traverse_insert p children :
  p <> [] -> Forall good p -> plain_children children -> outside p children = true ->
  exists children', TraverseDottedPathAndGetNode createLeaf createIntermediate t hasField p children =
    Ok (children', false, p) /\ inserted p children children'.
Proof.
  revert children. induction p as [|f [|g p] IH]; intros children Hne Hg Hc Ho; [done|..];
    apply Forall_cons in Hg as [Hf Hg]; cbn [outside] in Ho.
  - destruct (find_child f children) as [[]|] eqn:Ec; try done. cbn [TraverseDottedPathAndGetNode].
    rewrite Ec, Hleaf by done. eexists. split; [done|]. by apply insert_here.
  - change (TraverseDottedPathAndGetNode createLeaf createIntermediate t hasField (f :: g :: p) children) with
      (match find_child f children with
       | Some (LeafNode _ _ _) => Ok (children, true, [f])
       | Some (IntermediateNode _ d kids) =>
           let! (kids, alreadyExists, path) :=
             TraverseDottedPathAndGetNode createLeaf createIntermediate t hasField (g :: p) kids in
           Ok (replace_child f (IntermediateNode f (with_field hasField d) kids) children, alreadyExists, f :: path)
       | None =>
           let! d := createIntermediate f in
           let! (kids, alreadyExists, path) :=
             TraverseDottedPathAndGetNode createLeaf createIntermediate t hasField (g :: p) [] in
           Ok (children ++ [IntermediateNode f (with_field hasField d) kids], alreadyExists, f :: path)
       end).
    destruct (find_child f children) as [[|f' d kids]|] eqn:Ec; [done|..].
    + pose proof (plain_child _ _ _ Hc Ec) as Hn. pose proof (plain_kids _ _ _ Hn) as Hk.
      destruct (IH kids ltac:(done) Hg Hk Ho) as (kids' & -> & Hi). eexists. split; [done|].
      apply (insert_below f d (g :: p) children kids'); try done.
      * intros ???. by rewrite Ec.
      * apply plain_replace; [done..|]. inversion Hn. destruct (inserted_plain _ _ _ Hi). by constructor.
      * by apply (replaced_child f _ children _ Ec).
      * intros ??? X. rewrite Ec in X. by injection X.
      * unfold kids_of. by rewrite Ec.
    + rewrite Hinter by done. cbn [result_bind].
      assert (plain_children []) as Hk by (split; constructor).
      destruct (IH [] ltac:(done) Hg Hk eq_refl) as (kids' & -> & Hi). eexists. split; [done|].
      eapply (insert_below f _ (g :: p) children kids'); try done.
      * intros ???. by rewrite Ec.
      * apply (plain_app f); [done..|]. destruct (inserted_plain _ _ _ Hi). by constructor.
      * by apply replaced_app.
      * intros ??? X. by rewrite Ec in X.
      * unfold kids_of. by rewrite Ec.
Qed.

Lemma traverse_exists p children :
  outside p children = false -> exists children' node,
  TraverseDottedPathAndGetNode createLeaf createIntermediate t hasField p children = Ok (children', true, node).
Proof.
  revert children. induction p as [|f [|g p] IH]; intros children Ho; [by eexists _, _|..]; cbn [outside] in Ho.
  - cbn [TraverseDottedPathAndGetNode]. destruct (find_child f children); [by eexists _, _|done].
  - destruct (find_child f children) as [[|f' d kids]|] eqn:Ec; [|..|done].
    + exists children, [f]. cbn [TraverseDottedPathAndGetNode]. by rewrite Ec.
    + destruct (IH kids Ho) as (kids' & node & Hk). do 2 eexists.
      remember (g :: p) as q eqn:Eq. cbn [TraverseDottedPathAndGetNode]. rewrite Eq, Ec, <- Eq, Hk. done.
Qed.
End insert.

(** ** Marking the ancestors of a leaf *)

(** Properties that hold of a node with more flags. *)
Definition monotone (P : BsonUpdateIntermediatePathNode -> bool) : Prop :=
  forall d d', (hasExpressionFieldsInChildren d = true -> hasExpressionFieldsInChildren d' = true) ->
    (HasIntermediateIncludeChildren d = true -> HasIntermediateIncludeChildren d' = true) -> P d = true -> P d' = true.

Lemma monotone_fields : monotone hasExpressionFieldsInChildren.
Proof. intros d d' H1 H2 Hd. by apply H1. Qed.

Lemma monotone_include : monotone HasIntermediateIncludeChildren.
Proof. intros d d' H1 H2 Hd. by apply H2. Qed.

Lemma monotone_with_field P : monotone P -> forall b d, P d = true -> P (with_field b d) = true.
Proof. intros HP b d. apply HP; [|done]. cbn. intros ->. done. Qed.

Record same_leaves (children children' : list BsonPathNode) : Prop := {
  same_plain : plain_children children';
  same_leaf : forall q, leaf_at q children' = leaf_at q children;
  same_outside : forall q, outside q children' = outside q children;
  same_along : forall P, monotone P -> forall q x,
    leaf_at q children = Some x -> along P q children -> along P q children';
}.

Lemma same_leaves_below f d d' kids kids' f' children children' :
  find_child f children = Some (IntermediateNode f' d kids) ->
  replaced f (IntermediateNode f d' kids') children children' -> plain_children children' ->
  (forall P, monotone P -> P d = true -> P d' = true) ->
  same_leaves kids kids' -> same_leaves children children'.
Proof.
  intros Ec Hr Hc HP [S1 S2 S3 S4]. assert (no_leaf f children) as Hn by (intros ???; by rewrite Ec).
  assert (kids_of f children = kids) as Hk by (unfold kids_of; by rewrite Ec). constructor; [done|..].
  - intros [|g [|h q]]; [done|..]; rewrite ?leaf_at_one, ?leaf_at_cons, (Hr g);
      (destruct (bool_decide_reflect (g = f)) as [->|]; [|done]); rewrite Ec; [done|apply S2].
  - intros [|g q]; [done|]. cbn [outside]. rewrite (Hr g).
    destruct (bool_decide_reflect (g = f)) as [->|]; [|done]. by rewrite Ec.
  - intros P HM q x. apply (replaced_along f d' kids' children children' Hr); [|rewrite Hk; intros q' x'; by apply S4].
    intros f0 d0 kids0 X. rewrite Ec in X. injection X as <- <- <-. by apply HP.
Qed.

Lemma positional_none children : Forall plain_node children ->
  forall f c, find_child f children = Some c -> is_positional (GetPositionalData c) = false.
Proof.
  intros Hc f c [_ Hin]%find_child_field. apply (proj1 (Forall_forall _ _) Hc) in Hin.
  by destruct Hin as [??? _ Hp|??? Hp]; cbn; rewrite Hp.
Qed.

Lemma same_leaves_refl children : plain_children children -> same_leaves children children.
Proof. by constructor. Qed.

Lemma replace_same f c children : find_child f children = Some c -> replace_child f c children = children.
Proof.
  induction children as [|x children IH]; [done|]. rewrite find_child_cons. cbn [replace_child].
  case_bool_decide; [congruence|]. intros Ec. by rewrite IH.
Qed.

Lemma mark_ancestors p mark rename root children x :
  plain_children children -> hasPositionalChildren root = false -> leaf_at p children = Some x ->
  exists root' children', UpdateParentDataInTree p mark rename root children = Ok (root', children', false) /\
    hasPositionalChildren root' = false /\ inter_positional root' = inter_positional root /\
    (forall P, monotone P -> P root = true -> P root' = true) /\
    (mark = true -> HasIntermediateIncludeChildren root' = true) /\
    same_leaves children children' /\ (mark = true -> along HasIntermediateIncludeChildren p children').
Proof.
  revert root children. induction p as [|f p IH]; intros root children Hc Hroot Hl; [done|].
  assert (exists c, find_child f children = Some c) as [c Ec].
  { unfold leaf_at in Hl. cbn [node_at] in Hl. destruct (find_child f children) as [c|]; [by exists c|by destruct p]. }
  cbn [UpdateParentDataInTree]. rewrite Ec.
  assert (exists c' children', (match c with
    | IntermediateNode field d kids =>
        let! (d, kids, below) := UpdateParentDataInTree p mark rename d kids in
        Ok (IntermediateNode field d kids, below)
    | LeafNode _ _ _ => Ok (c, false) end) = Ok (c', false) /\
    replace_child f c' children = children' /\ find_child f children' = Some c' /\ same_leaves children children' /\
    (mark = true -> along HasIntermediateIncludeChildren (f :: p) children')) as (c' & children' & -> & Hr & Ec' & Hs & Hm).
  { pose proof (plain_child _ _ _ Hc Ec) as Hn. destruct c as [f' t leaf|f' d kids].
    { exists (LeafNode f' t leaf), children. rewrite (replace_same f _ _ Ec). split_and!; [done..|by apply same_leaves_refl|].
      intros _. cbn [along]. by destruct p; [|rewrite Ec]. }
    destruct p as [|g p]; [by rewrite leaf_at_one, Ec in Hl|]. rewrite leaf_at_cons, Ec in Hl.
    assert (hasPositionalChildren d = false) as Hd by (by inversion Hn).
    destruct (IH d kids (plain_kids _ _ _ Hn) Hd Hl) as (d' & kids' & -> & Hd' & Hpos & Hmono & Hmark & Hs & Hal).
    cbn [result_bind]. exists (IntermediateNode f' d' kids'). eexists. split; [done|]. split; [done|].
    destruct (find_child_field _ _ _ Ec) as [Hf _]. cbn [node_field] in Hf. subst f'.
    pose proof (replaced_child f (IntermediateNode f d' kids') children _ Ec eq_refl) as Hr.
    split; [by rewrite (Hr f), bool_decide_eq_true_2|].
    split; [|intros Hk; cbn [along]; rewrite (Hr f), bool_decide_eq_true_2 by done; by split; [apply Hmark|apply Hal]].
    apply (same_leaves_below f d d' kids kids' f children); try done.
    apply plain_replace; [done..|]. destruct (same_plain _ _ Hs). constructor; [|done..].
    rewrite Hpos. by inversion Hn. }
  cbn [result_bind]. rewrite Hr, Hroot. destruct (same_plain _ _ Hs) as [N' Hc'].
  rewrite (positional_none _ Hc' f c' Ec'). cbn [orb andb]. eexists _, children'. split; [done|]. cbn.
  split_and!; try done.
  - intros P HP. apply HP; cbn; [done|]. by intros ->.
  - intros ->. apply orb_true_r.
Qed.

(** ** The leaves of an update *)

Section build.
Context {L : BidLib} {A : BidMath} {I : Icu} {T : DynaHash} {H : PgHash} {F : FindField}.
Context {E : QueryExpression} {FD : FindDescendant} {Q : QSort} {PQ : PositionalQuery}.

(** A field of a path that is not empty and has no positional operator. *)
Definition plain_field (f : bytes) : bool :=
  negb (bool_decide (f = []) || key_ends_with f dot) &&
  negb (bool_decide (f = PositionalType_AllString) || bool_decide (f = PositionalFilterString)) &&
  match filter_identifier f with Some _ => false | None => true end.

(** A path of an update other than the [_id]. *)
Definition valid_path (path : bytes) : bool :=
  match ValidateSpecPathForUpdateTree path with Ok _ => true | Err _ => false end &&
  negb (bool_decide (path = IdField)) && negb (bool_decide (path_fields path = [])) &&
  forallb plain_field (path_fields path).

Definition entry_of (t : NodeType) (op : update_operator) (context : UpdateNodeContext) (path : bytes)
  (value : bson_value) : entry :=
  (path_fields path, (t, mk_leaf value (Some op) context PositionalType_None path)).

(** The leaves for one field of an operator. *)
Definition field_entries (spec : PositionalUpdateSpec) (op : update_operator) (field : bson_field) : list entry :=
  let (path, value) := field in
  match op with
  | op_unset => [entry_of NodeType_LeafExcluded op_unset NoContext path (V_Int32 0)]
  | op_rename =>
      match value with
      | V_Utf8 target =>
          [entry_of NodeType_LeafExcluded op_renameSource NoContext path (V_Int32 0);
           entry_of NodeType_LeafIncluded op_rename (RenameContext path) target (V_Int32 1)]
      | _ => []
      end
  | _ =>
      match node_context op value spec with
      | Ok context => [entry_of NodeType_LeafField op context path value]
      | Err _ => []
      end
  end.

Definition valid_field (spec : PositionalUpdateSpec) (op : update_operator) (field : bson_field) : bool :=
  let (path, value) := field in
  valid_path path &&
  match op with
  | op_rename => match value with V_Utf8 target => valid_path target | _ => false end
  | _ => match node_context op value spec with Ok _ => true | Err _ => false end
  end.

Definition id_entry : entry := ([IdField], (NodeType_LeafExcluded, id_leaf)).

(** ** The invariant of the tree

    The target of a $rename may be without the flags of its ancestors. *)
Record tree_inv (pending : option (list bytes)) (entries : list entry) (tree : UpdateTree) : Prop := {
  inv_root : hasPositionalChildren tree.1 = false;
  inv_plain : plain_children tree.2;
  inv_leaf : forall q, leaf_at q tree.2 = entry_leaf entries q;
  inv_outside : forall q, q <> [] -> outside q tree.2 = disjoint_from entries q;
  inv_fields : forall q leaf, leaf_at q tree.2 = Some (NodeType_LeafField, leaf) ->
    along hasExpressionFieldsInChildren q tree.2;
  inv_include : forall q leaf, leaf_at q tree.2 = Some (NodeType_LeafIncluded, leaf) ->
    pending = Some q \/ along HasIntermediateIncludeChildren q tree.2;
}.

Lemma tree_inv_flags entries tree : tree_inv None entries tree -> flags_ok tree.2.
Proof.
  intros [_ _ _ _ Hf Hi] path t leaf Hl. split; intros ->; [by apply (Hf _ leaf)|]. by destruct (Hi _ leaf Hl).
Qed.

Lemma plain_field_create state value path f :
  plain_field f = true ->
  CreateUpdateLeafNode state value path f =
    Ok (mk_leaf value (updateFunc state) (updateFuncState state) PositionalType_None path) /\
  CreateUpdateIntermediateNode state f = Ok (mk_intermediate PositionalType_None false false false None).
Proof.
  unfold plain_field, CreateUpdateLeafNode, CreateUpdateIntermediateNode, ValidateNodePathInTree, GetNodePositionalDataFromPath.
  intros [[Hv Hp]%andb_prop Hi]%andb_prop. apply negb_true_iff in Hv, Hp. rewrite Hv.
  apply orb_false_iff in Hp as [-> ->]. destruct (filter_identifier f); done.
Qed.

Lemma valid_path_fields path :
  valid_path path = true ->
  ValidateSpecPathForUpdateTree path = Ok tt /\ path <> IdField /\ path_fields path <> [] /\
  Forall (fun f => plain_field f = true) (path_fields path).
Proof.
  unfold valid_path. intros [[[Hv Hid]%andb_prop Hn]%andb_prop Hf]%andb_prop.
  destruct (ValidateSpecPathForUpdateTree path) as [[]|]; [|done].
  apply negb_true_iff, bool_decide_eq_false in Hid, Hn. split_and!; [done..|].
  apply Forall_forall. intros f Hin. rewrite forallb_forall in Hf. by apply Hf, list_elem_of_In.
Qed.

(** A path that does not conflict is added, one that does is an error. *)
Lemma add_node_inv path value op context spec force existsValue existsState t entries root children :
  valid_path path = true -> DetermineChildNodeType value force = Ok t -> t <> NodeType_Intermediate ->
  tree_inv None entries (root, children) ->
  if disjoint_from entries (path_fields path) then
    exists children', add_node path value (mk_treestate (Some op) context spec) force existsValue existsState children =
        Ok (children', path_fields path) /\
      tree_inv (if bool_decide (t = NodeType_LeafIncluded) then Some (path_fields path) else None)
        (entries ++ [entry_of t op context path value]) (root, children')
  else
    add_node path value (mk_treestate (Some op) context spec) force existsValue existsState children =
      Err ERRCODE_DOCUMENTDB_CONFLICTINGUPDATEOPERATORS.
Proof.
  intros Hv Ht Hti [H1 H2 H3 H4 H5 H6]. cbn [fst snd] in *.
  destruct (valid_path_fields path Hv) as (_ & Hid & Hne & Hf). set (p := path_fields path) in *.
  unfold add_node, TraverseDottedPathAndGetOrAddNodeCore. rewrite Ht. cbn [result_bind]. fold p.
  rewrite <- (H4 p Hne). destruct (outside p children) eqn:Ho.
  - destruct (traverse_insert
      (CreateUpdateLeafNode (mk_treestate (Some op) context spec) value path)
      (CreateUpdateIntermediateNode (mk_treestate (Some op) context spec)) t
      (bool_decide (t = NodeType_LeafField)) (mk_leaf value (Some op) context PositionalType_None path)
      (fun f => plain_field f = true)) with (p := p) (children := children) as (children' & -> & [I1 I2 I3 I4 I5]); try done;
      [intros f Hg; by destruct (plain_field_create (mk_treestate (Some op) context spec) value path f Hg)..|].
    exists children'. split; [done|]. assert (entry_leaf entries p = None) as Hn.
    { apply entry_leaf_disjoint. by rewrite <- H4. }
    constructor; cbn [fst snd]; [done..| | | |].
    + intros q. rewrite I2, entry_leaf_snoc, H3. cbn [entry_of fst snd]. fold p.
      destruct (bool_decide_reflect (q = p)) as [->|]; [by rewrite Hn, bool_decide_eq_true_2|].
      rewrite bool_decide_eq_false_2 by congruence. by destruct (entry_leaf entries q).
    + intros q Hq. by rewrite I3, disjoint_snoc, H4.
    + intros q leaf. rewrite I2. destruct (bool_decide_reflect (q = p)) as [->|].
      * intros [= -> _]. by apply I5.
      * intros Hl. apply (I4 _ (monotone_with_field _ monotone_fields) q _ Hl). by apply (H5 q leaf).
    + intros q leaf. rewrite I2. destruct (bool_decide_reflect (q = p)) as [->|].
      * intros [= -> _]. by left.
      * intros Hl. right. destruct (H6 q leaf Hl) as [|Ha]; [done|].
        by apply (I4 _ (monotone_with_field _ monotone_include) q _ Hl).
  - edestruct traverse_exists as (children' & node & ->); [exact Ho|]. cbn [result_bind].
    unfold HandleNodeExistsInTree. rewrite (bool_decide_eq_false_2 (path = IdField)) by done.
    by destruct (node_at node children') as [[]|].
Qed.

(** The ancestors of a leaf are marked; that ends what is pending for it. *)
Lemma mark_inv pending p mark rename entries root children x :
  tree_inv pending entries (root, children) -> entry_leaf entries p = Some x ->
  exists root' children', UpdateParentDataInTree p mark rename root children = Ok (root', children', false) /\
    tree_inv (if mark && bool_decide (pending = Some p) then None else pending) entries (root', children').
Proof.
  intros [H1 H2 H3 H4 H5 H6] Hl. cbn [fst snd] in *.
  rewrite <- H3 in Hl. destruct (mark_ancestors p mark rename root children x H2 H1 Hl)
    as (root' & children' & -> & Hr & _ & _ & _ & [S1 S2 S3 S4] & Hm).
  exists root', children'. split; [done|]. constructor; cbn [fst snd]; [done..| | | |].
  - intros q. by rewrite S2.
  - intros q Hq. by rewrite S3, H4.
  - intros q leaf. rewrite S2. intros Hq. apply (S4 _ monotone_fields q _ Hq). by apply (H5 q leaf).
  - intros q leaf. rewrite S2. intros Hq. destruct (H6 q leaf Hq) as [->|Ha].
    + destruct mark; [|by left]. cbn [andb]. destruct (bool_decide_reflect (Some q = Some p)) as [[= ->]|]; [|by left].
      right. by apply Hm.
    + right. by apply (S4 _ monotone_include q _ Hq).
Qed.

Lemma entry_leaf_last entries e : disjoint_from entries e.1 = true -> entry_leaf (entries ++ [e]) e.1 = Some e.2.
Proof. intros Hd. by rewrite entry_leaf_snoc, entry_leaf_disjoint, bool_decide_eq_true_2. Qed.

(** What reading a part of an update does to the tree, for the leaves it adds. *)
Definition reads (new entries : list entry) (read : result UpdateTree) : Prop :=
  if no_conflicts (entries ++ new) then exists tree, read = Ok tree /\ tree_inv None (entries ++ new) tree
  else read = Err ERRCODE_DOCUMENTDB_CONFLICTINGUPDATEOPERATORS.

Lemma reads_nil entries tree :
  no_conflicts entries = true -> tree_inv None entries tree -> reads [] entries (Ok tree).
Proof. intros Hn Ht. unfold reads. rewrite app_nil_r, Hn. by exists tree. Qed.

(** One part after another. *)
Lemma reads_bind new more entries (read : result UpdateTree) (rest : UpdateTree -> result UpdateTree) :
  reads new entries read ->
  (forall tree, no_conflicts (entries ++ new) = true -> tree_inv None (entries ++ new) tree ->
     reads more (entries ++ new) (rest tree)) ->
  reads (new ++ more) entries (let! tree := read in rest tree).
Proof.
  unfold reads. intros Hr Hrest. rewrite app_assoc. destruct (no_conflicts (entries ++ new)) eqn:En.
  - destruct Hr as (tree & -> & Ht). by apply Hrest.
  - rewrite Hr. destruct (no_conflicts ((entries ++ new) ++ more)) eqn:Em; [|done].
    apply no_conflicts_app in Em. congruence.
Qed.

(** A leaf that is not the target of a $rename. *)
Lemma add_leaf_reads path value op context spec force existsValue existsState t rename entries tree :
  valid_path path = true -> DetermineChildNodeType value force = Ok t ->
  t <> NodeType_Intermediate -> t <> NodeType_LeafIncluded ->
  no_conflicts entries = true -> tree_inv None entries tree ->
  reads [entry_of t op context path value] entries
    (let! (children, node) :=
       add_node path value (mk_treestate (Some op) context spec) force existsValue existsState tree.2 in
     let! (root, children, _) := UpdateParentDataInTree node false rename tree.1 children in
     Ok (root, children)).
Proof.
  intros Hv Ht Hti Htn Hn Hinv. destruct tree as [root children].
  pose proof (add_node_inv path value op context spec force existsValue existsState t entries root children Hv Ht Hti Hinv)
    as Hadd. unfold reads. rewrite no_conflicts_snoc, Hn. cbn [andb fst snd entry_of] in *.
  destruct (disjoint_from entries (path_fields path)) eqn:Ed; [|by rewrite Hadd].
  destruct Hadd as (children' & -> & Hinv'). rewrite bool_decide_eq_false_2 in Hinv' by done. cbn [result_bind].
  destruct (mark_inv None (path_fields path) false rename _ root children' (t, mk_leaf value (Some op) context PositionalType_None path) Hinv')
    as (root' & children'' & -> & Hinv''); [|by exists (root', children'')].
  by apply (entry_leaf_last entries (entry_of t op context path value)).
Qed.

Lemma unset_reads spec fields entries tree :
  forallb (valid_field spec op_unset) fields = true ->
  no_conflicts entries = true -> tree_inv None entries tree ->
  reads (flat_map (field_entries spec op_unset) fields) entries (HandleUnsetUpdateTree spec fields tree).
Proof.
  revert entries tree. induction fields as [|[path value] fields IH]; intros entries tree Hv Hn Hinv; [by apply reads_nil|].
  cbn [forallb valid_field] in Hv. apply andb_prop in Hv as [[Hp _]%andb_prop Hv].
  cbn [flat_map field_entries HandleUnsetUpdateTree].
  pose proof (add_leaf_reads path (V_Int32 0) op_unset NoContext spec false value
    (mk_treestate (Some op_unset) NoContext spec) NodeType_LeafExcluded None entries tree Hp eq_refl
    ltac:(done) ltac:(done) Hn Hinv) as Hr.
  eapply reads_bind in Hr; [|intros tree' Hn' Hinv'; exact (IH _ tree' Hv Hn' Hinv')].
  destruct (add_node path _ _ _ _ _ tree.2) as [[children node]|]; [|done]. cbn [result_bind] in Hr |- *.
  by destruct (UpdateParentDataInTree node false None tree.1 children) as [[[root children'] dynamic]|].
Qed.

Lemma basic_reads spec op fields entries tree :
  op <> op_unset -> op <> op_rename ->
  forallb (valid_field spec op) fields = true ->
  no_conflicts entries = true -> tree_inv None entries tree ->
  reads (flat_map (field_entries spec op) fields) entries (HandleBasicUpdateTree op spec fields tree).
Proof.
  intros Hu Hrn. revert entries tree.
  induction fields as [|[path value] fields IH]; intros entries tree Hv Hn Hinv; [by apply reads_nil|].
  cbn [forallb] in Hv. apply andb_prop in Hv as [Hp Hv]. unfold valid_field in Hp. apply andb_prop in Hp as [Hp Hc].
  cbn [flat_map HandleBasicUpdateTree]. destruct (valid_path_fields path Hp) as (-> & _). cbn [result_bind].
  assert (exists context, node_context op value spec = Ok context /\
    field_entries spec op (path, value) = [entry_of NodeType_LeafField op context path value]) as (context & -> & ->).
  { destruct op; try done; cbn [field_entries]; destruct (node_context _ value spec) as [context|]; try done; by exists context. }
  cbn [result_bind].
  pose proof (add_leaf_reads path value op context spec true value
    (mk_treestate (Some op) context spec) NodeType_LeafField None entries tree Hp eq_refl
    ltac:(done) ltac:(done) Hn Hinv) as Hr.
  eapply reads_bind in Hr; [|intros tree' Hn' Hinv'; exact (IH _ tree' Hv Hn' Hinv')].
  destruct (add_node path _ _ _ _ _ tree.2) as [[children node]|]; [|done]. cbn [result_bind] in Hr |- *.
  by destruct (UpdateParentDataInTree node false None tree.1 children) as [[[root children'] dynamic]|].
Qed.

Lemma entry_leaf_kept entries e path x : entry_leaf entries path = Some x -> entry_leaf (entries ++ [e]) path = Some x.
Proof. intros Hx. by rewrite entry_leaf_snoc, Hx. Qed.

(** The two leaves of a $rename. *)
Lemma rename_reads_one spec path target entries tree :
  valid_path path = true -> valid_path target = true ->
  no_conflicts entries = true -> tree_inv None entries tree ->
  reads (field_entries spec op_rename (path, V_Utf8 target)) entries
    (HandleRenameUpdateTree spec [(path, V_Utf8 target)] tree).
Proof.
  intros Hp Ht Hn Hinv. destruct tree as [root children]. unfold reads. cbn [field_entries HandleRenameUpdateTree].
  destruct (valid_path_fields path Hp) as (-> & _). destruct (valid_path_fields target Ht) as (-> & _). cbn [result_bind snd fst].
  set (src := entry_of NodeType_LeafExcluded op_renameSource NoContext path (V_Int32 0)).
  set (tgt := entry_of NodeType_LeafIncluded op_rename (RenameContext path) target (V_Int32 1)).
  change (entries ++ [src; tgt]) with (entries ++ [src] ++ [tgt]). rewrite app_assoc, !no_conflicts_snoc, Hn. cbn [andb].
  pose proof (add_node_inv path (V_Int32 0) op_renameSource NoContext spec false (V_Int32 0)
    (mk_treestate (Some op_renameSource) NoContext spec) NodeType_LeafExcluded entries root children Hp eq_refl
    ltac:(done) Hinv) as Hs.
  change (path_fields path) with src.1 in Hs. destruct (disjoint_from entries src.1) eqn:Es; [|by rewrite Hs].
  destruct Hs as (children1 & -> & Hinv1). rewrite bool_decide_eq_false_2 in Hinv1 by done. cbn [result_bind].
  fold src in Hinv1.
  pose proof (add_node_inv target (V_Int32 1) op_rename (RenameContext path) spec false (V_Utf8 target)
    (mk_treestate (Some op_renameSource) NoContext spec) NodeType_LeafIncluded (entries ++ [src]) root children1 Ht eq_refl
    ltac:(done) Hinv1) as Hg. change (path_fields target) with tgt.1 in Hg. cbn [andb].
  destruct (disjoint_from (entries ++ [src]) tgt.1) eqn:Et; [|by rewrite Hg].
  destruct Hg as (children2 & -> & Hinv2). rewrite bool_decide_eq_true_2 in Hinv2 by done. cbn [result_bind].
  fold tgt in Hinv2.
  assert (entry_leaf ((entries ++ [src]) ++ [tgt]) src.1 = Some src.2) as Ls
    by (apply entry_leaf_kept, entry_leaf_last; exact Es).
  assert (entry_leaf ((entries ++ [src]) ++ [tgt]) tgt.1 = Some tgt.2) as Lt by (by apply entry_leaf_last).
  destruct (mark_inv _ src.1 false (rename_node children2 tgt.1) _ _ _ _ Hinv2 Ls) as (root3 & children3 & -> & Hinv3).
  cbn [result_bind andb] in Hinv3 |- *.
  destruct (mark_inv _ tgt.1 true (rename_node children3 src.1) _ _ _ _ Hinv3 Lt) as (root4 & children4 & -> & Hinv4).
  cbn [result_bind andb] in Hinv4 |- *. rewrite bool_decide_eq_true_2 in Hinv4 by done.
  by exists (root4, children4).
Qed.

Lemma rename_bind spec field fields tree :
  HandleRenameUpdateTree spec (field :: fields) tree =
  let! tree := HandleRenameUpdateTree spec [field] tree in HandleRenameUpdateTree spec fields tree.
Proof.
  destruct field as [path value]. cbn [HandleRenameUpdateTree].
  destruct (ValidateSpecPathForUpdateTree path); [|done]. cbn [result_bind].
  destruct (add_node path _ _ _ _ _ tree.2) as [[children node]|]; [|done]. cbn [result_bind].
  destruct value; try done. destruct (ValidateSpecPathForUpdateTree v_utf8); [|done]. cbn [result_bind].
  destruct (add_node v_utf8 _ _ _ _ _ children) as [[children' node']|]; [|done]. cbn [result_bind].
  destruct (UpdateParentDataInTree node _ _ tree.1 children') as [[[root children1] []]|]; try done. cbn [result_bind].
  by destruct (UpdateParentDataInTree node' _ _ root children1) as [[[root2 children2] []]|].
Qed.

Lemma rename_reads spec fields entries tree :
  forallb (valid_field spec op_rename) fields = true ->
  no_conflicts entries = true -> tree_inv None entries tree ->
  reads (flat_map (field_entries spec op_rename) fields) entries (HandleRenameUpdateTree spec fields tree).
Proof.
  revert entries tree. induction fields as [|[path value] fields IH]; intros entries tree Hv Hn Hinv; [by apply reads_nil|].
  cbn [forallb] in Hv. apply andb_prop in Hv as [Hp Hv]. unfold valid_field in Hp. apply andb_prop in Hp as [Hp Ht].
  destruct value; try done. rewrite rename_bind. cbn [flat_map].
  apply reads_bind; [by apply rename_reads_one|]. intros tree' Hn' Hinv'. by apply IH.
Qed.

Lemma operator_reads spec (isUpsert : bool) op fields entries tree :
  forallb (valid_field spec op) fields = true ->
  no_conflicts entries = true -> tree_inv None entries tree ->
  reads (flat_map (field_entries spec op)
           (match op with op_setOnInsert => if isUpsert then fields else [] | _ => fields end)) entries
    (updateTreeFunc op spec isUpsert fields tree).
Proof.
  intros Hv Hn Hinv. destruct op; try (by apply basic_reads); [by apply unset_reads|by apply rename_reads|].
  cbn [updateTreeFunc]. unfold HandleSetOnInsertUpdateTree. destruct isUpsert; [by apply basic_reads|by apply reads_nil].
Qed.

(** The operators that are known, with valid fields. *)
Definition valid_update (spec : PositionalUpdateSpec) (updateSpec : bson_doc) : bool :=
  forallb (fun f =>
    match List.find (fun o => bool_decide (o.1 = f.1)) MongoUpdateOperators, f.2 with
    | Some (_, op), V_Document fields => forallb (valid_field spec op) fields
    | _, _ => false
    end) updateSpec.

(** The leaves of an update. *)
Definition entries_of (spec : PositionalUpdateSpec) (isUpsert : bool) (updateSpec : bson_doc) : list entry :=
  flat_map (fun f =>
    match List.find (fun o => bool_decide (o.1 = f.1)) MongoUpdateOperators, f.2 with
    | Some (_, op), V_Document fields =>
        flat_map (field_entries spec op)
          (match op with op_setOnInsert => if isUpsert then fields else [] | _ => fields end)
    | _, _ => []
    end) updateSpec.

Lemma operators_read spec isUpsert updateSpec entries tree :
  valid_update spec updateSpec = true -> no_conflicts entries = true -> tree_inv None entries tree ->
  reads (entries_of spec isUpsert updateSpec) entries (read_operators spec isUpsert updateSpec tree).
Proof.
  revert entries tree. induction updateSpec as [|[name value] updateSpec IH]; intros entries tree Hv Hn Hinv; [by apply reads_nil|].
  cbn [valid_update forallb] in Hv. apply andb_prop in Hv as [Hp Hv]. cbn [fst snd] in Hp.
  cbn [entries_of flat_map read_operators fst snd].
  destruct (List.find _ MongoUpdateOperators) as [[name' op]|]; [|done]. destruct value; try done.
  apply reads_bind; [by apply operator_reads|]. intros tree' Hn' Hinv'. by apply IH.
Qed.

Lemma initial_inv : tree_inv None [id_entry] (empty_root, [LeafNode IdField NodeType_LeafExcluded id_leaf]).
Proof.
  assert (forall q, leaf_at q [LeafNode IdField NodeType_LeafExcluded id_leaf] = entry_leaf [id_entry] q) as Hl.
  { intros [|f [|g q]]; [done|..].
    - rewrite leaf_at_one, find_child_cons. unfold entry_leaf, id_entry. cbn [List.find fst node_field].
      destruct (bool_decide_reflect (IdField = f)) as [<-|]; [done|]. by rewrite bool_decide_eq_false_2 by congruence.
    - rewrite leaf_at_cons, find_child_cons. unfold entry_leaf, id_entry. cbn [List.find fst node_field].
      rewrite (bool_decide_eq_false_2 ([IdField] = f :: g :: q)) by done. by case_bool_decide. }
  assert (forall q t leaf, leaf_at q [LeafNode IdField NodeType_LeafExcluded id_leaf] = Some (t, leaf) ->
    t = NodeType_LeafExcluded) as Ht.
  { intros q t leaf. rewrite Hl. unfold entry_leaf. cbn [List.find]. case_bool_decide; [by intros [= <- _]|done]. }
  constructor; cbn [fst snd]; [done| |done|..].
  - split; [apply NoDup_singleton|]. by repeat constructor.
  - intros [|f q] Hq; [done|]. cbn [outside]. rewrite find_child_cons. cbn [node_field].
    unfold disjoint_from, id_entry. cbn [forallb fst conflict].
    by destruct (bool_decide (IdField = f)).
  - intros q leaf Hq. by apply Ht in Hq.
  - intros q leaf Hq. by apply Ht in Hq.
Qed.


Lemma built_inv querySpec collation isUpsert updateSpec tree :
  let spec := mk_positional querySpec [] collation in
  valid_update spec updateSpec = true ->
  GetOperatorUpdateState (V_Document updateSpec) querySpec None collation isUpsert = Ok tree ->
  no_conflicts (id_entry :: entries_of spec isUpsert updateSpec) = true /\
  tree_inv None (id_entry :: entries_of spec isUpsert updateSpec) tree.
Proof.
  cbn zeta. intros Hv. cbn [GetOperatorUpdateState BuildExpressionForArrayFilters result_bind].
  unfold ReadUpdateSpecAndUpdateTree.
  pose proof (operators_read _ isUpsert _ _ _ Hv (eq_refl (no_conflicts [id_entry])) initial_inv) as Hr.
  unfold reads in Hr. cbn [app] in Hr. destruct (no_conflicts _); [|by rewrite Hr].
  destruct Hr as (tree' & -> & Ht). cbn. by intros [= <-].
Qed.

(** ** The update of a document *)

Context (PgbsonValidateInputBson : bson_doc -> result unit) (EnableCollation : bool).
Context {FL : FindFieldLaws F}.

Lemma update_fields_no_id handle fields handled out m handled' :
  update_fields handle true fields handled = Ok (out, m, handled') -> IdField ∉ map fst out.
Proof.
  revert handled out m handled'. induction fields as [|[k v] fields IH]; intros handled out m handled' E0;
    cbn [update_fields] in E0; [injection E0 as <- _ _; apply not_elem_of_nil|].
  cbn [andb] in E0. destruct (bool_decide_reflect (k = IdField)) as [->|Hk]; [by apply (IH _ _ _ _ E0)|].
  destruct (handle k v) as [r|]; [|done]. cbn [result_bind] in E0.
  destruct (match r with None => _ | Some _ => _ end) as [[written m1] handled1].
  destruct (update_fields handle true fields handled1) as [[[out1 m2] handled2]|] eqn:Eu; [|done].
  injection E0 as <- _ _. specialize (IH _ _ _ _ Eu). destruct written; [|done]. cbn [map fst].
  rewrite not_elem_of_cons. by split; [congruence|].
Qed.

Lemma unresolved_no_id state unresolved handled children index added m :
  unresolved_children state unresolved true handled children index = Ok (added, m) -> IdField ∉ map fst added.
Proof.
  revert index added m. induction children as [|c children IH]; intros index added m E0;
    cbn [unresolved_children] in E0; [injection E0 as <- _; apply not_elem_of_nil|].
  cbn [andb] in E0. destruct (bool_decide_reflect (node_field c = IdField)) as [Hc|Hc]; cbn [result_bind] in E0.
  - destruct (unresolved_children _ _ _ _ children (S index)) as [[added1 m1]|] eqn:Eu; [|done].
    injection E0 as <- _. by apply (IH _ _ _ Eu).
  - destruct (if bool_decide (index ∈ handled) then _ else _) as [[written m1]|]; [|done]. cbn [result_bind] in E0.
    destruct (unresolved_children _ _ _ _ children (S index)) as [[added1 m2]|] eqn:Eu; [|done].
    injection E0 as <- _. specialize (IH _ _ _ Eu). destruct written; [|done]. cbn [map fst].
    rewrite not_elem_of_cons. by split; [congruence|].
Qed.

Lemma traverse_no_id clock state fields tree hasArrayAncestors out m :
  TraverseDocumentAndApplyUpdate EnableCollation clock state fields tree true hasArrayAncestors = Ok (out, m) ->
  IdField ∉ map fst out.
Proof.
  unfold TraverseDocumentAndApplyUpdate, HandleUnresolvedDocumentFields. intros Ht.
  destruct (update_fields _ true fields []) as [[[out1 m1] handled]|] eqn:Eu; [|done]. cbn [result_bind] in Ht.
  destruct (hasPositionalChildren tree.1); [done|].
  destruct (unresolved_children _ _ _ _ _ _) as [[added m2]|] eqn:En; [|done]. injection Ht as <- _.
  rewrite map_app, elem_of_app. intros [X|X]; [by apply update_fields_no_id in Eu|by apply unresolved_no_id in En].
Qed.

Lemma find_id doc : bson_iter_find_w_len doc IdField = field_value doc IdField.
Proof. by apply find_field_first. Qed.

Definition document_state (doc : bson_doc) (collation : option bytes) (isUpsert : bool) : CurrentDocumentState :=
  mk_docstate (default V_Eod (field_value doc IdField)) isUpsert doc collation.

(** A document that is returned is the [_id] and the fields of the walk. *)
Lemma process_result clock new_oid doc tree collation isUpsert out :
  ProcessUpdateOperatorWithState PgbsonValidateInputBson EnableCollation clock new_oid doc tree collation isUpsert =
    Ok (Some out) ->
  exists id fields m, out = (IdField, id) :: fields /\ (IdField ∉ map fst fields) /\
    TraverseDocumentAndApplyUpdate EnableCollation clock (document_state doc collation isUpsert) doc tree true false =
      Ok (fields, m) /\
    id <> V_Eod /\ ValidateIdField id = Ok tt /\
    (default V_Eod (field_value doc IdField) <> V_Eod ->
     BsonValueEquals id (default V_Eod (field_value doc IdField)) = Ok true).
Proof.
  unfold ProcessUpdateOperatorWithState. rewrite find_id. fold (document_state doc collation isUpsert).
  set (docId := default V_Eod (field_value doc IdField)). intros Hu.
  destruct (HandleUpdateDocumentId _ _ _ _ _) as [[id m1]|]; [|done]. cbn [result_bind] in Hu.
  destruct (TraverseDocumentAndApplyUpdate _ _ _ _ _ _ _) as [[fields m]|] eqn:Et; [|done]. cbn [result_bind] in Hu.
  pose proof (traverse_no_id _ _ _ _ _ _ _ Et) as Hno.
  destruct (negb (m1 || m) && negb isUpsert); [done|]. rewrite find_id in Hu. destruct id as [id|].
  2: { rewrite (field_value_none _ _ Hno) in Hu. done. }
  rewrite field_value_cons, bool_decide_eq_true_2 in Hu by done. change (default V_Eod (Some id)) with id in Hu.
  destruct (decide (value_type id = BSON_TYPE_EOD)) as [He|He]; [by destruct id|].
  set (checked := let! changed := _ in _) in Hu.
  assert (checked = (let! changed := match docId with V_Eod => Ok false | _ =>
            let! same := BsonValueEquals id docId in Ok (negb same) end in
     if changed : bool then Err ERRCODE_DOCUMENTDB_IMMUTABLEFIELD
     else let! _ := PgbsonValidateInputBson ((IdField, id) :: fields) in
          let! _ := ValidateIdField id in Ok (Some ((IdField, id) :: fields)))) as Hc.
  { unfold checked. by destruct id, docId. }
  rewrite Hc in Hu. destruct (match docId with V_Eod => _ | _ => _ end) as [changed|] eqn:Ech; [|done].
  cbn [result_bind] in Hu. destruct changed; [done|].
  destruct (PgbsonValidateInputBson _); [|done]. cbn [result_bind] in Hu.
  destruct (ValidateIdField id) as [[]|] eqn:Ev; [|done]. injection Hu as <-.
  exists id, fields, m. split_and!; try done; [intros ->; done|]. intros Hd.
  fold docId in Hd |- *. clearbody docId. destruct docId; try done; by destruct (BsonValueEquals id _) as [[]|].
Qed.

(** no update changes the [_id].  A document that an update returns has the
    [_id] once, as its first field; if the document had one, it is equal to it. *)
Theorem update_keeps_id clock new_oid doc tree collation isUpsert out :
  ProcessUpdateOperatorWithState PgbsonValidateInputBson EnableCollation clock new_oid doc tree collation isUpsert =
    Ok (Some out) ->
  exists id fields, out = (IdField, id) :: fields /\ (IdField ∉ map fst fields) /\ id <> V_Eod /\
    forall old, field_value doc IdField = Some old -> old <> V_Eod -> BsonValueEquals id old = Ok true.
Proof.
  intros (id & fields & m & -> & Hno & _ & Hid & _ & Heq)%process_result. exists id, fields.
  split_and!; [done..|]. intros old Hold Hne. rewrite Hold in Heq. by apply Heq.
Qed.

Lemma get_path_id id fields path : head path <> Some IdField -> get_path ((IdField, id) :: fields) path = get_path fields path.
Proof.
  intros Hh. destruct path as [|f [|g path]]; [done|..]; cbn [get_path]; rewrite field_value_cons;
    rewrite bool_decide_eq_false_2; try done; intros <-; by apply Hh.
Qed.

Lemma conflict_id path : path <> [] -> conflict [IdField] path = false <-> head path <> Some IdField.
Proof.
  destruct path as [|f path]; [done|]. cbn. intros _. rewrite andb_true_r, bool_decide_eq_false. naive_solver.
Qed.

Lemma disjoint_in entries e path : disjoint_from entries path = true -> e ∈ entries -> conflict e.1 path = false.
Proof.
  unfold disjoint_from. rewrite forallb_forall. intros Hd Hin. apply negb_true_iff, Hd. by apply list_elem_of_In.
Qed.

Lemma entry_leaf_in entries e : no_conflicts entries = true -> e ∈ entries -> entry_leaf entries e.1 = Some e.2.
Proof.
  induction entries as [|x entries IH]; intros Hn Hin; [by apply not_elem_of_nil in Hin|].
  cbn [no_conflicts] in Hn. apply andb_prop in Hn as [Hx Hn]. unfold entry_leaf. cbn [List.find].
  apply elem_of_cons in Hin as [->|Hin]; [by rewrite bool_decide_eq_true_2|].
  rewrite bool_decide_eq_false_2; [by apply IH|]. intros Heq. pose proof (disjoint_in _ _ _ Hx Hin) as Hc.
  by rewrite Heq, conflict_refl in Hc.
Qed.

End build.

(** ** Examples *)

Module UpdateExamples.
Import ExactBid ZeroMath FoldCase FindFirst Examples UpdateSamples NoPositionalQuery.

Definition text (s : string) : bson_value := V_Utf8 (str s).
Definition named (s : string) (v : bson_value) : bson_field := (str s, v).

(** An update of a document, from the operators to the result. *)
Definition update (updateSpec doc : bson_doc) : result (option bson_doc) :=
  let! tree := GetOperatorUpdateState (V_Document updateSpec) (V_Document []) None None false in
  ProcessUpdateOperatorWithState (fun _ => Ok tt) true (0, 0) [] doc tree None false.

Definition sample_update : bson_doc :=
  [named "$set" (V_Document [named "a.b" (text "new"); named "e.f" (text "made")]);
   named "$unset" (V_Document [named "a.c" (text "")]);
   named "$rename" (V_Document [named "d" (text "g.h")])].

Definition sample_document : bson_doc :=
  [named "_id" (text "k"); named "a" (V_Document [named "b" (text "old"); named "c" (text "gone"); named "x" (text "kept")]);
   named "d" (text "moved")].

Definition sample_updated : bson_doc :=
  [named "_id" (text "k"); named "a" (V_Document [named "b" (text "new"); named "x" (text "kept")]);
   named "e" (V_Document [named "f" (text "made")]); named "g" (V_Document [named "h" (text "moved")])].

Example sample_update_result : update sample_update sample_document = Ok (Some sample_updated).
Proof. vm_compute. reflexivity. Qed.

Definition sample_tree : UpdateTree :=
  match GetOperatorUpdateState (V_Document sample_update) (V_Document []) None None false with
  | Ok tree => tree
  | Err _ => (empty_root, [])
  end.

Lemma sample_tree_built : GetOperatorUpdateState (V_Document sample_update) (V_Document []) None None false = Ok sample_tree.
Proof. vm_compute. reflexivity. Qed.

Lemma sample_valid : valid_update (mk_positional (V_Document []) [] None) sample_update = true.
Proof. vm_compute. reflexivity. Qed.

Lemma sample_processed :
  ProcessUpdateOperatorWithState (fun _ => Ok tt) true (0, 0) [] sample_document sample_tree None false =
  Ok (Some sample_updated).
Proof. vm_compute. reflexivity. Qed.


Lemma update_keeps_id_witness :
  exists id fields, sample_updated = (IdField, id) :: fields /\ BsonValueEquals id (text "k") = Ok true.
Proof.
  destruct (update_keeps_id (fun _ => Ok tt) true (0, 0) [] sample_document sample_tree None false sample_updated
    sample_processed) as (id & fields & Ho & _ & _ & Hid).
  exists id, fields. split; [exact Ho|]. apply Hid; [vm_compute; reflexivity|discriminate].
Defined.


(** *** What the code does not mean to do *)

Definition key_field : bson_field := named "_id" (text "k").

(** A $rename to a path through a string is an error; with an $unset below the
    same field it removes the source, and its value is lost. *)
Theorem rename_loses_value :
  let doc := [key_field; named "a" (text "1"); named "c" (text "2")] in
  let rename := named "$rename" (V_Document [named "c" (text "a.b")]) in
  update [rename] doc = Err ERRCODE_DOCUMENTDB_PATHNOTVIABLE /\
  update [rename; named "$unset" (V_Document [named "a.y" (text "")])] doc = Ok (Some [key_field; named "a" (text "1")]).
Proof. vm_compute. split; reflexivity. Qed.

(** An element set past the end of an array is moved by an $unset below an index
    that is missing too: "a.4" becomes element 3. *)
Theorem unset_shifts_array :
  let doc := [key_field; named "a" (array_value [text "1"; text "2"])] in
  let set := named "$set" (V_Document [named "a.4" (text "9")]) in
  update [set] doc =
    Ok (Some [key_field; named "a" (array_value [text "1"; text "2"; V_Null; V_Null; text "9"])]) /\
  update [named "$unset" (V_Document [named "a.3.b" (text "")]); set] doc =
    Ok (Some [key_field; named "a" (array_value [text "1"; text "2"; V_Null; text "9"])]).
Proof. vm_compute. split; reflexivity. Qed.

(** A path with a dot at its end is an error for $set; $unset removes the field
    without it. *)
Theorem unset_accepts_trailing_dot :
  let doc := [key_field; named "a" (text "1")] in
  update [named "$set" (V_Document [named "a." (text "2")])] doc = Err ERRCODE_DOCUMENTDB_EMPTYFIELDNAME /\
  update [named "$unset" (V_Document [named "a." (text "")])] doc = Ok (Some [key_field]).
Proof. vm_compute. split; reflexivity. Qed.

(** A $pull from a path that is missing, or a $rename of a field that is missing,
    writes empty documents if something else changes, and nothing otherwise. *)
Theorem no_operation_creates_documents :
  let doc := [key_field; named "a" (text "1")] in
  let set := named "$set" (V_Document [named "a" (text "2")]) in
  let pull := named "$pull" (V_Document [named "x.y" (text "1")]) in
  let rename := named "$rename" (V_Document [named "c" (text "x.y")]) in
  update [pull] doc = Ok None /\ update [rename] doc = Ok None /\
  update [pull; set] doc = Ok (Some [key_field; named "a" (text "2"); named "x" (V_Document [])]) /\
  update [rename; set] doc = Ok (Some [key_field; named "a" (text "2"); named "x" (V_Document [])]).
Proof. vm_compute. split_and!; reflexivity. Qed.

(** A $pull from an element past the end of an array adds a null for each element
    before it. *)
Theorem pull_pads_array :
  update [named "$pull" (V_Document [named "a.3" (text "1")])] [key_field; named "a" (array_value [text "1"; text "2"])] =
  Ok (Some [key_field; named "a" (array_value [text "1"; text "2"; V_Null])]).
Proof. vm_compute. reflexivity. Qed.
End UpdateExamples.
