(* ===== verification/UpdateArrays.v ===== *)
(** * Update operators on arrays

    What $pull, $pullAll, $pop, $addToSet and $push write for an array. *)

From Stdlib Require Import String.
From stdpp Require Import base numbers list option sorting.
From Stdlib Require Import ZArith Lia.
From S2P Require Import Prelude Binary64 Bson PgbsonElement StringView Traversal Decimal128 Collation BsonCompare.
From S2P Require Import BsonHash Arithmetic QueryOperators QuerySets BitOperators UpdateOperators.

Section operators.
Context {L : BidLib} {BL : BidLaws L} {A : BidMath} {I : Icu} {IL : IcuLaws I}.
Context {T : DynaHash} {TL : DynaHashLaws T} {H : PgHash} {F : FindField}.
Context {E : QueryExpression} {FD : FindDescendant} {Q : QSort} (EnableCollation : bool).

(** The writer of an array after some of its elements were removed. *)
Definition removed_from (kept : list bson_value) (modified : bool) : UpdateOperatorWriter :=
  mk_writer (Some (array_value kept)) (if modified then MODIFY_TYPE_CHANGED else MODIFY_TYPE_OPERATOR_WRITTEN).

Lemma wf_values fields : wf_fields fields = true -> Forall (fun v => wf_value v = true) (map snd fields).
Proof.
  induction fields as [|[k v] fields IH]; [constructor|]. rewrite wf_fields_cons. intros (_ & Hv & Hf).
  constructor; [done|by apply IH].
Qed.

(** ** $pull *)

Lemma matching_indices_spec evalState recurse p elements index :
  Forall (fun v => EvalBooleanExpressionAgainstValue evalState v recurse = Ok (p v)) elements ->
  matching_indices evalState recurse elements index =
  Ok (map (fun iv : Z * bson_value => iv.1)
        (List.filter (fun iv => p iv.2) (imap (fun i v => (index + Z.of_nat i, v)) elements))).
Proof.
  intros Hp. revert index. induction Hp as [|v elements Hv _ IH]; intros index; [done|].
  cbn [matching_indices]. rewrite Hv. cbn [result_bind]. rewrite IH. cbn [result_bind imap].
  assert (imap (fun i w => (index + 1 + Z.of_nat i, w)) elements =
          imap ((fun i w => (index + Z.of_nat i, w)) ∘ S) elements) as Hs.
  { apply imap_ext. intros i w _. cbn. f_equal. lia. }
  rewrite Hs. cbn [List.filter snd]. rewrite Z.add_0_r. by destruct (p v).
Qed.

Lemma pull_loop_spec p elements index indices current writer :
  indices = map (fun iv : Z * bson_value => iv.1)
              (List.filter (fun iv => p iv.2) (imap (fun i v => (index + Z.of_nat i, v)) elements)) ->
  (match indices with [] => current < index | first :: _ => current = first end) ->
  pull_loop elements index indices current writer =
  mk_array_writer (array_written writer ++ List.filter (fun v => negb (p v)) elements)
    (if existsb p elements then MODIFY_TYPE_CHANGED else array_modifyType writer).
Proof.
  revert index indices current writer. induction elements as [|v elements IH]; intros index indices current writer Hi Hc.
  { cbn. rewrite app_nil_r. by destruct writer. }
  cbn [imap] in Hi.
  assert (imap (fun i w => (index + 1 + Z.of_nat i, w)) elements =
          imap ((fun i w => (index + Z.of_nat i, w)) ∘ S) elements) as Hs.
  { apply imap_ext. intros i w _. cbn. f_equal. lia. }
  rewrite <- Hs in Hi. cbn [List.filter snd] in Hi. rewrite Z.add_0_r in Hi.
  set (rest := map (fun iv : Z * bson_value => iv.1)
                 (List.filter (fun iv => p iv.2) (imap (fun i w => (index + 1 + Z.of_nat i, w)) elements))) in *.
  assert (forall x, In x rest -> index < x) as Hrest.
  { intros x Hx. apply in_map_iff in Hx as ((j & w) & <- & Hx). apply filter_In in Hx as [Hx _].
    apply list_elem_of_In, elem_of_lookup_imap in Hx as (i & y & [= -> ->] & _). cbn. lia. }
  assert (indices = if p v then index :: rest else rest) as Hi' by (rewrite Hi; by destruct (p v)). clear Hi.
  pose proof (fun current writer => IH (index + 1) rest current writer eq_refl) as IHr. clearbody rest.
  cbn [pull_loop List.filter existsb]. destruct (p v) eqn:Ep; cbn [negb orb]; subst indices.
  - rewrite Hc, Z.eqb_refl. cbn [tl]. rewrite IHr.
    + cbn. by destruct (existsb p elements).
    + destruct rest as [|x rest']; [|done]. change (index < index + 1). lia.
  - assert ((index =? current) = false) as ->.
    { apply Z.eqb_neq. destruct rest as [|x rest']; [lia|]. specialize (Hrest x ltac:(by left)). lia. }
    rewrite IHr; [|destruct rest; [lia|done]]. cbn. by rewrite <- app_assoc.
Qed.

Lemma pull_writes pullState fields p writer :
  writer_modifyType writer = MODIFY_TYPE_NOCHANGE ->
  Forall (fun v => EvalBooleanExpressionAgainstValue (pull_evalState pullState) v (negb (pull_isValue pullState)) = Ok (p v))
    (map snd fields) ->
  HandleUpdateDollarPull (V_Array fields) writer (PullContext pullState) =
  Ok (if existsb p (map snd fields)
      then removed_from (List.filter (fun v => negb (p v)) (map snd fields)) true
      else writer).
Proof.
  intros Hw Hp. cbn [HandleUpdateDollarPull EvalExpressionAgainstArrayGetAllMatchingIndices].
  rewrite (matching_indices_spec _ _ p) by done. cbn [result_bind]. set (elements := map snd fields) in *.
  set (indices := map _ _). pose proof (pull_loop_spec p elements 0 indices) as Hl. destruct indices as [|first rest] eqn:Ei.
  - assert (existsb p elements = false) as ->; [|done].
    apply not_true_iff_false. intros (v & Hv & Hpv)%existsb_exists.
    apply list_elem_of_In, list_elem_of_lookup in Hv as [i Hi].
    assert (In (0 + Z.of_nat i) indices) as Hin; [|by rewrite Ei in Hin].
    apply in_map_iff. exists (0 + Z.of_nat i, v). split; [done|]. apply filter_In. split; [|done].
    apply list_elem_of_In, elem_of_lookup_imap. by exists i, v.
  - rewrite (Hl first) by done. unfold UpdateArrayWriterFinalize. cbn [array_written array_modifyType app UpdateWriterGetArrayWriter].
    rewrite Hw. assert (existsb p elements = true) as ->; [|done].
    assert (In first indices) as Hin by (rewrite Ei; by left).
    apply in_map_iff in Hin as ((j & v) & _ & Hin). apply filter_In in Hin as [Hin Hpv].
    apply list_elem_of_In, elem_of_lookup_imap in Hin as (i & w & [= -> ->] & Hi). apply existsb_exists.
    exists w. split; [|done]. apply list_elem_of_In. by apply list_elem_of_lookup_2 in Hi.
Qed.

(** ** $pullAll *)

Lemma pull_all_contains_spec collation v removed :
  wf_value v = true -> Forall (fun r => wf_value r = true) removed ->
  pull_all_contains collation v removed = Ok (existsb (equals collation v) removed).
Proof.
  intros Wv Hr. induction Hr as [|r removed Wr _ IH]; [done|]. cbn [pull_all_contains existsb].
  unfold BsonValueEqualsWithCollation. destruct (entry_compare collation v r Wv Wr) as (z & b & -> & Hz & _).
  cbn [result_bind]. rewrite Hz. by destruct (equals collation v r).
Qed.

Lemma pull_all_loop_spec collation elements removed writer :
  Forall (fun v => wf_value v = true) elements -> Forall (fun r => wf_value r = true) removed ->
  let p := fun v => existsb (equals collation v) removed in
  pull_all_loop collation elements removed writer =
  Ok (mk_array_writer (array_written writer ++ List.filter (fun v => negb (p v)) elements)
        (if existsb p elements then MODIFY_TYPE_CHANGED else array_modifyType writer)).
Proof.
  intros He Hr p. revert writer. induction He as [|v elements Wv _ IH]; intros writer.
  { cbn. rewrite app_nil_r. by destruct writer. }
  cbn [pull_all_loop List.filter existsb]. rewrite pull_all_contains_spec by done. cbn [result_bind]. rewrite IH.
  unfold p. destruct (existsb (equals collation v) removed); cbn; [by destruct (existsb _ elements)|].
  by rewrite <- app_assoc.
Qed.

Lemma pull_all_writes elements removed writer state :
  writer_modifyType writer = MODIFY_TYPE_NOCHANGE ->
  wf_fields elements = true -> wf_fields removed = true ->
  let p := fun v => existsb (equals (collationString state) v) (map snd removed) in
  HandleUpdateDollarPullAll (V_Array elements) writer (V_Array removed) state =
  Ok (removed_from (List.filter (fun v => negb (p v)) (map snd elements))
        (existsb p (map snd elements))).
Proof.
  intros Hw We Wr p. cbn [HandleUpdateDollarPullAll].
  rewrite pull_all_loop_spec by (by apply wf_values). cbn [result_bind]. unfold UpdateArrayWriterFinalize.
  rewrite Hw. fold p. unfold removed_from. cbn. by destruct (existsb p (map snd elements)).
Qed.

(** ** $pop *)

Lemma pop_loop_last isFirst x elements writer :
  pop_loop isFirst (Some x) elements writer =
  mk_array_writer (array_written writer ++ (if isFirst then elements else removelast (x :: elements)))
    (match elements with [] => array_modifyType writer | _ => MODIFY_TYPE_CHANGED end).
Proof.
  revert x writer. induction elements as [|v elements IH]; intros x writer.
  { cbn. destruct isFirst, writer; cbn; by rewrite app_nil_r. }
  cbn [pop_loop]. rewrite IH. cbn [array_written array_modifyType UpdateArrayWriterWriteModifiedValue
    UpdateArrayWriterWriteValueWithModifyType]. f_equal; [|by destruct elements].
  destruct isFirst; rewrite <- app_assoc; [done|]. by destruct elements.
Qed.

(** The tests of the argument of $pop, on the number it is converted to. *)
Lemma pop_argument existingValue writer z :
  HandleUpdateDollarPop existingValue writer (V_Int32 z) =
  let d := double_of_int z in
  if negb (d_eq (d_floor d) d) then Err ERRCODE_DOCUMENTDB_FAILEDTOPARSE
  else if negb (cast_int32 d =? 1) && negb (cast_int32 d =? -1) then Err ERRCODE_DOCUMENTDB_FAILEDTOPARSE
  else
    match existingValue with
    | V_Eod => Ok writer
    | V_Array fields =>
        Ok (UpdateArrayWriterFinalize writer
              (pop_loop (cast_int32 d =? -1) None (map snd fields) (UpdateWriterGetArrayWriter writer)))
    | _ => Err ERRCODE_DOCUMENTDB_BADVALUE
    end.
Proof. reflexivity. Qed.

Lemma pop_one : d_eq (d_floor (double_of_int 1)) (double_of_int 1) = true /\ cast_int32 (double_of_int 1) = 1.
Proof. vm_compute. split; reflexivity. Qed.

Lemma pop_minus_one :
  d_eq (d_floor (double_of_int (-1))) (double_of_int (-1)) = true /\ cast_int32 (double_of_int (-1)) = -1.
Proof. vm_compute. split; reflexivity. Qed.

Lemma pop_writes (isFirst : bool) fields writer :
  writer_modifyType writer = MODIFY_TYPE_NOCHANGE ->
  HandleUpdateDollarPop (V_Array fields) writer (V_Int32 (if isFirst then -1 else 1)) =
  Ok (removed_from (if isFirst then tl (map snd fields) else removelast (map snd fields))
        (negb (bool_decide (map snd fields = [])))).
Proof.
  intros Hw. assert (HandleUpdateDollarPop (V_Array fields) writer (V_Int32 (if isFirst then -1 else 1)) =
    Ok (UpdateArrayWriterFinalize writer
          (pop_loop isFirst None (map snd fields) (UpdateWriterGetArrayWriter writer)))) as ->
    by (rewrite pop_argument; cbv zeta; destruct isFirst;
        [destruct pop_minus_one as [-> ->]|destruct pop_one as [-> ->]]; reflexivity).
  unfold UpdateArrayWriterFinalize, removed_from. rewrite Hw. destruct (map snd fields) as [|v elements].
  { by destruct isFirst. }
  cbn [pop_loop]. rewrite pop_loop_last. cbn. destruct isFirst; by destruct elements.
Qed.

(** C15: removing elements.  $pull keeps the elements that its expression does not
    match, and is no change if it matches none; $pullAll keeps those that are not
    equal to one of its arguments; $pop removes the first or the last element. *)
Theorem array_removals fields writer :
  writer_modifyType writer = MODIFY_TYPE_NOCHANGE -> wf_fields fields = true ->
  (forall pullState p,
     Forall (fun v => EvalBooleanExpressionAgainstValue (pull_evalState pullState) v
                        (negb (pull_isValue pullState)) = Ok (p v)) (map snd fields) ->
     HandleUpdateDollarPull (V_Array fields) writer (PullContext pullState) =
     Ok (if existsb p (map snd fields)
         then removed_from (List.filter (fun v => negb (p v)) (map snd fields)) true else writer)) /\
  (forall removed state, wf_fields removed = true ->
     let p := fun v => existsb (equals (collationString state) v) (map snd removed) in
     HandleUpdateDollarPullAll (V_Array fields) writer (V_Array removed) state =
     Ok (removed_from (List.filter (fun v => negb (p v)) (map snd fields)) (existsb p (map snd fields)))) /\
  (forall isFirst : bool,
     HandleUpdateDollarPop (V_Array fields) writer (V_Int32 (if isFirst then -1 else 1)) =
     Ok (removed_from (if isFirst then tl (map snd fields) else removelast (map snd fields))
           (negb (bool_decide (map snd fields = []))))).
Proof.
  intros Hw Wf. split_and!.
  - intros pullState p. by apply pull_writes.
  - intros removed state Wr. by apply pull_all_writes.
  - intros isFirst. by apply pop_writes.
Qed.

(** ** $addToSet *)

Lemma equals_refl collation v : wf_value v = true -> equals collation v v = true.
Proof. intros Wv. apply (equals_order (depth v)); [lia|done|done|]. apply (cmp_refl (bson_order (depth v) collation)). Qed.

Section add_to_set.
Context (coll : option bytes) (known : list bson_value) (h : bson_value -> Z).
Context (agrees : hash_agrees EnableCollation coll known h).

Abbreviation same := (equals (applied EnableCollation coll)).

(** The elements that are not yet in the set. *)
Fixpoint new_elements (set elements : list bson_value) : list bson_value :=
  match elements with
  | [] => []
  | v :: rest =>
      if existsb (fun k => same k v) set then new_elements set rest else v :: new_elements (set ++ [v]) rest
  end.

Lemma add_each_spec elements set writer :
  Forall (fun v => v ∈ known) elements -> Forall (fun v => v ∈ known) set ->
  add_each EnableCollation coll elements set writer =
  Ok (mk_array_writer (array_written writer ++ new_elements set elements)
        (match new_elements set elements with [] => array_modifyType writer | _ => MODIFY_TYPE_CHANGED end)).
Proof.
  intros He. revert set writer. induction He as [|v elements Hv _ IH]; intros set writer Hs.
  { cbn. rewrite app_nil_r. by destruct writer. }
  cbn [add_each new_elements]. rewrite (set_find_spec EnableCollation coll known h agrees) by done. cbn [result_bind].
  destruct (existsb _ set); [by apply IH|]. rewrite IH by (by apply Forall_app; split; [|constructor]).
  cbn. rewrite <- app_assoc. by destruct (new_elements (set ++ [v]) elements).
Qed.

(** The set holds an element equal to each element of the array. *)
Lemma enter_existing_spec elements set writer :
  Forall (fun v => v ∈ known) elements -> Forall (fun v => v ∈ known) set ->
  exists set', enter_existing EnableCollation coll elements set writer =
      Ok (set', mk_array_writer (array_written writer ++ elements)
                  (match elements with [] => array_modifyType writer | _ => MODIFY_TYPE_OPERATOR_WRITTEN end)) /\
    Forall (fun v => v ∈ known) set' /\
    forall v, v ∈ known -> existsb (fun k => same k v) set' = existsb (fun k => same k v) (set ++ elements).
Proof.
  intros He. revert set writer. induction He as [|v elements Hv _ IH]; intros set writer Hs.
  { exists set. cbn. rewrite !app_nil_r. by destruct writer. }
  cbn [enter_existing]. rewrite (set_find_spec EnableCollation coll known h agrees) by done. cbn [result_bind].
  set (found := existsb (fun k => same k v) set).
  destruct (IH (if found then set else set ++ [v])
              (UpdateArrayWriterWriteValueWithModifyType writer v MODIFY_TYPE_OPERATOR_WRITTEN)) as (set' & -> & Hs' & He').
  { destruct found; [done|]. apply Forall_app. by split; [|constructor]. }
  exists set'. split_and!; [|done|].
  - cbn. rewrite <- app_assoc. by destruct elements.
  - intros w Hw. rewrite He' by done. destruct found eqn:Ef; [|by rewrite <- app_assoc].
    rewrite !existsb_app. cbn [existsb]. destruct (existsb (fun k => same k w) elements); [by rewrite !orb_true_r|].
    rewrite !orb_false_r. apply existsb_exists in Ef as (k & Hk & Ekv).
    destruct (existsb (fun k => same k w) set) eqn:Es; [done|]. symmetry. apply not_true_iff_false. intros Hvw.
    apply not_true_iff_false in Es. apply Es, existsb_exists. exists k. split; [done|].
    destruct agrees as [Hh _]. apply list_elem_of_In in Hk. rewrite Forall_forall in Hs. apply Hs in Hk.
    rewrite (equals_trans EnableCollation coll k v w); [done|apply Hh..|done]; done.
Qed.

(** The new elements are those of the argument without the ones that are equal to
    an element of the array or to an earlier one. *)
Lemma new_elements_spec elements set :
  Forall (fun v => v ∈ known) elements -> Forall (fun v => v ∈ known) set ->
  sublist (new_elements set elements) elements /\
  Forall (fun v => existsb (fun k => same k v) set = false) (new_elements set elements) /\
  StronglySorted (fun v w => same v w = false) (new_elements set elements) /\
  Forall (fun v => existsb (fun k => same k v) (set ++ new_elements set elements) = true) elements.
Proof.
  intros He. revert set. induction He as [|v elements Hv He IH]; intros set Hs.
  { split_and!; [done|constructor..]. }
  cbn [new_elements]. destruct (existsb (fun k => same k v) set) eqn:Ef.
  - destruct (IH set Hs) as (H1 & H2 & H3 & H4). split_and!; [by constructor|done..|].
    constructor; [by rewrite existsb_app, Ef|done].
  - destruct (IH (set ++ [v])) as (H1 & H2 & H3 & H4); [by apply Forall_app; split; [|constructor]|].
    assert (Forall (fun w => existsb (fun k => same k w) set = false /\ same v w = false) (new_elements (set ++ [v]) elements)) as Hn.
    { eapply Forall_impl; [exact H2|]. cbn beta. intros w. rewrite existsb_app. cbn [existsb]. rewrite orb_false_r. by intros [-> ->]%orb_false_iff. }
    split_and!.
    + by constructor.
    + constructor; [done|]. eapply Forall_impl; [exact Hn|]. by intros w [? _].
    + constructor; [done|]. eapply Forall_impl; [exact Hn|]. by intros w [_ ?].
    + constructor; [|eapply Forall_impl; [exact H4|]; intros w; cbn beta; by rewrite <- app_assoc].
      rewrite existsb_app. cbn [existsb]. destruct agrees as [Hh _]. destruct (Hh v Hv) as [Wv _].
      rewrite (equals_refl (applied EnableCollation coll) v Wv). by rewrite orb_true_r.
Qed.
End add_to_set.

(** The elements that $addToSet is asked to add. *)
Definition elements_to_add (updateValue : bson_value) : result (list bson_value) :=
  let! each := ValidateAddToSetWithDollarEach updateValue in
  Ok (match each with Some array => elements_of array | None => [updateValue] end).

Lemma add_to_set_writes coll known h existingValue updateValue elements writer :
  hash_agrees EnableCollation coll known h ->
  writer_modifyType writer = MODIFY_TYPE_NOCHANGE ->
  elements_to_add updateValue = Ok elements ->
  Forall (fun v => v ∈ known) (elements_of existingValue ++ elements) ->
  exists set isEach each, ValidateAddToSetWithDollarEach updateValue = Ok (if isEach : bool then Some each else None) /\
    Forall (fun v => v ∈ known) set /\
    (forall v, v ∈ known -> existsb (fun k => equals (applied EnableCollation coll) k v) set =
                            existsb (fun k => equals (applied EnableCollation coll) k v) (elements_of existingValue)) /\
    let added := new_elements coll set elements in
    AddToSetWriteFinalArray EnableCollation writer existingValue (if isEach then each else updateValue) isEach coll =
      Ok (mk_writer (Some (array_value (elements_of existingValue ++ added)))
            (if bool_decide (added = []) then MODIFY_TYPE_OPERATOR_WRITTEN else MODIFY_TYPE_CHANGED)).
Proof.
  intros Hagr Hw Hadd [He Hn]%Forall_app. unfold elements_to_add in Hadd.
  destruct (ValidateAddToSetWithDollarEach updateValue) as [each|]; [|done]. injection Hadd as <-.
  destruct (enter_existing_spec coll known h Hagr (elements_of existingValue) [] (UpdateWriterGetArrayWriter writer) He)
    as (set & Es & Hset & Hin); [constructor|]. exists set. cbn [app] in Hin.
  set (start := UpdateWriterGetArrayWriter writer) in Es. unfold AddToSetWriteFinalArray. fold start. rewrite Es.
  cbn [result_bind array_written array_modifyType app start UpdateWriterGetArrayWriter].
  assert (match elements_of existingValue with [] => MODIFY_TYPE_OPERATOR_WRITTEN | _ => MODIFY_TYPE_OPERATOR_WRITTEN end =
          MODIFY_TYPE_OPERATOR_WRITTEN) as -> by (by destruct (elements_of existingValue)).
  destruct each as [each|].
  - exists true, each. split_and!; [done..|]. rewrite (add_each_spec coll known h Hagr) by done. cbn [result_bind].
    unfold UpdateArrayWriterFinalize. rewrite Hw. cbn. by destruct (new_elements coll set (elements_of each)).
  - exists false, V_Eod. split_and!; [done..|]. apply Forall_cons in Hn as [Hv _].
    rewrite (set_find_spec EnableCollation coll known h Hagr) by done. cbn [result_bind new_elements].
    unfold UpdateArrayWriterFinalize. rewrite Hw. destruct (existsb _ set); cbn; [by rewrite app_nil_r|done].
Qed.


(** ** $push *)

(** The order of $sort: by the whole element or by fields, ascending or
    descending, and by the position where these are equal. *)
Definition directed {X} (direction : SortDirection) (order : X -> X -> comparison) : X -> X -> comparison :=
  match direction with
  | SortDirection_Ascending => order
  | SortDirection_Descending => cmp_opp order
  end.

Fixpoint fields_order (n : nat) (coll : option bytes) (specs : list (bytes * SortDirection))
  : bson_value -> bson_value -> comparison :=
  match specs with
  | [] => fun _ _ => Eq
  | (key, direction) :: rest =>
      cmp_lex (directed direction (cmp_on (sort_key key) (bson_order n coll))) (fields_order n coll rest)
  end.

Definition value_order (n : nat) (sortContext : SortContext) (coll : option bytes)
  : bson_value -> bson_value -> comparison :=
  match sortContext with
  | SortType_No_Sort => fun _ _ => Eq
  | SortType_WholeElementSort direction => directed direction (bson_order n coll)
  | SortType_ObjectFieldSort specs => fields_order n coll specs
  end.

Definition sort_order (n : nat) (sortContext : SortContext) (coll : option bytes)
  : ElementWithIndex -> ElementWithIndex -> comparison :=
  cmp_lex (cmp_on fst (value_order n sortContext coll)) (cmp_on snd Z.compare).

#[local] Instance directed_total {X} direction (order : X -> X -> comparison) :
  TotalCmp order -> TotalCmp (directed direction order).
Proof. intros Ho. by destruct direction; [|apply cmp_opp_total]. Qed.

#[local] Instance fields_order_total n coll specs : TotalCmp (fields_order n coll specs).
Proof. induction specs as [|[key direction] specs IH]; cbn [fields_order]; apply _. Qed.

#[local] Instance sort_order_total n sortContext coll : TotalCmp (sort_order n sortContext coll).
Proof. unfold sort_order. destruct sortContext; cbn [value_order]; apply _. Qed.

(** The values that are compared: they are well formed, and the result of the
    comparison can be negated in 32 bits. *)
Definition sort_keys (sortContext : SortContext) (v : bson_value) : list bson_value :=
  match sortContext with
  | SortType_No_Sort => []
  | SortType_WholeElementSort _ => [v]
  | SortType_ObjectFieldSort specs => map (fun s => sort_key s.1 v) specs
  end.

Definition sortable_keys (n : nat) (coll : option bytes) (v w : bson_value) : Prop :=
  wf_value v = true /\ wf_value w = true /\ (depth v <= n)%nat /\
  forall z b, CompareBsonValueAndTypeWithCollation v w coll = Ok (z, b) -> - 2 ^ 31 < z < 2 ^ 31.

Definition sortable (n : nat) (sortContext : SortContext) (coll : option bytes) (elements : list bson_value) : Prop :=
  forall v w, v ∈ elements -> w ∈ elements ->
    Forall2 (sortable_keys n coll) (sort_keys sortContext v) (sort_keys sortContext w).

Definition directed_result (cmp : Z) (direction : SortDirection) : Z :=
  match direction with SortDirection_Ascending => cmp | SortDirection_Descending => int32 (- cmp) end.

Lemma directed_sign {X} cmp direction (order : X -> X -> comparison) x y :
  - 2 ^ 31 < cmp < 2 ^ 31 -> sgn_cmp cmp = order x y ->
  sgn_cmp (directed_result cmp direction) = directed direction order x y.
Proof.
  intros Hr Hs. destruct direction; [done|]. cbn [directed_result directed]. unfold cmp_opp.
  rewrite wrap_s_small by lia. by rewrite sgn_cmp_opp, Hs.
Qed.

Lemma sgn_zero z : (z =? 0) = match sgn_cmp z with Eq => true | _ => false end.
Proof. by destruct z. Qed.

Lemma compare_fields_spec n coll specs v w :
  Forall2 (sortable_keys n coll) (map (fun s => sort_key s.1 v) specs) (map (fun s => sort_key s.1 w) specs) ->
  exists cmp direction, compare_fields coll specs v w = Ok (cmp, direction) /\
    (cmp =? 0) = (match fields_order n coll specs v w with Eq => true | _ => false end) /\
    (cmp <> 0 -> sgn_cmp (directed_result cmp direction) = fields_order n coll specs v w).
Proof.
  induction specs as [|[key direction] specs IH]; intros Hs; [by exists 0, SortDirection_Ascending|].
  cbn [map fst] in Hs. inversion Hs as [|?? ?? (Wv & Ww & Hd & Hz) Hr]; subst. cbn [compare_fields].
  destruct (compare_and_type_refines n coll _ _ Hd Wv Ww) as (z & Ez & Sz). rewrite Ez. cbn [result_bind].
  pose proof (Hz _ _ Ez) as Hrange.
  pose proof (directed_sign z direction (cmp_on (sort_key key) (bson_order n coll)) v w Hrange Sz) as Hsg.
  cbn [fields_order]. unfold cmp_lex at 1 2. destruct (Z.eqb_spec z 0) as [->|Hnz]; cbn [negb].
  - assert (directed direction (cmp_on (sort_key key) (bson_order n coll)) v w = Eq) as -> by (rewrite <- Hsg; by destruct direction).
    by apply IH.
  - exists z, direction. assert (directed_result z direction <> 0) as Hn0.
    { destruct direction; [done|]. cbn. rewrite wrap_s_small by lia. lia. }
    split; [done|]. rewrite <- Hsg. rewrite (proj2 (Z.eqb_neq z 0)) by done.
    split; [|intros _]; by destruct (directed_result z direction).
Qed.

Lemma sort_compare_spec n sortContext coll x y :
  Forall2 (sortable_keys n coll) (sort_keys sortContext x.1) (sort_keys sortContext y.1) ->
  0 <= x.2 < 2 ^ 31 -> 0 <= y.2 < 2 ^ 31 ->
  exists z, CompareBsonValuesForSort sortContext coll x y = Ok z /\ sgn_cmp z = sort_order n sortContext coll x y.
Proof.
  intros Hs Hx Hy. unfold CompareBsonValuesForSort.
  assert (exists cmp direction,
    match sortContext with
    | SortType_WholeElementSort direction =>
        let! (cmp, _) := CompareBsonValueAndTypeWithCollation x.1 y.1 coll in Ok (cmp, direction)
    | SortType_ObjectFieldSort specs => compare_fields coll specs x.1 y.1
    | SortType_No_Sort => Ok (0, SortDirection_Ascending)
    end = Ok (cmp, direction) /\
    (cmp =? 0) = (match value_order n sortContext coll x.1 y.1 with Eq => true | _ => false end) /\
    (cmp <> 0 -> sgn_cmp (directed_result cmp direction) = value_order n sortContext coll x.1 y.1))
    as (cmp & direction & -> & Hz & Hn).
  { destruct sortContext as [|specs|direction]; [by exists 0, SortDirection_Ascending|by apply compare_fields_spec|].
    cbn [sort_keys] in Hs. inversion Hs as [|?? ?? (Wv & Ww & Hd & Hz) _]; subst.
    destruct (compare_and_type_refines n coll _ _ Hd Wv Ww) as (z & Ez & Sz). rewrite Ez. exists z, direction.
    pose proof (directed_sign z direction (bson_order n coll) x.1 y.1 (Hz _ _ Ez) Sz) as Hsg.
    split_and!; [done| |done]. rewrite sgn_zero, Sz. cbn [value_order]. destruct direction; [done|]. cbn [directed]. unfold cmp_opp.
    by destruct (bson_order n coll x.1 y.1). }
  cbn [result_bind]. unfold sort_order, cmp_lex, cmp_on. destruct (Z.eqb_spec cmp 0) as [->|Hc].
  - eexists. split; [done|]. rewrite int32_uint32, sgn_cmp_sub by lia.
    by destruct (value_order n sortContext coll x.1 y.1).
  - exists (directed_result cmp direction). split; [done|]. rewrite Hn by done.
    by destruct (value_order n sortContext coll x.1 y.1).
Qed.

(** The elements before the slice: sorted, or with the new ones at their position. *)
Definition push_sorted (n : nat) (pushState : DollarPushUpdateState) (coll : option bytes)
  (inserted sorted : list bson_value) : Prop :=
  match push_sortContext pushState with
  | SortType_No_Sort => sorted = inserted
  | sortContext =>
      exists l, l ≡ₚ imap (fun i v => (v, Z.of_nat i)) inserted /\
        StronglySorted (fun x y => sort_order n sortContext coll x y <> Gt) l /\ sorted = map fst l
  end.

(** The new elements at a position, from the end if it is negative. *)
Definition insert_at (existing each : list bson_value) (position : Z) : list bson_value :=
  let p := if position <? 0 then (length existing - Z.to_nat (- position))%nat
           else Z.to_nat (Z.min position (Z.of_nat (length existing))) in
  take p existing ++ each ++ drop p existing.

Lemma push_before_spec existing index position :
  0 <= position - index ->
  let p := Z.to_nat (Z.min (position - index) (Z.of_nat (length existing))) in
  push_before existing index position = (take p existing, drop p existing).
Proof.
  revert index. induction existing as [|v existing IH]; intros index Hp; cbn zeta; [by rewrite take_nil, drop_nil|].
  cbn [push_before]. destruct (Z.ltb_spec index position) as [Hi|Hi].
  - rewrite IH by lia. cbn zeta.
    replace (Z.to_nat (Z.min (position - index) (Z.of_nat (length (v :: existing)))))
      with (S (Z.to_nat (Z.min (position - (index + 1)) (Z.of_nat (length existing))))) by (cbn [length]; lia).
    done.
  - by replace (Z.min (position - index) (Z.of_nat (length (v :: existing)))) with 0 by (cbn [length]; lia).
Qed.

Lemma push_at_spec existing each position : push_at existing each position = insert_at existing each position.
Proof.
  unfold push_at, insert_at. set (len := Z.of_nat (length existing)).
  destruct (Z.ltb_spec position 0) as [Hn|Hn].
  - set (from_end := if position <=? - len then 0 else len + position).
    assert (0 <= from_end <= len /\ Z.to_nat from_end = (length existing - Z.to_nat (- position))%nat) as [Hr Hf]
      by (unfold from_end; destruct (Z.leb_spec position (- len)); lia).
    rewrite push_before_spec by lia. cbn zeta. rewrite Z.sub_0_r, Z.min_l, Hf by lia. done.
  - rewrite push_before_spec by lia. cbn zeta. by rewrite Z.sub_0_r.
Qed.

(** The first elements, or the last ones for a negative number. *)
Definition slice_of (slice : Z) (elements : list bson_value) : list bson_value :=
  if slice <? 0 then drop (length elements - Z.to_nat (- slice)) elements else take (Z.to_nat slice) elements.

Lemma push_sorts {QL : QSortLaws Q} n pushState coll inserted :
  sortable n (push_sortContext pushState) coll inserted -> Z.of_nat (length inserted) < 2 ^ 31 ->
  exists sorted,
    match push_sortContext pushState with
    | SortType_No_Sort => Ok inserted
    | sortContext =>
        let! sorted := qsort_arg (CompareBsonValuesForSort sortContext coll)
                         (imap (fun i v => (v, Z.of_nat i)) inserted) in
        Ok (map fst sorted)
    end = Ok sorted /\ push_sorted n pushState coll inserted sorted.
Proof.
  intros Hs Hlen. unfold push_sorted.
  assert (forall sortContext, push_sortContext pushState = sortContext ->
    exists l, qsort_arg (CompareBsonValuesForSort sortContext coll) (imap (fun i v => (v, Z.of_nat i)) inserted) = Ok l /\
      l ≡ₚ imap (fun i v => (v, Z.of_nat i)) inserted /\
      StronglySorted (fun x y => sort_order n sortContext coll x y <> Gt) l) as Hsort.
  { intros sortContext <-. apply qsort_sorts; [apply _|].
    assert (forall x, In x (imap (fun i v => (v, Z.of_nat i)) inserted) -> x.1 ∈ inserted /\ 0 <= x.2 < 2 ^ 31) as Hx.
    { intros x Hx. apply list_elem_of_In, elem_of_lookup_imap in Hx as (i & v & -> & Hi). cbn [fst snd].
      pose proof (lookup_lt_Some _ _ _ Hi). split; [by apply list_elem_of_lookup_2 in Hi|lia]. }
    intros x y [Hx1 Hx2]%Hx [Hy1 Hy2]%Hx. apply sort_compare_spec; [by apply Hs|lia..]. }
  destruct (push_sortContext pushState) as [|specs|direction]; [by exists inserted|..];
    destruct (Hsort _ eq_refl) as (l & -> & Hp & Hss); exists (map fst l); (split; [done|by exists l]).
Qed.

Lemma slice_range slice elements :
  let (sliceStart, sliceEnd) := push_slice_range slice (Z.of_nat (length elements)) in
  take (Z.to_nat (sliceEnd - sliceStart)) (drop (Z.to_nat sliceStart) elements) = slice_of slice elements /\
  ((sliceEnd <=? sliceStart) = bool_decide (slice_of slice elements = [])).
Proof.
  unfold push_slice_range, slice_of. destruct (Z.ltb_spec slice 0) as [Hs|Hs].
  - assert (forall s, 0 <= s <= Z.of_nat (length elements) ->
      take (Z.to_nat (Z.of_nat (length elements) - s)) (drop (Z.to_nat s) elements) = drop (Z.to_nat s) elements /\
      ((Z.of_nat (length elements) <=? s) = bool_decide (drop (Z.to_nat s) elements = []))) as Hd.
    { intros s Hr. split; [apply take_ge; rewrite length_drop; lia|].
      apply eq_true_iff_eq. rewrite Z.leb_le, bool_decide_eq_true. split.
      - intros Hl. apply drop_ge. lia.
      - intros Hl%(f_equal length). rewrite length_drop in Hl. cbn in Hl. lia. }
    destruct (Z.leb_spec slice (- Z.of_nat (length elements))).
    + assert ((length elements - Z.to_nat (- slice))%nat = Z.to_nat 0) as -> by lia. apply Hd. lia.
    + assert ((length elements - Z.to_nat (- slice))%nat = Z.to_nat (Z.of_nat (length elements) + slice)) as -> by lia.
      apply Hd. lia.
  - rewrite drop_0. assert (forall e, 0 <= e <= Z.of_nat (length elements) ->
      ((e <=? 0) = bool_decide (take (Z.to_nat e) elements = []))) as Hd.
    { intros e Hr. apply eq_true_iff_eq. rewrite Z.leb_le, bool_decide_eq_true. split.
      - intros Hl. by replace (Z.to_nat e) with O by lia.
      - intros Hl%(f_equal length). rewrite length_take in Hl. cbn in Hl. lia. }
    destruct (Z.ltb_spec (Z.of_nat (length elements)) slice); rewrite Z.sub_0_r.
    + rewrite Nat2Z.id, firstn_all, (take_ge elements (Z.to_nat slice)) by lia. split; [done|].
      rewrite (Hd (Z.of_nat (length elements))) by lia. by rewrite Nat2Z.id, firstn_all.
    + split; [done|]. apply Hd. lia.
Qed.

Lemma write_all_spec elements writer :
  write_all UpdateArrayWriterWriteModifiedValue elements writer =
  mk_array_writer (array_written writer ++ elements)
    (if bool_decide (elements = []) then array_modifyType writer else MODIFY_TYPE_CHANGED).
Proof.
  revert writer. induction elements as [|v elements IH]; intros writer; cbn [write_all fold_left].
  { cbn. rewrite app_nil_r. by destruct writer. }
  fold (write_all UpdateArrayWriterWriteModifiedValue elements (UpdateArrayWriterWriteModifiedValue writer v)).
  rewrite IH. cbn. rewrite <- app_assoc. by destruct elements.
Qed.

(** C13: $push with modifiers.  The new elements are inserted at their position,
    then the elements are sorted, by value or by fields and those that are equal in
    their old order, and then the slice is kept; it is a change unless the result
    and the array are empty. *)
Theorem push_correct {QL : QSortLaws Q} n existing updateValue pushState writer state :
  let inserted := insert_at (map snd existing) (elements_of (push_dollarEachArray pushState)) (push_position pushState) in
  ValidateUpdateSpecAndSetPushUpdateState updateValue = Ok (Some pushState) ->
  writer_modifyType writer = MODIFY_TYPE_NOCHANGE ->
  sortable n (push_sortContext pushState) (collationString state) inserted ->
  Z.of_nat (length inserted) < 2 ^ 31 ->
  exists sorted, push_sorted n pushState (collationString state) inserted sorted /\
    let kept := slice_of (push_slice pushState) sorted in
    HandleUpdateDollarPush (V_Array existing) writer updateValue state =
      Ok (mk_writer (Some (array_value kept))
            (if bool_decide (kept = []) && bool_decide (map snd existing = [])
             then MODIFY_TYPE_OPERATOR_WRITTEN else MODIFY_TYPE_CHANGED)).
Proof.
  cbn zeta. intros Hv Hw Hs Hlen. set (inserted := insert_at _ _ _) in *.
  destruct (push_sorts n pushState (collationString state) inserted Hs Hlen) as (sorted & Hq & Hsorted).
  exists sorted. split; [done|]. unfold HandleUpdateDollarPush. rewrite Hv. cbn [result_bind].
  unfold ApplyDollarPushModifiers. rewrite push_at_spec. fold inserted. rewrite Hq. cbn [result_bind].
  pose proof (slice_range (push_slice pushState) sorted) as Hsl.
  destruct (push_slice_range (push_slice pushState) (Z.of_nat (length sorted))) as [sliceStart sliceEnd].
  destruct Hsl as [-> ->]. rewrite write_all_spec. unfold UpdateArrayWriterFinalize. rewrite Hw.
  set (kept := slice_of (push_slice pushState) sorted).
  destruct (bool_decide_reflect (kept = [])) as [->|Hk]; [|done]. cbn [andb].
  by destruct (bool_decide (map snd existing = [])).
Qed.
End operators.

(** ** Examples *)

Section examples.
Import ExactBid ZeroMath FoldCase FindFirst Examples UpdateSamples.

Local Open Scope string_scope.
Local Open Scope Z_scope.

Definition text_array (l : list string) : bson_doc := imap (fun i s => (index_key i, V_Utf8 (str s))) l.
Definition no_state : CurrentDocumentState := mk_docstate V_Null false [] None.

Lemma array_removals_witness :
  HandleUpdateDollarPullAll (V_Array (text_array ["a"; "b"; "a"; "c"])) initial_writer
    (V_Array (text_array ["a"; "x"])) no_state =
  Ok (removed_from [V_Utf8 (str "b"); V_Utf8 (str "c")] true).
Proof.
  refine (eq_trans (proj1 (proj2 (array_removals (text_array ["a"; "b"; "a"; "c"]) initial_writer eq_refl _))
    (text_array ["a"; "x"]) no_state _) _); vm_compute; reflexivity.
Defined.

Definition added_hash (v : bson_value) : Z :=
  match BsonValueHashFuncCore true v None with Ok z => z | Err _ => 0 end.


Definition push_argument : bson_value :=
  V_Document [(str "$each", V_Array (text_array ["a"])); (str "$sort", V_Int32 1); (str "$slice", V_Int32 2)].

Definition sample_push : DollarPushUpdateState :=
  mk_push (V_Array (text_array ["a"])) UINT32_MAX 2 (SortType_WholeElementSort SortDirection_Ascending).

Definition sortable_check (v w : bson_value) : bool :=
  wf_value v && wf_value w && (depth v <=? 1)%nat &&
  match CompareBsonValueAndTypeWithCollation v w None with
  | Ok (z, _) => (- 2 ^ 31 <? z) && (z <? 2 ^ 31)
  | Err _ => true
  end.

Lemma whole_sortable direction elements :
  forallb (fun v => forallb (sortable_check v) elements) elements = true ->
  sortable 1 (SortType_WholeElementSort direction) None elements.
Proof.
  intros Hc v w Hv Hw. rewrite forallb_forall in Hc. apply list_elem_of_In in Hv, Hw.
  specialize (Hc v Hv). rewrite forallb_forall in Hc. specialize (Hc w Hw). unfold sortable_check in Hc.
  apply andb_prop in Hc as [[[Wv Ww]%andb_prop Hd]%andb_prop Hz]. apply Nat.leb_le in Hd.
  constructor; [|constructor]. split_and!; [done..|]. intros z b Ez. rewrite Ez in Hz. lia.
Qed.

Lemma push_correct_witness :
  exists sorted, push_sorted 1 sample_push None (map snd (text_array ["c"; "b"; "a"])) sorted /\
    HandleUpdateDollarPush (V_Array (text_array ["c"; "b"])) initial_writer push_argument no_state =
      Ok (mk_writer (Some (array_value (slice_of 2 sorted)))
            (if bool_decide (slice_of 2 sorted = []) && false then MODIFY_TYPE_OPERATOR_WRITTEN else MODIFY_TYPE_CHANGED)).
Proof.
  apply (push_correct 1 (text_array ["c"; "b"]) push_argument sample_push initial_writer no_state).
  - vm_compute. reflexivity.
  - reflexivity.
  - apply whole_sortable. vm_compute. reflexivity.
  - vm_compute. reflexivity.
Defined.
End examples.
