(* ===== verification/UpdateDocument.v ===== *)
(** * The update of a document

    [pg_documentdb/src/update/bson_update.c]: which kind of update a command
    asks for, the replacement of a document, and the update as a whole.  An empty
    source document stands for an upsert, which starts from a document that is
    built from the query.

    Two parts are arguments of the definitions: the document that an upsert
    starts from, for which [aggregation/bson_query.c] walks the query, and the
    updates by an aggregation pipeline ([bson_update_aggregation.c]).  The states that the code caches between rows
    are computed from the same arguments and are recomputed here. *)

From Stdlib Require Import String.
From stdpp Require Import base numbers list option sorting.
From Stdlib Require Import ZArith Lia.
From S2P Require Import Prelude Binary64 Bson PgbsonElement StringView Traversal Decimal128 Collation.
From S2P Require Import BsonCompare BsonHash Arithmetic QueryOperators QuerySets.
From S2P Require Import BitOperators UpdateOperators UpdateTree UpdateApply UpdateBuild.

Inductive UpdateType : Set :=
| UpdateType_ReplaceDocument
| UpdateType_Operator
| UpdateType_AggregationPipeline.

(** The loop over the keys of the update. *)
Fixpoint update_type_loop (fields : bson_doc) (isUpdateTypeReplacement : bool) : result UpdateType :=
  match fields with
  | [] => Ok UpdateType_ReplaceDocument
  | (path, _) :: rest =>
      if (1 <? blen path) && key_starts_with path DOLLAR then
        if negb isUpdateTypeReplacement then Ok UpdateType_Operator
        else Err ERRCODE_DOCUMENTDB_DOLLARPREFIXEDFIELDNAME
      else update_type_loop rest true
  end.

Definition DetermineUpdateType (updateSpec : bson_value) : result UpdateType :=
  match updateSpec with
  | V_Array _ => Ok UpdateType_AggregationPipeline
  | V_Document fields => update_type_loop fields false
  | _ => Err ERRCODE_DOCUMENTDB_TYPEMISMATCH
  end.

Definition BSON_MAX_ALLOWED_SIZE : Z := 16 * 1024 * 1024.

Definition PgbsonGetBsonSize (document : bson_doc) : Z := blen (doc_bytes document).

Definition IsPgbsonEmptyDocument (document : bson_doc) : bool :=
  match document with [] => true | _ => false end.

Definition ValidateIdForUpdateTypeReplacement (idValue : bson_value) : result unit :=
  match idValue with
  | V_Array _ => Err ERRCODE_DOCUMENTDB_NOTSINGLEVALUEFIELD
  | _ => ValidateIdField idValue
  end.

Section update.
Context {L : BidLib} {A : BidMath} {I : Icu} {T : DynaHash} {H : PgHash} {F : FindField}.
Context {E : QueryExpression} {FD : FindDescendant} {Q : QSort} {PQ : PositionalQuery}.
(** libbson's validation of a document. *)
Context (PgbsonValidateInputBson : bson_doc -> result unit) (EnableCollation : bool).
(** The parts that are not modelled. *)
Context (BuildBsonDocumentFromQuery : bson_value -> UpdateType -> result bson_doc).
Context (AggregationState : Type).
Context (GetAggregationPipelineUpdateState : bson_value -> bson_value -> option bytes -> result AggregationState).
Context (ProcessAggregationPipelineUpdate : bson_doc -> AggregationState -> bool -> result (bson_doc * bool)).

(** The fields of a replacement after the [_id]. *)
Fixpoint replace_fields (sourceIdValue : option bson_value) (fields : bson_doc) : result bson_doc :=
  match fields with
  | [] => Ok []
  | (key, value) :: rest =>
      if bool_decide (key = IdField) then
        let! same := match sourceIdValue with
                     | Some id => BsonValueEquals id value
                     | None => Ok true
                     end in
        if negb same then Err ERRCODE_DOCUMENTDB_IMMUTABLEFIELD else replace_fields sourceIdValue rest
      else
        let! more := replace_fields sourceIdValue rest in Ok ((key, value) :: more)
  end.

(** The [_id] that an upsert writes: of the replacement, of the query, or a new one. *)
Definition upsert_id (new_oid : bytes) (sourceDoc replacement : bson_doc) : result bson_value :=
  let idFromReplaceDocument := bson_iter_find_w_len replacement IdField in
  let idFromQueryDocument := default V_Eod (bson_iter_find_w_len sourceDoc IdField) in
  let! same :=
    match idFromReplaceDocument, idFromQueryDocument with
    | None, _ | _, V_Eod => Ok true
    | Some id, _ => BsonValueEquals id idFromQueryDocument
    end in
  if negb same then Err ERRCODE_DOCUMENTDB_IMMUTABLEFIELD
  else
    match idFromReplaceDocument, idFromQueryDocument with
    | Some id, _ => let! _ := ValidateIdForUpdateTypeReplacement id in Ok id
    | None, V_Eod => Ok (V_Oid new_oid)
    | None, id => let! _ := ValidateIdForUpdateTypeReplacement id in Ok id
    end.

Definition ProcessReplaceDocument (new_oid : bytes) (sourceDoc : bson_doc) (updateSpec : bson_value)
  (isUpsert : bool) : result bson_doc :=
  match updateSpec with
  | V_Document replacement =>
      let! _ := PgbsonValidateInputBson replacement in
      let! (sourceIdValue, id) :=
        if negb isUpsert then
          match bson_iter_find_w_len sourceDoc IdField with
          | None => Err ERRCODE_INTERNAL_ERROR
          | Some id => Ok (Some id, id)
          end
        else
          let! id := upsert_id new_oid sourceDoc replacement in Ok (None, id) in
      let! fields := replace_fields sourceIdValue replacement in
      Ok ((IdField, id) :: fields)
  | _ => Err ERRCODE_DOCUMENTDB_BADVALUE
  end.

(** What is computed once for an update. *)
Inductive UpdateState : Type :=
| ReplaceState
| OperatorState (operatorState : UpdateTree)
| PipelineState (aggregationState : AggregationState).

Record BsonUpdateMetadata : Type := mk_metadata {
  updateState : UpdateState;
  metadata_collationString : option bytes;
  sourceDocOnUpsert : option bson_doc;
}.

Definition BuildBsonUpdateMetadata (updateSpec querySpec : bson_value) (arrayFilters : option bson_value)
  (variableSpec : bson_value) (collationString : option bytes) (buildSourceDocOnUpsert : bool)
  : result BsonUpdateMetadata :=
  let! updateType := DetermineUpdateType updateSpec in
  let collation := if IsCollationApplicable EnableCollation collationString then collationString else None in
  let! sourceDocOnUpsert :=
    if buildSourceDocOnUpsert then
      let! doc := BuildBsonDocumentFromQuery querySpec updateType in Ok (Some doc)
    else Ok None in
  let! state :=
    match updateType with
    | UpdateType_AggregationPipeline =>
        match arrayFilters with
        | None | Some (V_Array []) =>
            let! state := GetAggregationPipelineUpdateState updateSpec variableSpec collation in
            Ok (PipelineState state)
        | Some _ => Err ERRCODE_DOCUMENTDB_BADVALUE
        end
    | UpdateType_Operator =>
        let! tree := GetOperatorUpdateState updateSpec querySpec arrayFilters collation buildSourceDocOnUpsert in
        Ok (OperatorState tree)
    | UpdateType_ReplaceDocument =>
        match updateSpec with
        | V_Document _ => Ok ReplaceState
        | _ => Err ERRCODE_DOCUMENTDB_BADVALUE
        end
    end in
  Ok (mk_metadata state collation sourceDocOnUpsert).

(** [None] if nothing changes. *)
Definition BsonUpdateDocumentCore (clock : Z * Z) (new_oid : bytes) (sourceDocument : bson_doc)
  (updateSpec : bson_value) (metadata : BsonUpdateMetadata) : result (option bson_doc) :=
  let isUpsert := match sourceDocument with [] => true | _ => false end in
  let! sourceDocument :=
    if isUpsert then
      match sourceDocOnUpsert metadata with Some doc => Ok doc | None => Err ERRCODE_INTERNAL_ERROR end
    else Ok sourceDocument in
  let! document :=
    match updateState metadata with
    | ReplaceState =>
        let! document := ProcessReplaceDocument new_oid sourceDocument updateSpec isUpsert in
        Ok (Some document)
    | OperatorState tree =>
        ProcessUpdateOperatorWithState PgbsonValidateInputBson EnableCollation clock new_oid sourceDocument tree
          (metadata_collationString metadata) isUpsert
    | PipelineState state =>
        let! (document, isReplacement) := ProcessAggregationPipelineUpdate sourceDocument state isUpsert in
        if negb isReplacement && negb isUpsert && PgbsonEquals (doc_bytes sourceDocument) (doc_bytes document)
        then Ok None else Ok (Some document)
    end in
  match document with
  | Some doc =>
      if BSON_MAX_ALLOWED_SIZE <? PgbsonGetBsonSize doc then
        Err (if isUpsert then ERRCODE_DOCUMENTDB_DOCUMENTTOUPSERTLARGERTHANMAXSIZE
             else ERRCODE_DOCUMENTDB_DOCUMENTAFTERUPDATELARGERTHANMAXSIZE)
      else Ok document
  | None => Ok None
  end.

Definition BsonUpdateDocument (clock : Z * Z) (new_oid : bytes) (sourceDocument : bson_doc)
  (updateSpec querySpec : bson_value) (arrayFilters : option bson_value) (variableSpec : bson_value)
  (collationString : option bytes) : result (option bson_doc) :=
  let buildSourceDocOnUpsert := IsPgbsonEmptyDocument sourceDocument in
  let! metadata := BuildBsonUpdateMetadata updateSpec querySpec arrayFilters variableSpec collationString
                     buildSourceDocOnUpsert in
  BsonUpdateDocumentCore clock new_oid sourceDocument updateSpec metadata.

(** ** Replacement *)

Context {FL : FindFieldLaws F}.

(** The fields other than the [_id]. *)
Definition without_id (fields : bson_doc) : bson_doc := List.filter (fun f => negb (bool_decide (f.1 = IdField))) fields.

Lemma without_id_no_id fields : IdField ∉ map fst (without_id fields).
Proof.
  intros (f & Hf & Hin)%list_elem_of_fmap_1. apply list_elem_of_In, filter_In in Hin as [_ Hin].
  by rewrite <- Hf, bool_decide_eq_true_2 in Hin.
Qed.

Lemma replace_fields_new fields : replace_fields None fields = Ok (without_id fields).
Proof.
  induction fields as [|[k v] fields IH]; [done|].
  cbn [replace_fields without_id List.filter fst]. fold (without_id fields). rewrite IH. by case_bool_decide.
Qed.

Lemma replace_fields_same id fields same :
  (forall v, (IdField, v) ∈ fields -> BsonValueEquals id v = Ok (same v)) ->
  replace_fields (Some id) fields =
  if forallb (fun f => negb (bool_decide (f.1 = IdField)) || same f.2) fields
  then Ok (without_id fields) else Err ERRCODE_DOCUMENTDB_IMMUTABLEFIELD.
Proof.
  induction fields as [|[k v] fields IH]; intros Hs; [done|].
  cbn [replace_fields forallb without_id List.filter fst snd]. fold (without_id fields).
  rewrite IH by (intros w Hw; apply Hs; by right).
  destruct (bool_decide_reflect (k = IdField)) as [->|Hk]; cbn [negb orb].
  - rewrite (Hs v) by (by left). cbn [result_bind]. by destruct (same v).
  - by destruct (forallb _ fields).
Qed.

Lemma replace_fields_ok sourceIdValue fields out : replace_fields sourceIdValue fields = Ok out -> out = without_id fields.
Proof.
  revert out. induction fields as [|[k v] fields IH]; intros out; cbn [replace_fields without_id List.filter fst];
    [by intros [= <-]|]. fold (without_id fields). case_bool_decide; cbn [negb].
  - destruct (match sourceIdValue with Some id => _ | None => _ end) as [[]|]; try done. apply IH.
  - destruct (replace_fields sourceIdValue fields) as [more|]; [|done]. intros [= <-]. f_equal. by apply IH.
Qed.

Section comparisons.
Context {BL : BidLaws L} {IL : IcuLaws I}.

Lemma equals_decides id v : wf_value id = true -> wf_value v = true -> BsonValueEquals id v = Ok (equals None id v).
Proof.
  intros Wi Wv. unfold BsonValueEquals. rewrite compare_and_type_none.
  destruct (entry_compare None id v Wi Wv) as (z & b & -> & Hz & _). cbn [result_bind]. by rewrite Hz.
Qed.

(** C16: the replacement of a document.  The new document has the [_id] of the old
    one as its first field, and then the fields of the replacement without those
    named [_id]; if one of these is not equal to the [_id] it is an error. *)
Theorem replace_correct new_oid sourceDoc replacement id :
  PgbsonValidateInputBson replacement = Ok tt ->
  field_value sourceDoc IdField = Some id -> wf_value id = true -> wf_fields replacement = true ->
  ProcessReplaceDocument new_oid sourceDoc (V_Document replacement) false =
  if forallb (fun f => negb (bool_decide (f.1 = IdField)) || equals None id f.2) replacement
  then Ok ((IdField, id) :: without_id replacement) else Err ERRCODE_DOCUMENTDB_IMMUTABLEFIELD.
Proof.
  intros Hv Hid Wi Wr. cbn [ProcessReplaceDocument negb]. rewrite Hv, find_id, Hid. cbn [result_bind].
  rewrite (replace_fields_same id replacement (equals None id)).
  - by destruct (forallb _ replacement).
  - intros v Hin. apply equals_decides; [done|]. clear -Wr Hin.
    induction replacement as [|[k w] r IH]; [by apply not_elem_of_nil in Hin|].
    apply wf_fields_cons in Wr as (_ & Ww & Wr). apply elem_of_cons in Hin as [[= _ ->]|Hin]; [done|by apply IH].
Qed.
End comparisons.

(** ** The update as a whole *)

Lemma update_type_document fields t : DetermineUpdateType (V_Document fields) = Ok t -> t <> UpdateType_AggregationPipeline.
Proof.
  cbn [DetermineUpdateType]. generalize false. induction fields as [|[k v] fields IH]; intros b; cbn [update_type_loop];
    [by intros [= <-]|]. case_match; [|by apply IH]. case_match; [by intros [= <-]|done].
Qed.

(** C11: no update of a document changes its [_id].  A document that an update with
    operators or a replacement returns is not larger than the limit, and has the
    [_id] once, as its first field, the same as or equal to that of the old one. *)
Theorem update_document_keeps_id clock new_oid sourceDocument fields querySpec arrayFilters variableSpec
  collationString old out :
  field_value sourceDocument IdField = Some old -> old <> V_Eod ->
  BsonUpdateDocument clock new_oid sourceDocument (V_Document fields) querySpec arrayFilters variableSpec
    collationString = Ok (Some out) ->
  PgbsonGetBsonSize out <= BSON_MAX_ALLOWED_SIZE /\
  exists id rest, out = (IdField, id) :: rest /\ (IdField ∉ map fst rest) /\
    (id = old \/ BsonValueEquals id old = Ok true).
Proof.
  intros Hold Hne Hu. unfold BsonUpdateDocument, BuildBsonUpdateMetadata, IsPgbsonEmptyDocument in Hu.
  unfold BsonUpdateDocumentCore in Hu.
  assert (match sourceDocument with [] => true | _ => false end = false) as Hd by (by destruct sourceDocument).
  rewrite Hd in Hu. destruct (DetermineUpdateType (V_Document fields)) as [t|] eqn:Et; [|done].
  apply update_type_document in Et. cbn [result_bind] in Hu. destruct t; [| |done]; cbn [result_bind] in Hu.
  - cbn [updateState] in Hu.
    destruct (ProcessReplaceDocument new_oid sourceDocument (V_Document fields) false) as [d|] eqn:Ep; [|done].
    cbn [result_bind] in Hu. destruct (Z.ltb_spec BSON_MAX_ALLOWED_SIZE (PgbsonGetBsonSize d)); [done|].
    injection Hu as <-. split; [done|]. cbn [ProcessReplaceDocument negb] in Ep. rewrite find_id, Hold in Ep.
    destruct (PgbsonValidateInputBson fields); [|done]. cbn [result_bind] in Ep.
    destruct (replace_fields (Some old) fields) as [r|] eqn:Er; [|done]. injection Ep as <-.
    apply replace_fields_ok in Er as ->. exists old, (without_id fields).
    split_and!; [done|apply without_id_no_id|by left].
  - destruct (GetOperatorUpdateState (V_Document fields) querySpec arrayFilters _ false) as [tree|]; [|done].
    cbn [result_bind updateState metadata_collationString] in Hu.
    destruct (ProcessUpdateOperatorWithState _ _ _ _ _ _ _ _) as [[d|]|] eqn:Ep; [|done|done]. cbn [result_bind] in Hu.
    destruct (Z.ltb_spec BSON_MAX_ALLOWED_SIZE (PgbsonGetBsonSize d)); [done|].
    injection Hu as <-. split; [done|].
    destruct (process_result _ _ _ _ _ _ _ _ _ Ep) as (id & r & m & -> & Hno & _ & _ & _ & Heq).
    rewrite Hold in Heq. exists id, r. split_and!; [done..|]. right. by apply Heq.
Qed.
End update.

(** ** Examples *)

Section examples.
Import ExactBid ZeroMath FoldCase FindFirst Examples UpdateSamples NoPositionalQuery UpdateExamples.

Definition replacement : bson_doc := [named "a" (text "new"); named "_id" (text "k"); named "b" (text "x")].

Lemma replace_correct_witness :
  ProcessReplaceDocument (fun _ => Ok tt) [] sample_document (V_Document replacement) false =
  Ok [named "_id" (text "k"); named "a" (text "new"); named "b" (text "x")].
Proof.
  refine (eq_trans (replace_correct (fun _ => Ok tt) [] sample_document replacement (text "k") _ _ _ _) _);
    vm_compute; reflexivity.
Defined.

Definition full_update (updateSpec doc : bson_doc) : result (option bson_doc) :=
  BsonUpdateDocument (fun _ => Ok tt) true (fun _ _ => Ok []) unit (fun _ _ _ => Ok tt)
    (fun doc _ _ => Ok (doc, false)) (0, 0) [] doc (V_Document updateSpec) (V_Document []) None V_Null None.

Lemma sample_full_update : full_update sample_update sample_document = Ok (Some sample_updated).
Proof. vm_compute. reflexivity. Qed.

Lemma update_document_keeps_id_witness :
  PgbsonGetBsonSize sample_updated <= BSON_MAX_ALLOWED_SIZE /\
  exists id rest, sample_updated = (IdField, id) :: rest /\ (IdField ∉ map fst rest) /\
    (id = text "k" \/ BsonValueEquals id (text "k") = Ok true).
Proof.
  refine (update_document_keeps_id (fun _ => Ok tt) true (fun _ _ => Ok []) unit (fun _ _ _ => Ok tt)
    (fun doc _ _ => Ok (doc, false)) (0, 0) [] sample_document sample_update (V_Document []) None V_Null None
    (text "k") sample_updated _ _ sample_full_update); [vm_compute; reflexivity|discriminate].
Defined.
End examples.
