(* ===== verification/JsonSchemaTree.v ===== *)
(** * The tree of a $jsonSchema

    [jsonschema/bson_json_schema_tree.c]: a schema document is read keyword by
    keyword into a tree of [SchemaNode]s.  A node has one section of
    validations per kind of value, allocated when the node is entered and
    freed again when none of its flags was set; [None] is the [NULL] pointer,
    and a call that follows it has no outcome.  The linked lists of nodes are
    lists; the two [union]s of the array section keep what was stored last:
    [itemsNode] and [itemsArray] are the head of one list, and
    [additionalItems] is a boolean or a node.  The recursion is on the nesting
    of the schema, whose depth is the fuel. *)

From Stdlib Require Import String.
From stdpp Require Import base numbers list option.
From Stdlib Require Import ZArith Lia.
From S2P Require Import Prelude Binary64 Bson StringView Decimal128 BsonCompare BsonHash.
From S2P Require Import QueryOperators UpdateOperators.

(** ** Flags *)

Definition BsonTypeFlag_EOD : Z := 2 ^ 0.
Definition BsonTypeFlag_DOUBLE : Z := 2 ^ 1.
Definition BsonTypeFlag_UTF8 : Z := 2 ^ 2.
Definition BsonTypeFlag_DOCUMENT : Z := 2 ^ 3.
Definition BsonTypeFlag_ARRAY : Z := 2 ^ 4.
Definition BsonTypeFlag_BINARY : Z := 2 ^ 5.
Definition BsonTypeFlag_UNDEFINED : Z := 2 ^ 6.
Definition BsonTypeFlag_OID : Z := 2 ^ 7.
Definition BsonTypeFlag_BOOL : Z := 2 ^ 8.
Definition BsonTypeFlag_DATE_TIME : Z := 2 ^ 9.
Definition BsonTypeFlag_NULL : Z := 2 ^ 10.
Definition BsonTypeFlag_REGEX : Z := 2 ^ 11.
Definition BsonTypeFlag_DBPOINTER : Z := 2 ^ 12.
Definition BsonTypeFlag_CODE : Z := 2 ^ 13.
Definition BsonTypeFlag_SYMBOL : Z := 2 ^ 14.
Definition BsonTypeFlag_CODEWSCOPE : Z := 2 ^ 15.
Definition BsonTypeFlag_INT32 : Z := 2 ^ 16.
Definition BsonTypeFlag_TIMESTAMP : Z := 2 ^ 17.
Definition BsonTypeFlag_INT64 : Z := 2 ^ 18.
Definition BsonTypeFlag_DECIMAL128 : Z := 2 ^ 19.
Definition BsonTypeFlag_MINKEY : Z := 2 ^ 20.
Definition BsonTypeFlag_MAXKEY : Z := 2 ^ 21.

Definition ObjectValidationTypes_Required : Z := 2 ^ 2.
Definition ObjectValidationTypes_Properties : Z := 2 ^ 3.

Definition CommonValidationTypes_Enum : Z := 2 ^ 0.
Definition CommonValidationTypes_JsonType : Z := 2 ^ 1.
Definition CommonValidationTypes_BsonType : Z := 2 ^ 2.
Definition CommonValidationTypes_OneOf : Z := 2 ^ 5.

Definition NumericValidationTypes_MultipleOf : Z := 2 ^ 0.
Definition NumericValidationTypes_Maximum : Z := 2 ^ 1.
Definition NumericValidationTypes_ExclusiveMaximum : Z := 2 ^ 2.
Definition NumericValidationTypes_Minimum : Z := 2 ^ 3.
Definition NumericValidationTypes_ExclusiveMinimum : Z := 2 ^ 4.

Definition StringValidationTypes_MaxLength : Z := 2 ^ 0.
Definition StringValidationTypes_MinLength : Z := 2 ^ 1.
Definition StringValidationTypes_Pattern : Z := 2 ^ 2.

Definition ArrayValidationTypes_MaxItems : Z := 2 ^ 0.
Definition ArrayValidationTypes_MinItems : Z := 2 ^ 1.
Definition ArrayValidationTypes_UniqueItems : Z := 2 ^ 2.
Definition ArrayValidationTypes_ItemsObject : Z := 2 ^ 3.
Definition ArrayValidationTypes_ItemsArray : Z := 2 ^ 4.
Definition ArrayValidationTypes_AdditionalItemsBool : Z := 2 ^ 5.
Definition ArrayValidationTypes_AdditionalItemsObject : Z := 2 ^ 6.

Definition BinaryValidationTypes_Encrypt : Z := 2 ^ 0.

(** [flags & flag] as a condition. *)
Definition has (flags flag : Z) : bool := negb (Z.land flags flag =? 0).

(** ** Nodes *)

Inductive SchemaNodeType : Set :=
| SchemaNodeType_Invalid | SchemaNodeType_Field | SchemaNodeType_Root
| SchemaNodeType_AdditionalProperties | SchemaNodeType_PatternProperties
| SchemaNodeType_Dependencies | SchemaNodeType_Items | SchemaNodeType_AdditionalItems
| SchemaNodeType_AllOf | SchemaNodeType_AnyOf | SchemaNodeType_OneOf | SchemaNodeType_Not.

#[export] Instance schema_node_type_eq_dec : EqDecision SchemaNodeType.
Proof. solve_decision. Defined.

(** A child of "properties": the node and its field name. *)
Record FieldNode (node : Type) : Type := mk_field { base : node; field : StringView }.
Arguments mk_field {node} base field.
Arguments base {node} f.
Arguments field {node} f.

Record ValidationsObject (node : Type) : Type := mk_object {
  properties : list (FieldNode node);
  required : option bson_value;
}.
Arguments mk_object {node} properties required.
Arguments properties {node} v.
Arguments required {node} v.

Record ValidationsCommon (node : Type) : Type := mk_common {
  jsonTypes : Z;
  bsonTypes : Z;
  enumValues : option bson_value;
  oneOfNodes : list node;
}.
Arguments mk_common {node} jsonTypes bsonTypes enumValues oneOfNodes.
Arguments jsonTypes {node} v.
Arguments bsonTypes {node} v.
Arguments enumValues {node} v.
Arguments oneOfNodes {node} v.

Record ValidationsNumeric : Type := mk_numeric {
  maximum : option bson_value;
  exclusiveMaximum : bool;
  minimum : option bson_value;
  exclusiveMinimum : bool;
  multipleOf : option bson_value;
}.

(** The pattern is the regular expression of its [RegexData]; there are no
    options. *)
Record ValidationsString : Type := mk_string {
  maxLength : Z;
  minLength : Z;
  pattern : option bytes;
}.

(** The second union: zeroed, the boolean, or the node. *)
Inductive AdditionalItems (node : Type) : Type :=
| AI_zeroed
| AI_bool (additionalItemsBool : bool)
| AI_node (additionalItemsNode : node).
Arguments AI_zeroed {node}.
Arguments AI_bool {node} additionalItemsBool.
Arguments AI_node {node} additionalItemsNode.

Record ValidationsArray (node : Type) : Type := mk_array {
  maxItems : Z;
  minItems : Z;
  uniqueItems : bool;
  items : list node;
  additionalItems : AdditionalItems node;
}.
Arguments mk_array {node} maxItems minItems uniqueItems items additionalItems.
Arguments maxItems {node} v.
Arguments minItems {node} v.
Arguments uniqueItems {node} v.
Arguments items {node} v.
Arguments additionalItems {node} v.

Record ValidationFlags : Type := mk_vflags {
  f_object : Z; f_common : Z; f_numeric : Z; f_string : Z; f_array : Z; f_binary : Z;
}.

#[warnings="-register-all"]
Inductive SchemaNode : Type := mk_node {
  nodeType : SchemaNodeType;
  v_object : option (ValidationsObject SchemaNode);
  v_common : option (ValidationsCommon SchemaNode);
  v_numeric : option ValidationsNumeric;
  v_string : option ValidationsString;
  v_array : option (ValidationsArray SchemaNode);
  validationFlags : ValidationFlags;
}.

Abbreviation SchemaFieldNode := (FieldNode SchemaNode).

(** ** Parameters *)

(** PostgreSQL's [hash_search] on a set of strings, with [HASH_ENTER] and
    [HASH_REMOVE]: whether the key was found, and the keys afterwards. *)
Class StringTable : Type := {
  table_enter : (StringView -> Z) -> (StringView -> StringView -> Z) ->
                list StringView -> StringView -> bool * list StringView;
  table_remove : (StringView -> Z) -> (StringView -> StringView -> Z) ->
                 list StringView -> StringView -> bool * list StringView;
}.

(** The entry that [hash_search] finds for a key. *)
Definition same_entry (hash : StringView -> Z) (compare : StringView -> StringView -> Z)
  (key k : StringView) : bool := (hash k =? hash key) && (compare k key =? 0).

Class StringTableLaws (T : StringTable) : Prop := {
  table_enter_spec : forall hash compare keys key,
    let found := existsb (same_entry hash compare key) keys in
    (table_enter hash compare keys key).1 = found /\
    (table_enter hash compare keys key).2 ≡ₚ (if found then keys else key :: keys);
  table_remove_spec : forall hash compare keys key,
    let found := existsb (same_entry hash compare key) keys in
    (table_remove hash compare keys key).1 = found /\
    (table_remove hash compare keys key).2 ≡ₚ
      List.filter (fun k => negb (same_entry hash compare key k)) keys;
}.

(** ** Helpers *)

(** [ereport(ERROR, ...)]. *)
Definition raise {A} (e : errcode) : outcome A := Some (Err e).

Definition ret {A} (a : A) : outcome A := Some (Ok a).

(** An access through a pointer: there is no outcome if it is [NULL]. *)
Definition deref {A B} (p : option A) (k : A -> outcome B) : outcome B :=
  match p with Some a => k a | None => None end.

Notation "'deref!' x ':=' p 'in' k" := (deref p (fun x => k))
  (at level 10, x pattern, p at level 100, k at level 200) : docdb_scope.

Definition strequal (a b : bytes) : bool := strcmp a b =? 0.

(** [strchr(s, c) != NULL] *)
Definition has_char (s : bytes) (c : Z) : bool := existsb (Z.eqb c) (cstring s).

Definition holds_type (value : bson_value) (t : bson_type) : bool := type_eqb (value_type value) t.

(** The sections as [palloc0] leaves them. *)
Definition InitValidationsObject : ValidationsObject SchemaNode := mk_object [] None.
Definition InitValidationsCommon : ValidationsCommon SchemaNode := mk_common 0 0 None [].
Definition InitValidationsNumeric : ValidationsNumeric := mk_numeric None false None false None.
Definition InitValidationsString : ValidationsString := mk_string 0 0 None.
Definition InitValidationsArray : ValidationsArray SchemaNode := mk_array 0 0 false [] AI_zeroed.

Definition InitSchemaNode (type : SchemaNodeType) : SchemaNode :=
  mk_node type None None None None None (mk_vflags 0 0 0 0 0 0).

Definition InitNonFieldNode (type : SchemaNodeType) : SchemaNode := InitSchemaNode type.

Definition InitFieldNode (name : bytes) : SchemaFieldNode :=
  mk_field (InitSchemaNode SchemaNodeType_Field) (CreateStringViewFromString name).

Definition AllocateValidators (node : SchemaNode) : SchemaNode :=
  let flags := validationFlags node in
  let fresh {A} (f : Z) (init : A) (old : option A) := if f =? 0 then Some init else old in
  mk_node (nodeType node)
    (fresh (f_object flags) InitValidationsObject (v_object node))
    (fresh (f_common flags) InitValidationsCommon (v_common node))
    (fresh (f_numeric flags) InitValidationsNumeric (v_numeric node))
    (fresh (f_string flags) InitValidationsString (v_string node))
    (fresh (f_array flags) InitValidationsArray (v_array node))
    flags.

Definition FreeUnusedValidators (node : SchemaNode) : SchemaNode :=
  let flags := validationFlags node in
  let used {A} (f : Z) (old : option A) := if f =? 0 then None else old in
  mk_node (nodeType node)
    (used (f_object flags) (v_object node)) (used (f_common flags) (v_common node))
    (used (f_numeric flags) (v_numeric node)) (used (f_string flags) (v_string node))
    (used (f_array flags) (v_array node)) flags.

(** A write to a section of the node, with a flag of the section. *)
Definition write_object (f : ValidationsObject SchemaNode -> ValidationsObject SchemaNode) (flag : Z)
  (node : SchemaNode) : outcome SchemaNode :=
  match node with
  | mk_node t o c n s a (mk_vflags fo fc fn fs fa fb) =>
      deref! o := o in ret (mk_node t (Some (f o)) c n s a (mk_vflags (Z.lor fo flag) fc fn fs fa fb))
  end.

Definition write_common (f : ValidationsCommon SchemaNode -> ValidationsCommon SchemaNode) (flag : Z)
  (node : SchemaNode) : outcome SchemaNode :=
  match node with
  | mk_node t o c n s a (mk_vflags fo fc fn fs fa fb) =>
      deref! c := c in ret (mk_node t o (Some (f c)) n s a (mk_vflags fo (Z.lor fc flag) fn fs fa fb))
  end.

Definition write_numeric (f : ValidationsNumeric -> ValidationsNumeric) (flag : Z)
  (node : SchemaNode) : outcome SchemaNode :=
  match node with
  | mk_node t o c n s a (mk_vflags fo fc fn fs fa fb) =>
      deref! n := n in ret (mk_node t o c (Some (f n)) s a (mk_vflags fo fc (Z.lor fn flag) fs fa fb))
  end.

Definition write_string (f : ValidationsString -> ValidationsString) (flag : Z)
  (node : SchemaNode) : outcome SchemaNode :=
  match node with
  | mk_node t o c n s a (mk_vflags fo fc fn fs fa fb) =>
      deref! s := s in ret (mk_node t o c n (Some (f s)) a (mk_vflags fo fc fn (Z.lor fs flag) fa fb))
  end.

Definition write_array (f : ValidationsArray SchemaNode -> ValidationsArray SchemaNode) (flag : Z)
  (node : SchemaNode) : outcome SchemaNode :=
  match node with
  | mk_node t o c n s a (mk_vflags fo fc fn fs fa fb) =>
      deref! a := a in ret (mk_node t o c n s (Some (f a)) (mk_vflags fo fc fn fs (Z.lor fa flag) fb))
  end.

Definition write_binary (flag : Z) (node : SchemaNode) : SchemaNode :=
  match node with
  | mk_node t o c n s a (mk_vflags fo fc fn fs fa fb) =>
      mk_node t o c n s a (mk_vflags fo fc fn fs fa (Z.lor fb flag))
  end.

(** ** Linked lists of nodes *)

Definition AppendNodeToLinkedList {A} (head : list A) (node : A) : list A := head ++ [node].

(** The search in the list of fields: the position and the node. *)
Fixpoint find_field (fields : list SchemaFieldNode) (name : bytes) (i : nat)
  : option (nat * SchemaFieldNode) :=
  match fields with
  | [] => None
  | fieldNode :: rest =>
      if StringViewEqualsCString (Some (field fieldNode)) (Some name) then Some (i, fieldNode)
      else find_field rest name (S i)
  end.

(** The node the pointer refers to, [NULL] when there is none. *)
Definition FindFieldNodeByName (node : option SchemaNode) (name : bytes)
  : outcome (option (nat * SchemaFieldNode)) :=
  match node with
  | None => ret None
  | Some node => deref! o := v_object node in ret (find_field (properties o) name 0)
  end.

(** The field node with its position in the list of the node, which it was
    added to if need be. *)
Definition FindOrAddEmptyFieldNode (name : bytes) (node : SchemaNode)
  : outcome (nat * SchemaFieldNode * SchemaNode) :=
  out! found := FindFieldNodeByName (Some node) name in
  match found with
  | Some (i, fieldNode) => ret (i, fieldNode, node)
  | None =>
      let fieldNode := InitFieldNode name in
      deref! o := v_object node in
      out! node' := write_object (fun o => mk_object (AppendNodeToLinkedList (properties o) fieldNode)
                                             (required o)) 0 node in
      ret (length (properties o), fieldNode, node')
  end.

(** ** Types *)

Definition GetJsonTypeEnumFromJsonTypeString (name : bytes) : result Z :=
  if strequal name (str "array") then Ok BsonTypeFlag_ARRAY
  else if strequal name (str "boolean") then Ok BsonTypeFlag_BOOL
  else if strequal name (str "integer") then Err ERRCODE_DOCUMENTDB_FAILEDTOPARSE
  else if strequal name (str "number") then
    Ok (Z.lor (Z.lor (Z.lor BsonTypeFlag_INT32 BsonTypeFlag_INT64) BsonTypeFlag_DECIMAL128)
          BsonTypeFlag_DOUBLE)
  else if strequal name (str "null") then Ok BsonTypeFlag_NULL
  else if strequal name (str "object") then Ok BsonTypeFlag_DOCUMENT
  else if strequal name (str "string") then Ok BsonTypeFlag_UTF8
  else Err ERRCODE_DOCUMENTDB_BADVALUE.

Definition GetBsonTypeEnumFromBsonTypeString (name : bytes) : result Z :=
  if strequal name (str "double") then Ok BsonTypeFlag_DOUBLE
  else if strequal name (str "string") then Ok BsonTypeFlag_UTF8
  else if strequal name (str "object") then Ok BsonTypeFlag_DOCUMENT
  else if strequal name (str "array") then Ok BsonTypeFlag_ARRAY
  else if strequal name (str "binData") then Ok BsonTypeFlag_BINARY
  else if strequal name (str "undefined") then Ok BsonTypeFlag_UNDEFINED
  else if strequal name (str "objectId") then Ok BsonTypeFlag_OID
  else if strequal name (str "bool") then Ok BsonTypeFlag_BOOL
  else if strequal name (str "date") then Ok BsonTypeFlag_DATE_TIME
  else if strequal name (str "null") then Ok BsonTypeFlag_NULL
  else if strequal name (str "regex") then Ok BsonTypeFlag_REGEX
  else if strequal name (str "dbPointer") then Ok BsonTypeFlag_DBPOINTER
  else if strequal name (str "javascript") then Ok BsonTypeFlag_CODE
  else if strequal name (str "symbol") then Ok BsonTypeFlag_SYMBOL
  else if strequal name (str "javascriptWithScope") then Ok BsonTypeFlag_CODEWSCOPE
  else if strequal name (str "int") then Ok BsonTypeFlag_INT32
  else if strequal name (str "integer") then Err ERRCODE_DOCUMENTDB_FAILEDTOPARSE
  else if strequal name (str "timestamp") then Ok BsonTypeFlag_TIMESTAMP
  else if strequal name (str "long") then Ok BsonTypeFlag_INT64
  else if strequal name (str "decimal") then Ok BsonTypeFlag_DECIMAL128
  else if strequal name (str "minKey") then Ok BsonTypeFlag_MAXKEY
  else if strequal name (str "maxKey") then Ok BsonTypeFlag_MINKEY
  else Err ERRCODE_DOCUMENTDB_BADVALUE.

(** The loop over an array of type names. *)
Fixpoint type_names (get : bytes -> result Z) (elements : bson_doc) (types : Z) : result Z :=
  match elements with
  | [] => Ok types
  | (_, V_Utf8 name) :: rest =>
      let! type := get name in
      if has types type then Err ERRCODE_DOCUMENTDB_FAILEDTOPARSE
      else type_names get rest (Z.lor types type)
  | _ :: _ => Err ERRCODE_DOCUMENTDB_TYPEMISMATCH
  end.

Definition type_argument (get : bytes -> result Z) (value : bson_value) : result Z :=
  match value with
  | V_Utf8 name => get name
  | V_Array elements =>
      let! types := type_names get elements 0 in
      if types =? 0 then Err ERRCODE_DOCUMENTDB_FAILEDTOPARSE else Ok types
  | _ => Err ERRCODE_DOCUMENTDB_TYPEMISMATCH
  end.

Definition ParseJsonType (value : bson_value) (node : SchemaNode) : outcome SchemaNode :=
  if has (f_common (validationFlags node)) CommonValidationTypes_BsonType
  then raise ERRCODE_DOCUMENTDB_FAILEDTOPARSE
  else
    out! types := Some (type_argument GetJsonTypeEnumFromJsonTypeString value) in
    write_common (fun c => mk_common types (bsonTypes c) (enumValues c) (oneOfNodes c))
      CommonValidationTypes_JsonType node.

Definition ParseBsonType (value : bson_value) (node : SchemaNode) : outcome SchemaNode :=
  if has (f_common (validationFlags node)) CommonValidationTypes_JsonType
  then raise ERRCODE_DOCUMENTDB_FAILEDTOPARSE
  else
    out! types := Some (type_argument GetBsonTypeEnumFromBsonTypeString value) in
    write_common (fun c => mk_common (jsonTypes c) types (enumValues c) (oneOfNodes c))
      CommonValidationTypes_BsonType node.

(** ** Keywords *)

(** The keywords of a schema: those with an effect, those that are refused, and
    every other key. *)
Inductive Keyword : Set :=
| K_properties | K_required | K_type | K_bsonType | K_encrypt | K_encryptMetadata
| K_description | K_title | K_enum | K_oneOf | K_multipleOf | K_maximum | K_exclusiveMaximum
| K_minimum | K_exclusiveMinimum | K_maxLength | K_minLength | K_pattern | K_items
| K_additionalItems | K_maxItems | K_minItems | K_uniqueItems | K_unsupported | K_unknown.

#[export] Instance keyword_eq_dec : EqDecision Keyword.
Proof. solve_decision. Defined.

Definition schema_keyword (key : bytes) : Keyword :=
  if strequal key (str "properties") then K_properties
  else if strequal key (str "required") then K_required
  else if strequal key (str "type") then K_type
  else if strequal key (str "bsonType") then K_bsonType
  else if strequal key (str "encrypt") then K_encrypt
  else if strequal key (str "encryptMetadata") then K_encryptMetadata
  else if strequal key (str "description") then K_description
  else if strequal key (str "title") then K_title
  else if strequal key (str "enum") then K_enum
  else if strequal key (str "oneOf") then K_oneOf
  else if strequal key (str "multipleOf") then K_multipleOf
  else if strequal key (str "maximum") then K_maximum
  else if strequal key (str "exclusiveMaximum") then K_exclusiveMaximum
  else if strequal key (str "minimum") then K_minimum
  else if strequal key (str "exclusiveMinimum") then K_exclusiveMinimum
  else if strequal key (str "maxLength") then K_maxLength
  else if strequal key (str "minLength") then K_minLength
  else if strequal key (str "pattern") then K_pattern
  else if strequal key (str "items") then K_items
  else if strequal key (str "additionalItems") then K_additionalItems
  else if strequal key (str "maxItems") then K_maxItems
  else if strequal key (str "minItems") then K_minItems
  else if strequal key (str "uniqueItems") then K_uniqueItems
  else if strequal key (str "$ref") || strequal key (str "$schema") || strequal key (str "default") ||
          strequal key (str "definitions") || strequal key (str "format") || strequal key (str "id")
  then K_unsupported
  else K_unknown.


Section tree.
Context {L : BidLib} {P : Pcre} {H : PgHash} {T : StringTable}.
Context (EnableSchemaEnforcementForCSFLE EnableBsonTypeArgumentValidation : bool).

(** The set of strings of [CreateStringViewHashSet]. *)
Definition StringViewHashEntryHashFunc (view : StringView) : Z := hash_bytes (sv_view view).

Definition StringViewHashEntryCompareFunc (left right : StringView) : Z := CompareStringView left right.

Definition string_set_enter : list StringView -> StringView -> bool * list StringView :=
  table_enter StringViewHashEntryHashFunc StringViewHashEntryCompareFunc.

Definition string_set_remove : list StringView -> StringView -> bool * list StringView :=
  table_remove StringViewHashEntryHashFunc StringViewHashEntryCompareFunc.

(** The names of "required", in order. *)
Fixpoint required_loop (elements : bson_doc) (seenFieldsHash : list StringView) (written : list bytes)
  : result (list bytes) :=
  match elements with
  | [] => Ok written
  | (_, V_Utf8 name) :: rest =>
      if has_char name 46 then Err ERRCODE_DOCUMENTDB_FAILEDTOPARSE
      else
        let '(found, seen) := string_set_enter seenFieldsHash (CreateStringViewFromString name) in
        if found : bool then Err ERRCODE_DOCUMENTDB_FAILEDTOPARSE
        else required_loop rest seen (written ++ [cstring name])
  | _ :: _ => Err ERRCODE_DOCUMENTDB_TYPEMISMATCH
  end.

Definition ParseRequired (value : bson_value) (node : SchemaNode) : outcome SchemaNode :=
  match value with
  | V_Array elements =>
      out! names := Some (required_loop elements [] []) in
      write_object (fun o => mk_object (properties o) (Some (array_value (V_Utf8 <$> names))))
        ObjectValidationTypes_Required node
  | _ => raise ERRCODE_DOCUMENTDB_TYPEMISMATCH
  end.

Definition EnsureTopLevelFieldType (value : bson_value) (expectedType : bson_type) : result unit :=
  if holds_type value expectedType then Ok tt else Err ERRCODE_DOCUMENTDB_TYPEMISMATCH.

Fixpoint encrypt_loop (fields : bson_doc) : result unit :=
  match fields with
  | [] => Ok tt
  | (key, value) :: rest =>
      let! _ :=
        if strequal key (str "keyId") then EnsureTopLevelFieldType value BSON_TYPE_ARRAY
        else if strequal key (str "algorithm") then EnsureTopLevelFieldType value BSON_TYPE_UTF8
        else if strequal key (str "bsonType") then
          if negb (holds_type value BSON_TYPE_ARRAY) && negb (holds_type value BSON_TYPE_UTF8)
          then Err ERRCODE_DOCUMENTDB_TYPEMISMATCH else Ok tt
        else Err ERRCODE_DOCUMENTDB_UNKNOWNBSONFIELD in
      encrypt_loop rest
  end.

Definition ParseEncrypt (value : bson_value) (node : SchemaNode) : outcome SchemaNode :=
  if negb EnableSchemaEnforcementForCSFLE then ret node
  else
    match value with
    | V_Document fields =>
        out! _ := Some (encrypt_loop fields) in ret (write_binary BinaryValidationTypes_Encrypt node)
    | _ => raise ERRCODE_DOCUMENTDB_TYPEMISMATCH
    end.

Fixpoint encrypt_metadata_loop (fields : bson_doc) : result unit :=
  match fields with
  | [] => Ok tt
  | (key, value) :: rest =>
      let! _ :=
        if strequal key (str "keyId") then EnsureTopLevelFieldType value BSON_TYPE_ARRAY
        else if strequal key (str "algorithm") then EnsureTopLevelFieldType value BSON_TYPE_UTF8
        else Err ERRCODE_DOCUMENTDB_UNKNOWNBSONFIELD in
      encrypt_metadata_loop rest
  end.

Definition ParseEncryptMetadata (value : bson_value) (node : SchemaNode) : outcome SchemaNode :=
  if negb EnableSchemaEnforcementForCSFLE then ret node
  else
    match value with
    | V_Document [] => raise ERRCODE_DOCUMENTDB_FAILEDTOPARSE
    | V_Document fields => out! _ := Some (encrypt_metadata_loop fields) in ret node
    | _ => raise ERRCODE_DOCUMENTDB_TYPEMISMATCH
    end.

Definition ParseEnum (value : bson_value) (node : SchemaNode) : outcome SchemaNode :=
  match value with
  | V_Array [] => raise ERRCODE_DOCUMENTDB_FAILEDTOPARSE
  | V_Array elements =>
      write_common (fun c => mk_common (jsonTypes c) (bsonTypes c)
                               (Some (array_value (snd <$> elements))) (oneOfNodes c))
        CommonValidationTypes_Enum node
  | _ => raise ERRCODE_DOCUMENTDB_TYPEMISMATCH
  end.

Definition GetValidatedBsonIntValue (value : bson_value) : result Z :=
  if negb (BsonTypeIsNumber (value_type value)) then Err ERRCODE_DOCUMENTDB_FAILEDTOPARSE
  else
    let! is64 := IsBsonValue64BitInteger value false in
    if negb is64 then Err ERRCODE_DOCUMENTDB_FAILEDTOPARSE
    else
      let! fixed := IsBsonValueFixedInteger value in
      if negb fixed then Err ERRCODE_DOCUMENTDB_FAILEDTOPARSE
      else
        let! intValue := BsonValueAsInt64 value in
        if intValue <? 0 then Err ERRCODE_DOCUMENTDB_FAILEDTOPARSE else Ok intValue.

(** The checks of "multipleOf". *)
Definition check_divisor (value : bson_value) : result unit :=
  if negb (BsonTypeIsNumber (value_type value)) then Err ERRCODE_DOCUMENTDB_TYPEMISMATCH
  else
    let! nan := IsBsonValueNaN value in
    if nan : bool then Err ERRCODE_DOCUMENTDB_BADVALUE
    else
      let! inf := IsBsonValueInfinity value in
      if negb (inf =? 0) then Err ERRCODE_DOCUMENTDB_BADVALUE
      else
        let! zero := if holds_type value BSON_TYPE_DECIMAL128 then IsDecimal128Zero value else Ok false in
        if zero : bool then Err ERRCODE_DOCUMENTDB_FAILEDTOPARSE
        else
          let! d := BsonValueAsDouble value in
          if d_eq d 0 || (EnableBsonTypeArgumentValidation && d_lt d 0)
          then Err ERRCODE_DOCUMENTDB_FAILEDTOPARSE else Ok tt.

Definition ParseMultipleOf (value : bson_value) (node : SchemaNode) : outcome SchemaNode :=
  out! _ := Some (check_divisor value) in
  write_numeric (fun n => mk_numeric (maximum n) (exclusiveMaximum n) (minimum n) (exclusiveMinimum n)
                            (Some value)) NumericValidationTypes_MultipleOf node.

Definition ParseMaximum (value : bson_value) (node : SchemaNode) : outcome SchemaNode :=
  if negb (BsonTypeIsNumber (value_type value)) then raise ERRCODE_DOCUMENTDB_TYPEMISMATCH
  else write_numeric (fun n => mk_numeric (Some value) (exclusiveMaximum n) (minimum n)
                                 (exclusiveMinimum n) (multipleOf n))
         NumericValidationTypes_Maximum node.

Definition ParseExclusiveMaximum (value : bson_value) (node : SchemaNode) : outcome SchemaNode :=
  match value with
  | V_Bool b => write_numeric (fun n => mk_numeric (maximum n) b (minimum n) (exclusiveMinimum n)
                                          (multipleOf n)) NumericValidationTypes_ExclusiveMaximum node
  | _ => raise ERRCODE_DOCUMENTDB_TYPEMISMATCH
  end.

Definition ParseMinimum (value : bson_value) (node : SchemaNode) : outcome SchemaNode :=
  if negb (BsonTypeIsNumber (value_type value)) then raise ERRCODE_DOCUMENTDB_TYPEMISMATCH
  else write_numeric (fun n => mk_numeric (maximum n) (exclusiveMaximum n) (Some value)
                                 (exclusiveMinimum n) (multipleOf n))
         NumericValidationTypes_Minimum node.

Definition ParseExclusiveMinimum (value : bson_value) (node : SchemaNode) : outcome SchemaNode :=
  match value with
  | V_Bool b => write_numeric (fun n => mk_numeric (maximum n) (exclusiveMaximum n) (minimum n) b
                                          (multipleOf n)) NumericValidationTypes_ExclusiveMinimum node
  | _ => raise ERRCODE_DOCUMENTDB_TYPEMISMATCH
  end.

(** The lengths are 64-bit integers stored in 32 bits. *)
Definition ParseMaxLength (value : bson_value) (node : SchemaNode) : outcome SchemaNode :=
  out! length := Some (GetValidatedBsonIntValue value) in
  write_string (fun s => mk_string (uint32 length) (minLength s) (pattern s))
    StringValidationTypes_MaxLength node.

Definition ParseMinLength (value : bson_value) (node : SchemaNode) : outcome SchemaNode :=
  out! length := Some (GetValidatedBsonIntValue value) in
  write_string (fun s => mk_string (maxLength s) (uint32 length) (pattern s))
    StringValidationTypes_MinLength node.

Definition ParsePattern (value : bson_value) (node : SchemaNode) : outcome SchemaNode :=
  match value with
  | V_Utf8 regex =>
      out! _ := Some (RegexCompile (cstring regex) []) in
      write_string (fun s => mk_string (maxLength s) (minLength s) (Some (cstring regex)))
        StringValidationTypes_Pattern node
  | _ => raise ERRCODE_DOCUMENTDB_TYPEMISMATCH
  end.

Definition ParseMaxItems (value : bson_value) (node : SchemaNode) : outcome SchemaNode :=
  out! length := Some (GetValidatedBsonIntValue value) in
  write_array (fun a => mk_array (uint32 length) (minItems a) (uniqueItems a) (items a) (additionalItems a))
    ArrayValidationTypes_MaxItems node.

Definition ParseMinItems (value : bson_value) (node : SchemaNode) : outcome SchemaNode :=
  out! length := Some (GetValidatedBsonIntValue value) in
  write_array (fun a => mk_array (maxItems a) (uint32 length) (uniqueItems a) (items a) (additionalItems a))
    ArrayValidationTypes_MinItems node.

Definition ParseUniqueItems (value : bson_value) (node : SchemaNode) : outcome SchemaNode :=
  match value with
  | V_Bool b => write_array (fun a => mk_array (maxItems a) (minItems a) b (items a) (additionalItems a))
                  ArrayValidationTypes_UniqueItems node
  | _ => raise ERRCODE_DOCUMENTDB_TYPEMISMATCH
  end.

(** "description" and "title" have no effect on the validation. *)
Definition ParseDescription (value : bson_value) (node : SchemaNode) : outcome SchemaNode :=
  if negb (holds_type value BSON_TYPE_UTF8) then raise ERRCODE_DOCUMENTDB_TYPEMISMATCH else ret node.

Definition ParseTitle (value : bson_value) (node : SchemaNode) : outcome SchemaNode :=
  if negb EnableBsonTypeArgumentValidation then raise ERRCODE_DOCUMENTDB_FAILEDTOPARSE
  else if negb (holds_type value BSON_TYPE_UTF8) then raise ERRCODE_DOCUMENTDB_TYPEMISMATCH
  else ret node.

(** ** Keywords with schemas

    [BuildSchemaTreeCoreOnNode] on the nested schemas is an argument. *)

Section nested.
Context (BuildOnNode : bson_doc -> SchemaNode -> outcome SchemaNode).

Definition BuildSchemaTreeCore_with (schemaIter : bson_doc) (name : bytes) (type : SchemaNodeType)
  : outcome SchemaNode :=
  BuildOnNode schemaIter
    (if decide (type = SchemaNodeType_Field) then base (InitFieldNode name) else InitNonFieldNode type).

Fixpoint properties_loop (fields : bson_doc) (node : SchemaNode) : outcome SchemaNode :=
  match fields with
  | [] => ret node
  | (name, fieldValue) :: rest =>
      if has_char name 46 then raise ERRCODE_DOCUMENTDB_FAILEDTOPARSE
      else
        match fieldValue with
        | V_Document schema =>
            out! (i, fieldNode, node') := FindOrAddEmptyFieldNode name node in
            out! child := BuildOnNode schema (base fieldNode) in
            out! node'' := write_object (fun o => mk_object
                             (<[i := mk_field child (field fieldNode)]> (properties o)) (required o)) 0 node' in
            properties_loop rest node''
        | _ => raise ERRCODE_DOCUMENTDB_TYPEMISMATCH
        end
  end.

Definition ParseProperties (value : bson_value) (node : SchemaNode) : outcome SchemaNode :=
  match value with
  | V_Document fields =>
      out! node' := properties_loop fields node in
      write_object (fun o => o) ObjectValidationTypes_Properties node'
  | _ => raise ERRCODE_DOCUMENTDB_TYPEMISMATCH
  end.

(** The nodes of an array of schemas. *)
Fixpoint schemas_loop (type : SchemaNodeType) (elements : bson_doc) (nodes : list SchemaNode)
  : outcome (list SchemaNode) :=
  match elements with
  | [] => ret nodes
  | (_, V_Document schema) :: rest =>
      out! child := BuildSchemaTreeCore_with schema [] type in
      schemas_loop type rest (AppendNodeToLinkedList nodes child)
  | _ :: _ => raise ERRCODE_DOCUMENTDB_TYPEMISMATCH
  end.

Definition ParseOneOf (value : bson_value) (node : SchemaNode) : outcome SchemaNode :=
  match value with
  | V_Array elements =>
      deref! c := v_common node in
      out! nodes := schemas_loop SchemaNodeType_OneOf elements (oneOfNodes c) in
      if (length elements =? 0)%nat then raise ERRCODE_DOCUMENTDB_FAILEDTOPARSE
      else write_common (fun c => mk_common (jsonTypes c) (bsonTypes c) (enumValues c) nodes)
             CommonValidationTypes_OneOf node
  | _ => raise ERRCODE_DOCUMENTDB_TYPEMISMATCH
  end.

Definition ParseItems (value : bson_value) (node : SchemaNode) : outcome SchemaNode :=
  match value with
  | V_Document schema =>
      out! child := BuildSchemaTreeCore_with schema [] SchemaNodeType_Items in
      write_array (fun a => mk_array (maxItems a) (minItems a) (uniqueItems a) [child] (additionalItems a))
        ArrayValidationTypes_ItemsObject node
  | V_Array elements =>
      deref! a := v_array node in
      out! nodes := schemas_loop SchemaNodeType_Items elements (items a) in
      write_array (fun a => mk_array (maxItems a) (minItems a) (uniqueItems a) nodes (additionalItems a))
        ArrayValidationTypes_ItemsArray node
  | _ => raise ERRCODE_DOCUMENTDB_TYPEMISMATCH
  end.

Definition ParseAdditionalItems (value : bson_value) (node : SchemaNode) : outcome SchemaNode :=
  match value with
  | V_Bool b =>
      write_array (fun a => mk_array (maxItems a) (minItems a) (uniqueItems a) (items a) (AI_bool b))
        ArrayValidationTypes_AdditionalItemsBool node
  | V_Document schema =>
      out! child := BuildSchemaTreeCore_with schema [] SchemaNodeType_AdditionalItems in
      write_array (fun a => mk_array (maxItems a) (minItems a) (uniqueItems a) (items a) (AI_node child))
        ArrayValidationTypes_AdditionalItemsObject node
  | _ => raise ERRCODE_DOCUMENTDB_TYPEMISMATCH
  end.

(** The branch of a keyword. *)
Definition parse_keyword (keyword : Keyword) (value : bson_value) (node : SchemaNode) : outcome SchemaNode :=
  match keyword with
  | K_properties => ParseProperties value node
  | K_required => ParseRequired value node
  | K_type => ParseJsonType value node
  | K_bsonType => ParseBsonType value node
  | K_encrypt => ParseEncrypt value node
  | K_encryptMetadata => ParseEncryptMetadata value node
  | K_description => ParseDescription value node
  | K_title => ParseTitle value node
  | K_enum => ParseEnum value node
  | K_oneOf => ParseOneOf value node
  | K_multipleOf => ParseMultipleOf value node
  | K_maximum => ParseMaximum value node
  | K_exclusiveMaximum => ParseExclusiveMaximum value node
  | K_minimum => ParseMinimum value node
  | K_exclusiveMinimum => ParseExclusiveMinimum value node
  | K_maxLength => ParseMaxLength value node
  | K_minLength => ParseMinLength value node
  | K_pattern => ParsePattern value node
  | K_items => ParseItems value node
  | K_additionalItems => ParseAdditionalItems value node
  | K_maxItems => ParseMaxItems value node
  | K_minItems => ParseMinItems value node
  | K_uniqueItems => ParseUniqueItems value node
  | K_unsupported | K_unknown => raise ERRCODE_DOCUMENTDB_FAILEDTOPARSE
  end.

Fixpoint keywords_loop (schemaIter : bson_doc) (node : SchemaNode) : outcome SchemaNode :=
  match schemaIter with
  | [] => ret node
  | (key, value) :: rest =>
      out! node' := parse_keyword (schema_keyword key) value node in keywords_loop rest node'
  end.

(** The checks after the loop. *)
Definition check_node (node : SchemaNode) : result unit :=
  let flags := validationFlags node in
  if has (f_numeric flags) NumericValidationTypes_ExclusiveMaximum &&
     negb (has (f_numeric flags) NumericValidationTypes_Maximum)
  then Err ERRCODE_DOCUMENTDB_FAILEDTOPARSE
  else if has (f_numeric flags) NumericValidationTypes_ExclusiveMinimum &&
          negb (has (f_numeric flags) NumericValidationTypes_Minimum)
  then Err ERRCODE_DOCUMENTDB_FAILEDTOPARSE
  else if has (f_binary flags) BinaryValidationTypes_Encrypt &&
          has (f_common flags) (Z.lor CommonValidationTypes_JsonType CommonValidationTypes_BsonType)
  then Err ERRCODE_DOCUMENTDB_FAILEDTOPARSE
  else Ok tt.

Definition BuildSchemaTreeCoreOnNode_with (schemaIter : bson_doc) (node : SchemaNode)
  : outcome SchemaNode :=
  out! node' := keywords_loop schemaIter (AllocateValidators node) in
  out! _ := Some (check_node node') in
  ret (FreeUnusedValidators node').
End nested.

Fixpoint BuildSchemaTreeCoreOnNode (fuel : nat) : bson_doc -> SchemaNode -> outcome SchemaNode :=
  match fuel with
  | O => fun _ _ => None
  | S fuel' => BuildSchemaTreeCoreOnNode_with (BuildSchemaTreeCoreOnNode fuel')
  end.

Definition BuildSchemaTreeCore (fuel : nat) : bson_doc -> bytes -> SchemaNodeType -> outcome SchemaNode :=
  BuildSchemaTreeCore_with (BuildSchemaTreeCoreOnNode fuel).

(** [treeState->rootNode]; a nested schema is a document inside the schema, so
    its depth bounds the recursion. *)
Definition BuildSchemaTree (schemaIter : bson_doc) : outcome SchemaNode :=
  BuildSchemaTreeCore (depth (V_Document schemaIter)) schemaIter [] SchemaNodeType_Root.
End tree.

(** A table that is a list. *)
Module ScanStrings.
#[export] Instance scan_strings : StringTable := {
  table_enter hash compare keys key :=
    if existsb (same_entry hash compare key) keys then (true, keys) else (false, key :: keys);
  table_remove hash compare keys key :=
    (existsb (same_entry hash compare key) keys,
     List.filter (fun k => negb (same_entry hash compare key k)) keys);
}.

#[export] Instance scan_strings_laws : StringTableLaws scan_strings.
Proof. split; intros; simpl; [|done]. subst found. by destruct (existsb _ keys). Qed.
End ScanStrings.
