(* ===== verification/JsonSchemaValidator.v ===== *)
(** * The validation of a document against a $jsonSchema

    [jsonschema/bson_json_schema_validator.c]: the validations of a node are
    run section by section on a value, and the nodes below it on the fields and
    the elements of the value.  A nested call is always on a node further down
    the tree, so the fuel is the height of the tree, which the depth of the
    schema bounds.  A list of key-value pairs keeps the sorted lists of its
    sub-documents once they were computed; the model computes them again, from
    the same value. *)

From Stdlib Require Import String.
From stdpp Require Import base numbers list option.
From Stdlib Require Import ZArith Lia.
From S2P Require Import Prelude Binary64 Bson PgbsonElement StringView Decimal128 Collation.
From S2P Require Import BsonCompare BsonHash Arithmetic QueryOperators UpdateOperators.
From S2P Require Import JsonSchemaTree.

Definition BSON_SUBTYPE_ENCRYPTED : Z := 6.

Definition GetBsonValueTypeFlag (type : bson_type) : Z :=
  match type with
  | BSON_TYPE_EOD => BsonTypeFlag_EOD
  | BSON_TYPE_DOUBLE => BsonTypeFlag_DOUBLE
  | BSON_TYPE_UTF8 => BsonTypeFlag_UTF8
  | BSON_TYPE_DOCUMENT => BsonTypeFlag_DOCUMENT
  | BSON_TYPE_ARRAY => BsonTypeFlag_ARRAY
  | BSON_TYPE_BINARY => BsonTypeFlag_BINARY
  | BSON_TYPE_UNDEFINED => BsonTypeFlag_UNDEFINED
  | BSON_TYPE_OID => BsonTypeFlag_OID
  | BSON_TYPE_BOOL => BsonTypeFlag_BOOL
  | BSON_TYPE_DATE_TIME => BsonTypeFlag_DATE_TIME
  | BSON_TYPE_NULL => BsonTypeFlag_NULL
  | BSON_TYPE_REGEX => BsonTypeFlag_REGEX
  | BSON_TYPE_DBPOINTER => BsonTypeFlag_DBPOINTER
  | BSON_TYPE_CODE => BsonTypeFlag_CODE
  | BSON_TYPE_SYMBOL => BsonTypeFlag_SYMBOL
  | BSON_TYPE_CODEWSCOPE => BsonTypeFlag_CODEWSCOPE
  | BSON_TYPE_INT32 => BsonTypeFlag_INT32
  | BSON_TYPE_TIMESTAMP => BsonTypeFlag_TIMESTAMP
  | BSON_TYPE_INT64 => BsonTypeFlag_INT64
  | BSON_TYPE_DECIMAL128 => BsonTypeFlag_DECIMAL128
  | BSON_TYPE_MINKEY => BsonTypeFlag_MINKEY
  | BSON_TYPE_MAXKEY => BsonTypeFlag_MAXKEY
  end.

(** A run of checks: the first that fails ends it. *)
Notation "'check!' c 'in' k" := (out! passed := c in if passed : bool then k else ret false)
  (at level 10, c at level 100, k at level 200) : docdb_scope.

Section validator.
Context {L : BidLib} {A : BidMath} {I : Icu} {P : Pcre} {H : PgHash}.
Context {T : StringTable} {D : DynaHash} {Q : QSort}.
Context (EnableCollation EnableSchemaEnforcementForCSFLE EnableBsonTypeArgumentValidation : bool).

(** ** Unique items *)

(** [BsonKeyValuePair]: the key and the value. *)
Definition CompareKeysInBsonKeyValuePairs (a b : bson_field) : Z := strcmp a.1 b.1.

(** [list_sort] sorts the cells with PostgreSQL's quicksort. *)
Definition GetSortedListOfKeyValuePairs (value : bson_value) : result bson_doc :=
  match value with
  | V_Document fields | V_Array fields =>
      qsort_arg (fun a b => Ok (CompareKeysInBsonKeyValuePairs a b)) fields
  | _ => Err ERRCODE_DOCUMENTDB_BADVALUE
  end.

(** The result and the [isComparisonValid] output; the comparison of
    sub-documents is an argument. *)
Definition CompareBsonKvPairs_with
  (CompareBsonDocKvLists : bson_doc -> bson_doc -> outcome (Z * bool)) (pairA pairB : bson_field)
  : outcome (Z * bool) :=
  let keyComp := strcmp pairA.1 pairB.1 in
  if negb (keyComp =? 0) then ret (keyComp, true)
  else
    let sortOrderCmp := CompareSortOrderType (value_type pairA.2) (value_type pairB.2) in
    if negb (sortOrderCmp =? 0) then ret (sortOrderCmp, false)
    else if holds_type pairA.2 BSON_TYPE_DOCUMENT then
      out! listA := Some (GetSortedListOfKeyValuePairs pairA.2) in
      out! listB := Some (GetSortedListOfKeyValuePairs pairB.2) in
      CompareBsonDocKvLists listA listB
    else Some (CompareBsonValueAndType pairA.2 pairB.2).

(** The loop over two lists of the same length. *)
Fixpoint kv_loop (CompareBsonKvPairs : bson_field -> bson_field -> outcome (Z * bool))
  (listA listB : bson_doc) : outcome (Z * bool) :=
  match listA, listB with
  | pairA :: listA', pairB :: listB' =>
      out! (cmp, isComparisonValid) := CompareBsonKvPairs pairA pairB in
      if negb isComparisonValid || negb (cmp =? 0) then ret (cmp, isComparisonValid)
      else kv_loop CompareBsonKvPairs listA' listB'
  | _, _ => ret (0, true)
  end.

(** The lengths of two [List]s are at most [INT_MAX], and so is their
    difference. *)
Fixpoint CompareBsonDocKvLists (fuel : nat) (listA listB : bson_doc) : outcome (Z * bool) :=
  match fuel with
  | O => None
  | S fuel' =>
      let keyCountA := Z.of_nat (length listA) in
      let keyCountB := Z.of_nat (length listB) in
      if negb (keyCountA =? keyCountB) then ret (keyCountA - keyCountB, true)
      else kv_loop (CompareBsonKvPairs_with (CompareBsonDocKvLists fuel')) listA listB
  end.

(** The search among the documents seen before. *)
Fixpoint same_document (fuel : nat) (docKvListA : bson_doc) (docsList : list bson_doc) : outcome bool :=
  match docsList with
  | [] => ret false
  | docKvListB :: rest =>
      out! (cmp, isComparisonValid) := CompareBsonDocKvLists fuel docKvListA docKvListB in
      if isComparisonValid && (cmp =? 0) then ret true else same_document fuel docKvListA rest
  end.

Fixpoint unique_loop (fuel : nat) (elements : bson_doc) (bsonValueHashSet : list bson_value)
  (docsList : list bson_doc) (ignoreKeyOrderInObject : bool) : outcome bool :=
  match elements with
  | [] => ret true
  | (_, arrayValue) :: rest =>
      out! found := Some (hash_find (BsonValueHashFunc EnableCollation) BsonValueHashEntryCompareFunc
                            bsonValueHashSet arrayValue) in
      if found : bool then ret false
      else
        let set := bsonValueHashSet ++ [arrayValue] in
        if holds_type arrayValue BSON_TYPE_DOCUMENT && ignoreKeyOrderInObject then
          out! docKvListA := Some (GetSortedListOfKeyValuePairs arrayValue) in
          match docKvListA with
          | [] => unique_loop fuel rest set docsList ignoreKeyOrderInObject
          | _ =>
              out! same := same_document fuel docKvListA docsList in
              if same : bool then ret false
              else unique_loop fuel rest set (docsList ++ [docKvListA]) ignoreKeyOrderInObject
          end
        else unique_loop fuel rest set docsList ignoreKeyOrderInObject
  end.

(** The nesting of the array bounds that of the documents compared. *)
Definition IsBsonArrayUnique (value : bson_value) (ignoreKeyOrderInObject : bool) : outcome bool :=
  match value with
  | V_Array elements => unique_loop (depth value) elements [] [] ignoreKeyOrderInObject
  | _ => raise ERRCODE_DOCUMENTDB_BADVALUE
  end.

(** ** Strings and numbers *)

Definition ValidateBsonValueString (value : bson_value) (node : SchemaNode) : outcome bool :=
  match value with
  | V_Utf8 string =>
      let strView := mk_view (Some string) (blen string) in
      let flags := f_string (validationFlags node) in
      check!
        if has flags (Z.lor StringValidationTypes_MaxLength StringValidationTypes_MinLength) then
          out! len := Some (StringViewMultiByteCharStrlen strView) in
          check!
            if has flags StringValidationTypes_MaxLength
            then deref! s := v_string node in ret (negb (maxLength s <? len)) else ret true in
          if has flags StringValidationTypes_MinLength
          then deref! s := v_string node in ret (negb (len <? minLength s)) else ret true
        else ret true in
      if has flags StringValidationTypes_Pattern then
        deref! s := v_string node in deref! regex := pattern s in
        Some (PcreRegexExecute regex [] (sv_view strView))
      else ret true
  | _ => ret true
  end.

Definition ValidateBsonValueNumeric (value : bson_value) (node : SchemaNode) : outcome bool :=
  if negb (BsonValueIsNumber value) then ret true
  else
    let flags := f_numeric (validationFlags node) in
    check!
      if has flags NumericValidationTypes_Maximum then
        deref! n := v_numeric node in deref! max := maximum n in
        out! (res, isComparisonValid) := Some (CompareBsonValueAndType value max) in
        if has flags NumericValidationTypes_ExclusiveMaximum && exclusiveMaximum n
        then ret (negb ((0 <=? res) || negb isComparisonValid))
        else ret (negb ((res =? 1) || negb isComparisonValid))
      else ret true in
    check!
      if has flags NumericValidationTypes_Minimum then
        deref! n := v_numeric node in deref! min := minimum n in
        out! (res, isComparisonValid) := Some (CompareBsonValueAndType value min) in
        if has flags NumericValidationTypes_ExclusiveMinimum && exclusiveMinimum n
        then ret (negb ((res <=? 0) || negb isComparisonValid))
        else ret (negb ((res =? -1) || negb isComparisonValid))
      else ret true in
    if has flags NumericValidationTypes_MultipleOf then
      deref! n := v_numeric node in deref! divisor := multipleOf n in
      out! remainder := Some (GetRemainderFromModBsonValues value divisor true) in
      out! d := Some (BsonValueAsDouble remainder) in
      ret (d_eq d 0)
    else ret true.

Definition ValidateBsonValueBinary (value : bson_value) (node : SchemaNode) : bool :=
  if negb EnableSchemaEnforcementForCSFLE then true
  else
    match value with
    | V_Binary subtype _ =>
        if has (f_binary (validationFlags node)) BinaryValidationTypes_Encrypt
        then subtype =? BSON_SUBTYPE_ENCRYPTED else true
    | _ => false
    end.

(** ** Nested values

    [ValidateBsonValueAgainstSchemaTree] on the nodes below is an argument. *)

Section nested.
Context (Validate : bson_value -> SchemaNode -> outcome bool).

Fixpoint enum_loop (value : bson_value) (elements : bson_doc) : outcome bool :=
  match elements with
  | [] => ret false
  | (_, element) :: rest =>
      out! equal := Some (BsonValueEquals value element) in
      if equal : bool then ret true else enum_loop value rest
  end.

Fixpoint one_of_loop (value : bson_value) (nodes : list SchemaNode) (matchCount : Z) : outcome bool :=
  match nodes with
  | [] => ret (matchCount =? 1)
  | subNode :: rest =>
      out! valid := Validate value subNode in
      if valid : bool then
        if 1 <? matchCount + 1 then ret false else one_of_loop value rest (matchCount + 1)
      else one_of_loop value rest matchCount
  end.

Definition ValidateBsonValueCommon (value : bson_value) (node : SchemaNode) : outcome bool :=
  let flags := f_common (validationFlags node) in
  let bsonTypeFlag := GetBsonValueTypeFlag (value_type value) in
  check!
    if has flags CommonValidationTypes_JsonType
    then deref! c := v_common node in ret (has (jsonTypes c) bsonTypeFlag) else ret true in
  check!
    if has flags CommonValidationTypes_BsonType
    then deref! c := v_common node in ret (has (bsonTypes c) bsonTypeFlag) else ret true in
  check!
    if has flags CommonValidationTypes_Enum
    then deref! c := v_common node in deref! values := enumValues c in enum_loop value (fields_of values)
    else ret true in
  if has flags CommonValidationTypes_OneOf
  then deref! c := v_common node in one_of_loop value (oneOfNodes c) 0 else ret true.

(** The set of required names; all of them are strings. *)
Fixpoint enter_required (names : bson_doc) (table : list StringView) (requiredCount : Z)
  : list StringView * Z :=
  match names with
  | [] => (table, requiredCount)
  | (_, name) :: rest =>
      let view := mk_view (Some (text_of name)) (strlen (text_of name)) in
      enter_required rest (string_set_enter table view).2 (requiredCount + 1)
  end.

Fixpoint object_loop (node : SchemaNode) (fields : bson_doc) (isRequiredValid : bool)
  (table : list StringView) (requiredCount : Z) : outcome bool :=
  match fields with
  | [] => ret (negb (isRequiredValid && (0 <? requiredCount)))
  | (name, fieldValue) :: rest =>
      out! fieldNode := FindFieldNodeByName (Some node) name in
      check!
        match fieldNode with
        | Some (_, fieldNode) => Validate fieldValue (base fieldNode)
        | None => ret true
        end in
      if isRequiredValid then
        let '(found, table') := string_set_remove table (mk_view (Some name) (strlen name)) in
        object_loop node rest isRequiredValid table'
          (if found : bool then requiredCount - 1 else requiredCount)
      else object_loop node rest isRequiredValid table requiredCount
  end.

Definition ValidateBsonValueObject (value : bson_value) (node : SchemaNode) : outcome bool :=
  match value with
  | V_Document fields =>
      if has (f_object (validationFlags node)) ObjectValidationTypes_Required then
        deref! o := v_object node in deref! names := required o in
        let '(table, requiredCount) := enter_required (fields_of names) [] 0 in
        object_loop node fields true table requiredCount
      else object_loop node fields false [] 0
  | _ => ret true
  end.

(** Every element passes the node the pointer refers to. *)
Fixpoint all_items (elements : bson_doc) (itemNode : option SchemaNode) : outcome bool :=
  match elements with
  | [] => ret true
  | (_, arrayElementValue) :: rest =>
      check! deref! node := itemNode in Validate arrayElementValue node in all_items rest itemNode
  end.

(** The elements against the nodes of "items"; the elements left over are for
    the continuation. *)
Fixpoint zip_items (itemNodes : list SchemaNode) (elements : bson_doc) (k : bson_doc -> outcome bool)
  : outcome bool :=
  match itemNodes, elements with
  | [], _ => k elements
  | _ :: _, [] => k []
  | itemNode :: itemNodes', (_, arrayElementValue) :: elements' =>
      check! Validate arrayElementValue itemNode in zip_items itemNodes' elements' k
  end.

(** A boolean read after a node was stored is a byte of its address: there is
    no outcome. *)
Definition read_additionalItemsBool (u : AdditionalItems SchemaNode) : option bool :=
  match u with AI_zeroed => Some false | AI_bool b => Some b | AI_node _ => None end.

Definition read_additionalItemsNode (u : AdditionalItems SchemaNode) : option SchemaNode :=
  match u with AI_node n => Some n | _ => None end.

Definition ValidateBsonValueArray (value : bson_value) (node : SchemaNode) : outcome bool :=
  match value with
  | V_Array elements =>
      let flags := f_array (validationFlags node) in
      check!
        if has flags (Z.lor ArrayValidationTypes_MaxItems ArrayValidationTypes_MinItems) then
          let arrayLen := wrap_u 16 (Z.of_nat (length elements)) in
          check!
            if has flags ArrayValidationTypes_MaxItems
            then deref! a := v_array node in ret (negb (maxItems a <? arrayLen)) else ret true in
          if has flags ArrayValidationTypes_MinItems
          then deref! a := v_array node in ret (negb (arrayLen <? minItems a)) else ret true
        else ret true in
      check!
        if has flags ArrayValidationTypes_UniqueItems then
          deref! a := v_array node in
          if uniqueItems a then IsBsonArrayUnique value true else ret true
        else ret true in
      check!
        if has flags ArrayValidationTypes_ItemsObject then
          deref! a := v_array node in all_items elements (head (items a))
        else ret true in
      if has flags ArrayValidationTypes_ItemsArray then
        deref! a := v_array node in
        zip_items (items a) elements (fun left =>
          match left with
          | [] => ret true
          | _ =>
              if has flags ArrayValidationTypes_AdditionalItemsBool
              then deref! b := read_additionalItemsBool (additionalItems a) in ret b
              else if has flags ArrayValidationTypes_AdditionalItemsObject
              then all_items left (read_additionalItemsNode (additionalItems a))
              else ret true
          end)
      else ret true
  | _ => ret true
  end.

Definition Validate_with (value : bson_value) (node : SchemaNode) : outcome bool :=
  let flags := validationFlags node in
  check! if negb (f_common flags =? 0) then ValidateBsonValueCommon value node else ret true in
  check! if negb (f_object flags =? 0) then ValidateBsonValueObject value node else ret true in
  check! if negb (f_string flags =? 0) then ValidateBsonValueString value node else ret true in
  check! if negb (f_numeric flags =? 0) then ValidateBsonValueNumeric value node else ret true in
  check! if negb (f_array flags =? 0) then ValidateBsonValueArray value node else ret true in
  ret (negb (negb (f_binary flags =? 0) && EnableSchemaEnforcementForCSFLE &&
             negb (ValidateBsonValueBinary value node))).
End nested.

Fixpoint ValidateBsonValueAgainstSchemaTree (fuel : nat) : bson_value -> SchemaNode -> outcome bool :=
  match fuel with
  | O => fun _ _ => None
  | S fuel' => Validate_with (ValidateBsonValueAgainstSchemaTree fuel')
  end.

(** The operator: the tree is built by the first call and cached, or built for
    this call; it is the same tree. *)
Definition bson_dollar_json_schema (document schema : bson_doc) : outcome bool :=
  out! element := Some (BsonIterToSinglePgbsonElement EnableCollation schema) in
  match element.2 with
  | V_Document schemaIter =>
      out! rootNode := BuildSchemaTree EnableSchemaEnforcementForCSFLE EnableBsonTypeArgumentValidation
                         schemaIter in
      ValidateBsonValueAgainstSchemaTree (depth (V_Document schemaIter)) (V_Document document) rootNode
  | _ => raise ERRCODE_DOCUMENTDB_TYPEMISMATCH
  end.
End validator.
