(* ===== verification/JsonSchemaSpec.v ===== *)
(** * $jsonSchema: the meaning of a schema

    Which schema documents are accepted, and what the keywords of an accepted
    one ask of a value: [accepted] and [satisfies], by recursion on the nesting
    of the schema.  Conditions may raise an error (an arithmetic one, a string
    that is not UTF-8, a limit of the regular expressions), so they are
    evaluated in an order, and a condition that does not hold ends the
    evaluation. *)

From Stdlib Require Import String.
From stdpp Require Import base numbers list option sorting.
From Stdlib Require Import ZArith Lia.
From S2P Require Import Prelude Binary64 Bson StringView Decimal128 Collation BsonCompare BsonHash.
From S2P Require Import Arithmetic QueryOperators QuerySets UpdateOperators JsonSchemaTree.
From S2P Require Import JsonSchemaValidator.

(** ** The specification *)

(** The argument of a keyword. *)
Definition keyword_argument (k : Keyword) (schema : bson_doc) : option bson_value :=
  snd <$> List.find (fun f => bool_decide (schema_keyword f.1 = k)) schema.

Definition asked (k : Keyword) (schema : bson_doc) : bool :=
  bool_decide (is_Some (keyword_argument k schema)).

(** One condition after the other: a later one is evaluated only if the earlier
    ones hold. *)
Notation "a 'and_then' b" := (result_bind a (fun holds : bool => if holds then b else Ok false))
  (at level 60, right associativity) : docdb_scope.

Definition when (k : Keyword) (schema : bson_doc) (condition : bson_value -> result bool) : result bool :=
  match keyword_argument k schema with Some v => condition v | None => Ok true end.

Fixpoint all_hold {A} (condition : A -> result bool) (l : list A) : result bool :=
  match l with
  | [] => Ok true
  | x :: l' => condition x and_then all_hold condition l'
  end.

(** Exactly one condition holds; the second that holds ends the search. *)
Fixpoint exactly_one {A} (condition : A -> result bool) (seen : bool) (l : list A) : result bool :=
  match l with
  | [] => Ok seen
  | x :: l' =>
      let! holds := condition x in
      if holds : bool then if seen then Ok false else exactly_one condition true l'
      else exactly_one condition seen l'
  end.

Definition texts_of (v : bson_value) : list bytes :=
  match v with V_Utf8 s => [s] | V_Array elements => (text_of ∘ snd) <$> elements | _ => [] end.

(** The names of types in "type" and in "bsonType". *)
Definition json_type_names : list (bytes * list bson_type) :=
  [(str "array", [BSON_TYPE_ARRAY]); (str "boolean", [BSON_TYPE_BOOL]);
   (str "number", [BSON_TYPE_INT32; BSON_TYPE_INT64; BSON_TYPE_DECIMAL128; BSON_TYPE_DOUBLE]);
   (str "null", [BSON_TYPE_NULL]); (str "object", [BSON_TYPE_DOCUMENT]); (str "string", [BSON_TYPE_UTF8])].

Definition bson_type_names : list (bytes * list bson_type) :=
  [(str "double", [BSON_TYPE_DOUBLE]); (str "string", [BSON_TYPE_UTF8]); (str "object", [BSON_TYPE_DOCUMENT]);
   (str "array", [BSON_TYPE_ARRAY]); (str "binData", [BSON_TYPE_BINARY]); (str "undefined", [BSON_TYPE_UNDEFINED]);
   (str "objectId", [BSON_TYPE_OID]); (str "bool", [BSON_TYPE_BOOL]); (str "date", [BSON_TYPE_DATE_TIME]);
   (str "null", [BSON_TYPE_NULL]); (str "regex", [BSON_TYPE_REGEX]); (str "dbPointer", [BSON_TYPE_DBPOINTER]);
   (str "javascript", [BSON_TYPE_CODE]); (str "symbol", [BSON_TYPE_SYMBOL]);
   (str "javascriptWithScope", [BSON_TYPE_CODEWSCOPE]); (str "int", [BSON_TYPE_INT32]);
   (str "timestamp", [BSON_TYPE_TIMESTAMP]); (str "long", [BSON_TYPE_INT64]); (str "decimal", [BSON_TYPE_DECIMAL128]);
   (str "minKey", [BSON_TYPE_MAXKEY]); (str "maxKey", [BSON_TYPE_MINKEY])].

(** The types with a name; there are none if the name is unknown. *)
Definition types_named (table : list (bytes * list bson_type)) (name : bytes) : list bson_type :=
  match List.find (fun e => bool_decide (cstring name = e.1)) table with Some e => e.2 | None => [] end.

(** The type of the value is one of the types with these names. *)
Definition has_named_type (table : list (bytes * list bson_type)) (names : list bytes) (x : bson_value) : bool :=
  existsb (fun name => bool_decide (value_type x ∈ types_named table name)) names.

Definition known_name (table : list (bytes * list bson_type)) (name : bytes) : bool :=
  negb (bool_decide (types_named table name = [])).

Definition field_named (name : bytes) (fields : bson_doc) : option bson_value :=
  snd <$> List.find (fun f => bool_decide (f.1 = name)) fields.

Definition has_field (fields : bson_doc) (name : bytes) : bool :=
  existsb (fun f => bool_decide (f.1 = name)) fields.

Definition is_document (x : bson_value) : bool := holds_type x BSON_TYPE_DOCUMENT.
Definition is_array (x : bson_value) : bool := holds_type x BSON_TYPE_ARRAY.
Definition is_string (x : bson_value) : bool := holds_type x BSON_TYPE_UTF8.
Definition is_true (o : option bson_value) : bool :=
  match o with Some (V_Bool true) => true | _ => false end.

Section specification.
Context {L : BidLib} {BL : BidLaws L} {A : BidMath} {I : Icu} {IL : IcuLaws I} {P : Pcre} {H : PgHash}.
Context {T : StringTable} {D : DynaHash} {Q : QSort}.
Context (EnableCollation EnableSchemaEnforcementForCSFLE EnableBsonTypeArgumentValidation : bool).

(** The order of two numbers, where one is not a NaN alone. *)
Definition ordered (x bound : bson_value) (c : comparison -> bool) : bool :=
  Bool.eqb (is_xnan (number_of x)) (is_xnan (number_of bound)) &&
  c (bson_order (depth x) None x bound).

Definition at_most (exclusive : bool) (x bound : bson_value) : bool :=
  ordered x bound (fun c => match c with Lt => true | Eq => negb exclusive | Gt => false end).

Definition at_least (exclusive : bool) (x bound : bson_value) : bool :=
  ordered x bound (fun c => match c with Gt => true | Eq => negb exclusive | Lt => false end).

Definition multiple_of (x divisor : bson_value) : result bool :=
  let! remainder := GetRemainderFromModBsonValues x divisor true in
  let! d := BsonValueAsDouble remainder in
  Ok (d_eq d 0).

(** A bound on a number of characters or items. *)
Definition bound_of (v : bson_value) : Z :=
  match GetValidatedBsonIntValue v with Ok z => uint32 z | Err _ => 0 end.

Definition characters (x : bson_value) : result Z :=
  StringViewMultiByteCharStrlen (mk_view (Some (text_of x)) (blen (text_of x))).

Definition item_count (x : bson_value) : Z := wrap_u 16 (Z.of_nat (length (fields_of x))).

Definition unique_items (x : bson_value) : result bool :=
  default (Ok true) (IsBsonArrayUnique EnableCollation x true).

Definition encrypted (x : bson_value) : bool :=
  match x with V_Binary subtype _ => subtype =? BSON_SUBTYPE_ENCRYPTED | _ => false end.

Section keywords.
Context (satisfies : bson_value -> bson_value -> result bool) (schema : bson_doc) (x : bson_value).

Definition common_keywords : result bool :=
  when K_type schema (fun v => Ok (has_named_type json_type_names (texts_of v) x)) and_then
  when K_bsonType schema (fun v => Ok (has_named_type bson_type_names (texts_of v) x)) and_then
  when K_enum schema (fun v => Ok (existsb (fun f => equals None f.2 x) (fields_of v))) and_then
  when K_oneOf schema (fun v => exactly_one (fun f => satisfies f.2 x) false (fields_of v)).

Definition object_keywords : result bool :=
  all_hold (fun field =>
    when K_properties schema (fun v =>
      match field_named field.1 (fields_of v) with
      | Some s => satisfies s field.2
      | None => Ok true
      end)) (fields_of x) and_then
  when K_required schema (fun v => Ok (forallb (has_field (fields_of x)) (cstring <$> texts_of v))).

Definition string_keywords : result bool :=
  (if asked K_maxLength schema || asked K_minLength schema then
     let! length := characters x in
     when K_maxLength schema (fun v => Ok (length <=? bound_of v)) and_then
     when K_minLength schema (fun v => Ok (bound_of v <=? length))
   else Ok true) and_then
  when K_pattern schema (fun v => PcreRegexExecute (cstring (text_of v)) [] (text_of x)).

Definition numeric_keywords : result bool :=
  when K_maximum schema (fun v => Ok (at_most (is_true (keyword_argument K_exclusiveMaximum schema)) x v)) and_then
  when K_minimum schema (fun v => Ok (at_least (is_true (keyword_argument K_exclusiveMinimum schema)) x v)) and_then
  when K_multipleOf schema (multiple_of x).

(** The schemas of "items", one after the other, and "additionalItems" for the
    elements after them. *)
Fixpoint listed_items (schemas elements : bson_doc) : result bool :=
  match schemas, elements with
  | s :: schemas', e :: elements' => satisfies s.2 e.2 and_then listed_items schemas' elements'
  | [], _ :: _ =>
      when K_additionalItems schema (fun v =>
        match v with
        | V_Bool b => Ok b
        | _ => all_hold (fun e => satisfies v e.2) elements
        end)
  | _, [] => Ok true
  end.

Definition array_keywords : result bool :=
  when K_maxItems schema (fun v => Ok (item_count x <=? bound_of v)) and_then
  when K_minItems schema (fun v => Ok (bound_of v <=? item_count x)) and_then
  when K_uniqueItems schema (fun v => if is_true (Some v) then unique_items x else Ok true) and_then
  when K_items schema (fun v =>
    match v with
    | V_Array schemas => listed_items schemas (fields_of x)
    | _ => all_hold (fun e => satisfies v e.2) (fields_of x)
    end).

Definition all_keywords : result bool :=
  common_keywords and_then
  (if is_document x then object_keywords else Ok true) and_then
  (if is_string x then string_keywords else Ok true) and_then
  (if BsonValueIsNumber x then numeric_keywords else Ok true) and_then
  (if is_array x then array_keywords else Ok true) and_then
  Ok (negb (EnableSchemaEnforcementForCSFLE && asked K_encrypt schema) || encrypted x).
End keywords.

(** The value satisfies the schema; the first argument bounds the nesting of
    the schema. *)
Fixpoint satisfies (n : nat) (schema x : bson_value) : result bool :=
  match n with
  | O => Ok true
  | S n' => all_keywords (satisfies n') (fields_of schema) x
  end.

(** The schemas that are accepted. *)
Definition is_ok {B} (r : result B) : bool := match r with Ok _ => true | Err _ => false end.

Definition distinct_texts (v : bson_value) : bool := bool_decide (NoDup (cstring <$> texts_of v)).

(** A known name, or a list of different known names. *)
Definition names_types (table : list (bytes * list bson_type)) (v : bson_value) : bool :=
  match v with
  | V_Utf8 name => known_name table name
  | V_Array elements =>
      negb (bool_decide (elements = [])) &&
      forallb (fun f => is_string f.2 && known_name table (text_of f.2)) elements && distinct_texts v
  | _ => false
  end.

Section accepted.
Context (accepted : bson_value -> bool).

Definition argument_accepted (k : Keyword) (v : bson_value) : bool :=
  match k with
  | K_properties => is_document v && forallb (fun f => negb (has_char f.1 46) && accepted f.2) (fields_of v)
  | K_required =>
      is_array v && forallb (fun f => is_string f.2 && negb (has_char (text_of f.2) 46)) (fields_of v) &&
      distinct_texts v
  | K_type => names_types json_type_names v
  | K_bsonType => names_types bson_type_names v
  | K_encrypt => negb EnableSchemaEnforcementForCSFLE || is_document v && is_ok (encrypt_loop (fields_of v))
  | K_encryptMetadata =>
      negb EnableSchemaEnforcementForCSFLE ||
      is_document v && negb (bool_decide (fields_of v = [])) && is_ok (encrypt_metadata_loop (fields_of v))
  | K_description => is_string v
  | K_title => EnableBsonTypeArgumentValidation && is_string v
  | K_enum => is_array v && negb (bool_decide (fields_of v = []))
  | K_oneOf => is_array v && negb (bool_decide (fields_of v = [])) && forallb (fun f => accepted f.2) (fields_of v)
  | K_multipleOf => is_ok (check_divisor EnableBsonTypeArgumentValidation v)
  | K_maximum | K_minimum => BsonValueIsNumber v
  | K_exclusiveMaximum | K_exclusiveMinimum | K_uniqueItems => holds_type v BSON_TYPE_BOOL
  | K_maxLength | K_minLength | K_maxItems | K_minItems => is_ok (GetValidatedBsonIntValue v)
  | K_pattern => is_string v && is_ok (RegexCompile (cstring (text_of v)) [])
  | K_items => accepted v || is_array v && forallb (fun f => accepted f.2) (fields_of v)
  | K_additionalItems => holds_type v BSON_TYPE_BOOL || accepted v
  | K_unsupported | K_unknown => false
  end.

(** The keywords that depend on one another. *)
Definition consistent (schema : bson_doc) : bool :=
  implb (asked K_exclusiveMaximum schema) (asked K_maximum schema) &&
  implb (asked K_exclusiveMinimum schema) (asked K_minimum schema) &&
  negb (asked K_type schema && asked K_bsonType schema) &&
  negb (EnableSchemaEnforcementForCSFLE && asked K_encrypt schema &&
        (asked K_type schema || asked K_bsonType schema)).
End accepted.

Fixpoint accepted (n : nat) (schema : bson_value) : bool :=
  match n with
  | O => false
  | S n' =>
      is_document schema &&
      forallb (fun f => argument_accepted (accepted n') (schema_keyword f.1) f.2) (fields_of schema) &&
      consistent (fields_of schema)
  end.
End specification.
