(* ===== verification/JsonSchemaBuild.v ===== *)
(** * $jsonSchema: the tree of a schema

    Reading a keyword stores its argument in a node and changes no other
    ([stored]), so the node that was built for a schema without repeated keys
    has exactly the arguments of the schema ([node_of]); a keyword whose
    argument is not accepted raises an error. *)

From Stdlib Require Import String.
From stdpp Require Import base numbers list option sorting.
From Stdlib Require Import ZArith Lia.
From S2P Require Import Prelude Bson StringView Traversal Decimal128 Collation BsonCompare BsonHash.
From S2P Require Import QueryOperators UpdateOperators JsonSchemaTree JsonSchemaValidator.
From S2P Require Import JsonSchemaSpec.

(** ** Flags *)

Lemma has_lor f a b : has (Z.lor f a) b = has f b || has a b.
Proof.
  unfold has. rewrite Z.land_lor_distr_l.
  destruct (Z.eqb_spec (Z.land f b) 0) as [->|E1], (Z.eqb_spec (Z.land a b) 0) as [->|E2]; simpl;
    rewrite ?Z.lor_0_l, ?Z.lor_0_r; destruct (Z.eqb_spec (Z.lor (Z.land f b) (Z.land a b)) 0) as [E|];
    try lia; try done; rewrite ?Z.lor_eq_0_iff in E; intuition congruence.
Qed.

Lemma has_lor_r f a b : has f (Z.lor a b) = has f a || has f b.
Proof.
  unfold has. rewrite (Z.land_comm f (Z.lor a b)), (Z.land_comm f a), (Z.land_comm f b). apply has_lor.
Qed.

Lemma has_0 b : has 0 b = false.
Proof. done. Qed.

(** ** Type names *)

Lemma strcmp_cstring a b :
  bytesb a = true -> bytesb b = true -> (strcmp a b =? 0) = bool_decide (cstring a = cstring b).
Proof.
  revert b. induction a as [|x a IH]; intros [|y b]; unfold bytesb; cbn [forallb strcmp cstring]; [done|..];
    rewrite ?andb_true_iff; unfold byteb; intros Ha Hb.
  - destruct (Z.eqb_spec y 0) as [->|]; [done|]. rewrite bool_decide_eq_false_2 by done. lia.
  - destruct (Z.eqb_spec x 0) as [->|]; [done|]. rewrite bool_decide_eq_false_2 by done. lia.
  - destruct (Z.eqb_spec x y) as [->|Hxy].
    + destruct (Z.eqb_spec y 0) as [->|]; [done|]. rewrite IH by tauto.
      apply bool_decide_ext. split; [by intros ->|by intros [= ->]].
    + replace (x - y =? 0) with false by lia. symmetry. apply bool_decide_eq_false.
      destruct (Z.eqb_spec x 0), (Z.eqb_spec y 0); [lia|done|done|by intros [= ? _]].
Qed.

Lemma strequal_literal name s :
  bytesb name = true -> bytesb s = true -> cstring s = s -> strequal name s = bool_decide (cstring name = s).
Proof. intros Hn Hs E. unfold strequal. by rewrite strcmp_cstring, E. Qed.

(** The flags of a list of types. *)
Definition flags_of (types : list bson_type) : Z := fold_right Z.lor 0 (GetBsonValueTypeFlag <$> types).

Lemma has_type_flag t t' : has (GetBsonValueTypeFlag t) (GetBsonValueTypeFlag t') = bool_decide (t = t').
Proof. by destruct t, t'. Qed.

Lemma has_flags_of types t : has (flags_of types) (GetBsonValueTypeFlag t) = bool_decide (t ∈ types).
Proof.
  induction types as [|t' types IH]; [done|]. cbn [flags_of fmap list_fmap fold_right].
  rewrite has_lor, has_type_flag. fold (flags_of types). rewrite IH.
  apply eq_true_iff_eq. rewrite orb_true_iff, !bool_decide_eq_true, elem_of_cons. split; (intros [E|E]; [left; congruence|by right]).
Qed.

Lemma has_flags types types' :
  has (flags_of types) (flags_of types') = existsb (fun t => bool_decide (t ∈ types)) types'.
Proof.
  induction types' as [|t types' IH]; [unfold has; by rewrite Z.land_0_r|]. cbn [flags_of fmap list_fmap fold_right existsb].
  rewrite has_lor_r, has_flags_of. fold (flags_of types'). by rewrite IH.
Qed.

(** A function that reads a table of names. *)
Definition reads_table (get : bytes -> result Z) (table : list (bytes * list bson_type)) : Prop :=
  forall name, bytesb name = true ->
    if known_name table name then get name = Ok (flags_of (types_named table name)) else exists e, get name = Err e.

Ltac solve_table name Hn :=
  rewrite ?(strequal_literal name _ Hn) by reflexivity;
  unfold known_name, types_named; cbn [List.find fst];
  repeat match goal with
  | |- context [bool_decide (cstring name = ?s)] =>
      let E := fresh "E" in
      destruct (bool_decide_reflect (cstring name = s)) as [E|?]; [rewrite ?E; vm_compute; (reflexivity || by eexists)|]
  end.

Lemma json_table : reads_table GetJsonTypeEnumFromJsonTypeString json_type_names.
Proof.
  intros name Hn. unfold GetJsonTypeEnumFromJsonTypeString, json_type_names. solve_table name Hn.
  rewrite bool_decide_eq_true_2 by done. by eexists.
Qed.

Lemma bson_table : reads_table GetBsonTypeEnumFromBsonTypeString bson_type_names.
Proof.
  intros name Hn. unfold GetBsonTypeEnumFromBsonTypeString, bson_type_names. solve_table name Hn.
  rewrite bool_decide_eq_true_2 by done. by eexists.
Qed.

(** ** What a node asks for *)

Inductive argument : Type :=
| A_types (types : Z)
| A_value (v : bson_value)
| A_bool (b : bool)
| A_size (z : Z)
| A_regex (regex : bytes)
| A_node (node : SchemaNode)
| A_nodes (nodes : list SchemaNode)
| A_fields (fields : list SchemaFieldNode)
| A_encrypt.

(** The argument of a keyword in a node: [None] without the flag, and
    [Some None] where a pointer behind the flag is [NULL]. *)
Definition slot (node : SchemaNode) (k : Keyword) : option (option argument) :=
  let flags := validationFlags node in
  let common flag (f : ValidationsCommon SchemaNode -> option argument) :=
    if has (f_common flags) flag then Some (v_common node ≫= f) else None in
  let object flag (f : ValidationsObject SchemaNode -> option argument) :=
    if has (f_object flags) flag then Some (v_object node ≫= f) else None in
  let numeric flag (f : ValidationsNumeric -> option argument) :=
    if has (f_numeric flags) flag then Some (v_numeric node ≫= f) else None in
  let string flag (f : ValidationsString -> option argument) :=
    if has (f_string flags) flag then Some (v_string node ≫= f) else None in
  let array flag (f : ValidationsArray SchemaNode -> option argument) :=
    if has (f_array flags) flag then Some (v_array node ≫= f) else None in
  match k with
  | K_properties => object ObjectValidationTypes_Properties (fun o => Some (A_fields (properties o)))
  | K_required => object ObjectValidationTypes_Required (fun o => A_value <$> required o)
  | K_type => common CommonValidationTypes_JsonType (fun c => Some (A_types (jsonTypes c)))
  | K_bsonType => common CommonValidationTypes_BsonType (fun c => Some (A_types (bsonTypes c)))
  | K_enum => common CommonValidationTypes_Enum (fun c => A_value <$> enumValues c)
  | K_oneOf => common CommonValidationTypes_OneOf (fun c => Some (A_nodes (oneOfNodes c)))
  | K_multipleOf => numeric NumericValidationTypes_MultipleOf (fun n => A_value <$> multipleOf n)
  | K_maximum => numeric NumericValidationTypes_Maximum (fun n => A_value <$> maximum n)
  | K_exclusiveMaximum =>
      numeric NumericValidationTypes_ExclusiveMaximum (fun n => Some (A_bool (exclusiveMaximum n)))
  | K_minimum => numeric NumericValidationTypes_Minimum (fun n => A_value <$> minimum n)
  | K_exclusiveMinimum =>
      numeric NumericValidationTypes_ExclusiveMinimum (fun n => Some (A_bool (exclusiveMinimum n)))
  | K_maxLength => string StringValidationTypes_MaxLength (fun s => Some (A_size (maxLength s)))
  | K_minLength => string StringValidationTypes_MinLength (fun s => Some (A_size (minLength s)))
  | K_pattern => string StringValidationTypes_Pattern (fun s => A_regex <$> pattern s)
  | K_maxItems => array ArrayValidationTypes_MaxItems (fun a => Some (A_size (maxItems a)))
  | K_minItems => array ArrayValidationTypes_MinItems (fun a => Some (A_size (minItems a)))
  | K_uniqueItems => array ArrayValidationTypes_UniqueItems (fun a => Some (A_bool (uniqueItems a)))
  | K_items =>
      match has (f_array flags) ArrayValidationTypes_ItemsObject,
            has (f_array flags) ArrayValidationTypes_ItemsArray with
      | false, false => None
      | true, false => Some (v_array node ≫= fun a => A_node <$> head (items a))
      | false, true => Some (v_array node ≫= fun a => Some (A_nodes (items a)))
      | true, true => Some None
      end
  | K_additionalItems =>
      match has (f_array flags) ArrayValidationTypes_AdditionalItemsBool,
            has (f_array flags) ArrayValidationTypes_AdditionalItemsObject with
      | false, false => None
      | true, _ => Some (v_array node ≫= fun a => A_bool <$> read_additionalItemsBool (additionalItems a))
      | false, true => Some (v_array node ≫= fun a => A_node <$> read_additionalItemsNode (additionalItems a))
      end
  | K_encrypt => if has (f_binary flags) BinaryValidationTypes_Encrypt then Some (Some A_encrypt) else None
  | K_encryptMetadata | K_description | K_title | K_unsupported | K_unknown => None
  end.

(** A node whose sections are allocated and whose lists are empty as long as
    their keyword was not seen. *)
Definition ready (node : SchemaNode) : Prop :=
  exists t o c n s a flags,
    node = mk_node t (Some o) (Some c) (Some n) (Some s) (Some a) flags /\
    (has (f_object flags) ObjectValidationTypes_Properties = false -> properties o = []) /\
    (has (f_common flags) CommonValidationTypes_OneOf = false -> oneOfNodes c = []) /\
    (has (f_array flags) ArrayValidationTypes_ItemsObject = false ->
     has (f_array flags) ArrayValidationTypes_ItemsArray = false -> items a = []) /\
    (f_binary flags <> 0 -> has (f_binary flags) BinaryValidationTypes_Encrypt = true).

Lemma ready_allocated type : ready (AllocateValidators (InitSchemaNode type)).
Proof. eexists _, _, _, _, _, _, _. split; [reflexivity|]. by split_and!. Qed.

Lemma slot_allocated type k : slot (AllocateValidators (InitSchemaNode type)) k = None.
Proof. by destruct k. Qed.

Lemma slot_freed node k : slot (FreeUnusedValidators node) k = slot node k.
Proof.
  destruct node as [t o c n s a [fo fc fn fs fa fb]]. unfold FreeUnusedValidators. cbn.
  destruct k; cbn; try done;
    match goal with |- context [if ?f =? 0 then None else _] => destruct (Z.eqb_spec f 0) as [->|] end;
    done.
Qed.

(** ** Storing an argument *)

(** The node afterwards has the argument of the keyword, and all others as
    before. *)
Definition stored (node : SchemaNode) (k : Keyword) (a : option argument) (r : outcome SchemaNode) : Prop :=
  exists node', r = ret node' /\ ready node' /\ slot node' k = Some <$> a /\
    forall k', k' <> k -> slot node' k' = slot node k'.

Ltac eval_flags :=
  rewrite ?has_lor;
  repeat match goal with
  | |- context [has ?a ?b] => is_const a; let r := eval vm_compute in (has a b) in change (has a b) with r
  end;
  rewrite ?orb_false_r, ?orb_true_r.

Ltac solve_ready :=
  eexists _, _, _, _, _, _, _; split; [reflexivity|]; cbn; split_and!; eval_flags; try done; auto.

Ltac solve_stored Hready Hslot :=
  let o := fresh "o" in let c := fresh "c" in let n := fresh "n" in let s := fresh "s" in
  let a := fresh "a" in let Hp := fresh "Hp" in let Ho := fresh "Ho" in let Hi := fresh "Hi" in
  let k' := fresh "k'" in let Hk := fresh "Hk" in
  destruct Hready as (?t & o & c & n & s & a & [?fo ?fc ?fn ?fs ?fa ?fb] & -> & Hp & Ho & Hi & ?);
  cbn in Hp, Ho, Hi, Hslot; eexists; split; [reflexivity|];
  split; [solve_ready|]; split;
  [ cbn; eval_flags; try done
  | intros k' Hk; destruct k'; try done; cbn; eval_flags; try done ].

Lemma store_type node types :
  ready node -> slot node K_type = None ->
  stored node K_type (Some (A_types types))
    (write_common (fun c => mk_common types (bsonTypes c) (enumValues c) (oneOfNodes c))
       CommonValidationTypes_JsonType node).
Proof. intros Hr Hs. solve_stored Hr Hs. Qed.

Lemma store_bsonType node types :
  ready node -> slot node K_bsonType = None ->
  stored node K_bsonType (Some (A_types types))
    (write_common (fun c => mk_common (jsonTypes c) types (enumValues c) (oneOfNodes c))
       CommonValidationTypes_BsonType node).
Proof. intros Hr Hs. solve_stored Hr Hs. Qed.

Lemma store_enum node v :
  ready node -> slot node K_enum = None ->
  stored node K_enum (Some (A_value v))
    (write_common (fun c => mk_common (jsonTypes c) (bsonTypes c) (Some v) (oneOfNodes c))
       CommonValidationTypes_Enum node).
Proof. intros Hr Hs. solve_stored Hr Hs. Qed.

Lemma store_oneOf node nodes :
  ready node -> slot node K_oneOf = None ->
  stored node K_oneOf (Some (A_nodes nodes))
    (write_common (fun c => mk_common (jsonTypes c) (bsonTypes c) (enumValues c) nodes)
       CommonValidationTypes_OneOf node).
Proof. intros Hr Hs. solve_stored Hr Hs. Qed.

Lemma store_required node v :
  ready node -> slot node K_required = None ->
  stored node K_required (Some (A_value v))
    (write_object (fun o => mk_object (properties o) (Some v)) ObjectValidationTypes_Required node).
Proof. intros Hr Hs. solve_stored Hr Hs. Qed.

Lemma store_maximum node v :
  ready node -> slot node K_maximum = None ->
  stored node K_maximum (Some (A_value v))
    (write_numeric (fun n => mk_numeric (Some v) (exclusiveMaximum n) (minimum n) (exclusiveMinimum n)
                               (multipleOf n)) NumericValidationTypes_Maximum node).
Proof. intros Hr Hs. solve_stored Hr Hs. Qed.

Lemma store_exclusiveMaximum node b :
  ready node -> slot node K_exclusiveMaximum = None ->
  stored node K_exclusiveMaximum (Some (A_bool b))
    (write_numeric (fun n => mk_numeric (maximum n) b (minimum n) (exclusiveMinimum n) (multipleOf n))
       NumericValidationTypes_ExclusiveMaximum node).
Proof. intros Hr Hs. solve_stored Hr Hs. Qed.

Lemma store_minimum node v :
  ready node -> slot node K_minimum = None ->
  stored node K_minimum (Some (A_value v))
    (write_numeric (fun n => mk_numeric (maximum n) (exclusiveMaximum n) (Some v) (exclusiveMinimum n)
                               (multipleOf n)) NumericValidationTypes_Minimum node).
Proof. intros Hr Hs. solve_stored Hr Hs. Qed.

Lemma store_exclusiveMinimum node b :
  ready node -> slot node K_exclusiveMinimum = None ->
  stored node K_exclusiveMinimum (Some (A_bool b))
    (write_numeric (fun n => mk_numeric (maximum n) (exclusiveMaximum n) (minimum n) b (multipleOf n))
       NumericValidationTypes_ExclusiveMinimum node).
Proof. intros Hr Hs. solve_stored Hr Hs. Qed.

Lemma store_multipleOf node v :
  ready node -> slot node K_multipleOf = None ->
  stored node K_multipleOf (Some (A_value v))
    (write_numeric (fun n => mk_numeric (maximum n) (exclusiveMaximum n) (minimum n) (exclusiveMinimum n)
                               (Some v)) NumericValidationTypes_MultipleOf node).
Proof. intros Hr Hs. solve_stored Hr Hs. Qed.

Lemma store_maxLength node z :
  ready node -> slot node K_maxLength = None ->
  stored node K_maxLength (Some (A_size z))
    (write_string (fun s => mk_string z (minLength s) (pattern s)) StringValidationTypes_MaxLength node).
Proof. intros Hr Hs. solve_stored Hr Hs. Qed.

Lemma store_minLength node z :
  ready node -> slot node K_minLength = None ->
  stored node K_minLength (Some (A_size z))
    (write_string (fun s => mk_string (maxLength s) z (pattern s)) StringValidationTypes_MinLength node).
Proof. intros Hr Hs. solve_stored Hr Hs. Qed.

Lemma store_pattern node regex :
  ready node -> slot node K_pattern = None ->
  stored node K_pattern (Some (A_regex regex))
    (write_string (fun s => mk_string (maxLength s) (minLength s) (Some regex))
       StringValidationTypes_Pattern node).
Proof. intros Hr Hs. solve_stored Hr Hs. Qed.

Lemma store_maxItems node z :
  ready node -> slot node K_maxItems = None ->
  stored node K_maxItems (Some (A_size z))
    (write_array (fun a => mk_array z (minItems a) (uniqueItems a) (items a) (additionalItems a))
       ArrayValidationTypes_MaxItems node).
Proof. intros Hr Hs. solve_stored Hr Hs. Qed.

Lemma store_minItems node z :
  ready node -> slot node K_minItems = None ->
  stored node K_minItems (Some (A_size z))
    (write_array (fun a => mk_array (maxItems a) z (uniqueItems a) (items a) (additionalItems a))
       ArrayValidationTypes_MinItems node).
Proof. intros Hr Hs. solve_stored Hr Hs. Qed.

Lemma store_uniqueItems node b :
  ready node -> slot node K_uniqueItems = None ->
  stored node K_uniqueItems (Some (A_bool b))
    (write_array (fun a => mk_array (maxItems a) (minItems a) b (items a) (additionalItems a))
       ArrayValidationTypes_UniqueItems node).
Proof. intros Hr Hs. solve_stored Hr Hs. Qed.

Lemma store_items_schema node child :
  ready node -> slot node K_items = None ->
  stored node K_items (Some (A_node child))
    (write_array (fun a => mk_array (maxItems a) (minItems a) (uniqueItems a) [child] (additionalItems a))
       ArrayValidationTypes_ItemsObject node).
Proof. intros Hr Hs. solve_stored Hr Hs. all: repeat case_match; done. Qed.

Lemma store_items node nodes :
  ready node -> slot node K_items = None ->
  stored node K_items (Some (A_nodes nodes))
    (write_array (fun a => mk_array (maxItems a) (minItems a) (uniqueItems a) nodes (additionalItems a))
       ArrayValidationTypes_ItemsArray node).
Proof. intros Hr Hs. solve_stored Hr Hs. all: repeat case_match; done. Qed.

Lemma store_additionalBool node b :
  ready node -> slot node K_additionalItems = None ->
  stored node K_additionalItems (Some (A_bool b))
    (write_array (fun a => mk_array (maxItems a) (minItems a) (uniqueItems a) (items a) (AI_bool b))
       ArrayValidationTypes_AdditionalItemsBool node).
Proof. intros Hr Hs. solve_stored Hr Hs. Qed.

Lemma store_additionalNode node child :
  ready node -> slot node K_additionalItems = None ->
  stored node K_additionalItems (Some (A_node child))
    (write_array (fun a => mk_array (maxItems a) (minItems a) (uniqueItems a) (items a) (AI_node child))
       ArrayValidationTypes_AdditionalItemsObject node).
Proof. intros Hr Hs. solve_stored Hr Hs. all: repeat case_match; done. Qed.

Lemma store_encrypt node :
  ready node -> slot node K_encrypt = None ->
  stored node K_encrypt (Some A_encrypt) (ret (write_binary BinaryValidationTypes_Encrypt node)).
Proof. intros Hr Hs. solve_stored Hr Hs. Qed.

Lemma store_nothing node k :
  ready node -> slot node k = None -> stored node k None (ret node).
Proof. intros Hr Hs. by exists node. Qed.

(** ** Field names *)

Lemma cstrb_spec l : cstrb l = true -> nul_free l /\ blen l < 2 ^ 31 /\ cstring l = l.
Proof.
  unfold cstrb, lenb. rewrite andb_true_iff. intros [Hb Hl]. split_and!; [|lia|by apply cstring_id].
  apply Forall_forall. intros b Hi. rewrite forallb_forall in Hb. apply list_elem_of_In, Hb in Hi. lia.
Qed.

Lemma strequal_spec a b : nul_free a -> nul_free b -> strequal a b = bool_decide (a = b).
Proof.
  intros Ha Hb. unfold strequal. rewrite sgn_eqb_0, strcmp_cmp by done.
  destruct (bool_decide_reflect (a = b)) as [->|Hne].
  - by rewrite (cmp_refl bytes_cmp).
  - destruct (bytes_cmp a b) eqn:E; [|done..]. by apply bytes_cmp_eq in E.
Qed.

Lemma view_equals a b :
  cstrb a = true -> cstrb b = true ->
  StringViewEqualsCString (Some (CreateStringViewFromString a)) (Some b) = bool_decide (a = b).
Proof.
  intros (Na & La & Ca)%cstrb_spec (Nb & Lb & Cb)%cstrb_spec.
  unfold StringViewEqualsCString, CreateStringViewFromString, strlen. cbn [sv_string sv_length].
  rewrite Ca, Cb. fold (blen a) (blen b). rewrite wrap_u_small by (unfold blen in *; lia).
  destruct (Z.eqb_spec (blen a) (blen b)) as [El|Hne]; cbn [andb].
  - unfold blen in *. rewrite strncmp_memcmp, !take_ge, sgn_eqb_0, memcmp_same_length by (done || lia).
    destruct (bool_decide_reflect (a = b)) as [->|Hne]; [by rewrite (cmp_refl bytes_cmp)|].
    destruct (bytes_cmp a b) eqn:E; [|done..]. by apply bytes_cmp_eq in E.
  - symmetry. apply bool_decide_eq_false. by intros ->.
Qed.

(** The node found for a name stands for the schema of the name. *)
Lemma find_field_spec (R : SchemaNode -> bson_value -> Prop) l fields name i :
  Forall2 (fun c f => field c = CreateStringViewFromString f.1 /\ R (base c) f.2) l fields ->
  Forall (fun f => cstrb f.1 = true) fields -> cstrb name = true ->
  match find_field l name i, field_named name fields with
  | Some (_, c), Some v => R (base c) v
  | None, None => True
  | _, _ => False
  end.
Proof.
  intros Hl Hf Hn. revert i Hf.
  induction Hl as [|c [k v] l fields [Hc HR] _ IH]; intros i Hf; [done|].
  apply Forall_cons in Hf as [Hk Hf]. cbn [find_field]. unfold field_named in *. cbn [List.find].
  rewrite Hc, view_equals by done. cbn [fst]. case_bool_decide; [done|]. by apply IH.
Qed.

Lemma find_field_fresh (R : SchemaNode -> bson_value -> Prop) l fields name i :
  Forall2 (fun c f => field c = CreateStringViewFromString f.1 /\ R (base c) f.2) l fields ->
  Forall (fun f => cstrb f.1 = true) fields -> cstrb name = true ->
  (name ∉ fields.*1) -> find_field l name i = None.
Proof.
  intros Hl Hf Hn Hi. pose proof (find_field_spec R l fields name i Hl Hf Hn) as Hs.
  destruct (find_field l name i) as [[j c]|]; [|done]. exfalso.
  destruct (field_named name fields) as [v|] eqn:E; [|done]. apply Hi.
  unfold field_named in E. apply fmap_Some in E as ([k w] & Hk & _). apply find_some in Hk as [Hk Hd].
  apply bool_decide_eq_true in Hd. cbn in Hd. subst k. apply list_elem_of_In in Hk.
  by apply (list_elem_of_fmap_2 fst _ _) in Hk.
Qed.

(** ** Documents without repeated keys *)

Fixpoint distinct_keys (v : bson_value) : bool :=
  match v with
  | V_Document fields => bool_decide (NoDup fields.*1) && forallb (fun f => distinct_keys f.2) fields
  | V_Array elements => forallb (fun f => distinct_keys f.2) elements
  | _ => true
  end.

(** What the schemas below the depth [n] have in common. *)
Definition good (n : nat) (v : bson_value) : Prop :=
  wf_value v = true /\ distinct_keys v = true /\ (depth v <= n)%nat.

Lemma good_nested n v :
  good (S n) v -> is_document v = true \/ is_array v = true ->
  Forall (fun f => cstrb f.1 = true /\ good n f.2) (fields_of v).
Proof.
  intros (W & Dk & Hd) Hv.
  assert (exists fs, fields_of v = fs /\ wf_fields fs = true /\ forallb (fun f => distinct_keys f.2) fs = true /\
            (S (fold_right (fun f m => Nat.max (depth f.2) m) 0 fs) <= S n)%nat) as (fs & -> & Wf & Df & Hf).
  { destruct Hv as [Hv|Hv], v; try discriminate Hv; eexists; split_and!; try done; cbn in Dk;
      rewrite ?andb_true_iff in Dk; tauto. }
  apply le_S_n, depth_fields in Hf.
  induction fs as [|[k x] fs IH]; [constructor|]. apply wf_fields_cons in Wf as (Wk & Wx & Wf).
  cbn in Df. rewrite andb_true_iff in Df. destruct Df as [Dx Df]. apply Forall_cons in Hf as [Hx Hf].
  constructor; [|by apply IH]. by split.
Qed.

Lemma good_fields n v :
  good n v -> is_document v = true \/ is_array v = true ->
  Forall (fun f => cstrb f.1 = true /\ good n f.2) (fields_of v).
Proof.
  intros Hg Hv. destruct n as [|n]; [destruct Hg as (_ & _ & Hd), v; cbn in Hd; lia|].
  eapply Forall_impl; [by apply (good_nested n v)|]. intros f (Hk & W & Dk & Hd). split; [done|]. split_and!; [done..|lia].
Qed.

Lemma good_distinct n v : good n v -> is_document v = true -> NoDup (fields_of v).*1.
Proof.
  intros (_ & Dk & _) Hv. destruct v; try discriminate Hv. cbn in *. rewrite andb_true_iff in Dk.
  destruct Dk as [Dk _]. by apply bool_decide_eq_true in Dk.
Qed.

(** ** Building the tree

    The nested schemas are built by [build] into nodes that mean them. *)

Section build.
Context {L : BidLib} {BL : BidLaws L} {I : Icu} {IL : IcuLaws I} {P : Pcre} {H : PgHash}.
Context {T : StringTable} {TL : StringTableLaws T}.
Context (EnableSchemaEnforcementForCSFLE EnableBsonTypeArgumentValidation : bool).
Context (build : bson_doc -> SchemaNode -> outcome SchemaNode).
Context (means : SchemaNode -> bson_value -> Prop) (accepted : bson_value -> bool) (n : nat).

(** The result of a build: a node that stands for the value, or an error if it
    is not accepted. *)
Definition builds {B} (ok : bool) (r : outcome B) (Post : B -> Prop) : Prop :=
  if ok then exists t, r = ret t /\ Post t else exists e, r = raise e.

Context (Hdoc : forall v, accepted v = true -> is_document v = true).
Context (Hbuild : forall v type, good n v -> is_document v = true ->
  builds (accepted v) (build (fields_of v) (InitSchemaNode type)) (fun t => means t v)).

Lemma builds_bind {B C} ok1 ok2 (r : outcome B) (k : B -> outcome C) Post1 Post2 :
  builds ok1 r Post1 -> (ok1 = true -> forall t, Post1 t -> builds ok2 (k t) Post2) ->
  builds (ok1 && ok2) (out_bind r k) Post2.
Proof.
  intros H1 H2. destruct ok1; [|destruct H1 as [e ->]; by exists e].
  destruct H1 as (t & -> & Ht). by apply H2.
Qed.

Lemma accepted_document v : is_document v = false -> accepted v = false.
Proof. intros Hv. destruct (accepted v) eqn:E; [|done]. apply Hdoc in E. congruence. Qed.

Lemma schemas_spec type elements nodes :
  type <> SchemaNodeType_Field -> Forall (fun f => cstrb f.1 = true /\ good n f.2) elements ->
  builds (forallb (fun f => accepted f.2) elements) (schemas_loop build type elements nodes)
    (fun l => exists l', l = nodes ++ l' /\ Forall2 (fun c f => means c f.2) l' elements).
Proof.
  intros Ht Hf. revert nodes. induction Hf as [|[k v] rest [Hk Hv] _ IH]; intros nodes.
  { exists nodes. split; [done|]. exists []. by rewrite app_nil_r. }
  cbn [forallb snd]. destruct (is_document v) eqn:Ed.
  2: { rewrite accepted_document by done. cbn. destruct v; try discriminate Ed; by eexists. }
  destruct v as [| | |schema| | | | | | | | | | | | | | | | | |]; try discriminate Ed.
  cbn [schemas_loop]. unfold BuildSchemaTreeCore_with. rewrite decide_False by done.
  eapply builds_bind; [by apply (Hbuild (V_Document schema))|]. intros _ t Hm.
  specialize (IH (AppendNodeToLinkedList nodes t)). cbn [snd] in IH.
  destruct (forallb _ rest); [|done]. destruct IH as (l & -> & l' & -> & Hl). eexists. split; [done|].
  exists (t :: l'). unfold AppendNodeToLinkedList. rewrite <- app_assoc. split; [done|]. by constructor.
Qed.

(** The fields of "properties" after those that were read. *)
Lemma properties_spec fields read l req t c m s a flags :
  Forall (fun f => cstrb f.1 = true /\ good n f.2) fields -> Forall (fun f => cstrb f.1 = true) read ->
  NoDup (read ++ fields).*1 ->
  Forall2 (fun c f => field c = CreateStringViewFromString f.1 /\ means (base c) f.2) l read ->
  builds (forallb (fun f => negb (has_char f.1 46) && accepted f.2) fields)
    (properties_loop build fields (mk_node t (Some (mk_object l req)) c m s a flags))
    (fun node => exists l', node = mk_node t (Some (mk_object l' req)) c m s a flags /\
       Forall2 (fun c f => field c = CreateStringViewFromString f.1 /\ means (base c) f.2) l' (read ++ fields)).
Proof.
  intros Hf. revert read l. induction Hf as [|[k v] rest [Hk Hv] _ IH]; intros read l Hr Hn Hl.
  { eexists. split; [done|]. exists l. by rewrite app_nil_r. }
  cbn [forallb fst snd properties_loop]. destruct (has_char k 46); [by eexists|]. cbn [negb andb].
  destruct (is_document v) eqn:Ed.
  2: { rewrite accepted_document by done. cbn. destruct v; try discriminate Ed; by eexists. }
  destruct v as [| | |schema| | | | | | | | | | | | | | | | | |]; try discriminate Ed.
  unfold FindOrAddEmptyFieldNode, FindFieldNodeByName. cbn [v_object deref properties].
  rewrite fmap_app, NoDup_app in Hn. destruct Hn as (N1 & N2 & N3).
  rewrite (find_field_fresh means l read k 0 Hl Hr Hk)
    by (intros Hi; apply (N2 k Hi); cbn; by left).
  cbn [out_bind ret]. destruct flags as [fo fc fn fs fa fb]. cbn [write_object deref ret out_bind properties required base].
  rewrite Z.lor_0_r. eapply builds_bind; [by apply (Hbuild (V_Document schema))|]. intros _ node Hm.
  cbn [write_object deref ret out_bind properties required]. unfold AppendNodeToLinkedList.
  rewrite Z.lor_0_r, insert_app_r_alt, Nat.sub_diag by lia. cbn.
  replace (read ++ (k, V_Document schema) :: rest) with ((read ++ [(k, V_Document schema)]) ++ rest)
    by by rewrite <- app_assoc.
  apply IH; [apply Forall_app; by repeat constructor| |].
  - rewrite <- app_assoc, fmap_app. by apply NoDup_app.
  - apply Forall2_app; [done|]. by repeat constructor.
Qed.
End build.

(** ** The sets of names *)

Section names.
Context {H : PgHash} {T : StringTable} {TL : StringTableLaws T}.

Definition good_view (v : StringView) : Prop := wf_view v = true /\ nul_free (sv_view v).

Lemma cstring_nul_free s : bytesb s = true -> nul_free (cstring s).
Proof.
  induction s as [|b s IH]; [constructor|]. unfold bytesb. cbn [forallb cstring]. rewrite andb_true_iff.
  intros [Hb Hs]. unfold byteb in Hb. destruct (Z.eqb_spec b 0); constructor; [lia|by apply IH].
Qed.

Lemma cstring_prefix s : take (length (cstring s)) s = cstring s /\ (length (cstring s) <= length s)%nat.
Proof.
  induction s as [|b s [IH1 IH2]]; [done|]. cbn [cstring]. destruct (b =? 0); cbn; [split; [done|lia]|].
  rewrite IH1. split; [done|lia].
Qed.

Lemma string_view_good s :
  strb s = true -> good_view (CreateStringViewFromString s) /\ sv_view (CreateStringViewFromString s) = cstring s /\
  CreateStringViewFromString s = mk_view (Some s) (strlen s).
Proof.
  unfold strb, lenb. rewrite andb_true_iff. intros [Hb Hl]. apply Z.ltb_lt in Hl. unfold blen in Hl.
  destruct (cstring_prefix s) as [Hp Hle].
  assert (CreateStringViewFromString s = mk_view (Some s) (strlen s)) as Ev.
  { unfold CreateStringViewFromString, strlen. by rewrite wrap_u_small by lia. }
  assert (sv_view (CreateStringViewFromString s) = cstring s) as Es.
  { rewrite Ev. unfold sv_view, sv_bytes, strlen. cbn. by rewrite Nat2Z.id. }
  split_and!; [|done..]. unfold good_view. rewrite Es. split; [|by apply cstring_nul_free].
  rewrite Ev. unfold wf_view, sv_bytes, strlen, blen. cbn. lia.
Qed.

Lemma same_entry_spec key k :
  good_view key -> good_view k ->
  same_entry StringViewHashEntryHashFunc StringViewHashEntryCompareFunc key k = bool_decide (sv_view k = sv_view key).
Proof.
  intros [Wk Nk] [Wj Nj]. unfold same_entry, StringViewHashEntryHashFunc, StringViewHashEntryCompareFunc.
  rewrite sgn_eqb_0, compare_string_view_spec by done.
  destruct (bool_decide_reflect (sv_view k = sv_view key)) as [->|Hne].
  - by rewrite Z.eqb_refl, (cmp_refl bytes_cmp).
  - destruct (bytes_cmp (sv_view k) (sv_view key)) eqn:E; [|apply andb_false_r..]. by apply bytes_cmp_eq in E.
Qed.

Lemma found_spec table key :
  Forall good_view table -> good_view key ->
  existsb (same_entry StringViewHashEntryHashFunc StringViewHashEntryCompareFunc key) table =
  bool_decide (sv_view key ∈ sv_view <$> table).
Proof.
  intros Ht Hk. induction Ht as [|k table Hg _ IH]; [done|]. cbn [existsb]. rewrite IH, same_entry_spec by done.
  apply eq_true_iff_eq. rewrite orb_true_iff, !bool_decide_eq_true, fmap_cons, elem_of_cons.
  split; (intros [E|E]; [left; congruence|by right]).
Qed.

Lemma enter_spec table key :
  Forall good_view table -> good_view key ->
  (string_set_enter table key).1 = bool_decide (sv_view key ∈ sv_view <$> table) /\
  Forall good_view (string_set_enter table key).2 /\
  sv_view <$> (string_set_enter table key).2 ≡ₚ
    (if bool_decide (sv_view key ∈ sv_view <$> table) then sv_view <$> table else sv_view key :: (sv_view <$> table)).
Proof.
  intros Ht Hk. unfold string_set_enter.
  destruct (table_enter_spec StringViewHashEntryHashFunc StringViewHashEntryCompareFunc table key) as [-> Hp].
  rewrite found_spec in * by done. split; [done|]. split.
  - rewrite Hp. case_bool_decide; [done|by constructor].
  - rewrite Hp. by case_bool_decide.
Qed.

Lemma filter_views table key :
  Forall good_view table -> good_view key ->
  let kept := List.filter (fun k => negb (same_entry StringViewHashEntryHashFunc StringViewHashEntryCompareFunc key k)) table in
  Forall good_view kept /\ sv_view <$> kept = filter (fun s => s <> sv_view key) (sv_view <$> table).
Proof.
  intros Ht Hk. induction Ht as [|k table Hg _ [IH1 IH2]]; [done|]. cbn zeta in *. cbn [List.filter].
  rewrite same_entry_spec, fmap_cons, filter_cons by done. case_bool_decide; cbn [negb].
  - rewrite decide_False by tauto. done.
  - rewrite decide_True by done. rewrite fmap_cons, IH2. split; [by constructor|done].
Qed.

Lemma remove_spec table key :
  Forall good_view table -> good_view key ->
  (string_set_remove table key).1 = bool_decide (sv_view key ∈ sv_view <$> table) /\
  Forall good_view (string_set_remove table key).2 /\
  sv_view <$> (string_set_remove table key).2 ≡ₚ filter (fun s => s <> sv_view key) (sv_view <$> table).
Proof.
  intros Ht Hk. unfold string_set_remove.
  destruct (table_remove_spec StringViewHashEntryHashFunc StringViewHashEntryCompareFunc table key) as [-> Hp].
  rewrite found_spec by done. destruct (filter_views table key Ht Hk) as [Hg Hf]. cbn zeta in *.
  split; [done|]. split; rewrite Hp; [done|]. by rewrite Hf.
Qed.

Lemma required_spec elements seen written :
  Forall (fun f => wf_value f.2 = true) elements -> Forall good_view seen ->
  sv_view <$> seen ≡ₚ written -> NoDup written ->
  builds (forallb (fun f => is_string f.2 && negb (has_char (text_of f.2) 46)) elements &&
          bool_decide (NoDup (written ++ (cstring ∘ text_of ∘ snd <$> elements))))
    (Some (required_loop elements seen written))
    (fun l => l = written ++ (cstring ∘ text_of ∘ snd <$> elements)).
Proof.
  intros He. revert seen written. induction He as [|[k v] rest Hv _ IH]; intros seen written Hs Hp Hn.
  { rewrite app_nil_r, bool_decide_eq_true_2 by done. by eexists. }
  cbn [forallb snd]. destruct (is_string v) eqn:Es; [|destruct v; try discriminate Es; by eexists].
  destruct v as [| |s| | | | | | | | | | | | | | | | | | |]; try discriminate Es. cbn in Hv.
  cbn [required_loop text_of andb]. destruct (has_char s 46); [by eexists|]. cbn [negb andb].
  destruct (string_view_good s Hv) as (Hg & Ev & _).
  destruct (enter_spec seen (CreateStringViewFromString s) Hs Hg) as (E1 & E2 & E3).
  destruct (string_set_enter seen _) as [found seen']. cbn [fst snd] in *. rewrite Ev in *. subst found.
  assert ((cstring s ∈ sv_view <$> seen) <-> (cstring s ∈ written)) as Hin by by rewrite Hp.
  destruct (bool_decide_reflect (cstring s ∈ sv_view <$> seen)) as [Hi|Hi].
  - rewrite bool_decide_eq_false_2, andb_false_r; [by eexists|]. cbn. rewrite NoDup_app, NoDup_cons.
    intros (_ & Hd & _). apply (Hd (cstring s)); [by apply Hin|by left].
  - specialize (IH seen' (written ++ [cstring s]) E2). cbn [fmap list_fmap compose text_of snd] in *.
    rewrite <- app_assoc in IH. apply IH; [rewrite E3, Hp; apply Permutation_cons_append|].
    apply NoDup_app. split_and!; [done| |apply NoDup_singleton]. intros x Hx ->%list_elem_of_singleton. by apply Hi, Hin.
Qed.
End names.

(** ** The argument of "type" and "bsonType" *)

Lemma wf_elements fields : wf_fields fields = true -> Forall (fun f => wf_value f.2 = true) fields.
Proof.
  unfold wf_fields. rewrite forallb_forall. intros Hw. apply Forall_forall. intros f Hf.
  apply list_elem_of_In, Hw in Hf. rewrite andb_true_iff in Hf. tauto.
Qed.

(** Different names of a table have no type in common. *)
Definition separates (table : list (bytes * list bson_type)) : bool :=
  forallb (fun e => forallb (fun e' =>
    implb (existsb (fun t => bool_decide (t ∈ e.2)) e'.2) (bool_decide (e.1 = e'.1))) table) table.

Section type_names.
Context (get : bytes -> result Z) (table : list (bytes * list bson_type)).
Context (Hget : reads_table get table) (Hsep : separates table = true).

Lemma known_entry name :
  known_name table name = true -> exists e, In e table /\ e.1 = cstring name /\ e.2 = types_named table name.
Proof.
  unfold known_name, types_named. destruct (List.find _ table) as [e|] eqn:E; [|done]. intros _.
  apply find_some in E as [Hi He]. apply bool_decide_eq_true in He. by exists e.
Qed.

Lemma known_nonempty name : known_name table name = true -> types_named table name <> [].
Proof. unfold known_name. by rewrite negb_true_iff, bool_decide_eq_false. Qed.

Lemma overlap_same a b :
  known_name table a = true -> known_name table b = true ->
  existsb (fun t => bool_decide (t ∈ types_named table a)) (types_named table b) = bool_decide (cstring a = cstring b).
Proof.
  intros Ka Kb. apply eq_true_iff_eq. rewrite bool_decide_eq_true. split.
  - destruct (known_entry a Ka) as (e & Hi & Ea & <-), (known_entry b Kb) as (e' & Hi' & Eb & <-). intros Ho.
    unfold separates in Hsep. rewrite forallb_forall in Hsep. specialize (Hsep e Hi). rewrite forallb_forall in Hsep.
    specialize (Hsep e' Hi'). rewrite Ho in Hsep. cbn in Hsep. apply bool_decide_eq_true in Hsep. congruence.
  - intros E. assert (types_named table a = types_named table b) as -> by (unfold types_named; by rewrite E).
    pose proof (known_nonempty b Kb). destruct (types_named table b) as [|t ts]; [done|]. cbn [existsb].
    by rewrite bool_decide_eq_true_2 by left.
Qed.

(** The types of names that were read. *)
Definition types_read (names : list bytes) : list bson_type := concat (types_named table <$> names).

Lemma overlap_read names b :
  Forall (fun a => known_name table a = true) names -> known_name table b = true ->
  has (flags_of (types_read names)) (flags_of (types_named table b)) = bool_decide (cstring b ∈ cstring <$> names).
Proof.
  intros Hn Kb. rewrite has_flags. induction Hn as [|a names Ka _ IH].
  { rewrite bool_decide_eq_false_2 by apply not_elem_of_nil. unfold types_read. cbn.
    induction (types_named table b) as [|t ts IHt]; [done|]. cbn [existsb]. by rewrite bool_decide_eq_false_2 by apply not_elem_of_nil. }
  unfold types_read in *. cbn [fmap list_fmap concat].
  transitivity (bool_decide (cstring a = cstring b) || bool_decide (cstring b ∈ cstring <$> names)).
  - rewrite <- IH, <- overlap_same by done. clear. induction (types_named table b) as [|t ts IHt]; [done|]. cbn [existsb].
    rewrite IHt. assert (bool_decide (t ∈ types_named table a ++ concat (types_named table <$> names)) =
      bool_decide (t ∈ types_named table a) || bool_decide (t ∈ concat (types_named table <$> names))) as ->.
    { apply eq_true_iff_eq. by rewrite orb_true_iff, !bool_decide_eq_true, elem_of_app. }
    destruct (bool_decide _), (bool_decide _), (existsb _ ts), (existsb _ ts); done.
  - apply eq_true_iff_eq. rewrite orb_true_iff, !bool_decide_eq_true, elem_of_cons.
    split; (intros [E|E]; [left; congruence|by right]).
Qed.

Lemma type_names_accepts elements names :
  Forall (fun f => wf_value f.2 = true) elements -> Forall (fun a => known_name table a = true) names ->
  NoDup (cstring <$> names) ->
  builds (forallb (fun f => is_string f.2 && known_name table (text_of f.2)) elements &&
          bool_decide (NoDup (cstring <$> (names ++ (text_of ∘ snd <$> elements)))))
    (Some (type_names get elements (flags_of (types_read names))))
    (fun types => types = flags_of (types_read (names ++ (text_of ∘ snd <$> elements)))).
Proof.
  intros He. revert names. induction He as [|[k v] rest Hv _ IH]; intros names Hk Hn.
  { rewrite app_nil_r, bool_decide_eq_true_2 by done. by eexists. }
  cbn [forallb snd]. destruct (is_string v) eqn:Es; [|destruct v; try discriminate Es; by eexists].
  destruct v as [| |s| | | | | | | | | | | | | | | | | | |]; try discriminate Es.
  cbn [type_names text_of andb fmap list_fmap compose snd]. cbn in Hv. unfold strb in Hv. rewrite andb_true_iff in Hv.
  pose proof (Hget s (proj1 Hv)) as Hs.
  destruct (known_name table s) eqn:Ks; [|destruct Hs as [e ->]; by eexists]. rewrite Hs. cbn [result_bind andb].
  rewrite overlap_read by done. destruct (bool_decide_reflect (cstring s ∈ cstring <$> names)) as [Hi|Hi].
  - rewrite bool_decide_eq_false_2, andb_false_r; [by eexists|]. rewrite fmap_app, NoDup_app. intros (_ & Hd & _).
    apply (Hd (cstring s)); [done|]. cbn. by left.
  - replace (Z.lor (flags_of (types_read names)) (flags_of (types_named table s)))
      with (flags_of (types_read (names ++ [s]))).
    + specialize (IH (names ++ [s])). rewrite <- app_assoc in IH. apply IH; [apply Forall_app; by repeat constructor|].
      rewrite fmap_app. apply NoDup_app. split_and!; [done| |apply NoDup_singleton].
      intros x Hx ->%list_elem_of_singleton. done.
    + unfold types_read. rewrite fmap_app, concat_app. cbn. rewrite app_nil_r. generalize (concat (types_named table <$> names)).
      intros l. unfold flags_of. rewrite fmap_app. induction l as [|t l IHl]; [done|]. cbn. by rewrite IHl, Z.lor_assoc.
Qed.

Lemma type_argument_accepts v :
  wf_value v = true ->
  builds (names_types table v) (Some (type_argument get v))
    (fun types => forall x, has types (GetBsonValueTypeFlag (value_type x)) = has_named_type table (texts_of v) x).
Proof.
  intros W. destruct v as [| |s| |elements| | | | | | | | | | | | | | | | |]; try (by eexists).
  - cbn [names_types type_argument texts_of]. cbn in W. unfold strb in W. rewrite andb_true_iff in W.
    pose proof (Hget s (proj1 W)) as Hs. destruct (known_name table s); [|destruct Hs as [e ->]; by eexists].
    rewrite Hs. eexists. split; [done|]. intros x. unfold has_named_type. cbn. by rewrite has_flags_of, orb_false_r.
  - cbn [names_types type_argument texts_of].
    pose proof (type_names_accepts elements [] (wf_elements elements W) (Forall_nil_2 _) NoDup_nil_2) as Hn.
    unfold distinct_texts. cbn [app texts_of] in *. change (flags_of (types_read [])) with 0 in Hn.
    destruct elements as [|f elements]; [by eexists|]. rewrite (bool_decide_eq_false_2 (f :: elements = [])) by done.
    cbn [negb andb]. destruct (forallb _ _ && bool_decide _) eqn:E; [|destruct Hn as [e Hn]; apply (inj Some) in Hn; rewrite Hn; by eexists].
    destruct Hn as (types & Et & ->). apply (inj Some) in Et. rewrite Et. cbn [result_bind].
    set (names := text_of ∘ snd <$> f :: elements) in *.
    assert ((flags_of (types_read names) =? 0) = false) as ->.
    { apply Z.eqb_neq. intros E0. rewrite andb_true_iff in E. destruct E as [E _]. cbn in E. rewrite !andb_true_iff in E.
      destruct E as [[_ Hk] _]. pose proof (known_nonempty _ Hk) as Hne.
      destruct (types_named table (text_of f.2)) as [|t ts] eqn:Ets; [done|].
      pose proof (has_flags_of (types_read names) t) as Ht. rewrite E0, has_0 in Ht. symmetry in Ht.
      apply bool_decide_eq_false in Ht. apply Ht. unfold types_read, names. cbn. rewrite Ets. by left. }
    eexists. split; [done|]. intros x. rewrite has_flags_of. unfold has_named_type, types_read. fold names. clearbody names. clear.
    induction names as [|a names IH]; [done|]. cbn [fmap list_fmap concat existsb]. rewrite <- IH.
    apply eq_true_iff_eq. by rewrite orb_true_iff, !bool_decide_eq_true, elem_of_app.
Qed.
End type_names.

(** ** One keyword *)

Section keyword.
Context {L : BidLib} {P : Pcre} {H : PgHash}.
Context {T : StringTable} {TL : StringTableLaws T}.
Context (EnableSchemaEnforcementForCSFLE EnableBsonTypeArgumentValidation : bool).
Context (build : bson_doc -> SchemaNode -> outcome SchemaNode).
Context (means : SchemaNode -> bson_value -> Prop) (accepted : bson_value -> bool) (n : nat).
Context (Hdoc : forall v, accepted v = true -> is_document v = true).
Context (Hbuild : forall v type, good n v -> is_document v = true ->
  builds (accepted v) (build (fields_of v) (InitSchemaNode type)) (fun t => means t v)).

(** The argument in the tree stands for the argument in the schema. *)
Definition stands_for (k : Keyword) (v : bson_value) (a : option argument) : Prop :=
  match k with
  | K_properties => exists l, a = Some (A_fields l) /\
      Forall2 (fun c f => field c = CreateStringViewFromString f.1 /\ means (base c) f.2) l (fields_of v)
  | K_required => NoDup (cstring <$> texts_of v) /\
      a = Some (A_value (array_value (V_Utf8 <$> (cstring <$> texts_of v))))
  | K_type => exists types, a = Some (A_types types) /\
      forall x, has types (GetBsonValueTypeFlag (value_type x)) = has_named_type json_type_names (texts_of v) x
  | K_bsonType => exists types, a = Some (A_types types) /\
      forall x, has types (GetBsonValueTypeFlag (value_type x)) = has_named_type bson_type_names (texts_of v) x
  | K_encrypt => a = if EnableSchemaEnforcementForCSFLE then Some A_encrypt else None
  | K_enum => a = Some (A_value (array_value (snd <$> fields_of v)))
  | K_oneOf => exists l, a = Some (A_nodes l) /\ Forall2 (fun c f => means c f.2) l (fields_of v)
  | K_multipleOf => a = Some (A_value v)
  | K_maximum | K_minimum => BsonValueIsNumber v = true /\ a = Some (A_value v)
  | K_exclusiveMaximum | K_exclusiveMinimum | K_uniqueItems => exists b, v = V_Bool b /\ a = Some (A_bool b)
  | K_maxLength | K_minLength | K_maxItems | K_minItems =>
      exists z, GetValidatedBsonIntValue v = Ok z /\ a = Some (A_size (uint32 z))
  | K_pattern => a = Some (A_regex (cstring (text_of v)))
  | K_items =>
      (exists c, is_document v = true /\ a = Some (A_node c) /\ means c v) \/
      (exists elements l, v = V_Array elements /\ a = Some (A_nodes l) /\
         Forall2 (fun c f => means c f.2) l elements)
  | K_additionalItems =>
      (exists b, v = V_Bool b /\ a = Some (A_bool b)) \/
      (exists c, is_document v = true /\ a = Some (A_node c) /\ means c v)
  | K_encryptMetadata | K_description | K_title | K_unsupported | K_unknown => a = None
  end.

(** Reading a keyword stores its argument, or raises an error if it is not
    accepted. *)
Definition reads_keyword (k : Keyword) (v : bson_value) (node : SchemaNode) : Prop :=
  builds (argument_accepted EnableSchemaEnforcementForCSFLE EnableBsonTypeArgumentValidation accepted k v)
    (parse_keyword EnableSchemaEnforcementForCSFLE EnableBsonTypeArgumentValidation build k v node)
    (fun node' => exists a, stands_for k v a /\ stored node k a (ret node')).

Lemma reads_stored k v node r a :
  stands_for k v a -> stored node k a r ->
  builds true r (fun node' => exists a, stands_for k v a /\ stored node k a (ret node')).
Proof. intros Ha Hs. destruct Hs as (node' & -> & Hs). exists node'. split; [done|]. exists a. split; [done|]. by exists node'. Qed.

Lemma reads_result {B} k v node (r : result B) f :
  (forall b, r = Ok b -> exists a, stands_for k v a /\ stored node k a (f b)) ->
  builds (is_ok r) (out_bind (Some r) f) (fun node' => exists a, stands_for k v a /\ stored node k a (ret node')).
Proof. intros Hr. destruct r as [b|e]; [|by exists e]. destruct (Hr b) as (a & Ha & Hs); [done|]. by eapply reads_stored. Qed.

Lemma reads_types node v k :
  wf_value v = true -> k = K_type \/ k = K_bsonType -> ready node ->
  slot node K_type = None -> slot node K_bsonType = None -> reads_keyword k v node.
Proof.
  intros Wv Hk Hr H1 H2.
  assert (has (f_common (validationFlags node)) CommonValidationTypes_JsonType = false) as F1
    by (unfold slot in H1; by destruct (has (f_common _) _)).
  assert (has (f_common (validationFlags node)) CommonValidationTypes_BsonType = false) as F2
    by (unfold slot in H2; by destruct (has (f_common _) _)).
  destruct Hk as [->| ->]; unfold reads_keyword; cbn [argument_accepted parse_keyword].
  - unfold ParseJsonType. rewrite F2. rewrite <- (andb_true_r (names_types _ v)).
    eapply builds_bind; [by apply (type_argument_accepts _ _ json_table)|]. intros _ types Ht.
    eapply reads_stored; [|by apply store_type]. by exists types.
  - unfold ParseBsonType. rewrite F1. rewrite <- (andb_true_r (names_types _ v)).
    eapply builds_bind; [by apply (type_argument_accepts _ _ bson_table)|]. intros _ types Ht.
    eapply reads_stored; [|by apply store_bsonType]. by exists types.
Qed.

Lemma reads_size k v node (f : Z -> outcome SchemaNode) :
  k ∈ [K_maxLength; K_minLength; K_maxItems; K_minItems] ->
  parse_keyword EnableSchemaEnforcementForCSFLE EnableBsonTypeArgumentValidation build k v node =
    out_bind (Some (GetValidatedBsonIntValue v)) f ->
  (forall z, stored node k (Some (A_size (uint32 z))) (f z)) ->
  reads_keyword k v node.
Proof.
  intros Hk E Hs. unfold reads_keyword. rewrite E.
  rewrite !elem_of_cons in Hk. destruct Hk as [->|[->|[->|[->|Hk]]]]; [..|by apply not_elem_of_nil in Hk];
    cbn [argument_accepted]; apply reads_result; intros z Ez; (exists (Some (A_size (uint32 z))); split; [by exists z|done]).
Qed.

Lemma reads_bool k v node (f : bool -> outcome SchemaNode) :
  k ∈ [K_exclusiveMaximum; K_exclusiveMinimum; K_uniqueItems] ->
  parse_keyword EnableSchemaEnforcementForCSFLE EnableBsonTypeArgumentValidation build k v node =
    match v with V_Bool b => f b | _ => raise ERRCODE_DOCUMENTDB_TYPEMISMATCH end ->
  (forall b, stored node k (Some (A_bool b)) (f b)) ->
  reads_keyword k v node.
Proof.
  intros Hk E Hs. unfold reads_keyword. rewrite E.
  assert (argument_accepted EnableSchemaEnforcementForCSFLE EnableBsonTypeArgumentValidation accepted k v =
          holds_type v BSON_TYPE_BOOL) as ->.
  { rewrite !elem_of_cons in Hk. destruct Hk as [->|[->|[->|Hk]]]; [done..|by apply not_elem_of_nil in Hk]. }
  destruct v as [| | | | | | | |b| | | | | | | | | | | | |]; try (by eexists).
  eapply reads_stored; [|apply Hs]. rewrite !elem_of_cons in Hk.
  destruct Hk as [->|[->|[->|Hk]]]; [by exists b..|by apply not_elem_of_nil in Hk].
Qed.

Lemma reads_double k v node r :
  k = K_maximum \/ k = K_minimum ->
  parse_keyword EnableSchemaEnforcementForCSFLE EnableBsonTypeArgumentValidation build k v node =
    (if negb (BsonTypeIsNumber (value_type v)) then raise ERRCODE_DOCUMENTDB_TYPEMISMATCH else r) ->
  stored node k (Some (A_value v)) r -> reads_keyword k v node.
Proof.
  intros Hk E Hs. unfold reads_keyword. rewrite E.
  assert (argument_accepted EnableSchemaEnforcementForCSFLE EnableBsonTypeArgumentValidation accepted k v =
          BsonTypeIsNumber (value_type v)) as -> by by destruct Hk as [->| ->].
  destruct (BsonTypeIsNumber (value_type v)) eqn:En; [|by eexists]. eapply reads_stored; [|done].
  by destruct Hk as [->| ->].
Qed.

Lemma reads_properties v node :
  good n v -> ready node -> slot node K_properties = None -> reads_keyword K_properties v node.
Proof.
  intros Hv Hr Hs. unfold reads_keyword. cbn [argument_accepted parse_keyword]. unfold ParseProperties.
  destruct (is_document v) eqn:Ed; [|destruct v; try discriminate Ed; by eexists].
  pose proof (good_fields n v Hv (or_introl Ed)) as Hf. pose proof (good_distinct n v Hv Ed) as Hn.
  destruct v as [| | |fields| | | | | | | | | | | | | | | | | |]; try discriminate Ed. cbn [fields_of andb] in *.
  destruct Hr as (t & [l req] & c & m & s & a & [fo fc fn fs fa fb] & -> & Hp & Ho & Hi & Hb'). cbn in Hp, Ho, Hi, Hs.
  destruct (has fo ObjectValidationTypes_Properties) eqn:Ef; [done|]. rewrite Hp by done.
  pose proof (properties_spec build means accepted n Hdoc Hbuild fields [] [] req t (Some c) (Some m) (Some s) (Some a)
    (mk_vflags fo fc fn fs fa fb) Hf (Forall_nil_2 _) Hn (Forall2_nil_2 _ _ _)) as Hb.
  destruct (forallb _ fields); [|destruct Hb as [e ->]; by exists e].
  destruct Hb as (node & -> & l' & -> & Hl). cbn [ret out_bind write_object deref].
  eapply reads_stored; [exists l'; split; [reflexivity|done]|].
  eexists. split; [reflexivity|]. split; [solve_ready|]. split.
  - cbn. eval_flags. done.
  - intros k' Hk. destruct k'; try done; cbn; eval_flags; done.
Qed.

Lemma reads_required v node :
  good n v -> ready node -> slot node K_required = None -> reads_keyword K_required v node.
Proof.
  intros Hv Hr Hs. unfold reads_keyword. cbn [argument_accepted parse_keyword]. unfold ParseRequired.
  destruct (is_array v) eqn:Ed; [|destruct v; try discriminate Ed; by eexists].
  pose proof (good_fields n v Hv (or_intror Ed)) as Hf.
  destruct v as [| | | |elements| | | | | | | | | | | | | | | | |]; try discriminate Ed. cbn [fields_of andb] in *.
  pose proof (required_spec elements [] []) as Hq. cbn [app] in Hq.
  specialize (Hq ltac:(eapply Forall_impl; [exact Hf|]; by intros ? [_ [? _]]) (Forall_nil_2 _) ltac:(done)
                 NoDup_nil_2).
  unfold distinct_texts. cbn [texts_of]. rewrite <- list_fmap_compose.
  destruct (forallb _ elements && bool_decide _) eqn:Eb; [|destruct Hq as [e ->]; by exists e].
  destruct Hq as (l & -> & ->). cbn [out_bind ret].
  rewrite andb_true_iff, bool_decide_eq_true in Eb. destruct Eb as [_ Hn].
  eapply reads_stored; [|by apply store_required]. cbn [stands_for texts_of]. by rewrite !list_fmap_compose in *.
Qed.

Lemma reads_schemas v node :
  good n v -> ready node -> slot node K_oneOf = None -> reads_keyword K_oneOf v node.
Proof.
  intros Hv Hr Hs. unfold reads_keyword. cbn [argument_accepted parse_keyword]. unfold ParseOneOf.
  destruct (is_array v) eqn:Ed; [|destruct v; try discriminate Ed; by eexists].
  pose proof (good_fields n v Hv (or_intror Ed)) as Hf.
  destruct v as [| | | |elements| | | | | | | | | | | | | | | | |]; try discriminate Ed. cbn [fields_of andb] in *.
  assert (exists c, v_common node = Some c /\ oneOfNodes c = []) as (c & -> & Ec).
  { destruct Hr as (t & o & c & m & s & a & flags & -> & _ & Ho & _). exists c. split; [done|]. apply Ho.
    unfold slot in Hs. cbn in Hs. by destruct (has (f_common flags) _). }
  cbn [deref]. rewrite Ec.
  pose proof (schemas_spec build means accepted n Hdoc Hbuild SchemaNodeType_OneOf elements [] ltac:(done) Hf) as Hb.
  destruct (forallb _ elements); [|destruct Hb as [e ->]; rewrite andb_false_r; by exists e].
  destruct Hb as (l & -> & l' & -> & Hl). cbn [ret out_bind app]. rewrite andb_true_r.
  destruct elements as [|x elements]; [by eexists|]. cbn [length Nat.eqb].
  rewrite bool_decide_eq_false_2 by done. eapply reads_stored; [|by apply store_oneOf]. by exists l'.
Qed.

Lemma reads_items v node :
  good n v -> ready node -> slot node K_items = None -> reads_keyword K_items v node.
Proof.
  intros Hv Hr Hs. unfold reads_keyword. cbn [argument_accepted parse_keyword]. unfold ParseItems.
  destruct (is_document v) eqn:Ed.
  { assert (is_array v = false) as -> by (by destruct v). cbn [andb]. rewrite orb_false_r.
    pose proof (Hbuild v SchemaNodeType_Items Hv Ed) as Hb. destruct v; try discriminate Ed.
    unfold BuildSchemaTreeCore_with, InitNonFieldNode. rewrite decide_False by done. cbn [fields_of] in Hb.
    destruct (accepted (V_Document v_doc)); [|destruct Hb as [e ->]; by exists e].
    destruct Hb as (c & -> & Hc). cbn [ret out_bind]. eapply reads_stored; [|by apply store_items_schema]. left. by exists c. }
  rewrite (accepted_document accepted Hdoc) by done. cbn [orb].
  destruct (is_array v) eqn:Ea; [|destruct v; try discriminate Ea; try discriminate Ed; by eexists].
  pose proof (good_fields n v Hv (or_intror Ea)) as Hf.
  destruct v as [| | | |elements| | | | | | | | | | | | | | | | |]; try discriminate Ea. cbn [fields_of andb] in *.
  assert (exists a, v_array node = Some a /\ items a = []) as (a & -> & Ec).
  { destruct Hr as (t & o & c & m & s & a & flags & -> & _ & _ & Hi & _). exists a. split; [done|].
    unfold slot in Hs. cbn in Hs. by destruct (has (f_array flags) _), (has (f_array flags) _); try done; apply Hi. }
  cbn [deref]. rewrite Ec.
  pose proof (schemas_spec build means accepted n Hdoc Hbuild SchemaNodeType_Items elements [] ltac:(done) Hf) as Hb.
  destruct (forallb _ elements); [|destruct Hb as [e ->]; by exists e].
  destruct Hb as (l & -> & l' & -> & Hl). cbn [ret out_bind app].
  eapply reads_stored; [|by apply store_items]. right. by exists elements, l'.
Qed.

Lemma reads_additional v node :
  good n v -> ready node -> slot node K_additionalItems = None -> reads_keyword K_additionalItems v node.
Proof.
  intros Hv Hr Hs. unfold reads_keyword. cbn [argument_accepted parse_keyword]. unfold ParseAdditionalItems.
  destruct (is_document v) eqn:Ed.
  { assert (holds_type v BSON_TYPE_BOOL = false) as -> by (by destruct v). cbn [orb].
    pose proof (Hbuild v SchemaNodeType_AdditionalItems Hv Ed) as Hb. destruct v; try discriminate Ed.
    unfold BuildSchemaTreeCore_with, InitNonFieldNode. rewrite decide_False by done. cbn [fields_of] in Hb.
    destruct (accepted (V_Document v_doc)); [|destruct Hb as [e ->]; by exists e].
    destruct Hb as (c & -> & Hc). cbn [ret out_bind]. eapply reads_stored; [|by apply store_additionalNode]. right. by exists c. }
  rewrite (accepted_document accepted Hdoc) by done. rewrite orb_false_r.
  destruct v as [| | | | | | | |b| | | | | | | | | | | | |]; try discriminate Ed; try (by eexists).
  eapply reads_stored; [|by apply store_additionalBool]. left. by exists b.
Qed.

Lemma reads_encrypt v node :
  ready node -> slot node K_encrypt = None -> reads_keyword K_encrypt v node.
Proof.
  intros Hr Hs. unfold reads_keyword. cbn [argument_accepted parse_keyword]. unfold ParseEncrypt.
  destruct EnableSchemaEnforcementForCSFLE eqn:Ee; cbn [negb orb].
  2: { eapply reads_stored; [|by apply store_nothing]. cbn. by rewrite Ee. }
  destruct (is_document v) eqn:Ed; [|destruct v; try discriminate Ed; by eexists].
  destruct v; try discriminate Ed. apply reads_result. intros _ _. eexists. split; [|by apply store_encrypt].
  cbn. by rewrite Ee.
Qed.

Lemma reads_metadata v node :
  ready node -> slot node K_encryptMetadata = None -> reads_keyword K_encryptMetadata v node.
Proof.
  intros Hr Hs. unfold reads_keyword. cbn [argument_accepted parse_keyword]. unfold ParseEncryptMetadata.
  destruct EnableSchemaEnforcementForCSFLE; cbn [negb orb]; [|by eapply reads_stored; [|by apply store_nothing]].
  destruct (is_document v) eqn:Ed; [|destruct v; try discriminate Ed; by eexists].
  destruct v as [| | |[|f fields]| | | | | | | | | | | | | | | | | |]; try discriminate Ed; [by eexists|].
  cbn [fields_of]. rewrite bool_decide_eq_false_2 by done. apply reads_result. intros _ _. exists None.
  split; [done|by apply store_nothing].
Qed.

Lemma reads_scalar_slot k v node :
  k ∈ [K_description; K_title; K_enum; K_multipleOf; K_pattern; K_unsupported; K_unknown] ->
  ready node -> slot node k = None -> reads_keyword k v node.
Proof.
  intros Hk Hr Hs. unfold reads_keyword. rewrite !elem_of_cons in Hk.
  destruct Hk as [->|[->|[->|[->|[->|[->|[->|Hk]]]]]]]; [..|by apply not_elem_of_nil in Hk];
    cbn [argument_accepted parse_keyword].
  - unfold ParseDescription, is_string. destruct (holds_type v BSON_TYPE_UTF8); [|by eexists].
    by eapply reads_stored; [|by apply store_nothing].
  - unfold ParseTitle, is_string. destruct EnableBsonTypeArgumentValidation; [|by eexists].
    destruct (holds_type v BSON_TYPE_UTF8); [|by eexists]. by eapply reads_stored; [|by apply store_nothing].
  - unfold ParseEnum. destruct (is_array v) eqn:Ed; [|destruct v; try discriminate Ed; by eexists].
    destruct v as [| | | |[|f elements]| | | | | | | | | | | | | | | | |]; try discriminate Ed; [by eexists|].
    cbn [fields_of]. rewrite bool_decide_eq_false_2 by done. eapply reads_stored; [|by apply store_enum]. done.
  - unfold ParseMultipleOf. apply reads_result. intros _ _. eexists. split; [|by apply store_multipleOf]. done.
  - unfold ParsePattern. destruct (is_string v) eqn:Ed; [|destruct v; try discriminate Ed; by eexists].
    destruct v; try discriminate Ed. apply reads_result. intros _ _. eexists. split; [|by apply store_pattern]. done.
  - by eexists.
  - by eexists.
Qed.

Lemma keyword_spec k v node :
  good n v -> ready node -> slot node k = None ->
  (k = K_type \/ k = K_bsonType -> slot node K_type = None /\ slot node K_bsonType = None) ->
  reads_keyword k v node.
Proof.
  intros Hv Hr Hs Hc. destruct k;
    try (apply reads_scalar_slot; [rewrite !elem_of_cons; tauto|done..]); auto using reads_properties, reads_required, reads_schemas,
      reads_items, reads_additional, reads_encrypt, reads_metadata.
  - destruct Hc; [by left|]. apply reads_types; auto. apply Hv.
  - destruct Hc; [by right|]. apply reads_types; auto. apply Hv.
  - eapply reads_double; [by left|done|by apply store_maximum].
  - eapply reads_bool; [rewrite !elem_of_cons; tauto|done|intros; by apply store_exclusiveMaximum].
  - eapply reads_double; [by right|done|by apply store_minimum].
  - eapply reads_bool; [rewrite !elem_of_cons; tauto|done|intros; by apply store_exclusiveMinimum].
  - eapply reads_size; [rewrite !elem_of_cons; tauto|done|intros; by apply store_maxLength].
  - eapply reads_size; [rewrite !elem_of_cons; tauto|done|intros; by apply store_minLength].
  - eapply reads_size; [rewrite !elem_of_cons; tauto|done|intros; by apply store_maxItems].
  - eapply reads_size; [rewrite !elem_of_cons; tauto|done|intros; by apply store_minItems].
  - eapply reads_bool; [rewrite !elem_of_cons; tauto|done|intros; by apply store_uniqueItems].
Qed.
End keyword.

(** ** All keywords *)

Definition keyword_name (k : Keyword) : bytes :=
  match k with
  | K_properties => str "properties"
  | K_required => str "required"
  | K_type => str "type"
  | K_bsonType => str "bsonType"
  | K_encrypt => str "encrypt"
  | K_encryptMetadata => str "encryptMetadata"
  | K_description => str "description"
  | K_title => str "title"
  | K_enum => str "enum"
  | K_oneOf => str "oneOf"
  | K_multipleOf => str "multipleOf"
  | K_maximum => str "maximum"
  | K_exclusiveMaximum => str "exclusiveMaximum"
  | K_minimum => str "minimum"
  | K_exclusiveMinimum => str "exclusiveMinimum"
  | K_maxLength => str "maxLength"
  | K_minLength => str "minLength"
  | K_pattern => str "pattern"
  | K_items => str "items"
  | K_additionalItems => str "additionalItems"
  | K_maxItems => str "maxItems"
  | K_minItems => str "minItems"
  | K_uniqueItems => str "uniqueItems"
  | K_unsupported | K_unknown => []
  end.

Definition refused (k : Keyword) : bool :=
  match k with K_unsupported | K_unknown => true | _ => false end.

Lemma keyword_named key k :
  schema_keyword key = k -> refused k = false -> strequal key (keyword_name k) = true.
Proof.
  intros <-. unfold schema_keyword.
  repeat match goal with
  | |- context [if strequal key ?s then _ else _] => destruct (strequal key s) eqn:?; [done|]
  end.
  by destruct (_ || _).
Qed.

Lemma keyword_injective key key' :
  cstrb key = true -> cstrb key' = true -> schema_keyword key = schema_keyword key' ->
  refused (schema_keyword key) = false -> key = key'.
Proof.
  intros (N1 & _)%cstrb_spec (N2 & _)%cstrb_spec E Hr.
  assert (forall k, nul_free (keyword_name k)) as Hn by (intros k; destruct k; repeat constructor).
  pose proof (keyword_named key _ eq_refl Hr) as H1. rewrite E in Hr.
  pose proof (keyword_named key' _ eq_refl Hr) as H2. rewrite E in H1.
  rewrite strequal_spec, bool_decide_eq_true in H1, H2 by done. congruence.
Qed.

Lemma argument_cons k key v rest :
  keyword_argument k ((key, v) :: rest) =
  if bool_decide (schema_keyword key = k) then Some v else keyword_argument k rest.
Proof. unfold keyword_argument. cbn [List.find fst]. by destruct (bool_decide _). Qed.

Lemma argument_elem k schema v :
  keyword_argument k schema = Some v -> exists key, (key, v) ∈ schema /\ schema_keyword key = k.
Proof.
  unfold keyword_argument. intros ([key w] & Hf & ->)%fmap_Some. apply find_some in Hf as [Hi Hk].
  apply bool_decide_eq_true in Hk. exists key. by rewrite list_elem_of_In.
Qed.

Section keywords.
Context {L : BidLib} {P : Pcre} {H : PgHash}.
Context {T : StringTable} {TL : StringTableLaws T}.
Context (EnableSchemaEnforcementForCSFLE EnableBsonTypeArgumentValidation : bool).
Context (build : bson_doc -> SchemaNode -> outcome SchemaNode).
Context (means : SchemaNode -> bson_value -> Prop) (accepted : bson_value -> bool) (n : nat).
Context (Hdoc : forall v, accepted v = true -> is_document v = true).
Context (Hbuild : forall v type, good n v -> is_document v = true ->
  builds (accepted v) (build (fields_of v) (InitSchemaNode type)) (fun t => means t v)).

Abbreviation stands_for := (stands_for EnableSchemaEnforcementForCSFLE means).
Abbreviation argument_accepted :=
  (argument_accepted EnableSchemaEnforcementForCSFLE EnableBsonTypeArgumentValidation accepted).

(** The arguments of a node are those of a schema. *)
Definition node_of (schema : bson_doc) (before : Keyword -> option (option argument)) (node : SchemaNode)
  : Prop :=
  forall k, match keyword_argument k schema with
            | Some v => exists a, stands_for k v a /\ slot node k = Some <$> a
            | None => slot node k = before k
            end.

(** The keyword is in the node or still to be read. *)
Definition present (node : SchemaNode) (schema : bson_doc) (k : Keyword) : bool :=
  bool_decide (is_Some (slot node k)) || asked k schema.

Lemma present_step node node' key v rest k a :
  k = K_type \/ k = K_bsonType ->
  stands_for (schema_keyword key) v a -> slot node' (schema_keyword key) = Some <$> a ->
  (forall k', k' <> schema_keyword key -> slot node' k' = slot node k') ->
  present node' rest k = present node ((key, v) :: rest) k.
Proof.
  intros Hk Ha Hs Ho. unfold present, asked. rewrite argument_cons.
  destruct (bool_decide_reflect (schema_keyword key = k)) as [E|E].
  - assert (is_Some (slot node' k)) as Hi.
    { rewrite E in *. destruct Hk as [->| ->]; destruct Ha as (types & -> & _); rewrite Hs; by eexists. }
    rewrite (bool_decide_eq_true_2 _ Hi), (bool_decide_eq_true_2 (is_Some (Some v))) by by eexists.
    by rewrite orb_true_r.
  - by rewrite Ho by done.
Qed.

Lemma pending_step node node' key v rest a :
  refused (schema_keyword key) = false -> Forall (fun f => cstrb f.1 = true) ((key, v) :: rest) ->
  NoDup ((key, v) :: rest).*1 -> stored node (schema_keyword key) a (ret node') ->
  Forall (fun f => slot node (schema_keyword f.1) = None) rest ->
  Forall (fun f => slot node' (schema_keyword f.1) = None) rest /\
  keyword_argument (schema_keyword key) rest = None.
Proof.
  intros Hr [Hk Hc]%Forall_cons [Hn _]%NoDup_cons (? & [= <-] & _ & _ & Ho) Hp.
  assert (forall f, f ∈ rest -> schema_keyword f.1 <> schema_keyword key) as Hne.
  { intros f Hf E. apply Hn. apply (list_elem_of_fmap_2 fst) in Hf as Hf'.
    rewrite (keyword_injective key f.1); [done|done| |done|done].
    rewrite Forall_forall in Hc. by apply Hc. }
  split.
  - rewrite Forall_forall in Hp |- *. intros f Hf. rewrite Ho by by apply Hne. by apply Hp.
  - destruct (keyword_argument _ rest) as [w|] eqn:E; [|done].
    apply argument_elem in E as (key' & Hi & E). by apply (Hne (key', w)) in Hi.
Qed.

Lemma keywords_spec schema node :
  Forall (fun f => cstrb f.1 = true /\ good n f.2) schema -> NoDup schema.*1 -> ready node ->
  Forall (fun f => slot node (schema_keyword f.1) = None) schema ->
  slot node K_type = None \/ slot node K_bsonType = None ->
  builds (forallb (fun f => argument_accepted (schema_keyword f.1) f.2) schema &&
          negb (present node schema K_type && present node schema K_bsonType))
    (keywords_loop EnableSchemaEnforcementForCSFLE EnableBsonTypeArgumentValidation build schema node)
    (fun node' => ready node' /\ node_of schema (slot node) node').
Proof.
  revert node. induction schema as [|[key v] rest IH]; intros node Hf Hn Hr Hp Hc.
  { replace (present node [] K_type && present node [] K_bsonType) with false
      by (destruct Hc as [Hc|Hc]; unfold present; rewrite Hc; cbn; by rewrite ?andb_false_r).
    by exists node. }
  pose proof Hf as [[Hk Hv] Hf']%Forall_cons. pose proof Hp as [Hs Hp']%Forall_cons. cbn [fst snd] in *.
  cbn [forallb keywords_loop fst snd]. rewrite <- andb_assoc.
  destruct (decide ((schema_keyword key = K_type \/ schema_keyword key = K_bsonType) /\
                    ~ (slot node K_type = None /\ slot node K_bsonType = None))) as [[Hk' Hx]|Hx].
  { (* the other of the two keywords was read before *)
    assert (present node ((key, v) :: rest) K_type && present node ((key, v) :: rest) K_bsonType = true) as ->.
    { unfold present, asked. rewrite !argument_cons.
      destruct (slot node K_type) eqn:E1, (slot node K_bsonType) eqn:E2; try tauto;
        destruct Hk' as [E|E]; rewrite E in *; try congruence; cbn; try done. }
    rewrite !andb_false_r. destruct Hk' as [E|E]; rewrite E in *; cbn [parse_keyword];
      unfold ParseJsonType, ParseBsonType.
    - assert (has (f_common (validationFlags node)) CommonValidationTypes_BsonType = true) as ->; [|by eexists].
      unfold slot in Hx at 2. destruct (has (f_common _) CommonValidationTypes_BsonType); tauto.
    - assert (has (f_common (validationFlags node)) CommonValidationTypes_JsonType = true) as ->; [|by eexists].
      unfold slot in Hx at 1. destruct (has (f_common _) CommonValidationTypes_JsonType); tauto. }
  assert (schema_keyword key = K_type \/ schema_keyword key = K_bsonType ->
          slot node K_type = None /\ slot node K_bsonType = None) as Hboth
    by (destruct (decide (slot node K_type = None /\ slot node K_bsonType = None)); tauto).
  pose proof (keyword_spec EnableSchemaEnforcementForCSFLE EnableBsonTypeArgumentValidation build means accepted n
    Hdoc Hbuild (schema_keyword key) v node Hv Hr Hs Hboth) as Hread.
  eapply builds_bind; [exact Hread|]. intros Hacc node' (a & Ha & Hst).
  assert (refused (schema_keyword key) = false) as Href by (by destruct (schema_keyword key)).
  pose proof (pending_step node node' key v rest a Href
    ltac:(eapply Forall_impl; [exact Hf|]; by intros ? [? _]) Hn Hst Hp') as [Hp1 Hp2].
  destruct Hst as (? & [= <-] & Hr' & Hsk & Ho).
  rewrite <- !(present_step node node' key v rest _ a) by (done || tauto).
  assert (slot node' K_type = None \/ slot node' K_bsonType = None) as Hc'.
  { destruct (decide (schema_keyword key = K_type)) as [E|E1]; [right; rewrite Ho by congruence; tauto|].
    destruct (decide (schema_keyword key = K_bsonType)) as [E|E2]; [left; rewrite Ho by congruence; tauto|].
    by rewrite !Ho by congruence. }
  apply NoDup_cons in Hn as [_ Hn]. specialize (IH node' Hf' Hn Hr' Hp1 Hc').
  destruct (forallb _ rest && _); [|done]. destruct IH as (t & -> & Ht & Hnode). exists t. split; [done|].
  split; [done|]. intros k. specialize (Hnode k). rewrite argument_cons.
  destruct (bool_decide_reflect (schema_keyword key = k)) as [E|E]; [|rewrite Ho in Hnode by congruence; exact Hnode].
  subst k. rewrite Hp2 in Hnode. exists a. by rewrite Hnode.
Qed.
End keywords.

(** The keywords that always leave an argument in the tree. *)
Definition lasting (k : Keyword) : bool :=
  match k with
  | K_encrypt | K_encryptMetadata | K_description | K_title | K_unsupported | K_unknown => false
  | _ => true
  end.

Lemma node_asked EnableSchemaEnforcementForCSFLE {L : BidLib} {P : Pcre} {H : PgHash} {T : StringTable} means schema node k :
  node_of EnableSchemaEnforcementForCSFLE means schema (fun _ => None) node ->
  lasting k = true -> bool_decide (is_Some (slot node k)) = asked k schema.
Proof.
  intros Hn Hk. specialize (Hn k). unfold asked. destruct (keyword_argument k schema) as [v|].
  - destruct Hn as (a & Ha & ->). rewrite !bool_decide_eq_true_2; [done|by eexists|].
    assert (exists b, a = Some b) as [b ->] by (destruct k; try discriminate Hk; cbn in Ha; decompose [ex and or] Ha; eauto).
    by eexists.
  - by rewrite Hn.
Qed.
