(* ===== verification/JsonSchemaCorrect.v ===== *)
(** * $jsonSchema: the operator

    The validation of a value against the node of a schema is the meaning of
    the schema ([validate_spec]); with the tree of [JsonSchemaBuild] this is the
    correctness of the operator. *)

From Stdlib Require Import String.
From stdpp Require Import base numbers list option sorting.
From Stdlib Require Import ZArith Lia.
From S2P Require Import Prelude Binary64 Bson PgbsonElement StringView Decimal128 Collation.
From S2P Require Import BsonCompare BsonHash Arithmetic QueryOperators QuerySets BitOperators.
From S2P Require Import UpdateOperators UpdateArrays JsonSchemaTree JsonSchemaValidator.
From S2P Require Import JsonSchemaSpec JsonSchemaBuild.

(** ** Validation *)

Lemma check_some (r k : outcome bool) a b :
  r = Some a -> k = Some b -> (check! r in k) = Some (a and_then b).
Proof. intros -> ->. by destruct a as [[]|]. Qed.

Section validate.
Context {L : BidLib} {BL : BidLaws L} {A : BidMath} {I : Icu} {IL : IcuLaws I} {P : Pcre} {H : PgHash}.
Context {T : StringTable} {TL : StringTableLaws T} {D : DynaHash} {Q : QSort}.
Context (EnableCollation EnableSchemaEnforcementForCSFLE : bool).
Context (Validate : bson_value -> SchemaNode -> outcome bool).
Context (satisfies : bson_value -> bson_value -> result bool).

Definition means (node : SchemaNode) (v : bson_value) : Prop :=
  forall x, wf_value x = true -> Validate x node = Some (satisfies v x).

Context (schema : bson_doc) (node : SchemaNode) (Ws : wf_fields schema = true).
Context (Hnode : node_of EnableSchemaEnforcementForCSFLE means schema (fun _ => None) node).
Context (Hobject : f_object (validationFlags node) <> 0 ->
  exists o, v_object node = Some o /\
    (has (f_object (validationFlags node)) ObjectValidationTypes_Properties = false -> properties o = [])).

(** A section without flags asks for nothing. *)
Ltac open_slot Hs :=
  unfold slot in Hs;
  match type of Hs with
  | context [if has ?f ?b then _ else _] => destruct (has f b); [|discriminate Hs]
  end;
  match type of Hs with
  | context [_ ≫= _] => first
      [ destruct (v_common node) as [?c|]; [|discriminate Hs] | destruct (v_object node) as [?o|]; [|discriminate Hs]
      | destruct (v_numeric node) as [?m|]; [|discriminate Hs] | destruct (v_string node) as [?s|]; [|discriminate Hs]
      | destruct (v_array node) as [?a|]; [|discriminate Hs] ]
  end; cbn in Hs; cbn [deref].

Ltac no_slot Hs := unfold slot in Hs; match type of Hs with
  | context [if has ?f ?b then _ else _] => destruct (has f b); [discriminate Hs|done] end.

Lemma type_step x :
  (if has (f_common (validationFlags node)) CommonValidationTypes_JsonType
   then deref! c := v_common node in ret (has (jsonTypes c) (GetBsonValueTypeFlag (value_type x))) else ret true) =
  Some (when K_type schema (fun v => Ok (has_named_type json_type_names (texts_of v) x))).
Proof.
  pose proof (Hnode K_type) as Hs. unfold when. destruct (keyword_argument K_type schema) as [v|].
  - destruct Hs as (a & (types & -> & Et) & Hs). open_slot Hs. injection Hs as <-. by rewrite <- Et.
  - no_slot Hs.
Qed.

Lemma bsonType_step x :
  (if has (f_common (validationFlags node)) CommonValidationTypes_BsonType
   then deref! c := v_common node in ret (has (bsonTypes c) (GetBsonValueTypeFlag (value_type x))) else ret true) =
  Some (when K_bsonType schema (fun v => Ok (has_named_type bson_type_names (texts_of v) x))).
Proof.
  pose proof (Hnode K_bsonType) as Hs. unfold when. destruct (keyword_argument K_bsonType schema) as [v|].
  - destruct Hs as (a & (types & -> & Et) & Hs). open_slot Hs. injection Hs as <-. by rewrite <- Et.
  - no_slot Hs.
Qed.

(** The argument of a keyword is well-formed. *)
Lemma argument_wf k v : keyword_argument k schema = Some v -> wf_value v = true.
Proof.
  intros (key & Hi & _)%argument_elem. apply list_elem_of_In in Hi.
  unfold wf_fields in Ws. rewrite forallb_forall in Ws. apply Ws in Hi. rewrite andb_true_iff in Hi. tauto.
Qed.

Lemma equals_sym a b : wf_value a = true -> wf_value b = true -> equals None a b = equals None b a.
Proof.
  intros Wa Wb. apply eq_true_iff_eq. set (n := Nat.max (depth a) (depth b)).
  rewrite !(equals_order n) by (done || lia). rewrite (cmp_antisym (bson_order n None)).
  by destruct (bson_order n None a b).
Qed.

Lemma enum_loop_spec x values :
  wf_value x = true -> Forall (fun v => wf_value v = true) values ->
  enum_loop x (fields_of (array_value values)) = ret (existsb (fun v => equals None v x) values).
Proof.
  intros Wx Hv. unfold array_value. cbn [fields_of]. generalize index_key.
  induction Hv as [|v values Wv _ IH]; intros key; [done|]. cbn [imap enum_loop existsb].
  destruct (entry_compare None x v Wx Wv) as (z & b & E & Hz & _). unfold BsonValueEquals.
  rewrite compare_and_type_none, E. cbn [result_bind out_bind]. rewrite Hz, equals_sym by done.
  destruct (equals None v x); [done|]. apply (IH (key ∘ S)).
Qed.

Lemma enum_step x :
  wf_value x = true ->
  (if has (f_common (validationFlags node)) CommonValidationTypes_Enum
   then deref! c := v_common node in deref! values := enumValues c in enum_loop x (fields_of values)
   else ret true) =
  Some (when K_enum schema (fun v => Ok (existsb (fun f => equals None f.2 x) (fields_of v)))).
Proof.
  intros Wx. pose proof (Hnode K_enum) as Hs. unfold when.
  destruct (keyword_argument K_enum schema) as [v|] eqn:Ek.
  - destruct Hs as (a & -> & Hs). open_slot Hs. destruct (enumValues c); [|done]. injection Hs as ->.
    cbn [deref]. rewrite enum_loop_spec; [|done|].
    + unfold ret. do 2 f_equal. generalize (fields_of v). intros l.
      induction l as [|f l IH]; [done|]. cbn. f_equal. exact IH.
    + apply argument_wf in Ek. destruct v; cbn in *; try constructor; by apply (wf_values v_doc).
  - no_slot Hs.
Qed.

Lemma one_of_spec x l schemas count :
  wf_value x = true -> Forall2 (fun c (f : bson_field) => means c f.2) l schemas -> count = 0 \/ count = 1 ->
  one_of_loop Validate x l count =
  Some (exactly_one (fun f => satisfies f.2 x) (count =? 1) schemas).
Proof.
  intros Wx Hl. revert count. induction Hl as [|c f l schemas Hm _ IH]; intros count Hc; [done|].
  cbn [one_of_loop exactly_one]. rewrite (Hm x Wx). destruct (satisfies f.2 x) as [[]|e]; [|by apply IH|done].
  cbn [out_bind result_bind]. destruct Hc as [->| ->]; [|done]. cbn. apply IH. by right.
Qed.

Lemma oneOf_step x :
  wf_value x = true ->
  (if has (f_common (validationFlags node)) CommonValidationTypes_OneOf
   then deref! c := v_common node in one_of_loop Validate x (oneOfNodes c) 0 else ret true) =
  Some (when K_oneOf schema (fun v => exactly_one (fun f => satisfies f.2 x) false (fields_of v))).
Proof.
  intros Wx. pose proof (Hnode K_oneOf) as Hs. unfold when. destruct (keyword_argument K_oneOf schema) as [v|].
  - destruct Hs as (a & (l & -> & Hl) & Hs). open_slot Hs. injection Hs as <-.
    apply (one_of_spec x _ _ 0 Wx Hl). by left.
  - no_slot Hs.
Qed.

Lemma common_spec x :
  wf_value x = true -> ValidateBsonValueCommon Validate x node = Some (common_keywords satisfies schema x).
Proof.
  intros Wx. unfold ValidateBsonValueCommon, common_keywords. cbn zeta.
  repeat apply check_some; [apply type_step|apply bsonType_step|by apply enum_step|by apply oneOf_step].
Qed.

(** ** Strings *)

(** What the flags say is what the schema asks. *)
Lemma asked_flag k f b :
  lasting k = true ->
  (slot node k = None <-> has f b = false) -> has f b = asked k schema.
Proof.
  intros Hk Hs. rewrite <- (node_asked EnableSchemaEnforcementForCSFLE means schema node k Hnode Hk).
  destruct Hs as [H1 H2], (slot node k), (has f b); try done; [by specialize (H2 eq_refl)|by specialize (H1 eq_refl)].
Qed.

Lemma asked_maxLength : has (f_string (validationFlags node)) StringValidationTypes_MaxLength = asked K_maxLength schema.
Proof. apply asked_flag; [done|]. unfold slot. by destruct (has (f_string _) _). Qed.

Lemma asked_minLength : has (f_string (validationFlags node)) StringValidationTypes_MinLength = asked K_minLength schema.
Proof. apply asked_flag; [done|]. unfold slot. by destruct (has (f_string _) _). Qed.

Lemma maxLength_step len :
  (if has (f_string (validationFlags node)) StringValidationTypes_MaxLength
   then deref! s := v_string node in ret (negb (maxLength s <? len)) else ret true) =
  Some (when K_maxLength schema (fun v => Ok (len <=? bound_of v))).
Proof.
  pose proof (Hnode K_maxLength) as Hs. unfold when. destruct (keyword_argument K_maxLength schema) as [v|].
  - destruct Hs as (a & (z & Ez & ->) & Hs). open_slot Hs. injection Hs as ->.
    unfold bound_of, ret. rewrite Ez. by rewrite <- Z.leb_antisym.
  - no_slot Hs.
Qed.

Lemma minLength_step len :
  (if has (f_string (validationFlags node)) StringValidationTypes_MinLength
   then deref! s := v_string node in ret (negb (len <? minLength s)) else ret true) =
  Some (when K_minLength schema (fun v => Ok (bound_of v <=? len))).
Proof.
  pose proof (Hnode K_minLength) as Hs. unfold when. destruct (keyword_argument K_minLength schema) as [v|].
  - destruct Hs as (a & (z & Ez & ->) & Hs). open_slot Hs. injection Hs as ->.
    unfold bound_of, ret. rewrite Ez. by rewrite <- Z.leb_antisym.
  - no_slot Hs.
Qed.

Lemma pattern_step string :
  (if has (f_string (validationFlags node)) StringValidationTypes_Pattern then
     deref! s := v_string node in deref! regex := pattern s in Some (PcreRegexExecute regex [] string)
   else ret true) =
  Some (when K_pattern schema (fun v => PcreRegexExecute (cstring (text_of v)) [] string)).
Proof.
  pose proof (Hnode K_pattern) as Hs. unfold when. destruct (keyword_argument K_pattern schema) as [v|].
  - destruct Hs as (a & -> & Hs). open_slot Hs. destruct (pattern s); [|done]. by injection Hs as ->.
  - no_slot Hs.
Qed.

Lemma string_spec x :
  ValidateBsonValueString x node = Some (if is_string x then string_keywords schema x else Ok true).
Proof.
  destruct x as [| |string| | | | | | | | | | | | | | | | | | |]; try done.
  cbn [ValidateBsonValueString is_string holds_type value_type]. unfold string_keywords.
  replace (type_eqb BSON_TYPE_UTF8 BSON_TYPE_UTF8) with true by done. apply check_some.
  - rewrite has_lor_r, asked_maxLength, asked_minLength. destruct (_ || _); [|done].
    unfold characters. cbn [text_of]. destruct (StringViewMultiByteCharStrlen _) as [len|e]; [|done].
    cbn [out_bind result_bind]. rewrite <- asked_maxLength, <- asked_minLength.
    apply check_some; [apply maxLength_step|apply minLength_step].
  - assert (sv_view (mk_view (Some string) (blen string)) = string) as ->; [|apply pattern_step].
    unfold sv_view, sv_bytes, blen. cbn. by rewrite Nat2Z.id, firstn_all.
Qed.

(** ** Numbers *)

Lemma compare_numbers_range l r z b :
  CompareNumbers l r = Ok (z, b) -> z = three_way (sgn_cmp z).
Proof.
  unfold CompareNumbers. cbn zeta. destruct (_ || _).
  - destruct (GetBsonValueAsDecimal128 l) as [dl|]; [|done]. destruct (GetBsonValueAsDecimal128 r) as [dr|]; [|done].
    cbn [result_bind]. unfold CompareBsonDecimal128. cbn.
    repeat case_match; try done; by intros [= <- _].
  - destruct (_ || _).
    + destruct (BsonNumberAsLongDouble l) as [xl|]; [|done]. destruct (BsonNumberAsLongDouble r) as [xr|]; [|done].
      cbn [result_bind]. repeat case_match; intros [= <- _]; try done. by destruct (xnum_cmp xl xr).
    + destruct (BsonValueAsInt64 l) as [zl|]; [|done]. destruct (BsonValueAsInt64 r) as [zr|]; [|done].
      cbn [result_bind]. intros [= <- _]. by destruct (zl ?= zr).
Qed.

Lemma number_compare x bound :
  wf_value x = true -> wf_value bound = true -> BsonValueIsNumber x = true -> BsonValueIsNumber bound = true ->
  CompareBsonValueAndType x bound =
    Ok (three_way (bson_order (depth x) None x bound), Bool.eqb (is_xnan (number_of x)) (is_xnan (number_of bound))).
Proof.
  intros Wx Wb Nx Nb. assert (class_of x = class_of bound) as Ec.
  { destruct x; try discriminate Nx; destruct bound; try discriminate Nb; done. }
  assert (CompareBsonValueAndType x bound = CompareNumbers x bound) as En.
  { unfold CompareBsonValueAndType. destruct (class_difference x bound) as [Ed _]. rewrite Ec, Z.eqb_refl in Ed.
    rewrite Ed. cbn [negb]. destruct x; try discriminate Nx; cbn [CompareBsonValue]; by rewrite Ed. }
  destruct (compare_and_type_refines (depth x) None x bound ltac:(lia) Wx Wb) as (z & Ez & Sz).
  rewrite <- compare_and_type_none, Ec, Z.eqb_refl in Ez. rewrite Ez. rewrite En in Ez.
  apply compare_numbers_range in Ez. by rewrite Ez, Sz.
Qed.

Lemma exclusiveMaximum_step m :
  v_numeric node = Some m ->
  has (f_numeric (validationFlags node)) NumericValidationTypes_ExclusiveMaximum && exclusiveMaximum m =
  is_true (keyword_argument K_exclusiveMaximum schema).
Proof.
  intros Em. pose proof (Hnode K_exclusiveMaximum) as Hs. unfold slot in Hs. rewrite Em in Hs.
  destruct (keyword_argument K_exclusiveMaximum schema) as [v|].
  - destruct Hs as (a & (b & -> & ->) & Hs). destruct (has (f_numeric _) _); [|done]. injection Hs as ->. by destruct b.
  - by destruct (has (f_numeric _) _).
Qed.

Lemma exclusiveMinimum_step m :
  v_numeric node = Some m ->
  has (f_numeric (validationFlags node)) NumericValidationTypes_ExclusiveMinimum && exclusiveMinimum m =
  is_true (keyword_argument K_exclusiveMinimum schema).
Proof.
  intros Em. pose proof (Hnode K_exclusiveMinimum) as Hs. unfold slot in Hs. rewrite Em in Hs.
  destruct (keyword_argument K_exclusiveMinimum schema) as [v|].
  - destruct Hs as (a & (b & -> & ->) & Hs). destruct (has (f_numeric _) _); [|done]. injection Hs as ->. by destruct b.
  - by destruct (has (f_numeric _) _).
Qed.

Lemma maximum_step x :
  wf_value x = true -> BsonValueIsNumber x = true ->
  (if has (f_numeric (validationFlags node)) NumericValidationTypes_Maximum then
     deref! n := v_numeric node in deref! max := maximum n in
     out! (res, isComparisonValid) := Some (CompareBsonValueAndType x max) in
     if has (f_numeric (validationFlags node)) NumericValidationTypes_ExclusiveMaximum && exclusiveMaximum n
     then ret (negb ((0 <=? res) || negb isComparisonValid))
     else ret (negb ((res =? 1) || negb isComparisonValid))
   else ret true) =
  Some (when K_maximum schema (fun v => Ok (at_most (is_true (keyword_argument K_exclusiveMaximum schema)) x v))).
Proof.
  intros Wx Nx. pose proof (Hnode K_maximum) as Hs. unfold when.
  destruct (keyword_argument K_maximum schema) as [v|] eqn:Ek; [|no_slot Hs].
  destruct Hs as (a & (Nv & ->) & Hs). unfold slot in Hs.
  destruct (has (f_numeric _) NumericValidationTypes_Maximum); [|done].
  destruct (v_numeric node) as [m|] eqn:Em; [|done]. cbn in Hs. cbn [deref].
  rewrite (exclusiveMaximum_step m Em). destruct (maximum m); [|done]. injection Hs as ->. cbn [deref].
  rewrite number_compare by (done || by eapply argument_wf). cbn [out_bind]. unfold at_most, ordered, ret.
  by destruct (is_true _), (Bool.eqb _ _), (bson_order _ _ _ _).
Qed.

Lemma minimum_step x :
  wf_value x = true -> BsonValueIsNumber x = true ->
  (if has (f_numeric (validationFlags node)) NumericValidationTypes_Minimum then
     deref! n := v_numeric node in deref! min := minimum n in
     out! (res, isComparisonValid) := Some (CompareBsonValueAndType x min) in
     if has (f_numeric (validationFlags node)) NumericValidationTypes_ExclusiveMinimum && exclusiveMinimum n
     then ret (negb ((res <=? 0) || negb isComparisonValid))
     else ret (negb ((res =? -1) || negb isComparisonValid))
   else ret true) =
  Some (when K_minimum schema (fun v => Ok (at_least (is_true (keyword_argument K_exclusiveMinimum schema)) x v))).
Proof.
  intros Wx Nx. pose proof (Hnode K_minimum) as Hs. unfold when.
  destruct (keyword_argument K_minimum schema) as [v|] eqn:Ek; [|no_slot Hs].
  destruct Hs as (a & (Nv & ->) & Hs). unfold slot in Hs.
  destruct (has (f_numeric _) NumericValidationTypes_Minimum); [|done].
  destruct (v_numeric node) as [m|] eqn:Em; [|done]. cbn in Hs. cbn [deref].
  rewrite (exclusiveMinimum_step m Em). destruct (minimum m); [|done]. injection Hs as ->. cbn [deref].
  rewrite number_compare by (done || by eapply argument_wf). cbn [out_bind]. unfold at_least, ordered, ret.
  by destruct (is_true _), (Bool.eqb _ _), (bson_order _ _ _ _).
Qed.

Lemma multipleOf_step x :
  (if has (f_numeric (validationFlags node)) NumericValidationTypes_MultipleOf then
     deref! n := v_numeric node in deref! divisor := multipleOf n in
     out! remainder := Some (GetRemainderFromModBsonValues x divisor true) in
     out! d := Some (BsonValueAsDouble remainder) in
     ret (d_eq d 0)
   else ret true) = Some (when K_multipleOf schema (multiple_of x)).
Proof.
  pose proof (Hnode K_multipleOf) as Hs. unfold when. destruct (keyword_argument K_multipleOf schema) as [v|].
  - destruct Hs as (a & -> & Hs). open_slot Hs. destruct (multipleOf m); [|done]. injection Hs as ->. cbn [deref].
    unfold multiple_of. destruct (GetRemainderFromModBsonValues x v true) as [r|]; [|done]. cbn [out_bind result_bind].
    by destruct (BsonValueAsDouble r).
  - no_slot Hs.
Qed.

Lemma numeric_spec x :
  wf_value x = true ->
  ValidateBsonValueNumeric x node = Some (if BsonValueIsNumber x then numeric_keywords schema x else Ok true).
Proof.
  intros Wx. unfold ValidateBsonValueNumeric. destruct (BsonValueIsNumber x) eqn:Nx; [|done].
  cbn [negb]. cbn zeta. unfold numeric_keywords.
  repeat apply check_some; [by apply maximum_step|by apply minimum_step|apply multipleOf_step].
Qed.

(** ** Arrays *)

Lemma asked_maxItems : has (f_array (validationFlags node)) ArrayValidationTypes_MaxItems = asked K_maxItems schema.
Proof. apply asked_flag; [done|]. unfold slot. by destruct (has (f_array _) ArrayValidationTypes_MaxItems). Qed.

Lemma asked_minItems : has (f_array (validationFlags node)) ArrayValidationTypes_MinItems = asked K_minItems schema.
Proof. apply asked_flag; [done|]. unfold slot. by destruct (has (f_array _) ArrayValidationTypes_MinItems). Qed.

Lemma maxItems_step len :
  (if has (f_array (validationFlags node)) ArrayValidationTypes_MaxItems
   then deref! a := v_array node in ret (negb (maxItems a <? len)) else ret true) =
  Some (when K_maxItems schema (fun v => Ok (len <=? bound_of v))).
Proof.
  pose proof (Hnode K_maxItems) as Hs. unfold when. destruct (keyword_argument K_maxItems schema) as [v|].
  - destruct Hs as (a & (z & Ez & ->) & Hs). open_slot Hs. injection Hs as ->.
    unfold bound_of, ret. rewrite Ez. by rewrite <- Z.leb_antisym.
  - no_slot Hs.
Qed.

Lemma minItems_step len :
  (if has (f_array (validationFlags node)) ArrayValidationTypes_MinItems
   then deref! a := v_array node in ret (negb (len <? minItems a)) else ret true) =
  Some (when K_minItems schema (fun v => Ok (bound_of v <=? len))).
Proof.
  pose proof (Hnode K_minItems) as Hs. unfold when. destruct (keyword_argument K_minItems schema) as [v|].
  - destruct Hs as (a & (z & Ez & ->) & Hs). open_slot Hs. injection Hs as ->.
    unfold bound_of, ret. rewrite Ez. by rewrite <- Z.leb_antisym.
  - no_slot Hs.
Qed.

(** The number of items is computed if one of the two keywords asks for it. *)
Lemma item_bounds_step len :
  (if has (f_array (validationFlags node)) (Z.lor ArrayValidationTypes_MaxItems ArrayValidationTypes_MinItems) then
     check! if has (f_array (validationFlags node)) ArrayValidationTypes_MaxItems
            then deref! a := v_array node in ret (negb (maxItems a <? len)) else ret true in
     if has (f_array (validationFlags node)) ArrayValidationTypes_MinItems
     then deref! a := v_array node in ret (negb (len <? minItems a)) else ret true
   else ret true) =
  Some (when K_maxItems schema (fun v => Ok (len <=? bound_of v)) and_then
        when K_minItems schema (fun v => Ok (bound_of v <=? len))).
Proof.
  rewrite has_lor_r.
  destruct (has (f_array _) ArrayValidationTypes_MaxItems || has (f_array _) ArrayValidationTypes_MinItems) eqn:E.
  - apply check_some; [apply maxItems_step|apply minItems_step].
  - rewrite asked_maxItems, asked_minItems, orb_false_iff in E. destruct E as [E1 E2]. unfold asked in E1, E2. unfold when.
    by destruct (keyword_argument K_maxItems schema), (keyword_argument K_minItems schema).
Qed.

Lemma unique_step x :
  (forall r, IsBsonArrayUnique EnableCollation x true = r -> exists b, r = Some b) ->
  (if has (f_array (validationFlags node)) ArrayValidationTypes_UniqueItems then
     deref! a := v_array node in
     if uniqueItems a then IsBsonArrayUnique EnableCollation x true else ret true
   else ret true) =
  Some (when K_uniqueItems schema (fun v => if is_true (Some v) then unique_items EnableCollation x else Ok true)).
Proof.
  intros Hu. pose proof (Hnode K_uniqueItems) as Hs. unfold when. destruct (keyword_argument K_uniqueItems schema) as [v|].
  - destruct Hs as (a & (b & -> & ->) & Hs). open_slot Hs. injection Hs as ->. destruct b; [|done].
    unfold unique_items. cbn. by destruct (Hu _ eq_refl) as [r ->].
  - no_slot Hs.
Qed.

Lemma all_items_spec c v elements :
  means c v -> wf_fields elements = true ->
  all_items Validate elements (Some c) = Some (all_hold (fun e => satisfies v e.2) elements).
Proof.
  intros Hm. induction elements as [|[k x] rest IH]; [done|]. rewrite wf_fields_cons. intros (_ & Wx & Wr).
  cbn [all_items all_hold snd deref]. apply check_some; [by apply Hm|by apply IH].
Qed.

Lemma additional_step left :
  wf_fields left = true ->
  match left with
  | [] => ret true
  | _ =>
      deref! a := v_array node in
      if has (f_array (validationFlags node)) ArrayValidationTypes_AdditionalItemsBool
      then deref! b := read_additionalItemsBool (additionalItems a) in ret b
      else if has (f_array (validationFlags node)) ArrayValidationTypes_AdditionalItemsObject
      then all_items Validate left (read_additionalItemsNode (additionalItems a))
      else ret true
  end = Some (listed_items satisfies schema [] left) \/ v_array node = None.
Proof.
  intros Wl. destruct (v_array node) as [a|] eqn:Ea; [left|by right].
  destruct left as [|e left]; [done|]. cbn [deref listed_items].
  pose proof (Hnode K_additionalItems) as Hs. unfold when. unfold slot in Hs. rewrite Ea in Hs.
  cbn in Hs. destruct (keyword_argument K_additionalItems schema) as [v|].
  - destruct Hs as (arg & [(b & -> & ->)|(c & Hv & -> & Hm)] & Hs).
    + destruct (has (f_array (validationFlags node)) ArrayValidationTypes_AdditionalItemsBool),
               (has (f_array (validationFlags node)) ArrayValidationTypes_AdditionalItemsObject);
        destruct (additionalItems a); try discriminate Hs; by injection Hs; intros; subst.
    + assert (all_items Validate (e :: left) (Some c) =
        Some match v with V_Bool b => Ok b | _ => all_hold (fun e => satisfies v e.2) (e :: left) end) as Hall
        by (rewrite (all_items_spec c v) by done; by destruct v).
      destruct (has (f_array (validationFlags node)) ArrayValidationTypes_AdditionalItemsBool),
               (has (f_array (validationFlags node)) ArrayValidationTypes_AdditionalItemsObject);
        destruct (additionalItems a); try discriminate Hs; injection Hs as ->; exact Hall.
  - by destruct (has (f_array (validationFlags node)) ArrayValidationTypes_AdditionalItemsBool),
             (has (f_array (validationFlags node)) ArrayValidationTypes_AdditionalItemsObject).
Qed.

Lemma zip_items_spec a l schemas elements :
  v_array node = Some a -> Forall2 (fun c (f : bson_field) => means c f.2) l schemas -> wf_fields elements = true ->
  zip_items Validate l elements (fun left =>
    match left with
    | [] => ret true
    | _ =>
        if has (f_array (validationFlags node)) ArrayValidationTypes_AdditionalItemsBool
        then deref! b := read_additionalItemsBool (additionalItems a) in ret b
        else if has (f_array (validationFlags node)) ArrayValidationTypes_AdditionalItemsObject
        then all_items Validate left (read_additionalItemsNode (additionalItems a))
        else ret true
    end) = Some (listed_items satisfies schema schemas elements).
Proof.
  intros Ea Hl. revert elements. induction Hl as [|c f l schemas Hm _ IH]; intros elements We.
  - destruct (additional_step elements We) as [Hs|Hs]; [|congruence]. rewrite Ea in Hs.
    cbn [zip_items]. destruct elements; [done|exact Hs].
  - destruct elements as [|[k x] elements]; [done|]. apply wf_fields_cons in We as (_ & Wx & We).
    cbn [zip_items listed_items snd]. apply check_some; [by apply Hm|by apply IH].
Qed.

(** The last two checks of an array: the schemas of its items. *)
Lemma items_step elements :
  wf_fields elements = true ->
  exists r1 r2,
    (if has (f_array (validationFlags node)) ArrayValidationTypes_ItemsObject
     then deref! a := v_array node in all_items Validate elements (head (items a)) else ret true) = Some r1 /\
    (if has (f_array (validationFlags node)) ArrayValidationTypes_ItemsArray then
       deref! a := v_array node in
       zip_items Validate (items a) elements (fun left =>
         match left with
         | [] => ret true
         | _ =>
             if has (f_array (validationFlags node)) ArrayValidationTypes_AdditionalItemsBool
             then deref! b := read_additionalItemsBool (additionalItems a) in ret b
             else if has (f_array (validationFlags node)) ArrayValidationTypes_AdditionalItemsObject
             then all_items Validate left (read_additionalItemsNode (additionalItems a))
             else ret true
         end)
     else ret true) = Some r2 /\
    (r1 and_then r2) =
      when K_items schema (fun v =>
        match v with
        | V_Array schemas => listed_items satisfies schema schemas elements
        | _ => all_hold (fun e => satisfies v e.2) elements
        end).
Proof.
  intros We. pose proof (Hnode K_items) as Hs. unfold when. unfold slot in Hs.
  destruct (keyword_argument K_items schema) as [v|].
  2: { exists (Ok true), (Ok true). by destruct (has (f_array (validationFlags node)) ArrayValidationTypes_ItemsObject),
             (has (f_array (validationFlags node)) ArrayValidationTypes_ItemsArray). }
  destruct Hs as (arg & [(c & Hv & -> & Hm)|(schemas & l & -> & -> & Hl)] & Hs).
  - exists (all_hold (fun e => satisfies v e.2) elements), (Ok true).
    destruct (has (f_array (validationFlags node)) ArrayValidationTypes_ItemsObject), (has (f_array (validationFlags node)) ArrayValidationTypes_ItemsArray);
      try discriminate Hs; destruct (v_array node) as [a|]; cbn in Hs; try discriminate Hs. cbn [deref].
    destruct (items a) as [|c' l]; [done|]. injection Hs as ->. cbn [head]. rewrite (all_items_spec c v) by done.
    split_and!; [done..|]. destruct v; try discriminate Hv. by destruct (all_hold _ elements) as [[]|].
  - exists (Ok true), (listed_items satisfies schema schemas elements).
    destruct (has (f_array (validationFlags node)) ArrayValidationTypes_ItemsObject), (has (f_array (validationFlags node)) ArrayValidationTypes_ItemsArray);
      try discriminate Hs; destruct (v_array node) as [a|] eqn:Ea; cbn in Hs; try discriminate Hs;
      [by destruct (items a)|]. cbn [deref].
    injection Hs as ->. rewrite (zip_items_spec a l schemas) by done. done.
  Qed.

Lemma array_spec x :
  wf_value x = true -> (is_array x = true -> exists b, IsBsonArrayUnique EnableCollation x true = Some b) ->
  ValidateBsonValueArray EnableCollation Validate x node =
  Some (if is_array x then array_keywords EnableCollation satisfies schema x else Ok true).
Proof.
  intros Wx Hu. destruct x as [| | | |elements| | | | | | | | | | | | | | | | |]; try done.
  specialize (Hu eq_refl). cbn [ValidateBsonValueArray is_array holds_type value_type].
  replace (type_eqb BSON_TYPE_ARRAY BSON_TYPE_ARRAY) with true by done. cbn zeta. unfold array_keywords.
  destruct (items_step elements) as (r1 & r2 & E1 & E2 & Er); [exact Wx|]. cbn [fields_of]. rewrite <- Er.
  pose proof (item_bounds_step (wrap_u 16 (Z.of_nat (length elements)))) as Eb. unfold item_count. cbn [fields_of].
  pose proof (unique_step (V_Array elements) ltac:(intros r <-; exact Hu)) as Eu.
  pose proof (check_some _ _ _ _ Eb (check_some _ _ _ _ Eu (check_some _ _ _ _ E1 E2))) as Hc.
  rewrite Hc. f_equal. by destruct (when K_maxItems schema _) as [[]|].
Qed.

(** ** Objects *)

Lemma texts_good v : wf_value v = true -> Forall (fun s => strb s = true) (texts_of v).
Proof.
  intros W. destruct v; try constructor; try done. cbn [texts_of]. cbn in W.
  induction v_doc as [|[k x] fs IH]; [constructor|]. cbn in W. rewrite !andb_true_iff in W. destruct W as [[_ Wx] Wf].
  constructor; [|by apply IH]. cbn. by destruct x.
Qed.

Lemma cstring_idem s : cstring (cstring s) = cstring s.
Proof. induction s as [|b s IH]; [done|]. cbn [cstring]. destruct (b =? 0) eqn:E; [done|]. cbn [cstring]. by rewrite E, IH. Qed.

Lemma cstring_good s : strb s = true -> strb (cstring s) = true /\ cstring (cstring s) = cstring s.
Proof.
  intros Hs. split; [|apply cstring_idem]. unfold strb, lenb, bytesb, blen in *. rewrite andb_true_iff, Z.ltb_lt in *.
  destruct Hs as [Hb Hl]. destruct (cstring_prefix s) as [Ht Hle]. split; [|lia].
  rewrite <- Ht. apply forallb_forall. intros x Hx. rewrite forallb_forall in Hb. apply Hb.
  rewrite <- (take_drop (length (cstring s)) s). apply in_app_iff. by left.
Qed.

Lemma enter_required_spec names table count :
  Forall (fun s => strb s = true /\ cstring s = s) names -> NoDup (names ++ (sv_view <$> table)) ->
  Forall good_view table ->
  let r := enter_required (fields_of (array_value (V_Utf8 <$> names))) table count in
  Forall good_view r.1 /\ sv_view <$> r.1 ≡ₚ names ++ (sv_view <$> table) /\ r.2 = count + Z.of_nat (length names).
Proof.
  unfold array_value. cbn [fields_of]. generalize index_key. intros key Hs. revert key table count.
  induction Hs as [|s names [Hs Hc] _ IH]; intros key table count Hn Ht; [cbn; split_and!; [done..|lia]|].
  cbn [fmap list_fmap imap enter_required text_of].
  destruct (string_view_good s Hs) as (Hg & Ev & Em). rewrite <- Em. rewrite Hc in Ev.
  destruct (enter_spec table (CreateStringViewFromString s) Ht Hg) as (_ & E2 & E3).
  rewrite Ev in E3. cbn [app] in Hn. apply NoDup_cons in Hn as [Hi Hn]. rewrite elem_of_app in Hi.
  rewrite bool_decide_eq_false_2 in E3 by tauto.
  destruct (IH (key ∘ S) (string_set_enter table (CreateStringViewFromString s)).2 (count + 1)) as (I1 & I2 & I3).
  - rewrite E3, <- Permutation_middle. constructor; [|done]. by rewrite elem_of_app.
  - done.
  - split_and!; [exact I1| |etrans; [exact I3|]; cbn [length]; lia].
    etrans; [exact I2|]. rewrite E3. cbn [app]. by rewrite Permutation_middle.
Qed.

Lemma filter_length_ne (k : bytes) R :
  NoDup R -> Z.of_nat (length (filter (fun s => s <> k) R)) =
             Z.of_nat (length R) - (if bool_decide (k ∈ R) then 1 else 0).
Proof.
  induction 1 as [|s R Hs Hn IH]; [done|]. rewrite filter_cons. destruct (decide (s <> k)) as [Hne|He].
  - cbn [length]. rewrite !Nat2Z.inj_succ, IH. assert ((k ∈ s :: R) <-> (k ∈ R)) as E.
    { rewrite elem_of_cons. split; [intros [->|]; [done|done]|by right]. }
    rewrite (bool_decide_ext _ _ E). lia.
  - assert (s = k) as -> by (by destruct (decide (s = k))). rewrite bool_decide_eq_true_2 by by left. cbn [length].
    rewrite IH, bool_decide_eq_false_2 by done. lia.
Qed.

(** What the schema asks of a field. *)
Definition field_condition (f : bson_field) : result bool :=
  when K_properties schema (fun v =>
    match field_named f.1 (fields_of v) with Some s => satisfies s f.2 | None => Ok true end).

Lemma field_step o name y :
  v_object node = Some o ->
  (has (f_object (validationFlags node)) ObjectValidationTypes_Properties = false -> properties o = []) ->
  cstrb name = true -> wf_value y = true ->
  (out! fieldNode := FindFieldNodeByName (Some node) name in
   match fieldNode with Some (_, c) => Validate y (base c) | None => ret true end) = Some (field_condition (name, y)).
Proof.
  intros Eo Hp Hn Wy. cbn [FindFieldNodeByName]. rewrite Eo. cbn [deref ret out_bind]. unfold field_condition, when.
  pose proof (Hnode K_properties) as Hs. unfold slot in Hs. rewrite Eo in Hs. cbn in Hs.
  destruct (keyword_argument K_properties schema) as [v|] eqn:Ek.
  - destruct Hs as (a & (l & -> & Hl) & Hs). destruct (has (f_object _) _); [|done]. injection Hs as ->.
    assert (Forall (fun f : bson_field => cstrb f.1 = true) (fields_of v)) as Hc.
    { apply argument_wf in Ek. destruct v; cbn in *; try constructor.
      all: apply Forall_forall; intros f Hf; rewrite forallb_forall in Ek; apply list_elem_of_In, Ek in Hf;
        rewrite andb_true_iff in Hf; tauto. }
    pose proof (find_field_spec means l (fields_of v) name 0 Hl Hc Hn) as Hf. cbn [fst snd].
    destruct (find_field l name 0) as [[i c]|], (field_named name (fields_of v)); try done. by apply Hf.
  - destruct (has (f_object _) _); [done|]. by rewrite Hp.
Qed.

Lemma required_left k y rest R :
  forallb (has_field ((k, y) :: rest)) R = forallb (has_field rest) (filter (fun s => s <> k) R).
Proof.
  induction R as [|s R IH]; [done|]. rewrite filter_cons. cbn [forallb]. rewrite IH.
  unfold has_field at 1. cbn [existsb fst]. destruct (decide (s <> k)) as [Hne|He].
  - by rewrite bool_decide_eq_false_2 by congruence.
  - rewrite bool_decide_eq_true_2; [done|]. by destruct (decide (k = s)); [|destruct He; congruence].
Qed.

(** The loop over the fields, with the required names that were not seen. *)
Lemma object_loop_spec o fields isRequired table count R :
  v_object node = Some o ->
  (has (f_object (validationFlags node)) ObjectValidationTypes_Properties = false -> properties o = []) ->
  wf_fields fields = true -> Forall good_view table -> sv_view <$> table ≡ₚ R -> NoDup R ->
  count = Z.of_nat (length R) ->
  object_loop Validate node fields isRequired table count =
  Some (all_hold field_condition fields and_then
        Ok (negb isRequired || forallb (has_field fields) R)).
Proof.
  intros Eo Hp. revert table count R. induction fields as [|[k y] rest IH]; intros table count R Wf Ht HR Hn Hc.
  { cbn [object_loop all_hold result_bind]. unfold ret. do 2 f_equal. destruct isRequired; [|done]. cbn [andb negb orb].
    destruct R as [|s R]; subst count; [done|]. cbn. done. }
  apply wf_fields_cons in Wf as (Wk & Wy & Wf). cbn [object_loop all_hold].
  pose proof (field_step o k y Eo Hp Wk Wy) as Hs.
  destruct (FindFieldNodeByName (Some node) k) as [[fieldNode|e]|]; [|by destruct (field_condition (k, y)); injection Hs|done].
  cbn [out_bind] in Hs |- *. rewrite Hs. cbn [out_bind]. destruct (field_condition (k, y)) as [[]|e]; [|done..].
  cbn [result_bind]. rewrite required_left.
  destruct (cstrb_spec k Wk) as (Nk & Lk & Ck).
  assert (strb k = true) as Sk.
  { unfold cstrb, strb, bytesb, byteb in *. rewrite andb_true_iff in *. destruct Wk as [Hb Hl]. split; [|done].
    rewrite forallb_forall in *. intros b Hb'. apply Hb in Hb'. lia. }
  destruct (string_view_good k Sk) as (Hg & Ev & Em). rewrite <- Em. rewrite Ck in Ev.
  destruct isRequired; [|rewrite (IH table count R) by done; done].
  destruct (remove_spec table (CreateStringViewFromString k) Ht Hg) as (E1 & E2 & E3).
  destruct (string_set_remove table (CreateStringViewFromString k)) as [found table']. cbn [fst snd] in *.
  rewrite Ev, HR in E3. apply IH; [done..|by apply NoDup_filter|].
  rewrite filter_length_ne by done. rewrite E1, Ev. rewrite (bool_decide_ext _ (k ∈ R)) by (by rewrite HR).
  destruct (bool_decide (k ∈ R)); lia.
Qed.

Lemma all_hold_true {B} (condition : B -> result bool) l :
  (forall x, condition x = Ok true) -> all_hold condition l = Ok true.
Proof. intros Hc. induction l as [|x l IH]; [done|]. cbn. by rewrite Hc, IH. Qed.

Lemma object_spec x :
  wf_value x = true ->
  (if negb (f_object (validationFlags node) =? 0) then ValidateBsonValueObject Validate x node else ret true) =
  Some (if is_document x then object_keywords satisfies schema x else Ok true).
Proof.
  intros Wx. pose proof (Hnode K_properties) as Hp. pose proof (Hnode K_required) as Hr. unfold slot in Hp, Hr.
  destruct x as [| | |fields| | | | | | | | | | | | | | | | | |]; try (by destruct (_ =? 0)).
  change (is_document (V_Document fields)) with true. cbn iota. unfold object_keywords. cbn [fields_of]. fold field_condition. unfold when.
  destruct (Z.eqb_spec (f_object (validationFlags node)) 0) as [E0|E0]; cbn [negb].
  { rewrite E0, has_0 in Hp, Hr. rewrite all_hold_true; cycle 1.
    { intros f. unfold field_condition, when. destruct (keyword_argument K_properties schema); [|done].
      by destruct Hp as (? & (? & -> & _) & ?). }
    cbn [result_bind]. destruct (keyword_argument K_required schema); [|done].
    by destruct Hr as (? & (_ & ->) & ?). }
  destruct (Hobject E0) as (o & Eo & Ho). cbn [ValidateBsonValueObject]. rewrite Eo in Hr |- *. cbn in Hr. cbn [deref].
  destruct (keyword_argument K_required schema) as [v|] eqn:Ek.
  - destruct Hr as (a & (Hn & ->) & Hr). destruct (has (f_object (validationFlags node)) ObjectValidationTypes_Required); [|done]. destruct (required o); [|done].
    injection Hr as ->. cbn [deref].
    assert (Forall (fun s => strb s = true /\ cstring s = s) (cstring <$> texts_of v)) as Hs.
    { apply Forall_fmap. apply argument_wf, texts_good in Ek. eapply Forall_impl; [exact Ek|]. apply cstring_good. }
    destruct (enter_required_spec _ [] 0 Hs) as (I1 & I2 & I3); [by rewrite app_nil_r|done|]. cbn zeta in *.
    destruct (enter_required _ [] 0) as [table count]. cbn [fst snd] in *. rewrite app_nil_r in I2.
    rewrite (object_loop_spec o fields true table count _ Eo Ho Wx I1 I2 Hn); [done|lia].
  - destruct (has (f_object (validationFlags node)) ObjectValidationTypes_Required); [done|].
    rewrite (object_loop_spec o fields false [] 0 []) by (done || constructor). done.
Qed.

(** ** All sections *)

Lemma binary_spec x :
  negb (negb (f_binary (validationFlags node) =? 0) && EnableSchemaEnforcementForCSFLE &&
        negb (ValidateBsonValueBinary EnableSchemaEnforcementForCSFLE x node)) =
  negb (EnableSchemaEnforcementForCSFLE && asked K_encrypt schema) || encrypted x \/
  f_binary (validationFlags node) <> 0 /\ has (f_binary (validationFlags node)) BinaryValidationTypes_Encrypt = false.
Proof.
  destruct EnableSchemaEnforcementForCSFLE eqn:Ee; [|left; by rewrite andb_false_r].
  pose proof (Hnode K_encrypt) as Hs. unfold slot in Hs. unfold asked.
  destruct (keyword_argument K_encrypt schema) as [v|].
  - destruct Hs as (a & -> & Hs). left. cbn [stands_for] in Hs.
    destruct (has (f_binary _) _) eqn:Eh; [|done].
    destruct (Z.eqb_spec (f_binary (validationFlags node)) 0) as [E0|E0]; [by rewrite E0 in Eh|].
    rewrite bool_decide_eq_true_2 by by eexists. unfold ValidateBsonValueBinary. rewrite Eh. cbn.
    destruct x; try done. by rewrite negb_involutive.
  - destruct (has (f_binary _) _) eqn:Eh; [done|].
    destruct (Z.eqb_spec (f_binary (validationFlags node)) 0) as [E0|E0]; [left|by right].
    by rewrite bool_decide_eq_false_2 by (by intros [? ?]).
Qed.

Lemma validate_spec x :
  wf_value x = true -> (is_array x = true -> exists b, IsBsonArrayUnique EnableCollation x true = Some b) ->
  (f_binary (validationFlags node) <> 0 ->
   has (f_binary (validationFlags node)) BinaryValidationTypes_Encrypt = true) ->
  Validate_with EnableCollation EnableSchemaEnforcementForCSFLE Validate x node =
  Some (all_keywords EnableCollation EnableSchemaEnforcementForCSFLE satisfies schema x).
Proof.
  intros Wx Hu Hb. unfold Validate_with, all_keywords. cbn zeta.
  apply check_some; [|apply check_some; [by apply object_spec|]].
  { destruct (Z.eqb_spec (f_common (validationFlags node)) 0) as [E0|]; cbn [negb]; [|by apply common_spec].
    rewrite <- common_spec by done. unfold ValidateBsonValueCommon. by rewrite E0. }
  apply check_some.
  { rewrite <- string_spec. destruct (Z.eqb_spec (f_string (validationFlags node)) 0) as [E0|]; [|done].
    unfold ValidateBsonValueString. rewrite E0. by destruct x. }
  apply check_some.
  { rewrite <- numeric_spec by done. destruct (Z.eqb_spec (f_numeric (validationFlags node)) 0) as [E0|]; [|done].
    unfold ValidateBsonValueNumeric. rewrite E0. by destruct (BsonValueIsNumber x). }
  apply check_some.
  { rewrite <- array_spec by done. destruct (Z.eqb_spec (f_array (validationFlags node)) 0) as [E0|]; [|done].
    unfold ValidateBsonValueArray. rewrite E0. by destruct x. }
  destruct (binary_spec x) as [->|[H1 H2]]; [done|]. rewrite Hb in H2; done.
Qed.
End validate.

(** ** Unique items: the search ends *)

Section unique.
Context {L : BidLib} {BL : BidLaws L} {I : Icu} {IL : IcuLaws I} {H : PgHash}.
Context {D : DynaHash} {Q : QSort} {QL : QSortLaws Q}.
Context (EnableCollation : bool).

Definition key_order (a b : bson_field) : comparison := bytes_cmp a.1 b.1.

#[export] Instance key_order_total : TotalCmp key_order.
Proof. apply cmp_on_total. apply _. Qed.

(** The sorted list of a document is a permutation of its fields by key. *)
Lemma sorted_pairs fields :
  wf_fields fields = true ->
  exists l, GetSortedListOfKeyValuePairs (V_Document fields) = Ok l /\ l ≡ₚ fields /\
    StronglySorted (fun x y => key_order x y <> Gt) l.
Proof.
  intros Wf. apply (qsort_sorts _ key_order); [apply _|]. intros x y Hx Hy. eexists. split; [done|].
  unfold wf_fields in Wf. rewrite forallb_forall in Wf. apply Wf in Hx, Hy. rewrite andb_true_iff in Hx, Hy.
  unfold CompareKeysInBsonKeyValuePairs, key_order. apply strcmp_cmp; [apply (cstrb_spec x.1)|apply (cstrb_spec y.1)]; tauto.
Qed.

(** The fields of a document no deeper than [n]. *)
Definition shallow (n : nat) (fields : bson_doc) : Prop :=
  wf_fields fields = true /\ Forall (fun f => (depth f.2 <= n)%nat) fields.

Lemma wf_fields_perm l l' : l ≡ₚ l' -> wf_fields l' = true -> wf_fields l = true.
Proof.
  unfold wf_fields. rewrite !forallb_forall. intros Hp Hw x Hx. apply Hw. by rewrite <- Hp.
Qed.

Lemma shallow_document n fields :
  wf_value (V_Document fields) = true -> (depth (V_Document fields) <= S n)%nat ->
  exists l, GetSortedListOfKeyValuePairs (V_Document fields) = Ok l /\ l ≡ₚ fields /\
    StronglySorted (fun x y => key_order x y <> Gt) l /\ shallow n l.
Proof.
  intros Wf Hd. destruct (sorted_pairs fields Wf) as (l & El & Hp & Hs). exists l. split_and!; [done..|].
  split; [by apply (wf_fields_perm l fields)|]. rewrite Hp. apply depth_fields. cbn in Hd. lia.
Qed.

Lemma compare_lists_total n listA listB :
  shallow n listA -> exists r, CompareBsonDocKvLists (S n) listA listB = Some r.
Proof.
  revert listA listB. induction n as [|n IH]; intros listA listB [Wa Da];
    cbn [CompareBsonDocKvLists]; (destruct (negb _); [by eexists|]).
  - destruct Da as [|f l Hf _]; [by eexists|]. destruct f as [k x], x; cbn in Hf; lia.
  - revert listB. induction Da as [|[k x] l Hx _ IHl]; intros listB; [by eexists|].
    destruct listB as [|g listB]; [by eexists|]. apply wf_fields_cons in Wa as (_ & Wx & Wa).
    cbn [kv_loop].
    assert (exists r, CompareBsonKvPairs_with (CompareBsonDocKvLists (S n)) (k, x) g = Some r) as [r Er].
    { unfold CompareBsonKvPairs_with. destruct (negb _); [by eexists|]. destruct (negb _); [by eexists|].
      destruct (holds_type x BSON_TYPE_DOCUMENT) eqn:Et; cbn [snd]; rewrite Et; [|by eexists].
      destruct x as [| | |fields| | | | | | | | | | | | | | | | | |]; try discriminate Et.
      destruct (shallow_document n fields Wx Hx) as (lA & -> & _ & _ & Hs). cbn [out_bind].
      destruct (GetSortedListOfKeyValuePairs g.2) as [lB|]; [|by eexists]. cbn [out_bind]. by apply IH. }
    cbn [CompareBsonDocKvLists] in Er, IHl. rewrite Er. destruct r as [[z v]|]; [|by eexists]. cbn [out_bind].
    destruct (_ || _); [by eexists|]. by apply IHl.
Qed.

Lemma unique_total elements :
  wf_value (V_Array elements) = true ->
  exists b, IsBsonArrayUnique EnableCollation (V_Array elements) true = Some b.
Proof.
  intros W. cbn [IsBsonArrayUnique]. assert (exists n, depth (V_Array elements) = S n) as [n En] by (cbn; by eexists).
  rewrite En.
  assert (Forall (fun f => wf_value f.2 = true /\ (depth f.2 <= n)%nat) elements) as Hf.
  { apply Forall_and. split.
    - apply Forall_forall. intros f Hf. cbn in W. rewrite forallb_forall in W. apply list_elem_of_In, W in Hf.
      rewrite andb_true_iff in Hf. tauto.
    - apply depth_fields. cbn in En. lia. }
  generalize (@nil bson_value) as hash, (@nil bson_doc) as docs.
  clear En W. induction Hf as [|[k v] rest [Wv Dv] _ IH]; intros hash docs; [by eexists|]. cbn [unique_loop snd] in *.
  destruct (hash_find _ _ hash v) as [[]|]; [by eexists| |by eexists]. cbn [out_bind].
  destruct (holds_type v BSON_TYPE_DOCUMENT) eqn:Et; cbn [andb]; [|apply IH].
  destruct v as [| | |fields| | | | | | | | | | | | | | | | | |]; try discriminate Et.
  destruct n as [|n]; [cbn in Dv; lia|].
  destruct (shallow_document n fields Wv Dv) as (lA & -> & _ & _ & Hs). cbn [out_bind].
  destruct lA as [|f lA]; [apply IH|].
  assert (exists b, same_document (S (S n)) (f :: lA) docs = Some b) as [[[]|] ->]; [|by eexists|apply IH|by eexists].
  induction docs as [|d docs IHd]; [by eexists|]. cbn [same_document].
  destruct (compare_lists_total (S n) (f :: lA) d) as [[[z b]|] ->]; [|cbn [out_bind]; destruct (_ && _); [by eexists|exact IHd]|by eexists].
  destruct Hs as [Hw Hs]. split; [done|]. eapply Forall_impl; [exact Hs|]. intros ? ?. cbn in *. lia.
Qed.
End unique.

(** ** The operator *)

Section operator.
Context {L : BidLib} {BL : BidLaws L} {A : BidMath} {I : Icu} {IL : IcuLaws I} {P : Pcre} {H : PgHash}.
Context {T : StringTable} {TL : StringTableLaws T} {D : DynaHash} {Q : QSort} {QL : QSortLaws Q}.
Context (EnableCollation EnableSchemaEnforcementForCSFLE EnableBsonTypeArgumentValidation : bool).

Abbreviation accepted := (accepted EnableSchemaEnforcementForCSFLE EnableBsonTypeArgumentValidation).
Abbreviation satisfies := (satisfies EnableCollation EnableSchemaEnforcementForCSFLE).
Abbreviation build := (BuildSchemaTreeCoreOnNode EnableSchemaEnforcementForCSFLE EnableBsonTypeArgumentValidation).
Abbreviation validate := (ValidateBsonValueAgainstSchemaTree EnableCollation EnableSchemaEnforcementForCSFLE).

(** What a run of the operator has to return: for an accepted schema whether the
    value satisfies it, otherwise an error. *)
Definition decides (n : nat) (schema value : bson_value) (run : outcome bool) : Prop :=
  (accepted n schema = true -> run = Some (satisfies n schema value)) /\
  (accepted n schema = false -> exists e, run = Some (Err e)).

Lemma accepted_is_document n v : accepted n v = true -> is_document v = true.
Proof. destruct n; [done|]. cbn. rewrite !andb_true_iff. tauto. Qed.

(** The checks after the loop, by the keywords of the schema. *)
Lemma check_node_spec means schema node :
  node_of EnableSchemaEnforcementForCSFLE means schema (fun _ => None) node ->
  builds (implb (asked K_exclusiveMaximum schema) (asked K_maximum schema) &&
          implb (asked K_exclusiveMinimum schema) (asked K_minimum schema) &&
          negb (EnableSchemaEnforcementForCSFLE && asked K_encrypt schema &&
                (asked K_type schema || asked K_bsonType schema)))
    (Some (check_node node)) (fun _ => True).
Proof.
  intros Hn.
  assert (forall k f b, lasting k = true -> (slot node k = None <-> has f b = false) -> has f b = asked k schema) as Ha.
  { intros k f b Hk Hs. rewrite <- (node_asked EnableSchemaEnforcementForCSFLE means schema node k Hn Hk).
    destruct Hs as [H1 H2], (slot node k), (has f b); try done; [by specialize (H2 eq_refl)|by specialize (H1 eq_refl)]. }
  assert (has (f_binary (validationFlags node)) BinaryValidationTypes_Encrypt =
          EnableSchemaEnforcementForCSFLE && asked K_encrypt schema) as He.
  { pose proof (Hn K_encrypt) as Hs. unfold slot in Hs. unfold asked.
    destruct (keyword_argument K_encrypt schema); [destruct Hs as (a & Ha' & Hs); cbn in Ha'; subst a|];
      destruct (has (f_binary _) _), EnableSchemaEnforcementForCSFLE; done. }
  unfold check_node. cbn zeta. rewrite has_lor_r, He.
  rewrite (Ha K_exclusiveMaximum _ NumericValidationTypes_ExclusiveMaximum), (Ha K_maximum _ NumericValidationTypes_Maximum),
    (Ha K_exclusiveMinimum _ NumericValidationTypes_ExclusiveMinimum), (Ha K_minimum _ NumericValidationTypes_Minimum),
    (Ha K_type _ CommonValidationTypes_JsonType), (Ha K_bsonType _ CommonValidationTypes_BsonType)
    by (done || by (unfold slot; match goal with |- context [has ?f ?b] => destruct (has f b) end)).
  destruct (asked K_exclusiveMaximum schema), (asked K_maximum schema), (asked K_exclusiveMinimum schema),
    (asked K_minimum schema), (asked K_type schema), (asked K_bsonType schema),
    (EnableSchemaEnforcementForCSFLE && asked K_encrypt schema); cbn; by eexists.
Qed.

Lemma freed_object node :
  ready node -> f_object (validationFlags (FreeUnusedValidators node)) <> 0 ->
  exists o, v_object (FreeUnusedValidators node) = Some o /\
    (has (f_object (validationFlags (FreeUnusedValidators node))) ObjectValidationTypes_Properties = false ->
     properties o = []).
Proof.
  intros (t & o & c & m & s & a & flags & -> & Hp & _) Hne. cbn in *. exists o.
  destruct (Z.eqb_spec (f_object flags) 0); done.
Qed.

Lemma freed_binary node :
  ready node -> f_binary (validationFlags (FreeUnusedValidators node)) <> 0 ->
  has (f_binary (validationFlags (FreeUnusedValidators node))) BinaryValidationTypes_Encrypt = true.
Proof. intros (t & o & c & m & s & a & flags & -> & _ & _ & _ & Hb). exact Hb. Qed.

(** An accepted schema is built into a tree that means it; any other raises an
    error. *)
Lemma build_spec n v type :
  good n v -> is_document v = true ->
  builds (accepted n v) (build n (fields_of v) (InitSchemaNode type))
    (fun node => forall x, wf_value x = true -> validate n x node = Some (satisfies n v x)).
Proof.
  revert v type. induction n as [|n IH]; intros v type Hg Hd; [destruct Hg as (_ & _ & Hd'), v; cbn in Hd'; lia|].
  pose proof (good_nested n v Hg (or_introl Hd)) as Hf. pose proof (good_distinct _ v Hg Hd) as Hn.
  cbn [BuildSchemaTreeCoreOnNode]. unfold BuildSchemaTreeCoreOnNode_with.
  set (start := AllocateValidators (InitSchemaNode type)).
  pose proof (keywords_spec EnableSchemaEnforcementForCSFLE EnableBsonTypeArgumentValidation (build n)
    (means (validate n) (satisfies n)) (accepted n) n (accepted_is_document n) IH (fields_of v) start Hf Hn
    (ready_allocated type)) as Hk.
  specialize (Hk ltac:(apply Forall_forall; intros; apply slot_allocated) (or_introl (slot_allocated type K_type))).
  assert (forall k, present start (fields_of v) k = asked k (fields_of v)) as Hp
    by (intros k; unfold present, start; by rewrite slot_allocated).
  rewrite !Hp in Hk. cbn [JsonSchemaSpec.accepted]. rewrite Hd. cbn [andb].
  replace (forallb _ (fields_of v) && consistent _ (fields_of v)) with
    ((forallb (fun f => argument_accepted EnableSchemaEnforcementForCSFLE EnableBsonTypeArgumentValidation (accepted n)
                          (schema_keyword f.1) f.2) (fields_of v) &&
      negb (asked K_type (fields_of v) && asked K_bsonType (fields_of v))) &&
     (implb (asked K_exclusiveMaximum (fields_of v)) (asked K_maximum (fields_of v)) &&
      implb (asked K_exclusiveMinimum (fields_of v)) (asked K_minimum (fields_of v)) &&
      negb (EnableSchemaEnforcementForCSFLE && asked K_encrypt (fields_of v) &&
            (asked K_type (fields_of v) || asked K_bsonType (fields_of v)))))
    by (unfold consistent; destruct (forallb _ (fields_of v)), (implb _ _), (implb _ _), (negb _), (negb _); done).
  eapply builds_bind; [exact Hk|]. intros _ node [Hr Hnode].
  assert (node_of EnableSchemaEnforcementForCSFLE (means (validate n) (satisfies n)) (fields_of v) (fun _ => None) node) as Hnode'.
  { intros k. specialize (Hnode k). destruct (keyword_argument k (fields_of v)); [done|].
    rewrite Hnode. apply slot_allocated. }
  rewrite <- (andb_true_r (_ && _)).
  eapply builds_bind; [by eapply check_node_spec|]. intros _ _ _. eexists. split; [done|]. intros x Wx.
  cbn [ValidateBsonValueAgainstSchemaTree JsonSchemaSpec.satisfies]. apply validate_spec.
  - destruct Hg as (W & _ & _). by destruct v.
  - intros k. specialize (Hnode' k). by rewrite slot_freed.
  - by apply freed_object.
  - done.
  - intros Ha. destruct x; try discriminate Ha. by apply unique_total.
  - by apply freed_binary.
Qed.

Lemma operator_spec document schema name :
  wf_value (V_Document document) = true -> wf_value (V_Document schema) = true ->
  distinct_keys (V_Document schema) = true ->
  let n := depth (V_Document schema) in
  let run := bson_dollar_json_schema EnableCollation EnableSchemaEnforcementForCSFLE
               EnableBsonTypeArgumentValidation document [(name, V_Document schema)] in
  decides n (V_Document schema) (V_Document document) run.
Proof.
  intros Wd Ws Dk n run.
  pose proof (build_spec n (V_Document schema) SchemaNodeType_Root) as Hb.
  specialize (Hb ltac:(by split_and!) eq_refl). unfold decides, run, bson_dollar_json_schema, BuildSchemaTree, BuildSchemaTreeCore,
    BuildSchemaTreeCore_with. cbn [BsonIterToSinglePgbsonElement out_bind snd]. rewrite decide_False by done.
  unfold InitNonFieldNode. fold n. cbn [fields_of] in Hb. destruct (accepted n (V_Document schema)).
  - destruct Hb as (node & -> & Hv). split; [|done]. intros _. cbn [ret out_bind]. by apply Hv.
  - destruct Hb as [e ->]. split; [done|]. intros _. by exists e.
Qed.


(** The number of items is kept in 16 bits: 65536 items pass "maxItems: 0". *)
Theorem max_items_wraps (elements : bson_doc) :
  wf_value (V_Array elements) = true -> Z.of_nat (length elements) = 2 ^ 16 ->
  bson_dollar_json_schema EnableCollation EnableSchemaEnforcementForCSFLE EnableBsonTypeArgumentValidation
    [(str "a", V_Array elements)]
    [([], V_Document [(str "properties", V_Document [(str "a", V_Document [(str "maxItems", V_Int32 0)])])])] =
  Some (Ok true).
Proof.
  intros We Hl.
  destruct (operator_spec [(str "a", V_Array elements)]
    [(str "properties", V_Document [(str "a", V_Document [(str "maxItems", V_Int32 0)])])] []) as [Hr _];
    [cbn in We |- *; by rewrite We|reflexivity|reflexivity|]. rewrite Hr by (destruct EnableSchemaEnforcementForCSFLE; vm_compute; reflexivity). f_equal.
  assert (item_count (V_Array elements) = 0) as Hc by (unfold item_count; cbn [fields_of]; by rewrite Hl).
  destruct EnableSchemaEnforcementForCSFLE; cbv -[item_count Z.leb]; by rewrite Hc.
Qed.

(** Bounds are kept in 32 bits: with "maxLength: 4294967296" only the empty
    string passes. *)
Theorem max_length_wraps :
  bson_dollar_json_schema EnableCollation EnableSchemaEnforcementForCSFLE EnableBsonTypeArgumentValidation
    [(str "a", V_Utf8 (str "b"))]
    [([], V_Document [(str "properties", V_Document [(str "a", V_Document [(str "maxLength", V_Int64 (2 ^ 32))])])])] =
  Some (Ok false).
Proof.
  destruct (operator_spec [(str "a", V_Utf8 (str "b"))]
    [(str "properties", V_Document [(str "a", V_Document [(str "maxLength", V_Int64 (2 ^ 32))])])] []) as [Hr _];
    [reflexivity..|]. rewrite Hr by (destruct EnableSchemaEnforcementForCSFLE; vm_compute; reflexivity). done.
Qed.

(** The other member of a union: after "additionalItems: false" a second
    "additionalItems" with a schema leaves both flags and the address of a node,
    whose first byte is then read as the boolean. *)
Theorem additional_items_overwritten :
  bson_dollar_json_schema EnableCollation EnableSchemaEnforcementForCSFLE EnableBsonTypeArgumentValidation
    [(str "a", V_Array [(str "0", V_Int32 1)])]
    [([], V_Document [(str "properties", V_Document [(str "a", V_Document
        [(str "items", V_Array []); (str "additionalItems", V_Bool false); (str "additionalItems", V_Document [])])])])] =
  None.
Proof. destruct EnableSchemaEnforcementForCSFLE; vm_compute; reflexivity. Qed.

(** The names of the smallest and the largest key are swapped: the former only
    lets the largest key pass. *)
Theorem key_type_names_swapped :
  let run name x :=
    bson_dollar_json_schema EnableCollation EnableSchemaEnforcementForCSFLE EnableBsonTypeArgumentValidation
      [(str "a", x)]
      [([], V_Document [(str "properties", V_Document [(str "a", V_Document [(str "bsonType", V_Utf8 name)])])])] in
  run (str "minKey") V_MinKey = Some (Ok false) /\ run (str "minKey") V_MaxKey = Some (Ok true) /\
  run (str "maxKey") V_MaxKey = Some (Ok false) /\ run (str "maxKey") V_MinKey = Some (Ok true).
Proof. destruct EnableSchemaEnforcementForCSFLE; vm_compute; split_and!; reflexivity. Qed.

(** A bound of zero is accepted, which the message of the check for negative
    bounds calls an error. *)
Theorem zero_bound_accepted : GetValidatedBsonIntValue (V_Int32 0) = Ok 0.
Proof. reflexivity. Qed.
End operator.

(** ** Examples *)

Section examples.
Import ExactBid ZeroMath FoldCase Examples UpdateSamples ScanStrings.
#[local] Existing Instance sum_hash.

Definition sample_schema : bson_doc :=
  [(str "required", V_Array [(str "0", V_Utf8 (str "a")); (str "1", V_Utf8 (str "b"))]);
   (str "properties", V_Document
     [(str "a", V_Document [(str "bsonType", V_Utf8 (str "int")); (str "minimum", V_Int32 1);
                            (str "exclusiveMinimum", V_Bool true)]);
      (str "b", V_Document
        [(str "items", V_Array [(str "0", V_Document [(str "type", V_Utf8 (str "string"))])]);
         (str "additionalItems", V_Document
           [(str "oneOf", V_Array [(str "0", V_Document [(str "maximum", V_Int32 2)]);
                                   (str "1", V_Document [(str "multipleOf", V_Int32 5)])])]);
         (str "uniqueItems", V_Bool true)])])].

Definition sample_document : bson_doc :=
  [(str "b", V_Array [(str "0", V_Utf8 (str "x")); (str "1", V_Int32 1); (str "2", V_Int64 15)]); (str "a", V_Int32 2)].

End examples.
