(* ===== verification/JsonSchemaUnique.v ===== *)
(** * $jsonSchema: unique items

    What "uniqueItems" asks of an array, and that the search by hashes and by
    sorted key-value lists decides it. *)

From Stdlib Require Import String.
From stdpp Require Import base numbers list option sorting.
From Stdlib Require Import ZArith Lia.
From S2P Require Import Prelude Bson Decimal128 Collation BsonCompare BsonHash Arithmetic.
From S2P Require Import QueryOperators QuerySets UpdateOperators JsonSchemaTree JsonSchemaValidator.
From S2P Require Import JsonSchemaBuild JsonSchemaCorrect.

(** ** Unique items *)

(** Two items are the same: equal, or documents with the same fields in any
    order, where the values of the fields are the same. *)
Section same_items.
Context {L : BidLib} {BL : BidLaws L} {I : Icu} {IL : IcuLaws I}.

Fixpoint same_item (n : nat) (a b : bson_value) : bool :=
  match n with
  | O => false
  | S n' =>
      match a, b with
      | V_Document fa, V_Document fb =>
          (length fa =? length fb)%nat &&
          forallb (fun f => existsb (fun g => bool_decide (f.1 = g.1) && same_item n' f.2 g.2) fb) fa
      | _, _ => equals None a b
      end
  end.

(** The value repeats an earlier one. *)
Definition repeats (n : nat) (v earlier : bson_value) : bool := equals None earlier v || same_item n v earlier.
End same_items.

Lemma keys_sorted l :
  StronglySorted (fun x y => key_order x y <> Gt) l ->
  StronglySorted (fun x y => bytes_cmp x y <> Gt) l.*1.
Proof.
  induction 1 as [|f l _ IH Hf]; [constructor|]. cbn. constructor; [done|]. by apply Forall_fmap.
Qed.

#[local] Instance bytes_le_antisym : AntiSymm (=) (fun x y : bytes => bytes_cmp x y <> Gt).
Proof.
  intros x y Hxy Hyx. rewrite (cmp_antisym bytes_cmp) in Hyx. apply bytes_cmp_eq.
  by destruct (bytes_cmp x y).
Qed.

(** Two lists sorted by distinct keys agree position by position exactly if
    they are equally long and every field of one has a partner in the other. *)
Lemma sorted_partners (R : bson_value -> bson_value -> Prop) l l' :
  StronglySorted (fun x y => key_order x y <> Gt) l -> StronglySorted (fun x y => key_order x y <> Gt) l' ->
  NoDup l.*1 -> NoDup l'.*1 ->
  Forall2 (fun f g => f.1 = g.1 /\ R f.2 g.2) l l' <->
  length l = length l' /\ forall f, f ∈ l -> exists g, g ∈ l' /\ f.1 = g.1 /\ R f.2 g.2.
Proof.
  intros Hs Hs' Hn Hn'. split.
  - intros Hf. split; [by eapply Forall2_length|]. intros f Hi.
    apply list_elem_of_lookup_1 in Hi as [i Hi]. eapply Forall2_lookup_l in Hf as (g & Hg & HR); [|done].
    exists g. split; [by eapply list_elem_of_lookup_2|done].
  - intros [Hl Hp]. assert (l.*1 = l'.*1) as Ek.
    { apply (StronglySorted_unique (fun x y => bytes_cmp x y <> Gt)); [by apply keys_sorted..|].
      apply submseteq_length_Permutation; [|rewrite !length_fmap; lia]. apply NoDup_submseteq; [done|].
      intros k (f & -> & Hf)%list_elem_of_fmap. destruct (Hp f Hf) as (g & Hg & -> & _).
      by apply (list_elem_of_fmap_2 fst). }
    apply Forall2_same_length_lookup_2; [done|]. intros i f g Hf Hg.
    assert (l.*1 !! i = Some f.1) as E1 by (by rewrite list_lookup_fmap, Hf).
    assert (l'.*1 !! i = Some g.1) as E2 by (by rewrite list_lookup_fmap, Hg).
    rewrite Ek in E1. assert (f.1 = g.1) as E by congruence. split; [done|].
    destruct (Hp f) as (g' & Hg' & Eg & HR); [by eapply list_elem_of_lookup_2|].
    apply list_elem_of_lookup_1 in Hg' as [j Hj].
    assert (l'.*1 !! j = Some g'.1) as E3 by (by rewrite list_lookup_fmap, Hj).
    rewrite <- Eg, E in E3. assert (i = j) as <- by (by eapply (NoDup_lookup l'.*1)). congruence.
Qed.

Section unique_items.
Context {L : BidLib} {BL : BidLaws L} {I : Icu} {IL : IcuLaws I} {H : PgHash}.
Context {D : DynaHash} {DL : DynaHashLaws D} {Q : QSort} {QL : QSortLaws Q}.
Context (EnableCollation : bool).

(** A comparison whose valid zero means [p]. *)
Definition decides (r : outcome (Z * bool)) (p : Prop) : Prop :=
  exists z v, r = ret (z, v) /\ (v && (z =? 0) = true <-> p).

Lemma equals_class a b : equals None a b = true -> class_of a = class_of b.
Proof. unfold equals, op_holds. rewrite !andb_true_iff, Z.eqb_eq. intros [[E _] _]. congruence. Qed.

Lemma class_document x y :
  class_of x = class_of y -> holds_type x BSON_TYPE_DOCUMENT = holds_type y BSON_TYPE_DOCUMENT.
Proof. intros E. destruct x, y; try done; discriminate E. Qed.

Lemma pair_spec n f g :
  (forall fa fb, good (S n) (V_Document fa) -> wf_value (V_Document fb) = true -> distinct_keys (V_Document fb) = true ->
   forall la lb, GetSortedListOfKeyValuePairs (V_Document fa) = Ok la -> GetSortedListOfKeyValuePairs (V_Document fb) = Ok lb ->
   decides (CompareBsonDocKvLists (S n) la lb) (same_item (S n) (V_Document fa) (V_Document fb) = true)) ->
  cstrb f.1 = true -> cstrb g.1 = true -> good (S n) f.2 -> wf_value g.2 = true -> distinct_keys g.2 = true ->
  decides (CompareBsonKvPairs_with (CompareBsonDocKvLists (S n)) f g)
    (f.1 = g.1 /\ same_item (S n) f.2 g.2 = true).
Proof.
  intros IH Kf Kg Gf Wg Dg. destruct f as [k x], g as [k' y]. cbn [fst snd] in *. unfold CompareBsonKvPairs_with.
  cbn [fst snd]. fold (strequal k k'). pose proof (strequal_spec k k') as Ek.
  rewrite Ek by (by apply cstrb_spec). unfold strequal in Ek.
  destruct (bool_decide_reflect (k = k')) as [->|Hne]; cbn [negb].
  2: { eexists _, _. split; [done|]. rewrite Ek by (by apply cstrb_spec). by split; [|intros [? _]]. }
  destruct (class_difference x y) as [Ec _]. unfold CompareBsonSortOrderType in Ec. rewrite Ec.
  destruct (Z.eqb_spec (class_of x) (class_of y)) as [Exy|Exy]; cbn [negb].
  2: { eexists _, _. split; [done|]. split; [done|]. intros [_ Hs]. exfalso. apply Exy.
       destruct x, y; try (by apply equals_class); done. }
  pose proof (class_document x y Exy) as Et. destruct Gf as (Wx & Dx & Hx).
  destruct (holds_type x BSON_TYPE_DOCUMENT) eqn:Ex.
  - destruct x as [| | |fa| | | | | | | | | | | | | | | | | |]; try discriminate Ex.
    destruct y as [| | |fb| | | | | | | | | | | | | | | | | |]; try discriminate Et.
    destruct (sorted_pairs fa Wx) as (la & Ea & _). destruct (sorted_pairs fb Wg) as (lb & Eb & _).
    rewrite Ea, Eb. cbn [out_bind]. destruct (IH fa fb) with (la := la) (lb := lb) as (z & v & -> & Hz); try done.
    eexists _, _. split; [done|]. rewrite Hz. tauto.
  - destruct (entry_compare None x y Wx Wg) as (z & v & Ez & _ & Hz). rewrite compare_and_type_none, Ez.
    eexists _, _. split; [done|]. rewrite Hz. assert (same_item (S n) x y = equals None x y) as ->
      by (by destruct x; try discriminate Ex). tauto.
Qed.

Lemma kv_loop_spec (compare : bson_field -> bson_field -> outcome (Z * bool)) (R : bson_field -> bson_field -> Prop) la lb :
  Forall (fun f => Forall (fun g => decides (compare f g) (R f g)) lb) la -> length la = length lb ->
  decides (kv_loop compare la lb) (Forall2 R la lb).
Proof.
  revert lb. induction la as [|f la IH]; intros [|g lb] Hc Hl; try discriminate Hl.
  { eexists _, _. split; [done|]. done. }
  cbn [kv_loop]. apply Forall_cons in Hc as [Hf Hc]. apply Forall_cons in Hf as [(z & v & -> & Hz) _]. cbn [ret out_bind].
  destruct (negb v || negb (z =? 0)) eqn:E.
  - eexists _, _. split; [done|]. rewrite Forall2_cons, <- Hz. destruct v, (z =? 0); try done; by split; [|intros [? _]].
  - destruct (IH lb) as (z' & v' & -> & Hz'); [|by injection Hl|].
    + eapply Forall_impl; [exact Hc|]. by intros f' [_ ?]%Forall_cons.
    + eexists _, _. split; [done|]. rewrite Forall2_cons, <- Hz, <- Hz'. destruct v, (z =? 0); try done. tauto.
Qed.

Lemma partners_forallb (p : bson_value -> bson_value -> bool) fa fb la lb :
  la ≡ₚ fa -> lb ≡ₚ fb ->
  (forall f, f ∈ la -> exists g, g ∈ lb /\ f.1 = g.1 /\ p f.2 g.2 = true) <->
  forallb (fun f : bson_field => existsb (fun g : bson_field => bool_decide (f.1 = g.1) && p f.2 g.2) fb) fa = true.
Proof.
  intros Ha Hb. rewrite forallb_forall. split.
  - intros Hp f Hf. apply list_elem_of_In in Hf. rewrite <- Ha in Hf. destruct (Hp f Hf) as (g & Hg & E & HR).
    apply existsb_exists. exists g. rewrite Hb, list_elem_of_In in Hg. split; [done|].
    by rewrite andb_true_iff, bool_decide_eq_true.
  - intros Hp f Hf. rewrite Ha, list_elem_of_In in Hf. apply Hp, existsb_exists in Hf as (g & Hg & E).
    rewrite andb_true_iff, bool_decide_eq_true in E. exists g. by rewrite Hb, list_elem_of_In.
Qed.

Lemma lists_spec n fa fb la lb :
  good (S n) (V_Document fa) -> wf_value (V_Document fb) = true -> distinct_keys (V_Document fb) = true ->
  GetSortedListOfKeyValuePairs (V_Document fa) = Ok la -> GetSortedListOfKeyValuePairs (V_Document fb) = Ok lb ->
  decides (CompareBsonDocKvLists (S n) la lb) (same_item (S n) (V_Document fa) (V_Document fb) = true).
Proof.
  revert fa fb la lb. induction n as [|n IH]; intros fa fb la lb Ga Wb Db Ea Eb.
  all: pose proof Ga as (Wa & Da & Ha).
  all: destruct (sorted_pairs fa Wa) as (la' & Ea' & Pa & Sa); assert (la' = la) as -> by congruence.
  all: destruct (sorted_pairs fb Wb) as (lb' & Eb' & Pb & Sb); assert (lb' = lb) as -> by congruence.
  all: assert (length la = length fa /\ length lb = length fb) as [Lla Llb] by (split; by apply Permutation_length).
  all: cbn [CompareBsonDocKvLists same_item]; rewrite Lla, Llb.
  all: destruct (Nat.eqb_spec (length fa) (length fb)) as [El|Hne]; cbn [andb].
  all: try (replace (Z.of_nat (length fa) =? Z.of_nat (length fb)) with false by lia; cbn [negb];
            eexists _, _; split; [done|]; split; [intros E; lia|done]).
  all: rewrite El, Z.eqb_refl; cbn [negb].
  { destruct fa as [|f fa]; [|exfalso; destruct f as [k x], x; cbn in Ha; lia].
    apply Permutation_nil_r in Pa as ->. destruct lb; [|cbn in *; lia]. by eexists _, _. }
  pose proof (good_nested _ _ Ga (or_introl eq_refl)) as Na. cbn [fields_of] in Na. rewrite <- Pa in Na.
  pose proof (good_nested (depth (V_Document fb)) (V_Document fb) ltac:(split_and!; [done|done|lia]) (or_introl eq_refl)) as Nb.
  cbn [fields_of] in Nb. rewrite <- Pb in Nb.
  destruct (kv_loop_spec (CompareBsonKvPairs_with (CompareBsonDocKvLists (S n)))
    (fun f g => f.1 = g.1 /\ same_item (S n) f.2 g.2 = true) la lb) as (z & v & Ez & Hz); [|lia|].
  { eapply Forall_impl; [exact Na|]. intros f [Kf Gf]. eapply Forall_impl; [exact Nb|]. intros g (Kg & Wg & Dg & _).
    apply pair_spec; try done. intros; by apply IH. }
  exists z, v. split; [exact Ez|]. rewrite Hz.
  rewrite (sorted_partners (fun x y => same_item (S n) x y = true) la lb Sa Sb).
  - rewrite (partners_forallb (same_item (S n)) fa fb la lb Pa Pb). cbn [same_item]. intuition lia.
  - rewrite Pa. by apply (good_distinct _ _ Ga).
  - rewrite Pb. cbn in Db. rewrite andb_true_iff, bool_decide_eq_true in Db. tauto.
Qed.

(** The documents seen before, each with its sorted list. *)
Definition listed (docs : list bson_doc) (seen : list bson_value) : Prop :=
  Forall2 (fun l v => GetSortedListOfKeyValuePairs v = Ok l /\ wf_value v = true /\ distinct_keys v = true /\
                      holds_type v BSON_TYPE_DOCUMENT = true) docs seen.

Lemma same_document_spec n fa la docs seen :
  good (S n) (V_Document fa) -> GetSortedListOfKeyValuePairs (V_Document fa) = Ok la -> listed docs seen ->
  same_document (S n) la docs = ret (existsb (same_item (S n) (V_Document fa)) seen).
Proof.
  intros Ga Ea. induction 1 as [|lb v docs seen (Eb & Wb & Db & Tb) _ IH]; [done|].
  destruct v as [| | |fb| | | | | | | | | | | | | | | | | |]; try discriminate Tb.
  cbn [same_document existsb]. destruct (lists_spec n fa fb la lb Ga Wb Db Ea Eb) as (z & b & -> & Hz). cbn [ret out_bind].
  destruct (same_item (S n) (V_Document fa) (V_Document fb)).
  - rewrite (proj2 Hz) by done. done.
  - destruct (b && (z =? 0)) eqn:E; [by specialize (proj1 Hz eq_refl)|]. exact IH.
Qed.

(** Documents with fields, the ones that are compared field by field. *)
Definition nonempty_document (v : bson_value) : bool :=
  match v with V_Document (_ :: _) => true | _ => false end.

Lemma same_item_class n v s :
  class_of v <> class_of s -> same_item n v s = false.
Proof.
  intros Hne. destruct n as [|n]; [done|].
  destruct v, s; try (cbn [same_item]; destruct (equals None _ _) eqn:E; [by apply equals_class in E|done]). done.
Qed.

Lemma document_repeats n f fa seen :
  existsb (repeats (S n) (V_Document (f :: fa))) seen =
  existsb (fun k => equals None k (V_Document (f :: fa))) seen ||
  existsb (same_item (S n) (V_Document (f :: fa))) (List.filter nonempty_document seen).
Proof.
  induction seen as [|s seen IH]; [done|]. cbn [existsb List.filter]. rewrite IH. unfold repeats at 1.
  assert (nonempty_document s = false -> same_item (S n) (V_Document (f :: fa)) s = false) as Hs.
  { intros Hs. destruct s as [| | |[|g fb]| | | | | | | | | | | | | | | | | |]; try discriminate Hs; try done;
      by apply same_item_class. }
  destruct (nonempty_document s); cbn [existsb]; [|rewrite Hs by done];
    destruct (equals None s _), (existsb _ seen), (same_item _ _ s); cbn; by rewrite ?orb_true_r.
Qed.

Lemma plain_repeats n v seen :
  wf_value v = true -> Forall (fun s => wf_value s = true) seen -> nonempty_document v = false ->
  existsb (repeats (S n) v) seen = existsb (fun k => equals None k v) seen.
Proof.
  intros Wv Hs Hd. induction Hs as [|s seen Ws _ IH]; [done|]. cbn [existsb]. rewrite IH. f_equal. unfold repeats.
  destruct (same_item (S n) v s) eqn:E; [|apply orb_false_r]. rewrite orb_true_r. symmetry.
  destruct (holds_type v BSON_TYPE_DOCUMENT) eqn:Et.
  - destruct v as [| | |[|f fa]| | | | | | | | | | | | | | | | | |]; try discriminate Et; try discriminate Hd.
    destruct s as [| | |[|g fb]| | | | | | | | | | | | | | | | | |]; try done;
      rewrite same_item_class in E; done.
  - rewrite equals_sym by done. destruct v; try discriminate Et; exact E.
Qed.

(** No value repeats one before it. *)
Fixpoint no_repeats (n : nat) (seen values : list bson_value) : bool :=
  match values with
  | [] => true
  | v :: values' => negb (existsb (repeats n v) seen) && no_repeats n (seen ++ [v]) values'
  end.

Lemma unique_loop_spec n known h elements seen docs :
  hash_agrees EnableCollation None known h ->
  Forall (fun v => v ∈ known) (seen ++ elements.*2) -> Forall (good (S n)) (seen ++ elements.*2) ->
  listed docs (List.filter nonempty_document seen) ->
  unique_loop EnableCollation (S n) elements seen docs true = ret (no_repeats (S n) seen elements.*2).
Proof.
  intros Hh. revert seen docs. induction elements as [|[k v] rest IH]; intros seen docs Hk Hg Hl; [done|].
  pose proof Hk as [Hk1 [Hkv _]%Forall_cons]%Forall_app. pose proof Hg as [Hg1 [Hgv _]%Forall_cons]%Forall_app.
  cbn [fmap list_fmap snd unique_loop no_repeats] in *.
  pose proof (set_find_spec EnableCollation None known h Hh seen v Hk1 Hkv) as Hf.
  unfold set_find in Hf. replace (IsCollationApplicable EnableCollation None) with false in Hf
    by (by destruct EnableCollation). rewrite Hf. clear Hf. cbn [out_bind].
  replace (applied EnableCollation None) with (@None bytes) by (unfold applied; by destruct (IsCollationApplicable _ _)).
  assert (Forall (fun s => wf_value s = true) seen) as Ws by (eapply Forall_impl; [exact Hg1|]; by intros ? [? _]).
  assert (forall docs', listed docs' (List.filter nonempty_document (seen ++ [v])) ->
    unique_loop EnableCollation (S n) rest (seen ++ [v]) docs' true = ret (no_repeats (S n) (seen ++ [v]) rest.*2)) as IH'.
  { intros docs' Hl'. apply IH; [by rewrite <- app_assoc..|done]. }
  rewrite List.filter_app in IH'. cbn [List.filter] in IH'.
  destruct (nonempty_document v) eqn:Hd.
  - destruct v as [| | |[|f fa]| | | | | | | | | | | | | | | | | |]; try discriminate Hd.
    rewrite document_repeats. destruct (existsb _ seen); [done|]. cbn [orb].
    change (holds_type (V_Document (f :: fa)) BSON_TYPE_DOCUMENT && true) with true. cbn iota.
    destruct (sorted_pairs (f :: fa) (proj1 Hgv)) as (la & Ea & Pa & _). rewrite Ea. cbn [out_bind].
    destruct la as [|p la]; [by apply Permutation_nil_l in Pa|].
    rewrite (same_document_spec n (f :: fa) (p :: la) docs _ Hgv Ea Hl). cbn [out_bind ret].
    destruct (existsb (same_item _ _) _); [done|]. cbn [negb andb]. apply IH'. apply Forall2_app; [done|].
    constructor; [|constructor]. split_and!; [done|apply Hgv|apply Hgv|done].
  - rewrite plain_repeats by (done || apply Hgv). destruct (existsb _ seen); [done|]. cbn [negb andb].
    rewrite app_nil_r in IH'. destruct (holds_type v BSON_TYPE_DOCUMENT) eqn:Et; cbn [andb]; [|by apply IH'].
    destruct v as [| | |[|f fa]| | | | | | | | | | | | | | | | | |]; try discriminate Et; try discriminate Hd.
    destruct (sorted_pairs [] eq_refl) as (la & -> & Pa & _). apply Permutation_nil_r in Pa as ->. by apply IH'.
Qed.

Lemma no_repeats_spec n seen values :
  no_repeats n seen values = true <->
  forall j y, values !! j = Some y ->
    (forall x, x ∈ seen -> repeats n y x = false) /\
    (forall i x, (i < j)%nat -> values !! i = Some x -> repeats n y x = false).
Proof.
  revert seen. induction values as [|v values IH]; intros seen; [done|]. cbn [no_repeats].
  rewrite andb_true_iff, negb_true_iff, IH, <- not_true_iff_false, existsb_exists. split.
  - intros [Hv Hr] [|j] y Hy.
    + injection Hy as ->. split; [|lia]. intros x Hx. apply not_true_iff_false. intros E. apply Hv. exists x.
      by rewrite <- list_elem_of_In.
    + cbn in Hy. destruct (Hr j y Hy) as [H1 H2]. split; [intros x Hx; apply H1, elem_of_app; by left|].
      intros [|i] x Hi Hx; [|apply (H2 i); [lia|done]]. injection Hx as ->. apply H1, elem_of_app. right. by left.
  - intros Hr. split.
    + intros (x & Hx & E). destruct (Hr 0%nat v eq_refl) as [H1 _]. rewrite H1 in E; [done|]. by apply list_elem_of_In.
    + intros j y Hy. destruct (Hr (S j) y Hy) as [H1 H2]. split.
      * intros x [Hx|Hx%list_elem_of_singleton]%elem_of_app; [by apply H1|]. subst x. apply (H2 0%nat); [lia|done].
      * intros i x Hi Hx. apply (H2 (S i)); [lia|done].
Qed.

End unique_items.

(** ** Examples *)

Section examples.
Import ExactBid ZeroMath FoldCase Examples UpdateSamples ScanStrings.
#[local] Existing Instance sum_hash.

Definition swapped_documents : bson_doc :=
  [(str "0", V_Document [(str "a", V_Int32 1); (str "b", V_Document [])]);
   (str "1", V_Document [(str "b", V_Document []); (str "a", V_Int32 1)])].

Example swapped_documents_repeat :
  IsBsonArrayUnique false (V_Array swapped_documents) true = Some (Ok false) /\
  repeats 3 (V_Document [(str "b", V_Document []); (str "a", V_Int32 1)])
    (V_Document [(str "a", V_Int32 1); (str "b", V_Document [])]) = true.
Proof. vm_compute. split; reflexivity. Qed.

End examples.
