(* ===== verification/RumPosting.v ===== *)
(** * Posting lists of the RUM index: the encoding of item pointers

    The leaf pages of a posting tree hold the heap tuples of one index key, as
    a sequence of item pointers in which each block number is stored as the
    difference to the one before, in variable-length bytes, followed by the
    offset with a flag for the additional information.  The writers are in
    [pg_documentdb_extended_rum/core/src/rumdatapage.c], the readers in
    [pg_documentdb_extended_rum/core/include/pg_documentdb_rum.h].  An index
    with [useAlternativeOrder] orders its items by the additional information
    and stores the pointers as they are.

    A pointer into a page is the suffix of the page's bytes that it points at;
    reading past the end is [None].  Additional information is modelled for the
    types that are passed by value (1, 2, 4 or 8 bytes). *)

From stdpp Require Import base numbers list option sorting.
From Stdlib Require Import ZArith Lia.
From S2P Require Import Prelude PgbsonElement.

Abbreviation uint16 := (wrap_u 16).

Definition HIGHBIT : Z := 0x80.
Definition SEVENTHBIT : Z := 0x40.
Definition SIXMASK : Z := 0x3F.
Definition ALT_ADD_INFO_NULL_FLAG : Z := 0x8000.
Definition MaxOffsetNumber : Z := 2048.

(** [BlockIdData] is two halves, so that the struct has six bytes. *)
Record ItemPointerData : Set := mk_iptr {
  bi_hi : Z;
  bi_lo : Z;
  ip_posid : Z;
}.

#[export] Instance ItemPointerData_eq_dec : EqDecision ItemPointerData.
Proof. solve_decision. Defined.

Record RumItem : Set := mk_item {
  iptr : ItemPointerData;
  addInfoIsNull : bool;
  addInfo : Z;
}.

#[export] Instance RumItem_eq_dec : EqDecision RumItem.
Proof. solve_decision. Defined.

(** What the posting lists use of [RumState]: [addAttrs] gives the length of
    the additional information of a column that has one, [compareFn] the
    comparison of the opclass. *)
Record RumState : Type := mk_rumstate {
  isBuild : bool;
  useAlternativeOrder : bool;
  attrnAttachColumn : Z;
  attrnAddToColumn : Z;
  addAttrs : Z -> option Z;
  compareFn : Z -> Z -> Z -> Z;
}.

Definition RumItemPointerGetBlockNumber (p : ItemPointerData) : Z :=
  Z.lor (Z.shiftl (bi_hi p) 16) (bi_lo p).
Definition RumItemPointerGetOffsetNumber (p : ItemPointerData) : Z := ip_posid p.

Definition ItemPointerSetMin : ItemPointerData := mk_iptr 0 0 0.
Definition RumItemSetMin : RumItem := mk_item ItemPointerSetMin true 0.

Definition OffsetNumberIsValid (offset : Z) : bool :=
  negb (offset =? 0) && (offset <=? MaxOffsetNumber).

(** [bi_lo + (bi_hi << 16)], computed as an [int]. *)
Definition block_as_int (p : ItemPointerData) : Z := int32 (bi_lo p + int32 (Z.shiftl (bi_hi p) 16)).

Definition set_block (incr : Z) (posid : Z) : ItemPointerData :=
  mk_iptr (Z.land (Z.shiftr incr 16) 0xFFFF) (Z.land incr 0xFFFF) posid.

(** ** Writing *)

(** The two loops of the writer; a 32-bit number takes at most five bytes, a
    16-bit offset at most three. *)
Fixpoint write_block_incr (fuel : nat) (blockNumberIncr : Z) : bytes :=
  match fuel with
  | O => []
  | S fuel =>
      uint8 (Z.lor (Z.land blockNumberIncr (Z.lnot HIGHBIT))
                   (if HIGHBIT <=? blockNumberIncr then HIGHBIT else 0)) ::
      (if blockNumberIncr <? HIGHBIT then [] else write_block_incr fuel (Z.shiftr blockNumberIncr 7))
  end.

Fixpoint write_offset (fuel : nat) (offset : Z) (isNull : bool) : bytes :=
  match fuel with
  | O => []
  | S fuel =>
      if SEVENTHBIT <=? offset
      then uint8 (Z.lor (Z.land offset (Z.lnot HIGHBIT)) HIGHBIT) ::
           write_offset fuel (Z.shiftr offset 7) isNull
      else [uint8 (Z.lor offset (if isNull then SEVENTHBIT else 0))]
  end.

Definition block_incr (p prev : ItemPointerData) : Z := uint32 (block_as_int p - block_as_int prev).

Fixpoint block_incr_size (fuel : nat) (blockNumberIncr : Z) : Z :=
  match fuel with
  | O => 0
  | S fuel =>
      1 + (if blockNumberIncr <? HIGHBIT then 0 else block_incr_size fuel (Z.shiftr blockNumberIncr 7))
  end.

Fixpoint offset_size (fuel : nat) (offset : Z) : Z :=
  match fuel with
  | O => 0
  | S fuel => 1 + (if offset <? SEVENTHBIT then 0 else offset_size fuel (Z.shiftr offset 7))
  end.

Definition rumDataPageLeafGetItemPointerSize (p prev : ItemPointerData) : Z :=
  block_incr_size 5 (block_incr p prev) + offset_size 3 (ip_posid p).

(** The bytes of the struct. *)
Definition iptr_bytes (p : ItemPointerData) : bytes :=
  le_bytes 2 (bi_hi p) ++ le_bytes 2 (bi_lo p) ++ le_bytes 2 (ip_posid p).
Definition SIZEOF_ItemPointerData : Z := 6.

(** [rumDatumWrite] for a type passed by value. *)
Definition rumDatumWrite (typlen datum : Z) : result bytes :=
  if (typlen =? 1) || (typlen =? 2) || (typlen =? 4) || (typlen =? 8)
  then Ok (le_bytes (Z.to_nat typlen) datum)
  else Err ERRCODE_INTERNAL_ERROR.

(** ** Reading *)

(** The bytes of a block number after the first ones: six with a continuation
    bit, a seventh without. *)
Fixpoint varbyte_loop (k : nat) (shift val : Z) (p : bytes) : option (Z * bytes) :=
  match p with
  | [] => None
  | c :: p =>
      match k with
      | O => Some (Z.lor val (uint64 (Z.shiftl c shift)), p)
      | S k =>
          let val := Z.lor val (Z.shiftl (Z.land c 0x7F) shift) in
          if Z.land c 0x80 =? 0 then Some (val, p) else varbyte_loop k (shift + 7) val p
      end
  end.

Definition decode_varbyte_blocknumber (p : bytes) : option (Z * bytes) := varbyte_loop 6 0 0 p.

(** The offset loop of both readers.  A shift by 32 or more is undefined. *)
Fixpoint read_offset (ptr : bytes) (i offset : Z) : option (Z * bool * bytes) :=
  match ptr with
  | [] => None
  | v :: ptr =>
      if 32 <=? i then None
      else if Z.land v HIGHBIT =? 0
      then Some (uint16 (Z.lor offset (Z.shiftl (Z.land v SIXMASK) i)),
                 negb (Z.land v SEVENTHBIT =? 0), ptr)
      else read_offset ptr (i + 7) (uint16 (Z.lor offset (Z.shiftl (Z.land v (Z.lnot HIGHBIT)) i)))
  end.

(** The block loop of the older reader, on 32 bits. *)
Fixpoint read_block_incr (ptr : bytes) (i blockNumberIncr : Z) : option (Z * bytes) :=
  match ptr with
  | [] => None
  | v :: ptr =>
      if 32 <=? i then None
      else
        let blockNumberIncr := uint32 (Z.lor blockNumberIncr (Z.shiftl (Z.land v (Z.lnot HIGHBIT)) i)) in
        if Z.land v HIGHBIT =? 0 then Some (blockNumberIncr, ptr)
        else read_block_incr ptr (i + 7) blockNumberIncr
  end.

(** [memcpy] of [n] bytes out of the page. *)
Definition fetch (n : nat) (ptr : bytes) : option (Z * bytes) :=
  if (n <=? length ptr)%nat then Some (le_value (take n ptr), drop n ptr) else None.

Section posting.
Context (rumstate : RumState) (RumThrowErrorOnInvalidDataPage : bool).

Definition rumDataPageLeafWriteItemPointer (p prev : ItemPointerData) (isNull : bool) : bytes :=
  if useAlternativeOrder rumstate then
    iptr_bytes (if isNull then mk_iptr (bi_hi p) (bi_lo p) (Z.lor (ip_posid p) ALT_ADD_INFO_NULL_FLAG)
                else p)
  else
    write_block_incr 5 (block_incr p prev) ++ write_offset 3 (ip_posid p) isNull.

(** The bytes placed at the pointer; a missing attribute is a null pointer. *)
Definition rumPlaceToDataPageLeaf (attnum : Z) (item : RumItem) (prev : ItemPointerData)
  : outcome bytes :=
  let pointer := rumDataPageLeafWriteItemPointer (iptr item) prev (addInfoIsNull item) in
  if addInfoIsNull item then Some (Ok pointer)
  else
    match addAttrs rumstate attnum with
    | None => None
    | Some attlen =>
        out! datum := Some (rumDatumWrite attlen (addInfo item)) in
        Some (Ok (pointer ++ datum))
    end.

Definition rumCheckPlaceToDataPageLeaf (attnum : Z) (item : RumItem) (prev : ItemPointerData)
  (size : Z) : option Z :=
  let size := size + (if useAlternativeOrder rumstate then SIZEOF_ItemPointerData
                      else rumDataPageLeafGetItemPointerSize (iptr item) prev) in
  if addInfoIsNull item then Some size
  else
    match addAttrs rumstate attnum with
    | None => None
    | Some attlen => Some (size + attlen)
    end.

(** The loop of [rumCreatePostingTree]: each item after the one before. *)
Fixpoint place_items (attnum : Z) (prev : ItemPointerData) (items : list RumItem) : outcome bytes :=
  match items with
  | [] => Some (Ok [])
  | item :: items =>
      out! placed := rumPlaceToDataPageLeaf attnum item prev in
      out! rest := place_items attnum (iptr item) items in
      Some (Ok (placed ++ rest))
  end.

(** The item is the current one and is replaced; its additional information
    stays when the new one has none. *)
Definition rumDataPageLeafReadItemPointerWithBlockNumberIncr
  (ptr : bytes) (item : RumItem) (blockNumberIncr : Z) : outcome (bytes * RumItem * Z) :=
  match decode_varbyte_blocknumber ptr with
  | None => None
  | Some (incr, ptr) =>
      let blockNumberIncr := uint64 (blockNumberIncr + incr) in
      match read_offset ptr 0 0 with
      | None => None
      | Some (offset, isNull, ptr) =>
          if RumThrowErrorOnInvalidDataPage && negb (OffsetNumberIsValid offset)
          then Some (Err ERRCODE_INTERNAL_ERROR)
          else Some (Ok (ptr, mk_item (set_block blockNumberIncr offset) isNull (addInfo item),
                         blockNumberIncr))
      end
  end.

Definition rumDataPageLeafReadItemPointerNew (ptr : bytes) (item : RumItem)
  : outcome (bytes * RumItem) :=
  out! (ptr, item, _) :=
    rumDataPageLeafReadItemPointerWithBlockNumberIncr ptr item (uint64 (block_as_int (iptr item))) in
  Some (Ok (ptr, item)).

Definition rumDataPageLeafReadItemPointer (ptr : bytes) (p : ItemPointerData)
  : outcome (bytes * ItemPointerData * bool) :=
  match read_block_incr ptr 0 0 with
  | None => None
  | Some (incr, ptr) =>
      let blockNumberIncr := uint32 (incr + block_as_int p) in
      match read_offset ptr 0 0 with
      | None => None
      | Some (offset, isNull, ptr) =>
          if negb (OffsetNumberIsValid offset) && RumThrowErrorOnInvalidDataPage
          then Some (Err ERRCODE_INTERNAL_ERROR)
          else Some (Ok (ptr, set_block blockNumberIncr offset, isNull))
      end
  end.

(** The pointer of an index in the alternative order. *)
Definition read_alternative (ptr : bytes) (item : RumItem) : outcome (bytes * RumItem) :=
  match fetch 2 ptr with
  | None => None
  | Some (hi, ptr) =>
  match fetch 2 ptr with
  | None => None
  | Some (lo, ptr) =>
  match fetch 2 ptr with
  | None => None
  | Some (posid, ptr) =>
      if Z.land posid ALT_ADD_INFO_NULL_FLAG =? 0
      then Some (Ok (ptr, mk_item (mk_iptr hi lo posid) false (addInfo item)))
      else Some (Ok (ptr, mk_item (mk_iptr hi lo (Z.land posid (Z.lnot ALT_ADD_INFO_NULL_FLAG)))
                            true (addInfo item)))
  end end end.

(** The value that follows: [CharGetDatum] and the others extend the sign. *)
Definition read_addinfo (attnum : Z) (ptr : bytes) (item : RumItem) : outcome (bytes * RumItem) :=
  if addInfoIsNull item then Some (Ok (ptr, item))
  else
    match addAttrs rumstate attnum with
    | None => None
    | Some attlen =>
        if (attlen =? 1) || (attlen =? 2) || (attlen =? 4) || (attlen =? 8) then
          match fetch (Z.to_nat attlen) ptr with
          | None => None
          | Some (v, ptr) => Some (Ok (ptr, mk_item (iptr item) false (uint64 (wrap_s (8 * attlen) v))))
          end
        else Some (Err ERRCODE_INTERNAL_ERROR)
    end.

Definition rumDataPageLeafReadWithBlockNumberIncr (ptr : bytes) (attnum : Z) (item : RumItem)
  (blockNumberIncr : Z) : outcome (bytes * RumItem * Z) :=
  out! (ptr, item, blockNumberIncr) :=
    if useAlternativeOrder rumstate
    then out! (ptr, item) := read_alternative ptr item in Some (Ok (ptr, item, blockNumberIncr))
    else rumDataPageLeafReadItemPointerWithBlockNumberIncr ptr item blockNumberIncr in
  out! (ptr, item) := read_addinfo attnum ptr item in
  Some (Ok (ptr, item, blockNumberIncr)).

Definition rumDataPageLeafRead (ptr : bytes) (attnum : Z) (item : RumItem)
  : outcome (bytes * RumItem) :=
  out! (ptr, item) :=
    if useAlternativeOrder rumstate then read_alternative ptr item
    else rumDataPageLeafReadItemPointerNew ptr item in
  read_addinfo attnum ptr item.

(** Reads the pointer and skips the value. *)
Definition rumDataPageLeafReadPointer (ptr : bytes) (attnum : Z) (item : RumItem)
  : outcome (bytes * RumItem) :=
  out! (ptr, item) :=
    if useAlternativeOrder rumstate then read_alternative ptr item
    else out! (ptr, p, isNull) := rumDataPageLeafReadItemPointer ptr (iptr item) in
         Some (Ok (ptr, mk_item p isNull (addInfo item))) in
  if addInfoIsNull item then Some (Ok (ptr, item))
  else
    match addAttrs rumstate attnum with
    | None => None
    | Some attlen => Some (Ok (drop (Z.to_nat attlen) ptr, item))
    end.

(** The items of a page, read into the cells of the scan entry; each cell keeps
    its additional information when the item has none. *)
Fixpoint populate (attnum : Z) (maxoff : nat) (cells : list RumItem) (ptr : bytes)
  (blockNumberIncr : Z) : outcome (list RumItem) :=
  match maxoff with
  | O => Some (Ok cells)
  | S maxoff =>
      match cells with
      | [] => None
      | cell :: cells =>
          out! (ptr, item, blockNumberIncr) :=
            rumDataPageLeafReadWithBlockNumberIncr ptr attnum cell blockNumberIncr in
          out! cells := populate attnum maxoff cells ptr blockNumberIncr in
          Some (Ok (item :: cells))
      end
  end.

Definition rumPopulateDataPage (attnum : Z) (cells : list RumItem) (maxoff : nat) (data : bytes)
  : outcome (list RumItem) :=
  out! cells := populate attnum maxoff cells data 0 in
  if (maxoff <? 1)%nat then
    match cells with
    | [] => None
    | _ :: cells => Some (Ok (mk_item (mk_iptr 0 0 0) false 0 :: cells))
    end
  else Some (Ok cells).

(** ** Order *)

Definition rumCompareItemPointers (a b : ItemPointerData) : Z :=
  let ba := RumItemPointerGetBlockNumber a in
  let bb := RumItemPointerGetBlockNumber b in
  if ba =? bb then
    let oa := RumItemPointerGetOffsetNumber a in
    let ob := RumItemPointerGetOffsetNumber b in
    if oa =? ob then 0 else if ob <? oa then 1 else -1
  else if bb <? ba then 1 else -1.

Definition compareRumItem (attno : Z) (a b : RumItem) : Z :=
  if useAlternativeOrder rumstate && (attno =? attrnAddToColumn rumstate) then
    if negb (addInfoIsNull a) && negb (addInfoIsNull b) then
      let res := compareFn rumstate (attrnAttachColumn rumstate) (addInfo a) (addInfo b) in
      if negb (res =? 0) then res else rumCompareItemPointers (iptr a) (iptr b)
    else if addInfoIsNull a then
      if negb (addInfoIsNull b) then -1 else rumCompareItemPointers (iptr a) (iptr b)
    else 1
  else rumCompareItemPointers (iptr a) (iptr b).

(** The merge of two ordered arrays without duplicates: the loop stops when one
    is used up, and the rest of the other follows. *)
Fixpoint rumMergeRumItems (attno : Z) (a : list RumItem) : list RumItem -> list RumItem :=
  fix merge_b (b : list RumItem) : list RumItem :=
    match a, b with
    | [], _ => b
    | _, [] => a
    | x :: a', y :: b' =>
        let cmp := compareRumItem attno x y in
        if 0 <? cmp then y :: merge_b b'
        else if cmp =? 0 then y :: rumMergeRumItems attno a' b'
        else x :: rumMergeRumItems attno a' b
    end.
End posting.

(** ** Item pointers as numbers *)

Definition wf_iptr (p : ItemPointerData) : Prop :=
  0 <= bi_hi p < 2 ^ 16 /\ 0 <= bi_lo p < 2 ^ 16 /\ 0 <= ip_posid p < 2 ^ 16.

Definition block (p : ItemPointerData) : Z := bi_hi p * 2 ^ 16 + bi_lo p.

Lemma block_range p : wf_iptr p -> 0 <= block p < 2 ^ 32.
Proof. unfold wf_iptr, block. lia. Qed.

Lemma get_block_number p : wf_iptr p -> RumItemPointerGetBlockNumber p = block p.
Proof.
  intros (Hhi & Hlo & _). unfold RumItemPointerGetBlockNumber, block.
  rewrite shiftl_mul by lia. by apply lor_disjoint.
Qed.

Lemma wrap_s_mod w z : 0 < w -> wrap_s w z mod 2 ^ w = z mod 2 ^ w.
Proof.
  intros Hw. unfold wrap_s. rewrite Zminus_mod_idemp_l. f_equal. lia.
Qed.

Lemma block_as_int_mod p : wf_iptr p -> block_as_int p mod 2 ^ 32 = block p.
Proof.
  intros Hp. unfold block_as_int. rewrite wrap_s_mod by lia.
  rewrite shiftl_mul by lia. rewrite <- Zplus_mod_idemp_r, wrap_s_mod, Zplus_mod_idemp_r by lia.
  pose proof (block_range p Hp). unfold block in *. rewrite Z.mod_small; lia.
Qed.

Lemma block_incr_diff p prev :
  wf_iptr p -> wf_iptr prev -> block prev <= block p -> block_incr p prev = block p - block prev.
Proof.
  intros Hp Hprev Hle. unfold block_incr, wrap_u.
  rewrite Zminus_mod, !block_as_int_mod by done.
  pose proof (block_range p Hp). pose proof (block_range prev Hprev).
  rewrite Z.mod_small; lia.
Qed.

Lemma set_block_block p : wf_iptr p -> set_block (block p) (ip_posid p) = p.
Proof.
  intros (Hhi & Hlo & _). unfold set_block, block. destruct p as [hi lo pos]; cbn in *.
  change 0xFFFF with (Z.ones 16). rewrite Z.shiftr_div_pow2, !Z.land_ones by lia.
  f_equal; [rewrite Z.div_add_l by lia|rewrite Z.add_comm, Z.mod_add by lia];
    rewrite ?Z.div_small, ?Z.mod_small; lia.
Qed.

Lemma set_block_mod incr posid : set_block (incr mod 2 ^ 32) posid = set_block incr posid.
Proof.
  unfold set_block. f_equal; apply Z.bits_inj'; intros i Hi; rewrite !Z.land_spec;
    rewrite ?Z.shiftr_spec by lia;
    (destruct (Z_lt_le_dec i 16); [|change 0xFFFF with (Z.ones 16);
      rewrite (Z.ones_spec_high 16 i) by lia; by rewrite !andb_false_r]);
    f_equal; apply Z.mod_pow2_bits_low; lia.
Qed.

(** ** Variable-length numbers *)

Lemma land_low7 z : Z.land z 0x7F = z mod 128.
Proof. change 0x7F with (Z.ones 7). by rewrite Z.land_ones. Qed.

Lemma land_low6 z : Z.land z SIXMASK = z mod 64.
Proof. change SIXMASK with (Z.ones 6). by rewrite Z.land_ones. Qed.

Lemma lor_bit m z : 0 <= m -> 0 <= z < 2 ^ m -> Z.lor z (2 ^ m) = z + 2 ^ m.
Proof. intros Hm Hz. rewrite Z.lor_comm. pose proof (lor_disjoint 1 z m). rewrite Z.mul_1_l in *. lia. Qed.

Lemma land_bit m z : 0 <= m -> (Z.land z (2 ^ m) =? 0) = negb (Z.testbit z m).
Proof.
  intros Hm. destruct (Z.eqb_spec (Z.land z (2 ^ m)) 0) as [E|E].
  - pose proof (f_equal (fun w => Z.testbit w m) E) as B. cbn beta in B.
    rewrite Z.land_spec, Z.pow2_bits_true, andb_true_r, Z.bits_0 in B by lia. by rewrite B.
  - destruct (Z.testbit z m) eqn:B; [done|]. exfalso. apply E. apply Z.bits_inj'. intros i Hi.
    rewrite Z.land_spec, Z.bits_0. destruct (Z.eq_dec i m) as [->|]; [by rewrite B|].
    rewrite Z.pow2_bits_false by done. apply andb_false_r.
Qed.

Lemma testbit_of_div m z : 0 <= m -> Z.testbit z m = (0 <? (z / 2 ^ m) mod 2).
Proof.
  intros Hm. rewrite Z.testbit_odd, Z.shiftr_div_pow2 by lia.
  rewrite Zodd_mod. pose proof (Z.mod_pos_bound (z / 2 ^ m) 2). 
  destruct (Z.eqb_spec ((z / 2 ^ m) mod 2) 1); [symmetry; apply Z.ltb_lt|symmetry; apply Z.ltb_ge]; lia.
Qed.

(** One byte of a number: seven bits and whether more follow. *)
Lemma byte_of_incr n : 0 <= n ->
  uint8 (Z.lor (Z.land n (Z.lnot HIGHBIT)) (if HIGHBIT <=? n then HIGHBIT else 0)) =
  n mod 128 + (if HIGHBIT <=? n then 128 else 0).
Proof.
  intros Hn. unfold wrap_u. 
  assert (Z.land n (Z.lnot HIGHBIT) mod 2 ^ 8 = n mod 128) as E.
  { rewrite <- (Z.land_ones _ 8), <- Z.land_assoc by lia.
    change (Z.land (Z.lnot HIGHBIT) (Z.ones 8)) with (Z.ones 7). by rewrite Z.land_ones. }
  rewrite <- (Z.land_ones _ 8), Z.land_lor_distr_l, !Z.land_ones by lia. rewrite E.
  pose proof (Z.mod_pos_bound n 128). destruct (HIGHBIT <=? n); change HIGHBIT with (2 ^ 7).
  - change (2 ^ 7 mod 2 ^ 8) with (2 ^ 7). rewrite lor_bit by lia. lia.
  - change (0 mod 2 ^ 8) with 0. rewrite Z.lor_0_r. lia.
Qed.

Lemma incr_byte_low n : 0 <= n ->
  Z.land (n mod 128 + (if HIGHBIT <=? n then 128 else 0)) 0x7F = n mod 128.
Proof.
  intros Hn. rewrite land_low7. destruct (HIGHBIT <=? n).
  - rewrite Z.add_mod by lia. change (128 mod 128) with 0. rewrite Z.add_0_r, !Z.mod_mod; lia.
  - by rewrite Z.add_0_r, Z.mod_mod by lia.
Qed.

Lemma incr_byte_high n : 0 <= n ->
  (Z.land (n mod 128 + (if HIGHBIT <=? n then 128 else 0)) HIGHBIT =? 0) = (n <? HIGHBIT).
Proof.
  intros Hn. change HIGHBIT with (2 ^ 7) at 2. rewrite land_bit, testbit_of_div by lia.
  pose proof (Z.mod_pos_bound n 128). destruct (Z.leb_spec HIGHBIT n).
  - change 128 with (2 ^ 7) at 2. replace (n mod 128 + 2 ^ 7) with (n mod 128 + 1 * 2 ^ 7) by lia.
    rewrite Z.div_add, Z.div_small by lia. symmetry. apply Z.ltb_ge. lia.
  - rewrite Z.add_0_r, Z.div_small by lia. symmetry. apply Z.ltb_lt. lia.
Qed.

(** Seven more bits of a number. *)
Lemma lor_next val x shift :
  0 <= shift -> 0 <= val < 2 ^ shift -> Z.lor val (Z.shiftl x shift) = val + x * 2 ^ shift.
Proof.
  intros Hs Hv. rewrite shiftl_mul, Z.lor_comm by lia. rewrite lor_disjoint by done. lia.
Qed.

Lemma lnot_high v : 0 <= v < 256 -> Z.land v (Z.lnot HIGHBIT) = Z.land v 0x7F.
Proof.
  intros Hv. apply Z.eqb_eq. revert v Hv. apply byte_forall. vm_compute. reflexivity.
Qed.

Lemma varbyte_loop_write fuel k n shift val rest :
  (fuel <= k)%nat -> 0 <= n < 2 ^ (7 * Z.of_nat fuel) -> 0 <= shift -> 0 <= val < 2 ^ shift ->
  (0 < fuel)%nat ->
  varbyte_loop k shift val (write_block_incr fuel n ++ rest) = Some (val + n * 2 ^ shift, rest).
Proof.
  revert k n shift val. induction fuel as [|fuel IH]; intros [|k] n shift val Hk Hn Hs Hv Hf; try lia.
  cbn [write_block_incr app varbyte_loop]. rewrite byte_of_incr by lia.
  change 0x80 with HIGHBIT. rewrite incr_byte_low, incr_byte_high, lor_next by lia.
  destruct (Z.ltb_spec n HIGHBIT) as [H|H]; unfold HIGHBIT in *.
  - rewrite Z.mod_small by lia. done.
  - assert (0 < fuel)%nat. { destruct fuel; [change (2 ^ (7 * Z.of_nat 1)) with 128 in Hn; lia|lia]. }
    rewrite Z.shiftr_div_pow2 by lia. change (2 ^ 7) with 128.
    pose proof (Z.mod_pos_bound n 128). pose proof (Z.div_mod n 128).
    rewrite IH; try lia.
    + f_equal. f_equal. rewrite Z.pow_add_r by lia. change (2 ^ 7) with 128. nia.
    + split; [apply Z.div_pos; lia|]. apply Z.div_lt_upper_bound; [lia|].
      replace (128 * 2 ^ (7 * Z.of_nat fuel)) with (2 ^ (7 * Z.of_nat (S fuel))); [lia|].
      change 128 with (2 ^ 7). rewrite <- Z.pow_add_r by lia. f_equal. lia.
    + rewrite Z.pow_add_r by lia. change (2 ^ 7) with 128. nia.
Qed.

Lemma decode_write n rest : 0 <= n < 2 ^ 32 ->
  decode_varbyte_blocknumber (write_block_incr 5 n ++ rest) = Some (n, rest).
Proof.
  intros Hn. unfold decode_varbyte_blocknumber. rewrite varbyte_loop_write; try lia.
  f_equal. f_equal. lia.
Qed.

Lemma wrap_u_pow w z n : 0 <= n <= w -> 0 <= z < 2 ^ n -> wrap_u w z = z.
Proof.
  intros Hn Hz. apply wrap_u_small. pose proof (Z.pow_le_mono_r 2 n w). lia.
Qed.

(** A number in base 128, shifted. *)
Lemma digits n shift : 0 <= n -> 0 <= shift ->
  0 <= n mod 128 < 128 /\ 0 <= n / 128 /\ 0 <= n mod 128 * 2 ^ shift <= 127 * 2 ^ shift /\
  n mod 128 * 2 ^ shift <= n * 2 ^ shift /\
  n * 2 ^ shift = n / 128 * (2 ^ shift * 128) + n mod 128 * 2 ^ shift.
Proof.
  intros Hn Hs. assert (0 < 2 ^ shift) by lia. pose proof (Z.mod_pos_bound n 128).
  pose proof (Z.mod_le n 128). split; [lia|]. split; [apply Z.div_pos; lia|].
  split; [split; [apply Z.mul_nonneg_nonneg|apply Z.mul_le_mono_nonneg_r]; lia|].
  split; [apply Z.mul_le_mono_nonneg_r; lia|].
  rewrite (Z.div_mod n 128) at 1 by lia. ring.
Qed.

Lemma read_block_incr_write fuel n shift val rest :
  0 <= n < 2 ^ 32 / 2 ^ shift -> 0 <= n < 2 ^ (7 * Z.of_nat fuel) -> 0 <= shift < 32 ->
  0 <= val < 2 ^ shift -> (0 < fuel)%nat ->
  read_block_incr (write_block_incr fuel n ++ rest) shift val = Some (val + n * 2 ^ shift, rest).
Proof.
  revert n shift val. induction fuel as [|fuel IH]; intros n shift val Hn32 Hn Hs Hv Hf; [lia|].
  assert (0 < 2 ^ shift) by lia.
  assert (2 ^ 32 = 2 ^ shift * 2 ^ (32 - shift)) as Esplit by (rewrite <- Z.pow_add_r by lia; f_equal; lia).
  assert (2 ^ 32 / 2 ^ shift = 2 ^ (32 - shift)) as Ediv.
  { rewrite Esplit, Z.mul_comm, Z.div_mul; lia. }
  rewrite Ediv in Hn32.
  cbn [write_block_incr app read_block_incr]. rewrite byte_of_incr by lia.
  destruct (digits n shift) as (Hmod & Hdiv & Hlow & Hle & Esum); [lia..|].
  assert ((n + 1) * 2 ^ shift <= 2 ^ 32).
  { rewrite Esplit, (Z.mul_comm (2 ^ shift)). apply Z.mul_le_mono_nonneg_r; lia. }
  assert (0 <= n mod 128 + (if HIGHBIT <=? n then 128 else 0) < 256) by (destruct (HIGHBIT <=? n); lia).
  rewrite lnot_high, incr_byte_low, incr_byte_high, lor_next by lia.
  replace (32 <=? shift) with false by lia.
  rewrite (wrap_u_small 32) by lia.
  destruct (Z.ltb_spec n HIGHBIT) as [H'|H']; unfold HIGHBIT in *.
  - rewrite Z.mod_small by lia. done.
  - assert (shift < 25). { destruct (Z_lt_le_dec shift 25) as [|Hge]; [done|].
      pose proof (Z.pow_le_mono_r 2 (32 - shift) 7). lia. }
    assert (0 < fuel)%nat. { destruct fuel; [change (2 ^ (7 * Z.of_nat 1)) with 128 in Hn; lia|lia]. }
    rewrite Z.shiftr_div_pow2 by lia. change (2 ^ 7) with 128. rewrite IH; try lia.
    + f_equal. f_equal. rewrite Z.pow_add_r by lia. change (2 ^ 7) with 128. lia.
    + replace (2 ^ 32 / 2 ^ (shift + 7)) with (2 ^ (32 - shift - 7)).
      * split; [apply Z.div_pos; lia|]. apply Z.div_lt_upper_bound; [lia|].
        change 128 with (2 ^ 7). rewrite <- Z.pow_add_r by lia.
        replace (7 + (32 - shift - 7)) with (32 - shift) by lia. lia.
      * replace 32 with ((32 - shift - 7) + (shift + 7)) at 2 by lia.
        rewrite Z.pow_add_r, Z.div_mul by lia. done.
    + split; [apply Z.div_pos; lia|]. apply Z.div_lt_upper_bound; [lia|].
      replace (128 * 2 ^ (7 * Z.of_nat fuel)) with (2 ^ (7 * Z.of_nat (S fuel))); [lia|].
      change 128 with (2 ^ 7). rewrite <- Z.pow_add_r by lia. f_equal. lia.
    + rewrite Z.pow_add_r by lia. change (2 ^ 7) with 128. lia.
Qed.

(** The bytes of an offset: full ones, and the last with the flag. *)
Lemma offset_full_byte n : 0 <= n ->
  let v := uint8 (Z.lor (Z.land n (Z.lnot HIGHBIT)) HIGHBIT) in
  0 <= v < 256 /\ Z.land v 0x7F = n mod 128 /\ (Z.land v HIGHBIT =? 0) = false.
Proof.
  intros Hn v. pose proof (Z.mod_pos_bound n 128). 
  pose proof (byte_of_incr (n mod 128 + 128)) as B.
  replace (HIGHBIT <=? n mod 128 + 128) with true in B by (symmetry; apply Z.leb_le; unfold HIGHBIT; lia).
  assert (v = (n mod 128 + 128) mod 128 + 128) as ->.
  { subst v. rewrite <- B by lia. unfold wrap_u. rewrite <- !(Z.land_ones _ 8) by lia.
    rewrite !Z.land_lor_distr_l, <- !Z.land_assoc. f_equal.
    change (Z.land (Z.lnot HIGHBIT) (Z.ones 8)) with (Z.ones 7).
    rewrite !Z.land_ones by lia. change (2 ^ 7) with 128.
    rewrite Z.add_mod by lia. change (128 mod 128) with 0. rewrite Z.add_0_r, !Z.mod_mod; lia. }
  pose proof (incr_byte_low (n mod 128 + 128)) as L. pose proof (incr_byte_high (n mod 128 + 128)) as R.
  replace (HIGHBIT <=? n mod 128 + 128) with true in L, R by (symmetry; apply Z.leb_le; unfold HIGHBIT; lia).
  assert ((n mod 128 + 128) mod 128 = n mod 128) as E.
  { rewrite Z.add_mod by lia. change (128 mod 128) with 0. rewrite Z.add_0_r, !Z.mod_mod; lia. }
  split; [rewrite E; lia|]. split; [rewrite L by lia; done|]. rewrite R by lia.
  apply Z.ltb_ge. unfold HIGHBIT. lia.
Qed.

Lemma offset_last_byte n (isNull : bool) : 0 <= n < 64 ->
  let v := uint8 (Z.lor n (if isNull then SEVENTHBIT else 0)) in
  Z.land v HIGHBIT = 0 /\ Z.land v SIXMASK = n /\ (Z.land v SEVENTHBIT =? 0) = negb isNull.
Proof.
  intros Hn v.
  assert (forall f, f n = true -> f n = true) by done.
  enough ((Z.land v HIGHBIT =? 0) && (Z.land v SIXMASK =? n) &&
          eqb (Z.land v SEVENTHBIT =? 0) (negb isNull) = true) as E.
  { rewrite !andb_true_iff, !Z.eqb_eq, eqb_true_iff in E. tauto. }
  subst v.
  assert (0 <= n < 256) as Hb by lia. revert Hn. clear -Hb.
  assert (forall b, 0 <= b < 256 ->
    (negb (b <? 64) ||
     ((Z.land (uint8 (Z.lor b (if isNull then SEVENTHBIT else 0))) HIGHBIT =? 0) &&
      (Z.land (uint8 (Z.lor b (if isNull then SEVENTHBIT else 0))) SIXMASK =? b) &&
      eqb (Z.land (uint8 (Z.lor b (if isNull then SEVENTHBIT else 0))) SEVENTHBIT =? 0) (negb isNull))) = true) as A.
  { apply byte_forall. destruct isNull; vm_compute; reflexivity. }
  intros Hn. specialize (A n Hb). replace (n <? 64) with true in A by lia. exact A.
Qed.

Lemma read_offset_write fuel n shift val isNull rest :
  0 <= n -> (0 < fuel)%nat -> n < 2 ^ (7 * Z.of_nat fuel - 1) -> 0 <= shift -> shift + 7 * Z.of_nat fuel <= 32 ->
  val + n * 2 ^ shift < 2 ^ 16 -> 0 <= val < 2 ^ shift ->
  read_offset (write_offset fuel n isNull ++ rest) shift val = Some (val + n * 2 ^ shift, isNull, rest).
Proof.
  revert n shift val. induction fuel as [|fuel IH]; intros n shift val H0 Hf Hn Hs Hs32 Hsum Hv; [lia|].
  assert (0 < 2 ^ shift) by lia. destruct (digits n shift H0 Hs) as (Hmod & Hdiv & Hlow & Hle & Esum).
  cbn [write_offset]. destruct (Z.leb_spec SEVENTHBIT n) as [Hge|Hlt].
  - assert (0 < fuel)%nat. { destruct fuel; [change (2 ^ (7 * Z.of_nat 1 - 1)) with SEVENTHBIT in Hn; lia|lia]. }
    cbn [app read_offset]. pose proof (offset_full_byte n H0) as B. cbn zeta in B. destruct B as (Hb & Hl & Hh).
    rewrite (lnot_high _ Hb), Hh, Hl, lor_next by lia.
    replace (32 <=? shift) with false by lia.
    rewrite (wrap_u_small 16) by lia.
    rewrite Z.shiftr_div_pow2 by lia. change (2 ^ 7) with 128. rewrite IH; try lia.
    + f_equal. f_equal. f_equal. rewrite Z.pow_add_r by lia. change (2 ^ 7) with 128. lia.
    + apply Z.div_lt_upper_bound; [lia|].
      replace (128 * 2 ^ (7 * Z.of_nat fuel - 1)) with (2 ^ (7 * Z.of_nat (S fuel) - 1)); [lia|].
      change 128 with (2 ^ 7). rewrite <- Z.pow_add_r by lia. f_equal. lia.
    + rewrite Z.pow_add_r by lia. change (2 ^ 7) with 128. lia.
    + rewrite Z.pow_add_r by lia. change (2 ^ 7) with 128. lia.
  - cbn [app read_offset]. pose proof (offset_last_byte n isNull ltac:(unfold SEVENTHBIT in Hlt; lia)) as B.
    cbn zeta in B. destruct B as (Hh & Hl & Hf').
    rewrite Hh, Hl, Hf', Z.eqb_refl, negb_involutive, lor_next by lia.
    replace (32 <=? shift) with false by lia. rewrite (wrap_u_small 16); [done|].
    pose proof (Z.mul_nonneg_nonneg n (2 ^ shift)). lia.
Qed.

(** ** Items *)

(** What a page keeps of an item: an item without additional information has
    none to compare. *)
Definition norm (x : RumItem) : RumItem :=
  if addInfoIsNull x then mk_item (iptr x) true 0 else x.

Lemma norm_idem x : norm (norm x) = norm x.
Proof. unfold norm. by destruct (addInfoIsNull x) eqn:E; rewrite ?E. Qed.

Lemma norm_iptr x : iptr (norm x) = iptr x.
Proof. unfold norm. by destruct (addInfoIsNull x). Qed.

Lemma norm_null x : addInfoIsNull (norm x) = addInfoIsNull x.
Proof. unfold norm. by destruct (addInfoIsNull x) eqn:E. Qed.

Lemma norm_eq x y : norm x = norm y <->
  iptr x = iptr y /\ addInfoIsNull x = addInfoIsNull y /\
  (addInfoIsNull x = false -> addInfo x = addInfo y).
Proof.
  unfold norm. destruct x as [p1 [|] a1], y as [p2 [|] a2]; cbn; split; try (by intros [= ]);
    intros; destruct_and?; simplify_eq; auto. f_equal; auto.
Qed.

Section items.
Context (rumstate : RumState) (RumThrowErrorOnInvalidDataPage : bool) (attnum : Z).

(** The values of a type of [attlen] bytes, with their sign extended. *)
Definition wf_addinfo (x : RumItem) : Prop :=
  addInfoIsNull x = true \/
  exists attlen, addAttrs rumstate attnum = Some attlen /\
    (attlen = 1 \/ attlen = 2 \/ attlen = 4 \/ attlen = 8) /\
    addInfo x = uint64 (wrap_s (8 * attlen) (addInfo x)).

Definition wf_item (x : RumItem) : Prop :=
  wf_iptr (iptr x) /\ OffsetNumberIsValid (ip_posid (iptr x)) = true /\ wf_addinfo x.

(** The items of a page follow each other with ascending block numbers, except
    in the alternative order, which stores them whole. *)
Definition follows (x : RumItem) (prev : ItemPointerData) : Prop :=
  wf_iptr prev /\ (useAlternativeOrder rumstate = false -> block prev <= block (iptr x)).

(** The bytes of an item. *)
Definition addinfo_bytes (x : RumItem) : bytes :=
  if addInfoIsNull x then []
  else match addAttrs rumstate attnum with
       | Some attlen => le_bytes (Z.to_nat attlen) (addInfo x)
       | None => []
       end.

Definition item_bytes (prev : ItemPointerData) (x : RumItem) : bytes :=
  rumDataPageLeafWriteItemPointer rumstate (iptr x) prev (addInfoIsNull x) ++ addinfo_bytes x.

Lemma item_bytes_norm prev x : item_bytes prev (norm x) = item_bytes prev x.
Proof.
  unfold item_bytes, addinfo_bytes, norm. by destruct (addInfoIsNull x) eqn:E; cbn; rewrite ?E.
Qed.

Lemma wf_item_norm x : wf_item (norm x) <-> wf_item x.
Proof.
  unfold wf_item, wf_addinfo. rewrite norm_iptr, norm_null. unfold norm.
  destruct (addInfoIsNull x) eqn:E; [|done]. split; intros (? & ? & _); repeat split; auto; apply H.
Qed.

Lemma place_item x prev :
  wf_item x -> rumPlaceToDataPageLeaf rumstate attnum x prev = Some (Ok (item_bytes prev x)).
Proof.
  intros (_ & _ & Hadd). unfold rumPlaceToDataPageLeaf, item_bytes, addinfo_bytes.
  destruct Hadd as [->|(attlen & -> & Hlen & _)]; [by rewrite app_nil_r|].
  destruct (addInfoIsNull x); [by rewrite app_nil_r|].
  unfold rumDatumWrite. by destruct Hlen as [->|[->|[->| ->]]].
Qed.

(** ** Sizes *)

Lemma block_incr_size_bytes fuel n : block_incr_size fuel n = blen (write_block_incr fuel n).
Proof.
  revert n. induction fuel as [|fuel IH]; intros n; [done|].
  cbn [block_incr_size write_block_incr]. rewrite blen_cons.
  destruct (n <? HIGHBIT); [done|]. by rewrite IH.
Qed.

Lemma offset_size_bytes fuel n isNull : offset_size fuel n = blen (write_offset fuel n isNull).
Proof.
  revert n. induction fuel as [|fuel IH]; intros n; [done|].
  cbn [offset_size write_offset]. rewrite Z.leb_antisym. destruct (n <? SEVENTHBIT); [done|].
  cbn [negb]. rewrite blen_cons. by rewrite IH.
Qed.

(** The size that the code computes is the number of bytes that it writes. *)
Lemma check_place_size x prev size :
  wf_item x ->
  rumCheckPlaceToDataPageLeaf rumstate attnum x prev size = Some (size + blen (item_bytes prev x)).
Proof.
  intros (_ & _ & Hadd). unfold rumCheckPlaceToDataPageLeaf, item_bytes, addinfo_bytes,
    rumDataPageLeafWriteItemPointer, rumDataPageLeafGetItemPointerSize.
  set (s := if useAlternativeOrder rumstate then SIZEOF_ItemPointerData else _).
  assert (s = blen (if useAlternativeOrder rumstate then
    iptr_bytes (if addInfoIsNull x then mk_iptr (bi_hi (iptr x)) (bi_lo (iptr x))
       (Z.lor (ip_posid (iptr x)) ALT_ADD_INFO_NULL_FLAG) else iptr x)
    else write_block_incr 5 (block_incr (iptr x) prev) ++
         write_offset 3 (ip_posid (iptr x)) (addInfoIsNull x))) as ->.
  { subst s. destruct (useAlternativeOrder rumstate).
    - unfold iptr_bytes. by rewrite !blen_app, !blen_le_bytes.
    - by rewrite blen_app, block_incr_size_bytes, (offset_size_bytes 3 _ (addInfoIsNull x)). }
  destruct Hadd as [->|(attlen & -> & Hlen & _)].
  - rewrite app_nil_r. f_equal.
  - destruct (addInfoIsNull x); [by rewrite app_nil_r|].
    rewrite blen_app, blen_le_bytes. f_equal. rewrite Z2Nat.id by lia. lia.
Qed.

(** ** Reading back *)

(** An item as it is read over another one. *)
Definition read_as (cur x : RumItem) : RumItem :=
  mk_item (iptr x) (addInfoIsNull x) (if addInfoIsNull x then addInfo cur else addInfo x).

Lemma norm_read_as cur x : norm (read_as cur x) = norm x.
Proof. unfold norm, read_as. destruct x as [p [|] a]; done. Qed.

Lemma fetch_app n l rest : length l = n -> fetch n (l ++ rest) = Some (le_value l, rest).
Proof.
  intros <-. unfold fetch. rewrite length_app.
  replace (length l <=? length l + length rest)%nat with true by (symmetry; apply Nat.leb_le; lia).
  by rewrite take_app_length, drop_app_length.
Qed.

Lemma fetch_le n z rest : 0 <= z < 256 ^ Z.of_nat n -> fetch n (le_bytes n z ++ rest) = Some (z, rest).
Proof.
  intros Hz. rewrite fetch_app by apply le_bytes_length. by rewrite le_value_bytes, Z.mod_small.
Qed.

Lemma posid_flag z : 0 <= z <= MaxOffsetNumber ->
  Z.land z ALT_ADD_INFO_NULL_FLAG = 0 /\
  0 <= Z.lor z ALT_ADD_INFO_NULL_FLAG < 2 ^ 16 /\
  (Z.land (Z.lor z ALT_ADD_INFO_NULL_FLAG) ALT_ADD_INFO_NULL_FLAG =? 0) = false /\
  Z.land (Z.lor z ALT_ADD_INFO_NULL_FLAG) (Z.lnot ALT_ADD_INFO_NULL_FLAG) = z.
Proof.
  unfold MaxOffsetNumber. intros Hz. change ALT_ADD_INFO_NULL_FLAG with (2 ^ 15).
  assert (Z.testbit z 15 = false) as Hb by (apply (testbit_high z 15); lia).
  split; [pose proof (land_bit 15 z ltac:(lia)) as L; rewrite Hb in L; by apply Z.eqb_eq in L|].
  split; [rewrite lor_bit; lia|].
  split; [rewrite land_bit, Z.lor_spec, Z.pow2_bits_true, orb_true_r by lia; done|].
  rewrite Z.land_lor_distr_l, Z.land_lnot_diag, Z.lor_0_r.
  apply Z.bits_inj'. intros i Hi. rewrite Z.land_spec, Z.lnot_spec by lia.
  destruct (Z.eq_dec i 15) as [->|]; [by rewrite Hb|].
  rewrite Z.pow2_bits_false by done. apply andb_true_r.
Qed.

Lemma valid_offset z : OffsetNumberIsValid z = true -> 0 < z <= MaxOffsetNumber \/ z < 0.
Proof. unfold OffsetNumberIsValid. rewrite andb_true_iff, negb_true_iff. lia. Qed.

Lemma read_alternative_item x cur rest :
  wf_item x ->
  read_alternative (iptr_bytes (if addInfoIsNull x
      then mk_iptr (bi_hi (iptr x)) (bi_lo (iptr x)) (Z.lor (ip_posid (iptr x)) ALT_ADD_INFO_NULL_FLAG)
      else iptr x) ++ rest) cur =
  Some (Ok (rest, mk_item (iptr x) (addInfoIsNull x) (addInfo cur))).
Proof.
  intros ((Hhi & Hlo & Hpos) & Hvalid & _). apply valid_offset in Hvalid.
  destruct (posid_flag (ip_posid (iptr x))) as (F1 & F2 & F3 & F4); [lia|].
  unfold read_alternative, iptr_bytes. rewrite <- !app_assoc.
  destruct (addInfoIsNull x); cbn [bi_hi bi_lo ip_posid];
    do 3 (rewrite fetch_le by (change (256 ^ Z.of_nat 2) with (2 ^ 16); lia)).
  - rewrite F3, F4. by destruct (iptr x).
  - rewrite F1. by destruct (iptr x).
Qed.

Lemma uint64_mod32 z : uint64 z mod 2 ^ 32 = z mod 2 ^ 32.
Proof. unfold wrap_u. apply Z.mod_mod_divide. exists (2 ^ 32). lia. Qed.

(** The reader adds the stored difference to the block number it is given. *)
Lemma read_pointer_any x prev cur incr rest :
  wf_item x -> wf_iptr prev -> block prev <= block (iptr x) ->
  let incr' := uint64 (incr + (block (iptr x) - block prev)) in
  rumDataPageLeafReadItemPointerWithBlockNumberIncr RumThrowErrorOnInvalidDataPage
    ((write_block_incr 5 (block_incr (iptr x) prev) ++ write_offset 3 (ip_posid (iptr x)) (addInfoIsNull x))
     ++ rest) cur incr =
  Some (Ok (rest, mk_item (set_block incr' (ip_posid (iptr x))) (addInfoIsNull x) (addInfo cur), incr')).
Proof.
  intros (Hp & Hvalid & _) Hprev Hle incr'.
  pose proof (block_range _ Hp). pose proof (block_range _ Hprev).
  unfold rumDataPageLeafReadItemPointerWithBlockNumberIncr.
  rewrite block_incr_diff, <- app_assoc, decode_write by (done || lia).
  destruct Hp as (? & ? & ?). rewrite read_offset_write by (change (Z.of_nat 3) with 3 in *; lia).
  by rewrite Z.add_0_l, Z.mul_1_r, Hvalid, andb_false_r.
Qed.

Lemma read_pointer_item x prev cur incr rest :
  wf_item x -> wf_iptr prev -> block prev <= block (iptr x) -> incr mod 2 ^ 32 = block prev ->
  let incr' := uint64 (incr + (block (iptr x) - block prev)) in
  rumDataPageLeafReadItemPointerWithBlockNumberIncr RumThrowErrorOnInvalidDataPage
    ((write_block_incr 5 (block_incr (iptr x) prev) ++ write_offset 3 (ip_posid (iptr x)) (addInfoIsNull x))
     ++ rest) cur incr =
  Some (Ok (rest, mk_item (iptr x) (addInfoIsNull x) (addInfo cur), incr')) /\
  incr' mod 2 ^ 32 = block (iptr x).
Proof.
  intros Hx Hprev Hle Hincr incr'. pose proof (block_range _ (proj1 Hx)). pose proof (block_range _ Hprev).
  assert (incr' mod 2 ^ 32 = block (iptr x)) as E.
  { subst incr'. rewrite uint64_mod32, <- Zplus_mod_idemp_l, Hincr, Z.mod_small; lia. }
  split; [|done]. rewrite read_pointer_any by done. fold incr'.
  rewrite <- set_block_mod, E, set_block_block by apply Hx. done.
Qed.

Lemma read_addinfo_any x p cur rest :
  wf_item x ->
  read_addinfo rumstate attnum (addinfo_bytes x ++ rest) (mk_item p (addInfoIsNull x) (addInfo cur)) =
  Some (Ok (rest, mk_item p (addInfoIsNull x) (if addInfoIsNull x then addInfo cur else addInfo x))).
Proof.
  intros (_ & _ & Hadd). unfold read_addinfo, addinfo_bytes. cbn [addInfoIsNull iptr].
  destruct (addInfoIsNull x) eqn:Hnull; [done|].
  destruct Hadd as [?|(attlen & -> & Hlen & Hval)]; [congruence|].
  replace ((attlen =? 1) || (attlen =? 2) || (attlen =? 4) || (attlen =? 8)) with true
    by (by destruct Hlen as [->|[->|[->| ->]]]).
  rewrite fetch_app by apply le_bytes_length. rewrite le_value_bytes.
  assert (wrap_s (8 * attlen) (addInfo x mod 256 ^ Z.of_nat (Z.to_nat attlen)) =
          wrap_s (8 * attlen) (addInfo x)) as E.
  { rewrite Z2Nat.id by lia. change 256 with (2 ^ 8). rewrite <- Z.pow_mul_r by lia.
    unfold wrap_s. by rewrite Zplus_mod_idemp_l. }
  by rewrite E, <- Hval.
Qed.

Lemma read_addinfo_item x cur rest :
  wf_item x ->
  read_addinfo rumstate attnum (addinfo_bytes x ++ rest)
    (mk_item (iptr x) (addInfoIsNull x) (addInfo cur)) = Some (Ok (rest, read_as cur x)).
Proof. apply read_addinfo_any. Qed.

(** Reading the bytes of an item gives the item, with each of the readers. *)
Lemma read_item x cur rest :
  wf_item x -> follows x (iptr cur) ->
  rumDataPageLeafRead rumstate RumThrowErrorOnInvalidDataPage
    (item_bytes (iptr cur) x ++ rest) attnum cur = Some (Ok (rest, read_as cur x)).
Proof.
  intros Hx [Hprev Hle]. unfold rumDataPageLeafRead, item_bytes, rumDataPageLeafWriteItemPointer.
  rewrite <- app_assoc. destruct (useAlternativeOrder rumstate).
  - rewrite read_alternative_item by done. cbn. by apply read_addinfo_item.
  - unfold rumDataPageLeafReadItemPointerNew.
    destruct (read_pointer_item x (iptr cur) cur (uint64 (block_as_int (iptr cur)))
                (addinfo_bytes x ++ rest)) as [-> _]; auto.
    { rewrite uint64_mod32. by apply block_as_int_mod. }
    cbn. by apply read_addinfo_item.
Qed.

Definition tracks (incr : Z) (prev : ItemPointerData) : Prop :=
  useAlternativeOrder rumstate = false -> incr mod 2 ^ 32 = block prev.

Lemma read_item_incr x prev cur incr rest :
  wf_item x -> follows x prev -> tracks incr prev ->
  exists incr', tracks incr' (iptr x) /\
    rumDataPageLeafReadWithBlockNumberIncr rumstate RumThrowErrorOnInvalidDataPage
      (item_bytes prev x ++ rest) attnum cur incr = Some (Ok (rest, read_as cur x, incr')).
Proof.
  intros Hx [Hprev Hle] Hincr. unfold rumDataPageLeafReadWithBlockNumberIncr, item_bytes,
    rumDataPageLeafWriteItemPointer, tracks in *.
  rewrite <- app_assoc. destruct (useAlternativeOrder rumstate).
  - exists incr. rewrite read_alternative_item by done. cbn. by rewrite read_addinfo_item.
  - destruct (read_pointer_item x prev cur incr (addinfo_bytes x ++ rest)) as [-> E]; auto.
    eexists. split; [intros _; exact E|]. cbn [out_bind]. by rewrite read_addinfo_item.
Qed.

Lemma skip_item x cur rest :
  wf_item x -> follows x (iptr cur) ->
  rumDataPageLeafReadPointer rumstate RumThrowErrorOnInvalidDataPage
    (item_bytes (iptr cur) x ++ rest) attnum cur =
  Some (Ok (rest, mk_item (iptr x) (addInfoIsNull x) (addInfo cur))).
Proof.
  intros Hx [Hprev Hle]. unfold rumDataPageLeafReadPointer, item_bytes,
    rumDataPageLeafWriteItemPointer.
  assert (forall tl : bytes * RumItem, tl = (addinfo_bytes x ++ rest, mk_item (iptr x) (addInfoIsNull x) (addInfo cur)) ->
    (let '(ptr, item) := tl in
     if addInfoIsNull item then Some (Ok (ptr, item))
     else match addAttrs rumstate attnum with
          | None => None
          | Some attlen => Some (Ok (drop (Z.to_nat attlen) ptr, item))
          end) = Some (Ok (rest, mk_item (iptr x) (addInfoIsNull x) (addInfo cur)))) as Tail.
  { intros tl ->. destruct Hx as (_ & _ & Hadd). unfold addinfo_bytes. cbn [addInfoIsNull].
    destruct (addInfoIsNull x) eqn:Hnull; [done|].
    destruct Hadd as [?|(attlen & -> & Hlen & _)]; [congruence|].
    rewrite <- (le_bytes_length (Z.to_nat attlen) (addInfo x)) at 1. by rewrite drop_app_length. }
  rewrite <- app_assoc. destruct (useAlternativeOrder rumstate).
  - rewrite read_alternative_item by done. cbn [out_bind]. exact (Tail _ eq_refl).
  - specialize (Hle eq_refl). destruct Hx as (Hp & Hvalid & Hadd).
    pose proof (block_range _ Hp). pose proof (block_range _ Hprev).
    unfold rumDataPageLeafReadItemPointer.
    rewrite block_incr_diff, <- app_assoc, read_block_incr_write
      by (done || (change (2 ^ 32 / 2 ^ 0) with (2 ^ 32); change (7 * Z.of_nat 5) with 35; lia)).
    pose proof Hp as (? & ? & ?).
    rewrite read_offset_write by (change (Z.of_nat 3) with 3 in *; lia).
    rewrite !Z.add_0_l, !Z.mul_1_r, Hvalid. cbn [negb andb out_bind].
    assert (uint32 (block (iptr x) - block (iptr cur) + block_as_int (iptr cur)) = block (iptr x)) as ->.
    { unfold wrap_u. rewrite <- Zplus_mod_idemp_r, block_as_int_mod, Z.mod_small by (done || lia). lia. }
    rewrite set_block_block by done. exact (Tail _ eq_refl).
Qed.
End items.

(** ** The order of items *)

Definition iptr_order : ItemPointerData -> ItemPointerData -> comparison :=
  cmp_lex (cmp_on block Z.compare) (cmp_on ip_posid Z.compare).

#[export] Instance iptr_order_total : TotalCmp iptr_order.
Proof. unfold iptr_order. apply _. Qed.

Lemma compare_iptr a b :
  wf_iptr a -> wf_iptr b -> sgn_cmp (rumCompareItemPointers a b) = iptr_order a b.
Proof.
  intros Ha Hb. unfold rumCompareItemPointers, iptr_order, cmp_lex, cmp_on, RumItemPointerGetOffsetNumber.
  rewrite !get_block_number by done.
  destruct (Z.compare_spec (block a) (block b)) as [->|H|H].
  - rewrite Z.eqb_refl. destruct (Z.compare_spec (ip_posid a) (ip_posid b)) as [->|H|H].
    + by rewrite Z.eqb_refl.
    + replace (ip_posid a =? ip_posid b) with false by lia.
      by replace (ip_posid b <? ip_posid a) with false by lia.
    + replace (ip_posid a =? ip_posid b) with false by lia.
      by replace (ip_posid b <? ip_posid a) with true by lia.
  - replace (block a =? block b) with false by lia.
    by replace (block b <? block a) with false by lia.
  - replace (block a =? block b) with false by lia.
    by replace (block b <? block a) with true by lia.
Qed.

Section order.
Context (rumstate : RumState) (attno : Z).

(** Without additional information first, then by its value, then by pointer;
    or by pointer alone. *)
Definition item_order : RumItem -> RumItem -> comparison :=
  if useAlternativeOrder rumstate && (attno =? attrnAddToColumn rumstate)
  then cmp_lex
         (cmp_sum addInfoIsNull (fun _ _ => Eq)
            (cmp_on addInfo (fun a b => sgn_cmp (compareFn rumstate (attrnAttachColumn rumstate) a b))))
         (cmp_on iptr iptr_order)
  else cmp_on iptr iptr_order.

Lemma compare_item a b :
  wf_iptr (iptr a) -> wf_iptr (iptr b) -> sgn_cmp (compareRumItem rumstate attno a b) = item_order a b.
Proof.
  intros Ha Hb. unfold compareRumItem, item_order.
  destruct (useAlternativeOrder rumstate && _); [|by apply compare_iptr].
  unfold cmp_lex, cmp_sum, cmp_on. pose proof (compare_iptr _ _ Ha Hb) as Hp.
  destruct (addInfoIsNull a), (addInfoIsNull b); cbn [negb andb]; [done..|].
  set (r := compareFn _ _ _ _). destruct (Z.eqb_spec r 0) as [E|E]; cbn [negb]; [by rewrite E|].
  unfold sgn_cmp. destruct (Z.compare_spec r 0); done.
Qed.

Lemma item_order_norm a b : item_order (norm a) (norm b) = item_order a b.
Proof.
  unfold item_order. destruct (useAlternativeOrder rumstate && _); unfold cmp_lex, cmp_sum, cmp_on;
    rewrite ?norm_iptr, ?norm_null; [|done].
  unfold norm. destruct (addInfoIsNull a) eqn:Ea, (addInfoIsNull b) eqn:Eb; done.
Qed.

(** The comparison of the opclass is an order. *)
Class OrderedAddInfo : Prop :=
  add_info_total : TotalCmp (fun a b => sgn_cmp (compareFn rumstate (attrnAttachColumn rumstate) a b)).

Context `{OrderedAddInfo}.

#[export] Instance item_order_total : TotalCmp item_order.
Proof.
  unfold item_order. pose proof add_info_total.
  destruct (useAlternativeOrder rumstate && _); apply _.
Qed.

Definition before (a b : RumItem) : Prop := item_order a b = Lt.

#[export] Instance before_transitive : Transitive before.
Proof. intros a b c. apply (cmp_lt_trans item_order). Qed.

(** Ordered items without duplicates. *)
Definition ordered (items : list RumItem) : Prop := StronglySorted before items.

Definition pointers_ok (items : list RumItem) : Prop := Forall (fun x => wf_iptr (iptr x)) items.

Lemma merge_cons x a y b :
  rumMergeRumItems rumstate attno (x :: a) (y :: b) =
  (let cmp := compareRumItem rumstate attno x y in
   if 0 <? cmp then y :: rumMergeRumItems rumstate attno (x :: a) b
   else if cmp =? 0 then y :: rumMergeRumItems rumstate attno a b
   else x :: rumMergeRumItems rumstate attno a (y :: b)).
Proof. done. Qed.

Lemma merge_nil_r a : rumMergeRumItems rumstate attno a [] = a.
Proof. by destruct a. Qed.

Lemma compare_cases x y :
  wf_iptr (iptr x) -> wf_iptr (iptr y) ->
  match item_order x y with
  | Lt => compareRumItem rumstate attno x y < 0
  | Eq => compareRumItem rumstate attno x y = 0
  | Gt => 0 < compareRumItem rumstate attno x y
  end.
Proof.
  intros Hx Hy. rewrite <- compare_item by done. unfold sgn_cmp.
  destruct (Z.compare_spec (compareRumItem rumstate attno x y) 0); lia.
Qed.

(** An element of the merge: all of [b], and those of [a] that have no equal
    in [b]. *)
Definition merged (a b : list RumItem) (x : RumItem) : Prop :=
  In x b \/ In x a /\ forall y, In y b -> item_order x y <> Eq.

Lemma before_all x y l : before x y -> Forall (before y) l -> Forall (before x) l.
Proof. intros Hxy Hl. apply (Forall_impl _ _ _ Hl). intros z Hyz. by etransitivity. Qed.

Lemma merge_in a b x :
  ordered a -> ordered b -> pointers_ok a -> pointers_ok b ->
  In x (rumMergeRumItems rumstate attno a b) <-> merged a b x.
Proof.
  unfold merged. revert b. induction a as [|u a IHa]; intros b Ha Hb Pa Pb.
  { destruct b; cbn; tauto. }
  induction b as [|v b IHb]; [rewrite merge_nil_r; cbn; intuition|].
  rewrite merge_cons. inversion Ha as [|?? Ha' Fa]; inversion Hb as [|?? Hb' Fb]; subst.
  inversion Pa; inversion Pb; subst. pose proof (compare_cases u v ltac:(done) ltac:(done)) as C.
  rewrite Forall_forall in Fa, Fb. cbn zeta.
  destruct (item_order u v) eqn:E.
  - replace (0 <? _) with false by lia. replace (_ =? 0) with true by lia. cbn [In].
    rewrite IHa by done. split.
    + intros [->|[Hx|[Hx Hne]]]; auto. right. split; [auto|]. intros y [<-|Hy]; auto.
      pose proof (Fa x ltac:(by apply list_elem_of_In)) as Hux. unfold before in Hux.
      rewrite (cmp_eq_l item_order u v x E) in Hux.
      intros Hc. apply (cmp_eq_sym item_order) in Hc. congruence.
    + intros [[->|Hx]|[[->|Hx] Hne]]; [auto|auto|by destruct (Hne v (or_introl eq_refl))|auto 7].
  - replace (0 <? _) with false by lia. replace (_ =? 0) with false by lia. cbn [In].
    rewrite IHa by done. cbn [In]. split.
    + intros [->|[Hx|[Hx Hne]]]; auto. right. split; [auto|]. intros y [<-|Hy]; [congruence|].
      pose proof (Fb y ltac:(by apply list_elem_of_In)) as Hvy. unfold before in Hvy.
      by rewrite (cmp_lt_trans item_order x v y E Hvy).
    + intros [Hx|[[->|Hx] Hne]]; auto 7.
  - replace (0 <? _) with true by lia. cbn [In]. rewrite IHb by done. cbn [In]. split.
    + intros [->|[Hx|[Hx Hne]]]; auto. right. split; [auto|]. intros y [<-|Hy]; auto.
      destruct Hx as [<-|Hx]; [congruence|].
      pose proof (Fa x ltac:(by apply list_elem_of_In)) as Hux. unfold before in Hux.
      apply (cmp_gt_lt item_order) in E. pose proof (cmp_lt_trans item_order v u x E Hux) as Hvx.
      apply (cmp_gt_lt item_order) in Hvx. congruence.
    + intros [[->|Hx]|[[->|Hx] Hne]]; auto 9.
Qed.

Lemma merge_ordered a b :
  ordered a -> ordered b -> pointers_ok a -> pointers_ok b ->
  ordered (rumMergeRumItems rumstate attno a b).
Proof.
  revert b. induction a as [|u a IHa]; intros b Ha Hb Pa Pb; [by destruct b|].
  induction b as [|v b IHb]; [by rewrite merge_nil_r|].
  rewrite merge_cons. pose proof Ha as Ha0. pose proof Hb as Hb0.
  inversion Ha as [|?? Ha' Fa]; inversion Hb as [|?? Hb' Fb]; subst.
  pose proof Pa as Pa0. pose proof Pb as Pb0. inversion Pa; inversion Pb; subst.
  pose proof (compare_cases u v ltac:(done) ltac:(done)) as C. cbn zeta.
  assert (forall a' b' w, ordered a' -> ordered b' -> pointers_ok a' -> pointers_ok b' ->
    Forall (before w) a' -> Forall (before w) b' ->
    Forall (before w) (rumMergeRumItems rumstate attno a' b')) as Fm.
  { intros a' b' w Oa Ob Qa Qb Ga Gb. rewrite !Forall_forall in *. intros z Hz.
    apply list_elem_of_In, merge_in in Hz; [|done..].
    destruct Hz as [Hz|[Hz _]]; [apply Gb|apply Ga]; by apply list_elem_of_In. }
  destruct (item_order u v) eqn:E.
  - replace (0 <? _) with false by lia. replace (_ =? 0) with true by lia.
    constructor; [by apply IHa|]. apply Fm; try done.
    apply (Forall_impl _ _ _ Fa). intros z Huz. unfold before in *.
    by rewrite <- (cmp_eq_l item_order u v z E).
  - replace (0 <? _) with false by lia. replace (_ =? 0) with false by lia.
    constructor; [by apply IHa|]. apply Fm; try done. constructor; [done|]. by apply (before_all u v).
  - replace (0 <? _) with true by lia. apply (cmp_gt_lt item_order) in E.
    constructor; [by apply IHb|]. apply Fm; try done. constructor; [done|]. by apply (before_all v u).
Qed.
End order.

(** ** Posting lists *)

Section lists.
Context (rumstate : RumState) (RumThrowErrorOnInvalidDataPage : bool) (attnum : Z).

Fixpoint posting_bytes (prev : ItemPointerData) (items : list RumItem) : bytes :=
  match items with
  | [] => []
  | x :: items => item_bytes rumstate attnum prev x ++ posting_bytes (iptr x) items
  end.

(** Items that can be stored after [prev]. *)
Fixpoint chained (prev : ItemPointerData) (items : list RumItem) : Prop :=
  match items with
  | [] => True
  | x :: items => wf_item rumstate attnum x /\ follows rumstate x prev /\ chained (iptr x) items
  end.

Definition last_iptr (prev : ItemPointerData) (items : list RumItem) : ItemPointerData :=
  match last items with Some x => iptr x | None => prev end.

Lemma last_iptr_cons prev x items : last_iptr prev (x :: items) = last_iptr (iptr x) items.
Proof.
  unfold last_iptr. destruct items as [|y items]; [done|].
  change (last (x :: y :: items)) with (last (y :: items)).
  destruct (last (y :: items)) eqn:E; [done|]. by apply last_None in E.
Qed.

Lemma posting_bytes_app prev l1 l2 :
  posting_bytes prev (l1 ++ l2) = posting_bytes prev l1 ++ posting_bytes (last_iptr prev l1) l2.
Proof.
  revert prev. induction l1 as [|x l1 IH]; intros prev; [done|].
  cbn [app posting_bytes]. by rewrite IH, app_assoc, last_iptr_cons.
Qed.

Lemma chained_app prev l1 l2 :
  chained prev (l1 ++ l2) <-> chained prev l1 /\ chained (last_iptr prev l1) l2.
Proof.
  revert prev. induction l1 as [|x l1 IH]; intros prev; [by cbn; tauto|].
  cbn [app chained]. rewrite IH, last_iptr_cons. tauto.
Qed.

Lemma chained_wf prev items : chained prev items -> Forall (wf_item rumstate attnum) items.
Proof.
  revert prev. induction items as [|x items IH]; intros prev; [constructor|].
  intros (Hx & _ & Hc). constructor; eauto.
Qed.

Lemma chained_norm prev items : chained prev (norm <$> items) <-> chained prev items.
Proof.
  revert prev. induction items as [|x items IH]; intros prev; [done|].
  cbn. rewrite IH, wf_item_norm, norm_iptr. unfold follows. by rewrite norm_iptr.
Qed.

Lemma posting_bytes_norm prev items : posting_bytes prev (norm <$> items) = posting_bytes prev items.
Proof.
  revert prev. induction items as [|x items IH]; intros prev; [done|].
  cbn. by rewrite IH, item_bytes_norm, norm_iptr.
Qed.

Lemma place_items_bytes prev items :
  Forall (wf_item rumstate attnum) items ->
  place_items rumstate attnum prev items = Some (Ok (posting_bytes prev items)).
Proof.
  intros H. revert prev. induction H as [|x items Hx H IH]; intros prev; [done|].
  cbn. rewrite place_item by done. cbn. by rewrite IH.
Qed.

Lemma populate_items items prev incr cells spare rest :
  chained prev items -> tracks rumstate incr prev -> length cells = length items ->
  exists read, norm <$> read = norm <$> items /\
    populate rumstate RumThrowErrorOnInvalidDataPage attnum (length items) (cells ++ spare)
      (posting_bytes prev items ++ rest) incr = Some (Ok (read ++ spare)).
Proof.
  revert prev incr cells. induction items as [|x items IH]; intros prev incr [|cell cells] Hc Ht Hl;
    try done; [by exists []|].
  destruct Hc as (Hx & Hf & Hc). cbn [length populate posting_bytes app]. rewrite <- app_assoc.
  destruct (read_item_incr rumstate RumThrowErrorOnInvalidDataPage attnum x prev cell incr
              (posting_bytes (iptr x) items ++ rest) Hx Hf Ht) as (incr' & Ht' & ->).
  cbn [out_bind]. destruct (IH (iptr x) incr' cells Hc Ht') as (read & Hread & ->); [by injection Hl|].
  exists (read_as cell x :: read). cbn. by rewrite norm_read_as, Hread.
Qed.

Lemma ordered_chained prev items `{OrderedAddInfo rumstate} :
  Forall (wf_item rumstate attnum) items -> ordered rumstate attnum items -> wf_iptr prev ->
  Forall (fun x => iptr_order prev (iptr x) <> Gt) items \/ useAlternativeOrder rumstate = true ->
  chained prev items.
Proof.
  intros Hwf Hord. revert prev. induction Hord as [|x items Hord IH Hx]; intros prev Hprev Hle; [done|].
  inversion Hwf as [|?? Hwfx Hwfs]; subst. cbn. split; [done|]. split.
  - split; [done|]. intros Halt. destruct Hle as [Hle|]; [|congruence].
    inversion Hle as [|?? Hle1 _]; subst. unfold iptr_order, cmp_lex, cmp_on in Hle1.
    destruct (Z.compare_spec (block prev) (block (iptr x))); [lia|lia|done].
  - apply IH; [done|apply Hwfx|]. destruct (useAlternativeOrder rumstate) eqn:Halt; [auto|left].
    apply (Forall_impl _ _ _ Hx). intros y Hy. unfold before, item_order in Hy.
    rewrite Halt in Hy. cbn in Hy. unfold cmp_on in Hy. by rewrite Hy.
Qed.
End lists.

Lemma min_first p : wf_iptr p -> iptr_order ItemPointerSetMin p <> Gt.
Proof.
  intros Hp. pose proof (block_range p Hp). destruct Hp as (? & ? & ?).
  unfold iptr_order, cmp_lex, cmp_on. change (block ItemPointerSetMin) with 0.
  change (ip_posid ItemPointerSetMin) with 0.
  destruct (Z.compare_spec 0 (block p)); [|done|lia]. destruct (Z.compare_spec 0 (ip_posid p)); [done..|lia].
Qed.

Lemma ordered_chained_min rumstate attnum items `{OrderedAddInfo rumstate} :
  Forall (wf_item rumstate attnum) items -> ordered rumstate attnum items ->
  chained rumstate attnum ItemPointerSetMin items.
Proof.
  intros Hwf Hord. apply ordered_chained; try done.
  left. apply (Forall_impl _ _ _ Hwf). intros x Hx. apply min_first, Hx.
Qed.

(** C35: Posting lists are read back as they were written.  Whatever ordered,
    well-formed items are placed one after the other on a page, the scan that
    reads the page gets the same pointers, the same flags and the same
    additional information, in both storage orders, whatever its cells held
    before and whatever follows the items on the page. *)
Theorem posting_roundtrip rumstate `{OrderedAddInfo rumstate} throw attnum items cells rest :
  Forall (wf_item rumstate attnum) items -> ordered rumstate attnum items ->
  length cells = length items -> items <> [] ->
  exists data read,
    place_items rumstate attnum ItemPointerSetMin items = Some (Ok data) /\
    rumPopulateDataPage rumstate throw attnum cells (length items) (data ++ rest) = Some (Ok read) /\
    norm <$> read = norm <$> items.
Proof.
  intros Hwf Hord Hlen Hne.
  destruct (populate_items rumstate throw attnum items ItemPointerSetMin 0 cells [] rest)
    as (read & Hread & E); [by apply ordered_chained_min|done|done|].
  eexists _, read. split; [by apply place_items_bytes|]. rewrite !app_nil_r in E.
  unfold rumPopulateDataPage. rewrite E. cbn. by destruct items.
Qed.

(** The merge of posting lists.  Merging two ordered lists without
    duplicates gives an ordered list without duplicates, whose items are those
    of the second list and those of the first that have no equal in the second. *)
Theorem posting_merge_correct rumstate `{OrderedAddInfo rumstate} attno a b :
  ordered rumstate attno a -> ordered rumstate attno b -> pointers_ok a -> pointers_ok b ->
  ordered rumstate attno (rumMergeRumItems rumstate attno a b) /\
  forall x, In x (rumMergeRumItems rumstate attno a b) <-> merged rumstate attno a b x.
Proof.
  intros. split; [by apply merge_ordered|]. intros x. by apply merge_in.
Qed.

(** A column with four bytes of additional information. *)
Definition sample_state (alternative : bool) : RumState :=
  mk_rumstate false alternative 2 1 (fun _ => Some 4) (fun _ a b => int32 a - int32 b).

#[export] Instance sample_ordered alternative : OrderedAddInfo (sample_state alternative).
Proof.
  apply (total_cmp_ext _ (cmp_on int32 Z.compare)); [|apply _]. intros a b. apply sgn_cmp_sub.
Qed.

Definition sample_items : list RumItem :=
  [mk_item (mk_iptr 0 5 1) false 7; mk_item (mk_iptr 0 5 300) true 0;
   mk_item (mk_iptr 1 0 2) false (2 ^ 64 - 3)].

Lemma sample_items_wf alternative : Forall (wf_item (sample_state alternative) 1) sample_items.
Proof.
  repeat apply List.Forall_cons; [..|apply List.Forall_nil];
    (split; [split; cbn; lia|]; split; [reflexivity|]); [right|left; reflexivity|right];
    exists 4; (split; [reflexivity|]); (split; [lia|vm_compute; reflexivity]).
Qed.

Lemma sample_items_ordered : ordered (sample_state false) 1 sample_items.
Proof. repeat constructor. Qed.

Lemma posting_roundtrip_witness :
  exists data read,
    place_items (sample_state false) 1 ItemPointerSetMin sample_items = Some (Ok data) /\
    rumPopulateDataPage (sample_state false) true 1 (replicate 3 RumItemSetMin) 3 (data ++ [1; 2])
      = Some (Ok read) /\
    norm <$> read = norm <$> sample_items.
Proof.
  apply (posting_roundtrip (sample_state false) true 1 sample_items (replicate 3 RumItemSetMin) [1; 2]).
  - apply sample_items_wf.
  - apply sample_items_ordered.
  - reflexivity.
  - discriminate.
Defined.

Lemma posting_merge_correct_witness :
  ordered (sample_state false) 1
    (rumMergeRumItems (sample_state false) 1 sample_items [mk_item (mk_iptr 0 5 300) false 1]) /\
  length (rumMergeRumItems (sample_state false) 1 sample_items [mk_item (mk_iptr 0 5 300) false 1]) = 3%nat.
Proof.
  split; [|reflexivity].
  apply (posting_merge_correct (sample_state false) 1 sample_items [mk_item (mk_iptr 0 5 300) false 1]).
  - apply sample_items_ordered.
  - repeat constructor.
  - repeat constructor; cbn; lia.
  - repeat constructor; cbn; lia.
Defined.
