(* ===== verification/RumDataPage.v ===== *)
(** * Pages of the posting tree: [pg_documentdb_extended_rum/core/src/rumdatapage.c]

    A posting tree is a B-tree over item pointers.  A leaf page holds an encoded
    posting list, an array of thirty-two search entries into it and the free
    space; an inner page holds pointers to children with the greatest item of
    each.  Modelled are the searches in both kinds of pages, insertion, the
    splits, and the creation of a tree.  The theorems relate a leaf page to the
    ordered list of items that it holds ([leaf_page]).

    Pointers into a leaf are offsets into its data area; storing past the area
    is [None].  [pd_lower] and [pd_upper], which only tell PostgreSQL where the
    hole of the page is, and buffers, locks and the log are left out. *)

From stdpp Require Import base numbers list option sorting.
From Stdlib Require Import ZArith Lia.
From S2P Require Import Prelude PgbsonElement RumPosting.

Definition MAXIMUM_ALIGNOF : Z := 8.
Definition MAXALIGN (n : Z) : Z := (n + 7) / 8 * 8.
Definition BLCKSZ : Z := 8192.
Definition SizeOfPageHeaderData : Z := 24.
Definition SIZEOF_RumItem : Z := 16.
Definition SIZEOF_RumPageOpaqueData : Z := 16.
Definition SIZEOF_RumDataLeafItemIndex : Z := 24.
Definition SIZEOF_RumPostingItem : Z := 24.
Definition RumDataLeafIndexCount : Z := 32.

Definition RumDataPageSize : Z :=
  BLCKSZ - MAXALIGN SizeOfPageHeaderData - MAXALIGN SIZEOF_RumItem -
  MAXALIGN SIZEOF_RumPageOpaqueData - MAXALIGN (SIZEOF_RumDataLeafItemIndex * RumDataLeafIndexCount).

Definition FirstOffsetNumber : Z := 1.
Definition InvalidOffsetNumber : Z := 0.
Definition InvalidBlockNumber : Z := 0xFFFFFFFF.

Definition RUM_LEAF : Z := 2.
Definition RUM_PAGE_IS_DEAD_ROWS : Z := 16.

(** A search entry: the item before position [offsetNumer], which starts at
    [pageOffset]. *)
Record RumDataLeafItemIndex : Set := mk_index {
  index_iptr : ItemPointerData;
  offsetNumer : Z;
  pageOffset : Z;
  index_addInfo : Z;
}.

Record RumPostingItem : Set := mk_pitem {
  child_blkno : Z;
  pitem_item : RumItem;
}.

(** A leaf uses [page_data] and [page_indexes], an inner page [page_items]. *)
Record RumPage : Set := mk_page {
  page_flags : Z;
  page_leftlink : Z;
  page_rightlink : Z;
  dataPageMaxoff : Z;
  dataPageFreespace : Z;
  page_cycleId : Z;
  page_rightBound : RumItem;
  page_data : bytes;
  page_indexes : list RumDataLeafItemIndex;
  page_items : list RumPostingItem;
}.

Definition RumPageIsLeaf (page : RumPage) : bool := negb (Z.land (page_flags page) RUM_LEAF =? 0).
Definition RumPageRightMost (page : RumPage) : bool := page_rightlink page =? InvalidBlockNumber.

Definition RumDataPageEntryRevive (page : RumPage) : RumPage :=
  mk_page (Z.land (page_flags page) (Z.lnot RUM_PAGE_IS_DEAD_ROWS)) (page_leftlink page)
    (page_rightlink page) (dataPageMaxoff page) (dataPageFreespace page) (page_cycleId page)
    (page_rightBound page) (page_data page) (page_indexes page) (page_items page).

(** [RumInitPage]: the page is zeroed first. *)
Definition RumInitPage (flags : Z) : RumPage :=
  mk_page flags InvalidBlockNumber InvalidBlockNumber 0 0 0 RumItemSetMin
    (replicate (Z.to_nat RumDataPageSize) 0)
    (replicate (Z.to_nat RumDataLeafIndexCount) (mk_index (mk_iptr 0 0 0) 0 0 0)) [].

Definition with_leaf (page : RumPage) (maxoff freespace : Z) (data : bytes)
  (indexes : list RumDataLeafItemIndex) : RumPage :=
  mk_page (page_flags page) (page_leftlink page) (page_rightlink page) maxoff freespace
    (page_cycleId page) (page_rightBound page) data indexes (page_items page).

Definition with_items (page : RumPage) (items : list RumPostingItem) : RumPage :=
  mk_page (page_flags page) (page_leftlink page) (page_rightlink page)
    (Z.of_nat (length items)) (dataPageFreespace page) (page_cycleId page) (page_rightBound page)
    (page_data page) (page_indexes page) items.

Definition with_bound (page : RumPage) (bound : RumItem) (cycleId : Z) : RumPage :=
  mk_page (page_flags page) (page_leftlink page) (page_rightlink page) (dataPageMaxoff page)
    (dataPageFreespace page) cycleId bound (page_data page) (page_indexes page) (page_items page).

(** The state of a descent: the items to insert from [curitem] on, and what a
    split passes to the parent. *)
Record RumBtree : Type := mk_btree {
  entryAttnum : Z;
  fullScan : bool;
  scanForward : bool;
  btree_items : list RumItem;
  curitem : nat;
  pitem : RumPostingItem;
  rightblkno : Z;
}.

Definition with_split (btree : RumBtree) (cur : nat) (p : RumPostingItem) (right : Z) : RumBtree :=
  mk_btree (entryAttnum btree) (fullScan btree) (scanForward btree) (btree_items btree) cur p right.

(** [memcpy] into the data area. *)
Definition store (data : bytes) (ptr : Z) (bs : bytes) : option bytes :=
  if ptr + blen bs <=? RumDataPageSize
  then Some (take (Z.to_nat ptr) data ++ bs ++ drop (Z.to_nat (ptr + blen bs)) data)
  else None.

Section pages.
Context (rumstate : RumState) (RumThrowErrorOnInvalidDataPage RumSkipResetOnDeadEntryPage : bool).
Context (RumEnableNewBulkDelete : bool) (RumDataPageIntermediateSplitSize vacuum_cycleId : Z).

(** The item at an offset, and the offset after it. *)
Definition read_at (data : bytes) (ptr attnum : Z) (item : RumItem) : outcome (Z * RumItem) :=
  out! (rest, item) :=
    rumDataPageLeafRead rumstate RumThrowErrorOnInvalidDataPage (drop (Z.to_nat ptr) data) attnum item in
  Some (Ok (blen data - blen rest, item)).

(** ** Search entries *)

Definition convertIndexToKey (src : RumDataLeafItemIndex) (dst : RumItem) : RumItem :=
  let p := index_iptr src in
  if negb (Z.land (ip_posid p) ALT_ADD_INFO_NULL_FLAG =? 0)
  then mk_item (mk_iptr (bi_hi p) (bi_lo p) (Z.land (ip_posid p) (Z.lnot ALT_ADD_INFO_NULL_FLAG)))
         true (addInfo dst)
  else mk_item p false (index_addInfo src).

(** The loop of [updateItemIndexes] from item [i], with the cells from [j] on. *)
Fixpoint index_loop (n : nat) (data : bytes) (attnum i ptr : Z) (item : RumItem) (blocknoIncr : Z)
  (j maxoff : Z) (cells : list RumDataLeafItemIndex) : outcome (Z * list RumDataLeafItemIndex) :=
  match n with
  | O => Some (Ok (ptr, map (fun e => mk_index (index_iptr e) InvalidOffsetNumber (pageOffset e)
                                        (index_addInfo e)) cells))
  | S n =>
      let read cells j :=
        out! (rest, item', blocknoIncr) :=
          rumDataPageLeafReadWithBlockNumberIncr rumstate RumThrowErrorOnInvalidDataPage
            (drop (Z.to_nat ptr) data) attnum item blocknoIncr in
        index_loop n data attnum (i + 1) (blen data - blen rest) item' blocknoIncr j maxoff cells in
      if (j + 1) * maxoff <? i * (RumDataLeafIndexCount + 1) then
        match cells with
        | [] => None
        | e :: cells =>
            let p := iptr item in
            let e :=
              if useAlternativeOrder rumstate
              then mk_index (if addInfoIsNull item
                             then mk_iptr (bi_hi p) (bi_lo p) (Z.lor (ip_posid p) ALT_ADD_INFO_NULL_FLAG)
                             else p) i ptr (addInfo item)
              else mk_index p i ptr (index_addInfo e) in
            out! (ptr, cells) := read cells (j + 1) in Some (Ok (ptr, e :: cells))
        end
      else read cells j
  end.

Definition updateItemIndexes (page : RumPage) (attnum : Z) : outcome RumPage :=
  let maxoff := dataPageMaxoff page in
  out! (ptr, indexes) :=
    index_loop (Z.to_nat maxoff) (page_data page) attnum FirstOffsetNumber 0 RumItemSetMin 0 0 maxoff
      (page_indexes page) in
  Some (Ok (with_leaf page maxoff (uint16 (RumDataPageSize - ptr)) (page_data page) indexes)).

(** ** Search in a leaf *)

(** The entries narrow the range: the result is a pointer, the item number
    there, the last item number to look at and the pointer before. *)
Fixpoint search_indexes (attnum : Z) (key : RumItem) (indexes : list RumDataLeafItemIndex)
  (ptr first maxoff : Z) (p : ItemPointerData) : Z * Z * Z * ItemPointerData :=
  match indexes with
  | [] => (ptr, first, maxoff, p)
  | index :: indexes =>
      if offsetNumer index =? InvalidOffsetNumber then (ptr, first, maxoff, p)
      else
        let cmp :=
          if useAlternativeOrder rumstate
          then compareRumItem rumstate attnum (convertIndexToKey index RumItemSetMin) key
          else rumCompareItemPointers (index_iptr index) (iptr key) in
        if cmp <? 0
        then search_indexes attnum key indexes (pageOffset index) (offsetNumer index) maxoff
               (index_iptr index)
        else (ptr, first, offsetNumer index - 1, p)
  end.

(** Found or not, the offset, the pointer before it and where it starts. *)
Fixpoint scan_leaf (n : nat) (data : bytes) (attnum : Z) (key : RumItem) (pageMaxoff i ptr : Z)
  (item : RumItem) : outcome (bool * Z * ItemPointerData * Z) :=
  match n with
  | O => Some (Ok (false, pageMaxoff + 1, iptr item, ptr))
  | S n =>
      out! (ptr', item') := read_at data ptr attnum item in
      let cmp := compareRumItem rumstate attnum key item' in
      if cmp =? 0 then Some (Ok (true, i, iptr item, ptr))
      else if cmp <? 0 then Some (Ok (false, i, iptr item, ptr))
      else scan_leaf n data attnum key pageMaxoff (i + 1) ptr' item'
  end.

Definition findInLeafPage (attnum : Z) (key : RumItem) (page : RumPage)
  : outcome (bool * Z * ItemPointerData * Z) :=
  let '(ptr, first, maxoff, p) :=
    search_indexes attnum key (page_indexes page) 0 FirstOffsetNumber (dataPageMaxoff page)
      ItemPointerSetMin in
  scan_leaf (Z.to_nat (maxoff - first + 1)) (page_data page) attnum key (dataPageMaxoff page) first ptr
    (mk_item p true 0).

Definition dataLocateLeafItem (btree : RumBtree) (page : RumPage) : outcome (bool * Z) :=
  if fullScan btree then Some (Ok (true, FirstOffsetNumber))
  else
    match btree_items btree !! curitem btree with
    | None => None
    | Some key =>
        out! (found, off, _, _) := findInLeafPage (entryAttnum btree) key page in
        Some (Ok (found, off))
    end.

Definition dataIsMoveRight (btree : RumBtree) (page : RumPage) : option bool :=
  if RumPageRightMost page then Some false
  else
    match btree_items btree !! curitem btree with
    | None => None
    | Some key => Some (0 <? compareRumItem rumstate (entryAttnum btree) key (page_rightBound page))
    end.

(** ** Creation *)

Definition rumCreatePostingTree (attnum : Z) (items : list RumItem) : outcome RumPage :=
  let page := RumInitPage (Z.lor 1 RUM_LEAF) in
  out! bs := place_items rumstate attnum ItemPointerSetMin items in
  match store (page_data page) 0 bs with
  | None => None
  | Some data =>
      updateItemIndexes
        (with_leaf page (uint16 (Z.of_nat (length items))) (dataPageFreespace page) data (page_indexes page)) attnum
  end.

(** ** Insertion into a leaf *)

Definition RumDataPageGetFreeSpace (page : RumPage) : Z :=
  BLCKSZ - MAXALIGN SizeOfPageHeaderData - MAXALIGN SIZEOF_RumItem -
  dataPageMaxoff page * SIZEOF_RumPostingItem - MAXALIGN SIZEOF_RumPageOpaqueData.

Definition dataIsEnoughSpace (btree : RumBtree) (page : RumPage) : option bool :=
  if RumPageIsLeaf page then
    match btree_items btree !! curitem btree with
    | None => None
    | Some item =>
        match rumCheckPlaceToDataPageLeaf rumstate (entryAttnum btree) item (mk_iptr 0 0 0) 0 with
        | None => None
        | Some size => Some (size + MAXIMUM_ALIGNOF <=? dataPageFreespace page)
        end
    end
  else if (1 <? RumDataPageIntermediateSplitSize) &&
          (RumDataPageIntermediateSplitSize <? dataPageMaxoff page) then Some false
  else Some (SIZEOF_RumPostingItem <=? RumDataPageGetFreeSpace page).

(** The pages share the block number of an unfinished split with the parent. *)
Definition dataPrepareData (btree : RumBtree) (page : RumPage) (off : Z) : option (RumPage * RumBtree) :=
  let btree' := with_split btree (curitem btree) (pitem btree) InvalidBlockNumber in
  if negb (RumPageIsLeaf page) && negb (rightblkno btree =? InvalidBlockNumber) then
    match page_items page !! Z.to_nat (off - 1) with
    | None => None
    | Some p =>
        Some (with_items page (<[Z.to_nat (off - 1) := mk_pitem (rightblkno btree) (pitem_item p)]>
                                 (page_items page)), btree')
    end
  else Some (page, btree').

(** The merge of the page's items with the new ones.  [place_copyPtr] points
    into the copy of the page. *)
Record PlaceState : Type := mk_place {
  place_ptr : Z;
  place_data : bytes;
  place_iptr : ItemPointerData;
  place_copyPtr : Z;
  place_copyItem : RumItem;
  place_copyItemEmpty : bool;
  place_off : Z;
  place_curitem : nat;
  place_freespace : Z;
  place_insertCount : Z;
  place_stopAppend : bool;
}.

(** What comes next: an old item (0 or less), a new one (more), or nothing. *)
Definition place_next (attnum maxoff : Z) (rightmost : bool) (rightBound : RumItem)
  (items : list RumItem) (st : PlaceState) : option Z :=
  match items !! place_curitem st with
  | Some item =>
      if place_off st <=? maxoff then
        if place_stopAppend st then Some (-1)
        else Some (compareRumItem rumstate attnum (place_copyItem st) item)
      else if place_stopAppend st then None
      else if rightmost then Some 1
      else if 0 <=? compareRumItem rumstate attnum rightBound item then Some 1
      else None
  | None => if place_off st <=? maxoff then Some (-1) else None
  end.

(** The next item of the copy, if the last one has been placed. *)
Definition place_read (copy : bytes) (attnum maxoff : Z) (st : PlaceState) : outcome PlaceState :=
  if place_copyItemEmpty st && (place_off st <=? maxoff) then
    out! (copyPtr, copyItem) := read_at copy (place_copyPtr st) attnum (place_copyItem st) in
    Some (Ok (mk_place (place_ptr st) (place_data st) (place_iptr st) copyPtr copyItem false
                (place_off st) (place_curitem st) (place_freespace st) (place_insertCount st)
                (place_stopAppend st)))
  else Some (Ok st).

Definition place_old (attnum cmp : Z) (st : PlaceState) : outcome PlaceState :=
  out! bs := rumPlaceToDataPageLeaf rumstate attnum (place_copyItem st) (place_iptr st) in
  match store (place_data st) (place_ptr st) bs with
  | None => None
  | Some data =>
      Some (Ok (mk_place (place_ptr st + blen bs) data (iptr (place_copyItem st)) (place_copyPtr st)
                  (place_copyItem st) true (place_off st + 1)
                  (if cmp =? 0 then S (place_curitem st) else place_curitem st)
                  (place_freespace st) (place_insertCount st) (place_stopAppend st)))
  end.

Definition place_new (attnum : Z) (item : RumItem) (st : PlaceState) : outcome PlaceState :=
  let aligmentSize := place_ptr st mod MAXIMUM_ALIGNOF in
  match rumCheckPlaceToDataPageLeaf rumstate attnum item (place_iptr st) aligmentSize with
  | None => None
  | Some size =>
      let newItemSize := size - aligmentSize in
      if newItemSize <=? place_freespace st then
        out! bs := rumPlaceToDataPageLeaf rumstate attnum item (place_iptr st) in
        match store (place_data st) (place_ptr st) bs with
        | None => None
        | Some data =>
            Some (Ok (mk_place (place_ptr st + blen bs) data (iptr item) (place_copyPtr st)
                        (place_copyItem st) (place_copyItemEmpty st) (place_off st)
                        (S (place_curitem st)) (place_freespace st - newItemSize)
                        (place_insertCount st + 1) (place_stopAppend st)))
        end
      else Some (Ok (mk_place (place_ptr st) (place_data st) (place_iptr st) (place_copyPtr st)
                       (place_copyItem st) (place_copyItemEmpty st) (place_off st)
                       (place_curitem st) (place_freespace st) (place_insertCount st) true))
  end.

(** Each round places an item or stops the insertion of new ones, so the number
    of items and two more rounds are enough. *)
Fixpoint place_loop (fuel : nat) (copy : bytes) (attnum maxoff : Z) (rightmost : bool)
  (rightBound : RumItem) (items : list RumItem) (st : PlaceState) : outcome PlaceState :=
  match fuel with
  | O => None
  | S fuel =>
      out! st := place_read copy attnum maxoff st in
      match place_next attnum maxoff rightmost rightBound items st with
      | None => Some (Ok st)
      | Some cmp =>
          out! st :=
            (if cmp <=? 0 then place_old attnum cmp st
             else match items !! place_curitem st with
                  | None => None
                  | Some item => place_new attnum item st
                  end) in
          place_loop fuel copy attnum maxoff rightmost rightBound items st
      end
  end.

Definition dataPlaceToLeaf (btree : RumBtree) (page : RumPage) : outcome (RumPage * RumBtree) :=
  match btree_items btree !! curitem btree with
  | None => None
  | Some key =>
      let attnum := entryAttnum btree in
      let maxoff := dataPageMaxoff page in
      out! (_, off, p, ptr) := findInLeafPage attnum key page in
      let copyItem := if off <=? maxoff then mk_item p true 0 else RumItemSetMin in
      let fuel := (Z.to_nat (maxoff - off + 1) + (length (btree_items btree) - curitem btree) + 2)%nat in
      out! st :=
        place_loop fuel (page_data page) attnum maxoff (RumPageRightMost page) (page_rightBound page)
          (btree_items btree)
          (mk_place ptr (page_data page) p ptr copyItem true off (curitem btree)
             (dataPageFreespace page) 0 false) in
      out! page :=
        updateItemIndexes
          (with_leaf page (uint16 (maxoff + place_insertCount st)) (dataPageFreespace page)
             (place_data st) (page_indexes page)) attnum in
      Some (Ok (page, with_split btree (place_curitem st) (pitem btree) (rightblkno btree)))
  end.

(** ** Inner pages *)

(** [None] for a position that leaves a gap or does not fit on the page. *)
Definition RumDataPageAddItem (page : RumPage) (data : RumPostingItem) (offset : Z) : option RumPage :=
  let items := page_items page in
  let at_ := if offset =? InvalidOffsetNumber then length items else Z.to_nat (offset - 1) in
  if (at_ <=? length items)%nat && (SIZEOF_RumPostingItem <=? RumDataPageGetFreeSpace page)
  then Some (with_items page (take at_ items ++ data :: drop at_ items))
  else None.

Definition RumPageDeletePostingItem (page : RumPage) (offset : Z) : RumPage :=
  let at_ := Z.to_nat (offset - 1) in
  with_items page (take at_ (page_items page) ++ drop (S at_) (page_items page)).

Definition dataPlaceToPage (btree : RumBtree) (page : RumPage) (off : Z) : outcome (RumPage * RumBtree) :=
  match dataPrepareData btree page off with
  | None => None
  | Some (page, btree) =>
      let page := if RumSkipResetOnDeadEntryPage then page else RumDataPageEntryRevive page in
      if RumPageIsLeaf page then dataPlaceToLeaf btree page
      else match RumDataPageAddItem page (pitem btree) off with
           | None => None
           | Some page => Some (Ok (page, btree))
           end
  end.

Definition dataGetLeftMostPage (page : RumPage) : option Z := child_blkno <$> head (page_items page).
Definition dataGetRightMostPage (page : RumPage) : option Z :=
  child_blkno <$> page_items page !! Z.to_nat (dataPageMaxoff page - 1).

(** The binary search, over [low] and [high]. *)
Fixpoint locate_loop (fuel : nat) (attnum : Z) (key : RumItem) (items : list RumPostingItem)
  (maxoff low high : Z) : option Z :=
  if low <? high then
    match fuel with
    | O => None
    | S fuel =>
        let mid := low + (high - low) / 2 in
        match items !! Z.to_nat (mid - 1) with
        | None => None
        | Some p =>
            let res := if mid =? maxoff then -1
                       else compareRumItem rumstate attnum key (pitem_item p) in
            if res =? 0 then Some mid
            else if 0 <? res then locate_loop fuel attnum key items maxoff (mid + 1) high
            else locate_loop fuel attnum key items maxoff low mid
        end
    end
  else Some high.

(** The child to descend to and its position. *)
Definition dataLocateItem (btree : RumBtree) (page : RumPage) : option (Z * Z) :=
  if fullScan btree then
    blkno ← (if scanForward btree then dataGetLeftMostPage page else dataGetRightMostPage page);
    Some (blkno, FirstOffsetNumber)
  else
    key ← btree_items btree !! curitem btree;
    let maxoff := dataPageMaxoff page in
    off ← locate_loop (S (Z.to_nat maxoff)) (entryAttnum btree) key (page_items page) maxoff
            FirstOffsetNumber (maxoff + 1);
    p ← page_items page !! Z.to_nat (off - 1);
    Some (child_blkno p, off).

(** The position of a child from [i] on, at most [n] positions. *)
Fixpoint find_child (n : nat) (items : list RumPostingItem) (i blkno : Z) : option Z :=
  match n with
  | O => None
  | S n =>
      match items !! Z.to_nat (i - 1) with
      | Some p => if child_blkno p =? blkno then Some i else find_child n items (i + 1) blkno
      | None => None
      end
  end.

Definition dataFindChildPtr (page : RumPage) (blkno storedOff : Z) : Z :=
  let maxoff := dataPageMaxoff page in
  let items := page_items page in
  let last_chance maxoff :=
    default InvalidOffsetNumber (find_child (Z.to_nat maxoff) items FirstOffsetNumber blkno) in
  if (FirstOffsetNumber <=? storedOff) && (storedOff <=? maxoff) then
    match find_child (Z.to_nat (maxoff - storedOff + 1)) items storedOff blkno with
    | Some i => i
    | None => last_chance (storedOff - 1)
    end
  else last_chance maxoff.

(** ** Splits *)

(** The first pass over the old items: the size of everything to be placed.
    [size_new] counts a new item after the current one, [size_old] the next
    old one, which is read over the current item. *)
Record SizeState : Type := mk_size {
  size_item : RumItem;
  size_total : Z;
  size_max : Z;
  size_index : nat;
}.

Definition size_new (attnum : Z) (items : list RumItem) (st : SizeState) : option SizeState :=
  item ← items !! size_index st;
  total ← rumCheckPlaceToDataPageLeaf rumstate attnum item (iptr (size_item st)) (size_total st);
  Some (mk_size item total (Z.max (size_max st) (total - size_total st)) (S (size_index st))).

Fixpoint size_loop (n : nat) (data : bytes) (attnum : Z) (items : list RumItem) (i off ptr : Z)
  (st : SizeState) : outcome SizeState :=
  match n with
  | O => Some (Ok st)
  | S n =>
      match (if i =? off then size_new attnum items st else Some st) with
      | None => None
      | Some st =>
          out! (ptr, item) := read_at data ptr attnum (size_item st) in
          match rumCheckPlaceToDataPageLeaf rumstate attnum item (iptr (size_item st)) (size_total st) with
          | None => None
          | Some total =>
              size_loop n data attnum items (i + 1) off ptr
                (mk_size item total (Z.max (size_max st) (total - size_total st)) (size_index st))
          end
      end
  end.

(** New items after the last old one, as many as surely fit on two pages. *)
Fixpoint size_append (fuel : nat) (attnum : Z) (items : list RumItem) (item : RumItem)
  (prev : ItemPointerData) (st : SizeState) : option SizeState :=
  let st' := mk_size item (size_total st) (size_max st) (size_index st) in
  match fuel with
  | O => Some st'
  | S fuel =>
      match items !! size_index st with
      | None => Some st'
      | Some _ =>
          total ← rumCheckPlaceToDataPageLeaf rumstate attnum item prev (size_total st);
          if total <? 2 * RumDataPageSize - 2 * size_max st - 2 * MAXIMUM_ALIGNOF then
            let st := mk_size item total (Z.max (size_max st) (total - size_total st)) (S (size_index st)) in
            size_append fuel attnum items (default item (items !! size_index st)) (iptr item) st
          else Some st'
      end
  end.

(** The second pass: items are placed on the left page until half of the size
    is reached, then on the right page. *)
Record SplitState : Type := mk_splitstate {
  split_left : bytes;
  split_right : bytes;
  split_onRight : bool;
  split_ptr : Z;
  split_j : Z;
  split_prev : ItemPointerData;
  split_leftMaxoff : Z;
  split_maxLeftItem : option RumItem;
}.

Definition split_place (attnum totalsize : Z) (st : SplitState) (item : RumItem) : outcome SplitState :=
  out! bs := rumPlaceToDataPageLeaf rumstate attnum item (split_prev st) in
  match store (if split_onRight st then split_right st else split_left st) (split_ptr st) bs with
  | None => None
  | Some data =>
      let leftData := if split_onRight st then split_left st else data in
      let rightData := if split_onRight st then data else split_right st in
      let ptr := split_ptr st + blen bs in
      if (totalsize / 2 <? ptr) && negb (split_onRight st)
      then Some (Ok (mk_splitstate leftData rightData true 0 FirstOffsetNumber ItemPointerSetMin
                       (split_j st) (Some item)))
      else Some (Ok (mk_splitstate leftData rightData (split_onRight st) ptr (split_j st + 1) (iptr item)
                       (split_leftMaxoff st) (split_maxLeftItem st)))
  end.

Fixpoint split_places (attnum totalsize : Z) (st : SplitState) (items : list RumItem)
  : outcome SplitState :=
  match items with
  | [] => Some (Ok st)
  | item :: items =>
      out! st := split_place attnum totalsize st item in split_places attnum totalsize st items
  end.

Fixpoint distribute_loop (n : nat) (data : bytes) (attnum totalsize : Z) (new : list RumItem) (i off ptr : Z)
  (item : RumItem) (st : SplitState) : outcome SplitState :=
  match n with
  | O => if i =? off then split_places attnum totalsize st new else Some (Ok st)
  | S n =>
      out! st := (if i =? off then split_places attnum totalsize st new else Some (Ok st)) in
      out! (ptr, item) := read_at data ptr attnum item in
      out! st := split_place attnum totalsize st item in
      distribute_loop n data attnum totalsize new (i + 1) off ptr item st
  end.

(** The first pass: the size of what is placed, and the first new item that is not. *)
Definition split_sizes (btree : RumBtree) (data : bytes) (maxoff off : Z) (rightmost : bool)
  : outcome SizeState :=
  let attnum := entryAttnum btree in
  let items := btree_items btree in
  out! sized :=
    size_loop (Z.to_nat maxoff) data attnum items FirstOffsetNumber off 0
      (mk_size RumItemSetMin 0 0 (curitem btree)) in
  match (if off =? maxoff + 1 then
           item ← items !! size_index sized;
           if rightmost
           then size_append (length items) attnum items item (iptr (size_item sized)) sized
           else size_new attnum items sized
         else Some sized) with
  | None => None
  | Some sized => Some (Ok sized)
  end.

(** The left page, the right page and what the parent gets. *)
Definition dataSplitPageLeaf (btree : RumBtree) (lblkno rblkno : Z) (lPage : RumPage) (off : Z)
  : outcome (RumPage * RumPage * RumBtree) :=
  let attnum := entryAttnum btree in
  let items := btree_items btree in
  match dataPrepareData btree lPage off with
  | None => None
  | Some (lpageCopy, btree) =>
      let maxoff := dataPageMaxoff lpageCopy in
      let data := page_data lpageCopy in
      let revive page := if RumSkipResetOnDeadEntryPage then page else RumDataPageEntryRevive page in
      let rPage := revive (RumInitPage (page_flags lpageCopy)) in
      let newlPage := revive (RumInitPage (page_flags lpageCopy)) in
      let cycleId := if RumEnableNewBulkDelete then vacuum_cycleId else 0 in
      out! sized := split_sizes btree data maxoff off (RumPageRightMost newlPage) in
      let new := take (size_index sized - curitem btree) (drop (curitem btree) items) in
      out! st :=
        distribute_loop (Z.to_nat maxoff) data attnum (size_total sized) new FirstOffsetNumber off 0
          (mk_item ItemPointerSetMin (addInfoIsNull (size_item sized)) (addInfo (size_item sized)))
          (mk_splitstate (page_data newlPage) (page_data rPage) false 0 FirstOffsetNumber
             ItemPointerSetMin 0 None) in
      match split_maxLeftItem st with
      | None => None
      | Some maxLeftItem =>
          out! leftPage :=
            updateItemIndexes
              (with_bound (with_leaf newlPage (split_leftMaxoff st) 0 (split_left st)
                             (page_indexes newlPage)) maxLeftItem cycleId) attnum in
          out! rightPage :=
            updateItemIndexes
              (with_bound (with_leaf rPage (split_j st - 1) 0 (split_right st)
                             (page_indexes rPage)) (page_rightBound lpageCopy) cycleId) attnum in
          Some (Ok (leftPage, rightPage,
                    with_split btree (size_index sized) (mk_pitem lblkno maxLeftItem) rblkno))
      end
  end.

Definition dataSplitPageInternal (btree : RumBtree) (lblkno rblkno : Z) (lPage : RumPage) (off : Z)
  : option (RumPage * RumPage * RumBtree) :=
  '(newlPage, btree) ← dataPrepareData btree lPage off;
  let oldbound := page_rightBound lPage in
  let at_ := Z.to_nat (off - 1) in
  let vector := take at_ (page_items newlPage) ++ pitem btree :: drop at_ (page_items newlPage) in
  let maxoff := dataPageMaxoff newlPage + 1 in
  let freeSpace := RumDataPageGetFreeSpace (RumInitPage (page_flags newlPage)) in
  let separator := if isBuild rumstate && RumPageRightMost newlPage
                   then freeSpace / SIZEOF_RumPostingItem else maxoff / 2 in
  let revive page := if RumSkipResetOnDeadEntryPage then page else RumDataPageEntryRevive page in
  let fresh := revive (RumInitPage (page_flags newlPage)) in
  let cycleId := if RumEnableNewBulkDelete then vacuum_cycleId else 0 in
  let leftItems := take (Z.to_nat separator) vector in
  if maxoff <? separator then None else
  bound ← last leftItems;
  Some (with_bound (with_items fresh leftItems) (pitem_item bound) cycleId,
        with_bound (with_items fresh (drop (Z.to_nat separator) vector)) oldbound cycleId,
        with_split btree (curitem btree) (mk_pitem lblkno (pitem_item bound)) rblkno).

Definition dataSplitPage (btree : RumBtree) (lblkno rblkno : Z) (lPage : RumPage) (off : Z)
  : outcome (RumPage * RumPage * RumBtree) :=
  if RumPageIsLeaf lPage then dataSplitPageLeaf btree lblkno rblkno lPage off
  else match dataSplitPageInternal btree lblkno rblkno lPage off with
       | None => None
       | Some r => Some (Ok r)
       end.

(** The new root over two pages. *)
Definition rumDataFillRoot (root : RumPage) (lblkno rblkno : Z) (lpage rpage : RumPage) : option RumPage :=
  root ← RumDataPageAddItem root (mk_pitem lblkno (page_rightBound lpage)) InvalidOffsetNumber;
  RumDataPageAddItem root (mk_pitem rblkno (page_rightBound rpage)) InvalidOffsetNumber.

Definition rumDataFillBtreeForIncompleteSplit (btree : RumBtree) (blkno : Z) (page : RumPage)
  : option RumBtree :=
  item ← (if RumPageIsLeaf page then Some (page_rightBound page)
          else pitem_item <$> page_items page !! Z.to_nat (dataPageMaxoff page - 1));
  Some (with_split btree (curitem btree) (mk_pitem blkno item) (page_rightlink page)).
End pages.
