(* ===== verification/RumLeafPage.v ===== *)
(** * Leaf pages of the posting tree

    A leaf page represents the ordered list of its items ([leaf_page]).  The
    theorems show that the search finds the place of an item, that insertion
    merges new items into the list without losing one or leaving the page, and
    that it makes progress when the space check succeeds. *)

From stdpp Require Import base numbers list option sorting.
From Stdlib Require Import ZArith Lia.
From S2P Require Import Prelude PgbsonElement RumPosting RumDataPage.

Lemma drop_blen (a b : bytes) : drop (Z.to_nat (blen a)) (a ++ b) = b.
Proof. unfold blen. by rewrite Nat2Z.id, drop_app_length. Qed.

Lemma take_blen (a b : bytes) : take (Z.to_nat (blen a)) (a ++ b) = a.
Proof. unfold blen. by rewrite Nat2Z.id, take_app_length. Qed.

Section leaf.
Context (rumstate : RumState) (throw : bool) (attnum : Z) {O : OrderedAddInfo rumstate}.

Abbreviation order := (item_order rumstate attnum).
Abbreviation posting := (posting_bytes rumstate attnum).
Abbreviation bytes_of := (item_bytes rumstate attnum).
Abbreviation good := (wf_item rumstate attnum).
Abbreviation Min := ItemPointerSetMin.

(** The alternative order does not look at the pointer before. *)
Definition agree (p q : ItemPointerData) : Prop :=
  wf_iptr p /\ wf_iptr q /\ (useAlternativeOrder rumstate = false -> p = q).

Lemma agree_refl p : wf_iptr p -> agree p p.
Proof. by split. Qed.

Lemma item_bytes_agree p q x : agree p q -> bytes_of p x = bytes_of q x.
Proof.
  intros (_ & _ & E). unfold item_bytes, rumDataPageLeafWriteItemPointer.
  destruct (useAlternativeOrder rumstate); [done|]. by rewrite E.
Qed.

Lemma posting_agree p q items : agree p q -> posting p items = posting q items.
Proof. intros A. destruct items; [done|]. cbn. by rewrite (item_bytes_agree p q). Qed.

Lemma follows_agree p q x : agree p q -> follows rumstate x q -> follows rumstate x p.
Proof.
  intros (Hp & _ & E) [Hq Hle]. split; [done|]. intros Halt. rewrite E by done. auto.
Qed.

Lemma min_wf : wf_iptr Min.
Proof. unfold wf_iptr. cbn. lia. Qed.

Lemma last_iptr_wf l : Forall good l -> wf_iptr (last_iptr Min l).
Proof.
  intros H. unfold last_iptr. destruct (last l) as [x|] eqn:E; [|apply min_wf].
  apply last_Some_elem_of in E. rewrite Forall_forall in H. apply H in E. apply E.
Qed.

Lemma last_iptr_app l x : last_iptr Min (l ++ [x]) = iptr x.
Proof. unfold last_iptr. by rewrite last_snoc. Qed.

Lemma posting_snoc l x : posting Min (l ++ [x]) = posting Min l ++ bytes_of (last_iptr Min l) x.
Proof. rewrite posting_bytes_app. cbn. by rewrite app_nil_r. Qed.

(** ** Ordered lists *)

Lemma ordered_app l r :
  ordered rumstate attnum (l ++ r) <->
  ordered rumstate attnum l /\ ordered rumstate attnum r /\
  forall x y, In x l -> In y r -> order x y = Lt.
Proof.
  unfold ordered. induction l as [|a l IH]; cbn.
  - split; [intros H; split; [constructor|]; by split|by intros (_ & ? & _)].
  - split.
    + intros H. inversion H as [|?? H1 H2]; subst. apply IH in H1 as (H1 & H3 & H4).
      apply List.Forall_app in H2 as [H2 H5]. split; [by constructor|]. split; [done|].
      intros x y [<-|Hx] Hy; [|by apply H4]. rewrite List.Forall_forall in H5. by apply H5.
    + intros (H1 & H2 & H3). inversion H1; subst. constructor; [apply IH; auto|].
      apply List.Forall_app. split; [done|]. apply List.Forall_forall. intros y Hy. apply H3; auto.
Qed.

Lemma ordered_follows l x r :
  Forall good (l ++ x :: r) -> ordered rumstate attnum (l ++ x :: r) ->
  follows rumstate x (last_iptr Min l).
Proof.
  intros Hg Ho. pose proof (ordered_chained_min rumstate attnum _ Hg Ho) as C.
  apply chained_app in C as [_ C]. apply C.
Qed.

(** ** Pages *)

(** A search entry for the position of item [k]. *)
Definition index_at (items : list RumItem) (e : RumDataLeafItemIndex) (k : nat) : Prop :=
  (k < length items)%nat /\ offsetNumer e = Z.of_nat k + 1 /\
  pageOffset e = blen (posting Min (take k items)) /\
  agree (index_iptr e) (last_iptr Min (take k items)) /\
  (useAlternativeOrder rumstate = true ->
   norm (convertIndexToKey e RumItemSetMin) = norm (default RumItemSetMin (last (take k items)))).

Definition index_ok (items : list RumItem) (e : RumDataLeafItemIndex) : Prop :=
  offsetNumer e = InvalidOffsetNumber \/ exists k, index_at items e k.

Record leaf_page (page : RumPage) (items : list RumItem) : Prop := {
  lp_leaf : RumPageIsLeaf page = true;
  lp_good : Forall good items;
  lp_ordered : ordered rumstate attnum items;
  lp_maxoff : dataPageMaxoff page = Z.of_nat (length items);
  lp_data : exists pad, page_data page = posting Min items ++ pad;
  lp_size : blen (page_data page) = RumDataPageSize;
  lp_free : dataPageFreespace page = RumDataPageSize - blen (posting Min items);
  lp_indexes : Forall (index_ok items) (page_indexes page);
  lp_count : length (page_indexes page) = Z.to_nat RumDataLeafIndexCount;
}.

Lemma read_at_item data l x r pad cur :
  data = posting Min (l ++ x :: r) ++ pad -> good x -> follows rumstate x (last_iptr Min l) ->
  agree (iptr cur) (last_iptr Min l) ->
  read_at rumstate throw data (blen (posting Min l)) attnum cur =
  Some (Ok (blen (posting Min (l ++ [x])), read_as cur x)).
Proof.
  intros -> Hx Hf Ha. unfold read_at. rewrite posting_bytes_app, <- app_assoc, drop_blen.
  cbn [posting_bytes]. rewrite <- app_assoc.
  rewrite <- (item_bytes_agree _ _ _ Ha), read_item by (done || by apply (follows_agree _ _ _ Ha)).
  cbn [out_bind]. rewrite posting_snoc, <- (item_bytes_agree _ _ _ Ha), !blen_app.
  do 4 f_equal. lia.
Qed.

Lemma read_as_agree cur x : good x -> agree (iptr (read_as cur x)) (iptr x).
Proof. intros Hx. apply agree_refl, Hx. Qed.

(** Comparison with an item that has been read. *)
Lemma compare_read key cur x :
  wf_iptr (iptr key) -> good x ->
  match order key x with
  | Lt => compareRumItem rumstate attnum key (read_as cur x) < 0
  | Eq => compareRumItem rumstate attnum key (read_as cur x) = 0
  | Gt => 0 < compareRumItem rumstate attnum key (read_as cur x)
  end.
Proof.
  intros Hk Hx. rewrite <- item_order_norm, <- (norm_read_as cur x), item_order_norm.
  apply compare_cases; [done|apply Hx].
Qed.

(** ** Search *)

(** The place of [key]: the items before it, and the rest. *)
Definition placed (key : RumItem) (l r : list RumItem) : Prop :=
  Forall (fun x => order x key = Lt) l /\
  match r with [] => True | x :: _ => order x key <> Lt end.

Definition is_found (key : RumItem) (r : list RumItem) : bool :=
  match r with [] => false | x :: _ => bool_decide (order key x = Eq) end.

Lemma scan_leaf_spec key n data l r pad cur pageMaxoff :
  data = posting Min (l ++ r) ++ pad -> Forall good (l ++ r) -> ordered rumstate attnum (l ++ r) ->
  wf_iptr (iptr key) -> agree (iptr cur) (last_iptr Min l) ->
  Forall (fun x => order x key = Lt) l -> (n <= length r)%nat ->
  n = length r \/ Exists (fun x => order x key <> Lt) (take n r) ->
  pageMaxoff = Z.of_nat (length (l ++ r)) ->
  exists l' r' p, l ++ r = l' ++ r' /\ placed key l' r' /\ agree p (last_iptr Min l') /\
    scan_leaf rumstate throw n data attnum key pageMaxoff (Z.of_nat (length l) + 1)
      (blen (posting Min l)) cur =
    Some (Ok (is_found key r', Z.of_nat (length l') + 1, p, blen (posting Min l'))).
Proof.
  intros Hdata Hg Ho Hk. revert l cur Hdata Hg Ho. revert r.
  induction n as [|n IH]; intros r l cur Hdata Hg Ho Ha Hl Hn Hex Hm.
  - destruct Hex as [H0|Hex]; [|by apply Exists_nil in Hex]. destruct r; [|done].
    exists l, [], (iptr cur). split; [done|]. split; [by split|]. split; [done|].
    cbn [scan_leaf is_found]. by rewrite Hm, app_nil_r.
  - destruct r as [|x r]; [cbn in Hn; lia|].
    assert (good x) as Hx by (apply Forall_app in Hg as [_ Hg]; by inversion Hg).
    cbn [scan_leaf].
    rewrite (read_at_item data l x r pad) by (done || by apply (ordered_follows l x r)).
    cbn [out_bind]. pose proof (compare_read key cur x Hk Hx) as C.
    destruct (order key x) eqn:E.
    + replace (_ =? 0) with true by lia.
      exists l, (x :: r), (iptr cur). split; [done|]. split; [split; [done|]|].
      { apply (cmp_eq_sym order) in E. by rewrite E. }
      split; [done|]. cbn [is_found]. by rewrite bool_decide_true.
    + replace (_ =? 0) with false by lia. replace (_ <? 0) with true by lia.
      exists l, (x :: r), (iptr cur). split; [done|]. split; [split; [done|]|].
      { apply (cmp_gt_lt order) in E. by rewrite E. }
      split; [done|]. cbn [is_found]. by rewrite bool_decide_false by congruence.
    + replace (_ =? 0) with false by lia. replace (_ <? 0) with false by lia.
      apply (cmp_gt_lt order) in E.
      destruct (IH r (l ++ [x]) (read_as cur x)) as (l' & r' & p & H1 & H2 & H3 & H4).
      * by rewrite <- app_assoc.
      * by rewrite <- app_assoc.
      * by rewrite <- app_assoc.
      * rewrite last_iptr_app. by apply read_as_agree.
      * apply Forall_app. split; [done|]. by constructor.
      * cbn in Hn. lia.
      * destruct Hex as [Hex|Hex]; [left; cbn in Hex; lia|right].
        cbn in Hex. inversion Hex; subst; [congruence|done].
      * by rewrite <- app_assoc.
      * exists l', r', p. rewrite <- app_assoc in H1. split; [done|]. split; [done|]. split; [done|].
        rewrite length_app in H4. cbn in H4.
        replace (Z.of_nat (length l) + 1 + 1) with (Z.of_nat (length l + 1) + 1) by lia. done.
Qed.

Definition last_item (l : list RumItem) : RumItem := default RumItemSetMin (last l).

Lemma last_item_iptr l : iptr (last_item l) = last_iptr Min l.
Proof. unfold last_item, last_iptr. by destruct (last l). Qed.

Lemma min_before key : good key -> order RumItemSetMin key = Lt.
Proof.
  intros (Hp & Hv & _). apply valid_offset in Hv.
  assert (iptr_order Min (iptr key) = Lt) as E.
  { pose proof (block_range _ Hp). destruct Hp as (? & ? & ?).
    unfold iptr_order, cmp_lex, cmp_on. change (block Min) with 0. change (ip_posid Min) with 0.
    destruct (Z.compare_spec 0 (block (iptr key))); [|done|lia].
    destruct (Z.compare_spec 0 (ip_posid (iptr key))); [lia|done|lia]. }
  unfold item_order. destruct (useAlternativeOrder rumstate && _); [|exact E].
  unfold cmp_lex, cmp_sum, cmp_on. cbn [addInfoIsNull RumItemSetMin].
  by destruct (addInfoIsNull key).
Qed.

Lemma all_before l key :
  ordered rumstate attnum l -> order (last_item l) key = Lt -> Forall (fun x => order x key = Lt) l.
Proof.
  destruct l as [|x l _] using rev_ind; [constructor|].
  unfold last_item. rewrite last_snoc. cbn. intros Ho Hx. apply ordered_app in Ho as (_ & _ & Ho).
  apply Forall_app. split; [|by constructor]. apply List.Forall_forall. intros y Hy.
  apply (cmp_lt_trans order y x key); [|done]. apply Ho; [done|by left].
Qed.

Lemma good_last items k : Forall good items -> wf_iptr (iptr (last_item (take k items))).
Proof. intros H. rewrite last_item_iptr. apply last_iptr_wf. by apply Forall_take. Qed.

Lemma index_compare items e k key :
  Forall good items -> index_at items e k -> good key ->
  match order (last_item (take k items)) key with
  | Lt => (if useAlternativeOrder rumstate
           then compareRumItem rumstate attnum (convertIndexToKey e RumItemSetMin) key
           else rumCompareItemPointers (index_iptr e) (iptr key)) < 0
  | _ => ~ (if useAlternativeOrder rumstate
            then compareRumItem rumstate attnum (convertIndexToKey e RumItemSetMin) key
            else rumCompareItemPointers (index_iptr e) (iptr key)) < 0
  end.
Proof.
  intros Hg (_ & _ & _ & (Hwf & _ & Hag) & Halt) Hk.
  assert (forall z, sgn_cmp z = order (last_item (take k items)) key ->
    match order (last_item (take k items)) key with Lt => z < 0 | _ => ~ z < 0 end) as S.
  { intros z <-. unfold sgn_cmp. destruct (Z.compare_spec z 0); lia. }
  apply S. destruct (useAlternativeOrder rumstate) eqn:E.
  - specialize (Halt eq_refl). rewrite compare_item.
    + rewrite <- item_order_norm, Halt. apply item_order_norm.
    + apply (f_equal iptr) in Halt. rewrite !norm_iptr in Halt. rewrite Halt. by apply good_last.
    + apply Hk.
  - rewrite Hag by done. rewrite compare_iptr by (apply Hk || by apply last_iptr_wf, Forall_take).
    unfold item_order. rewrite E. cbn. unfold cmp_on. by rewrite last_item_iptr.
Qed.

(** What the search entries know: item [k] comes next, and either nothing about
    the end or an item that is not before the key. *)
Definition narrowed (items : list RumItem) (key : RumItem) (st : Z * Z * Z * ItemPointerData) : Prop :=
  exists k, st.1.1.1 = blen (posting Min (take k items)) /\ st.1.1.2 = Z.of_nat k + 1 /\
    agree st.2 (last_iptr Min (take k items)) /\ (k <= length items)%nat /\
    Forall (fun x => order x key = Lt) (take k items) /\
    (st.1.2 = Z.of_nat (length items) \/
     exists m x, st.1.2 = Z.of_nat (S m) /\ items !! m = Some x /\ order x key <> Lt).

Lemma search_indexes_spec items key indexes ptr first p :
  Forall good items -> ordered rumstate attnum items -> good key -> Forall (index_ok items) indexes ->
  narrowed items key (ptr, first, Z.of_nat (length items), p) ->
  narrowed items key
    (search_indexes rumstate attnum key indexes ptr first (Z.of_nat (length items)) p).
Proof.
  intros Hg Ho Hk Hix. revert ptr first p. induction Hix as [|e indexes He Hix IH]; intros ptr first p Hn;
    [done|]. cbn [search_indexes].
  destruct (Z.eqb_spec (offsetNumer e) InvalidOffsetNumber) as [|Hne]; [done|].
  destruct He as [|[k Hat]]; [done|].
  pose proof (index_compare items e k key Hg Hat Hk) as C.
  pose proof Hat as (Hlen & Hoff & Hptr & Hag & _).
  pose proof Ho as Ho'. rewrite <- (take_drop k items) in Ho'. apply ordered_app in Ho' as (Ho' & _ & _).
  destruct (order (last_item (take k items)) key) eqn:E.
  2: { replace (_ <? 0) with true by (symmetry; by apply Z.ltb_lt). apply IH.
       exists k. cbn. do 3 (split; [done|]). split; [lia|]. split; [by apply all_before|auto]. }
  all: replace (_ <? 0) with false by (symmetry; apply Z.ltb_ge; lia).
  all: destruct Hn as (k0 & H1 & H2 & H3 & H4 & H5 & _); exists k0; cbn; do 5 (split; [done|]); right.
  all: destruct k as [|k]; [unfold last_item in E; cbn in E; by rewrite min_before in E|].
  all: destruct (lookup_lt_is_Some_2 items k) as [x Hx]; [lia|]; exists k, x.
  all: split; [lia|]; split; [done|].
  all: rewrite (take_S_r _ _ _ Hx) in E; unfold last_item in E; rewrite last_snoc in E; cbn in E;
    by rewrite E.
Qed.

Lemma exists_in_take items key k m x :
  Forall (fun y => order y key = Lt) (take k items) -> items !! m = Some x -> order x key <> Lt ->
  (k <= m)%nat /\ Exists (fun y => order y key <> Lt) (take (S m - k) (drop k items)).
Proof.
  intros Hf Hx Hne. assert (k <= m)%nat as Hkm.
  { destruct (decide (k <= m)%nat); [done|]. exfalso. apply Hne.
    rewrite Forall_lookup in Hf. apply (Hf m). rewrite lookup_take_lt; [done|lia]. }
  split; [done|]. apply Exists_exists. exists x. split; [|done].
  apply list_elem_of_lookup. exists (m - k)%nat. rewrite lookup_take_lt by lia.
  rewrite lookup_drop. by replace (k + (m - k))%nat with m by lia.
Qed.

(** The search returns the place of the key. *)
Lemma findInLeafPage_spec page items key :
  leaf_page page items -> good key ->
  exists l r p, items = l ++ r /\ placed key l r /\ agree p (last_iptr Min l) /\
    findInLeafPage rumstate throw attnum key page =
    Some (Ok (is_found key r, Z.of_nat (length l) + 1, p, blen (posting Min l))).
Proof.
  intros [_ Hg Ho Hm [pad Hd] _ _ Hix _] Hk. unfold findInLeafPage.
  pose proof (search_indexes_spec items key (page_indexes page) 0 FirstOffsetNumber Min Hg Ho Hk Hix) as N.
  rewrite Hm. destruct (search_indexes _ _ _ _ _ _ _ _) as [[[ptr first] maxoff] p].
  destruct N as (k & H1 & H2 & H3 & H4 & H5 & H6).
  { exists 0%nat. cbn. do 2 (split; [done|]). split; [apply agree_refl, min_wf|].
    split; [lia|]. split; [constructor|auto]. }
  cbn in H1, H2, H3, H6. subst ptr first.
  destruct (scan_leaf_spec key (Z.to_nat (maxoff - (Z.of_nat k + 1) + 1)) (page_data page)
              (take k items) (drop k items) pad (mk_item p true 0) (Z.of_nat (length items)))
    as (l & r & q & E1 & E2 & E3 & E4); rewrite ?take_drop; try done.
  - apply Hk.
  - rewrite length_drop. destruct H6 as [->|(m & x & -> & Hx & Hne)]; [lia|].
    apply lookup_lt_Some in Hx. lia.
  - rewrite length_drop. destruct H6 as [->|(m & x & -> & Hx & Hne)]; [left; lia|right].
    destruct (exists_in_take items key k m x H5 Hx Hne) as [_ He].
    by replace (Z.to_nat (Z.of_nat (S m) - (Z.of_nat k + 1) + 1)) with (S m - k)%nat by lia.
  - rewrite take_drop in E1. exists l, r, q. rewrite length_take_le in E4 by done. done.
Qed.

(** ** The search entries *)

Lemma last_posid l : Forall good l -> 0 <= ip_posid (last_iptr Min l) <= MaxOffsetNumber.
Proof.
  intros H. unfold last_iptr. destruct (last l) as [x|] eqn:E; [|cbn; unfold MaxOffsetNumber; lia].
  apply last_Some_elem_of in E. rewrite Forall_forall in H. destruct (H _ E) as ((_ & _ & ?) & Hv & _).
  apply valid_offset in Hv. lia.
Qed.

Lemma alternative_index item i ptr k :
  wf_iptr (iptr item) -> 0 <= ip_posid (iptr item) <= MaxOffsetNumber ->
  let p := iptr item in
  let e := mk_index (if addInfoIsNull item
                     then mk_iptr (bi_hi p) (bi_lo p) (Z.lor (ip_posid p) ALT_ADD_INFO_NULL_FLAG)
                     else p) i ptr (addInfo item) in
  wf_iptr (index_iptr e) /\ norm (convertIndexToKey e k) = norm item.
Proof.
  intros (Hhi & Hlo & _) Hpos. destruct (posid_flag _ Hpos) as (F1 & F2 & F3 & F4).
  destruct item as [[hi lo pos] [|] a]; cbn in *.
  - split; [split; cbn; lia|]. unfold convertIndexToKey. cbn. by rewrite F3, F4.
  - split; [split; cbn; unfold MaxOffsetNumber in *; lia|].
    unfold convertIndexToKey. cbn. by rewrite F1.
Qed.

Lemma index_loop_spec data l r pad item incr j maxoff cells :
  data = posting Min (l ++ r) ++ pad -> Forall good (l ++ r) -> ordered rumstate attnum (l ++ r) ->
  norm item = norm (last_item l) -> tracks rumstate incr (last_iptr Min l) -> 0 <= j ->
  j + Z.of_nat (length cells) = RumDataLeafIndexCount -> maxoff = Z.of_nat (length (l ++ r)) ->
  exists cells', Forall (index_ok (l ++ r)) cells' /\ length cells' = length cells /\
    index_loop rumstate throw (length r) data attnum (Z.of_nat (length l) + 1) (blen (posting Min l))
      item incr j maxoff cells = Some (Ok (blen (posting Min (l ++ r)), cells')).
Proof.
  intros Hd Hg Ho. revert l item incr j cells Hd Hg Ho.
  induction r as [|x r IH]; intros l item incr j cells Hd Hg Ho Hitem Htr Hj Hc Hm.
  { eexists. split; [|split; [|cbn [length index_loop]; by rewrite app_nil_r]].
    - apply List.Forall_map. apply List.Forall_forall. intros e _. by left.
    - by rewrite length_map. }
  assert (iptr item = last_iptr Min l) as Hip.
  { apply (f_equal iptr) in Hitem. by rewrite !norm_iptr, last_item_iptr in Hitem. }
  assert (good x) as Hx by (apply Forall_app in Hg as [_ Hg]; by inversion Hg).
  assert (Forall good l) as Hl by (by apply Forall_app in Hg as [Hg _]).
  pose proof (ordered_follows l x r Hg Ho) as Hf.
  cbn [length index_loop].
  destruct (read_item_incr rumstate throw attnum x (last_iptr Min l) item incr
              (posting (iptr x) r ++ pad) Hx Hf Htr) as (incr' & Htr' & Hread).
  assert (drop (Z.to_nat (blen (posting Min l))) data =
          bytes_of (last_iptr Min l) x ++ posting (iptr x) r ++ pad) as Hdrop.
  { by rewrite Hd, posting_bytes_app, <- app_assoc, drop_blen; cbn; rewrite <- app_assoc. }
  assert (blen data - blen (posting (iptr x) r ++ pad) = blen (posting Min (l ++ [x]))) as Hblen.
  { rewrite Hd, posting_snoc, posting_bytes_app. cbn [posting_bytes]. rewrite !blen_app. lia. }
  rewrite Hdrop, Hread. cbn [out_bind]. rewrite Hblen.
  assert (forall j' cells', 0 <= j' -> j' + Z.of_nat (length cells') = RumDataLeafIndexCount ->
    exists out, Forall (index_ok (l ++ x :: r)) out /\ length out = length cells' /\
      index_loop rumstate throw (length r) data attnum (Z.of_nat (length l) + 1 + 1)
        (blen (posting Min (l ++ [x]))) (read_as item x) incr' j' maxoff cells' =
      Some (Ok (blen (posting Min (l ++ x :: r)), out))) as Next.
  { intros j' cells' Hj' Hc'.
    assert ((l ++ [x]) ++ r = l ++ x :: r) as Eapp by (by rewrite <- app_assoc).
    destruct (IH (l ++ [x]) (read_as item x) incr' j' cells') as (out & D1 & D2 & D3);
      rewrite ?Eapp, ?last_iptr_app; try done.
    - rewrite norm_read_as. unfold last_item. by rewrite last_snoc.
    - exists out. rewrite Eapp in D1, D3. split; [done|]. split; [done|].
      rewrite length_app in D3. cbn in D3.
      by replace (Z.of_nat (length l) + 1 + 1) with (Z.of_nat (length l + 1) + 1) by lia. }
  destruct (Z.ltb_spec ((j + 1) * maxoff) ((Z.of_nat (length l) + 1) * (RumDataLeafIndexCount + 1)))
    as [Hlt|Hge]; [|by apply Next].
  assert (j < RumDataLeafIndexCount) as Hj32.
  { assert (Z.of_nat (length l) + 1 <= maxoff) by (rewrite Hm, length_app; cbn; lia).
    assert ((j + 1) * maxoff < maxoff * (RumDataLeafIndexCount + 1)).
    { apply Z.lt_le_trans with (1 := Hlt). apply Z.mul_le_mono_nonneg_r; [done|done]. }
    rewrite Z.mul_comm in H0. apply Z.mul_lt_mono_pos_l in H0; lia. }
  destruct cells as [|e cells]; [cbn in Hc; lia|].
  destruct (Next (j + 1) cells) as (out & D1 & D2 & ->); [lia|cbn in Hc; lia|].
  cbn [out_bind]. eexists. split; [|split; [|reflexivity]]; [|cbn; by rewrite D2].
  constructor; [|done]. right. exists (length l). split; [rewrite length_app; cbn; lia|].
  rewrite take_app_length. pose proof (last_posid l Hl) as Hpos. pose proof (last_iptr_wf l Hl) as Hw.
  rewrite <- Hip in Hpos, Hw.
  destruct (alternative_index item (Z.of_nat (length l) + 1) (blen (posting Min l)) RumItemSetMin Hw Hpos)
    as [A1 A2].
  destruct (useAlternativeOrder rumstate) eqn:Halt; cbn [offsetNumer pageOffset index_iptr].
  - do 2 (split; [done|]). split; [split; [exact A1|split; [by rewrite <- Hip|congruence]]|].
    intros _. rewrite A2. exact Hitem.
  - do 2 (split; [done|]). split; [rewrite <- Hip; by apply agree_refl|congruence].
Qed.

Lemma item_bytes_pos p x : 2 <= blen (bytes_of p x).
Proof.
  unfold item_bytes, rumDataPageLeafWriteItemPointer. rewrite blen_app.
  pose proof (blen_nonneg (addinfo_bytes rumstate attnum x)).
  destruct (useAlternativeOrder rumstate).
  - unfold iptr_bytes. rewrite !blen_app, !blen_le_bytes. lia.
  - rewrite blen_app. cbn [write_block_incr write_offset]. destruct (SEVENTHBIT <=? _);
      rewrite !blen_cons; blens; lia.
Qed.

Lemma posting_count p items : 2 * Z.of_nat (length items) <= blen (posting p items).
Proof.
  revert p. induction items as [|x items IH]; intros p; [done|].
  cbn [length posting_bytes]. rewrite blen_app. pose proof (item_bytes_pos p x). specialize (IH (iptr x)). lia.
Qed.

(** After the entries are updated the page represents the items it holds. *)
Lemma updateItemIndexes_spec page items pad :
  RumPageIsLeaf page = true -> Forall good items -> ordered rumstate attnum items ->
  dataPageMaxoff page = Z.of_nat (length items) -> page_data page = posting Min items ++ pad ->
  blen (page_data page) = RumDataPageSize ->
  length (page_indexes page) = Z.to_nat RumDataLeafIndexCount ->
  exists free indexes,
    updateItemIndexes rumstate throw page attnum =
      Some (Ok (with_leaf page (dataPageMaxoff page) free (page_data page) indexes)) /\
    leaf_page (with_leaf page (dataPageMaxoff page) free (page_data page) indexes) items.
Proof.
  intros Hleaf Hg Ho Hm Hd Hs Hc. unfold updateItemIndexes. rewrite Hm, Nat2Z.id.
  destruct (index_loop_spec (page_data page) [] items pad RumItemSetMin 0 0 (Z.of_nat (length items))
              (page_indexes page)) as (cells & C1 & C2 & C3); try done.
  { rewrite Hc. done. }
  change (Z.of_nat (length []) + 1) with FirstOffsetNumber in C3. change (blen (posting Min [])) with 0 in C3.
  rewrite C3.
  cbn [out_bind]. eexists _, cells. split; [reflexivity|].
  cbn [app] in *. pose proof (posting_count Min items). pose proof (blen_nonneg pad).
  rewrite Hd, blen_app in Hs.
  split; cbn [with_leaf dataPageMaxoff page_data page_indexes dataPageFreespace]; try done.
  - by exists pad.
  - by rewrite Hd, blen_app.
  - apply wrap_u_small. change RumDataPageSize with 7368 in *. blens. lia.
  - by rewrite C2, Hc.
Qed.

(** ** Sizes *)

Lemma block_incr_size_mono fuel n m : 0 <= n <= m -> block_incr_size fuel n <= block_incr_size fuel m.
Proof.
  revert n m. induction fuel as [|fuel IH]; intros n m Hnm; [done|]. cbn [block_incr_size].
  assert (0 <= block_incr_size fuel (Z.shiftr m 7)) as Hpos.
  { rewrite block_incr_size_bytes. apply blen_nonneg. }
  destruct (Z.ltb_spec n HIGHBIT), (Z.ltb_spec m HIGHBIT); try lia.
  rewrite !Z.shiftr_div_pow2 in * by lia. specialize (IH (n / 2 ^ 7) (m / 2 ^ 7)).
  pose proof (Z.div_le_mono n m (2 ^ 7)). pose proof (Z.div_pos n (2 ^ 7)). lia.
Qed.

(** The nearer the pointer before, the shorter the item. *)
Lemma item_size_mono p q x :
  good x -> follows rumstate x p -> wf_iptr q -> (useAlternativeOrder rumstate = false -> block q <= block p) ->
  blen (bytes_of p x) <= blen (bytes_of q x).
Proof.
  intros Hx [Hp Hle] Hq Hqp. unfold item_bytes, rumDataPageLeafWriteItemPointer.
  destruct (useAlternativeOrder rumstate); [done|]. specialize (Hle eq_refl). specialize (Hqp eq_refl).
  rewrite !blen_app, <- !block_incr_size_bytes.
  rewrite !block_incr_diff by (done || apply Hx || lia).
  pose proof (block_incr_size_mono 5 (block (iptr x) - block p) (block (iptr x) - block q)). lia.
Qed.

Lemma posting_size_mono p y r :
  Forall good r -> wf_iptr p -> wf_iptr (iptr y) ->
  (useAlternativeOrder rumstate = false -> block p <= block (iptr y)) ->
  match r with [] => True | c :: _ => follows rumstate c (iptr y) end ->
  blen (posting (iptr y) r) <= blen (posting p r).
Proof.
  intros Hg Hp Hy Hpy Hf. destruct r as [|c r]; [done|]. inversion Hg; subst. cbn [posting_bytes].
  rewrite !blen_app. pose proof (item_size_mono (iptr y) p c ltac:(done) Hf Hp Hpy). lia.
Qed.

Lemma item_size_min p x :
  good x -> follows rumstate x p -> blen (bytes_of p x) <= blen (bytes_of Min x).
Proof.
  intros Hx Hf. apply item_size_mono; [done|done|apply min_wf|]. intros _. cbn.
  destruct Hf as [Hp _]. pose proof (block_range p Hp). change (block Min) with 0. lia.
Qed.

(** ** Storing *)

Lemma store_item data d junk p x :
  data = posting Min d ++ junk -> agree p (last_iptr Min d) -> blen data = RumDataPageSize ->
  blen (posting Min d) + blen (bytes_of p x) <= RumDataPageSize ->
  exists data' junk', store data (blen (posting Min d)) (bytes_of p x) = Some data' /\
    data' = posting Min (d ++ [x]) ++ junk' /\ blen data' = RumDataPageSize.
Proof.
  intros -> Ha Hs Hfit. unfold store. replace (_ <=? _) with true by lia.
  set (bs := bytes_of p x) in *. eexists _, (drop (Z.to_nat (blen bs)) junk). split; [reflexivity|].
  rewrite take_blen. assert (drop (Z.to_nat (blen (posting Min d) + blen bs)) (posting Min d ++ junk) =
    drop (Z.to_nat (blen bs)) junk) as ->.
  { rewrite Z2Nat.inj_add by apply blen_nonneg. by rewrite <- drop_drop, drop_blen. }
  rewrite posting_snoc, <- (item_bytes_agree _ _ x Ha). fold bs. rewrite <- app_assoc. split; [done|].
  rewrite !blen_app in *. unfold blen in *. rewrite length_drop. lia.
Qed.

(** ** The merge of old and new items *)

Abbreviation merge := (rumMergeRumItems rumstate attnum).

(** The state of the loop: [d] has been placed, [r] are the old items left. *)
Record placing (items : list RumItem) (st : PlaceState) (d r n : list RumItem) : Prop := {
  pl_data : exists junk, place_data st = posting Min d ++ junk;
  pl_size : blen (place_data st) = RumDataPageSize;
  pl_ptr : place_ptr st = blen (posting Min d);
  pl_iptr : agree (place_iptr st) (last_iptr Min d);
  pl_old : exists l, items = l ++ r /\ place_off st = Z.of_nat (length l) + 1 /\
    (if place_copyItemEmpty st
     then r = [] \/ place_copyPtr st = blen (posting Min l) /\
                    agree (iptr (place_copyItem st)) (last_iptr Min l)
     else exists x r', r = x :: r' /\ norm (place_copyItem st) = norm x /\
                       place_copyPtr st = blen (posting Min (l ++ [x])));
  pl_good : Forall good (d ++ r) /\ Forall good n;
  pl_ordered : ordered rumstate attnum (d ++ r) /\ ordered rumstate attnum n /\
    (place_stopAppend st = false -> ordered rumstate attnum (d ++ n));
  pl_space : 0 <= place_freespace st /\
    blen (posting Min d) + blen (posting (last_iptr Min d) r) + place_freespace st <= RumDataPageSize;
}.

Lemma norm_compare x x' y : norm x = norm x' -> wf_iptr (iptr x') -> wf_iptr (iptr y) ->
  match order x' y with
  | Lt => compareRumItem rumstate attnum x y < 0
  | Eq => compareRumItem rumstate attnum x y = 0
  | Gt => 0 < compareRumItem rumstate attnum x y
  end.
Proof.
  intros E Hx Hy. rewrite <- item_order_norm, <- E, item_order_norm. apply compare_cases; [|done].
  apply (f_equal iptr) in E. rewrite !norm_iptr in E. by rewrite E.
Qed.

(** Reading the next old item. *)
Lemma place_read_spec copy pad items st d r n maxoff :
  copy = posting Min items ++ pad -> Forall good items -> ordered rumstate attnum items ->
  maxoff = Z.of_nat (length items) -> placing items st d r n ->
  exists st', place_read rumstate throw copy attnum maxoff st = Some (Ok st') /\
    placing items st' d r n /\ place_off st' = place_off st /\ place_curitem st' = place_curitem st /\
    place_insertCount st' = place_insertCount st /\ place_stopAppend st' = place_stopAppend st /\
    place_freespace st' = place_freespace st /\ place_ptr st' = place_ptr st /\
    place_iptr st' = place_iptr st /\ place_data st' = place_data st /\
    match r with [] => True | x :: _ => norm (place_copyItem st') = norm x end /\
    (place_copyItemEmpty st' = true -> r = []).
Proof.
  intros Hcopy Hg Ho Hm P. unfold place_read. destruct P as [P1 P2 P3 P4 (l & L1 & L2 & L3) P6 P7 P8].
  destruct (place_copyItemEmpty st) eqn:Ee; cbn [andb].
  - destruct r as [|x r].
    + replace (place_off st <=? maxoff) with false by (rewrite app_nil_r in L1; rewrite L2, Hm, L1; symmetry; apply Z.leb_gt; lia).
      exists st. split; [done|]. split; [|done]. split; try done. exists l. rewrite Ee. auto.
    + replace (place_off st <=? maxoff) with true by (rewrite L2, Hm, L1, length_app; symmetry; apply Z.leb_le; cbn; lia).
      destruct L3 as [|[L3 L4]]; [done|]. rewrite L3.
      assert (good x) as Hx by (rewrite L1 in Hg; apply Forall_app in Hg as [_ Hg]; by inversion Hg).
      rewrite (read_at_item copy l x r pad) by
        (rewrite <- ?L1; done || (rewrite L1 in Hg, Ho; by apply (ordered_follows l x r))).
      cbn [out_bind]. eexists. split; [reflexivity|].
      split; [|cbn; repeat split; try done; apply norm_read_as].
      split; try done. exists l. split; [done|]. split; [done|]. cbn.
      exists x, r. split; [done|]. split; [apply norm_read_as|done].
  - exists st. split; [done|]. destruct L3 as (x & r' & -> & L3 & L4). split; [|repeat split; try done; congruence].
    split; try done. exists l. split; [done|]. split; [done|]. rewrite Ee. eauto.
Qed.

Lemma norm_same_iptr x y : norm x = norm y -> iptr x = iptr y.
Proof. intros E. apply (f_equal iptr) in E. by rewrite !norm_iptr in E. Qed.

Lemma good_norm x y : norm x = norm y -> good y -> good x.
Proof. intros E Hy. apply wf_item_norm. rewrite E. by apply wf_item_norm. Qed.

(** Placing the next old item. *)
Lemma place_old_spec items st d x r n cmp :
  placing items st d (x :: r) n -> norm (place_copyItem st) = norm x ->
  place_copyItemEmpty st = false ->
  (place_stopAppend st = false -> forall y, In y (if cmp =? 0 then tail n else n) -> order x y = Lt) ->
  exists st', place_old rumstate attnum cmp st = Some (Ok st') /\
    placing items st' (d ++ [x]) r (if cmp =? 0 then tail n else n) /\
    place_curitem st' = (if cmp =? 0 then S (place_curitem st) else place_curitem st) /\
    place_insertCount st' = place_insertCount st /\ place_stopAppend st' = place_stopAppend st /\
    place_freespace st' = place_freespace st.
Proof.
  intros [[junk P1] P2 P3 P4 (l & L1 & L2 & L3) [P6 P6'] (P7 & P7n & P7') [P8 P9]] Hc Hfull Hlt.
  assert (good x) as Hx by (apply Forall_app in P6 as [_ P6]; by inversion P6).
  pose proof (good_norm _ _ Hc Hx) as Hcopy. pose proof (norm_same_iptr _ _ Hc) as Hip.
  unfold place_old. rewrite place_item by done. cbn [out_bind].
  assert (bytes_of (place_iptr st) (place_copyItem st) = bytes_of (place_iptr st) x) as Eb.
  { by rewrite <- item_bytes_norm, Hc, item_bytes_norm. }
  rewrite Eb, P3. cbn [posting_bytes] in P9. rewrite blen_app in P9.
  rewrite <- (item_bytes_agree _ _ x P4) in P9.
  destruct (store_item (place_data st) d junk (place_iptr st) x P1 P4 P2) as (data' & junk' & -> & D1 & D2).
  { pose proof (blen_nonneg (posting (iptr x) r)). lia. }
  eexists. split; [reflexivity|]. split; [|done].
  assert (d ++ x :: r = (d ++ [x]) ++ r) as Eapp by (by rewrite <- app_assoc).
  split; cbn [place_data place_ptr place_iptr place_off place_copyItemEmpty place_copyPtr place_copyItem
              place_freespace]; try done.
  - by exists junk'.
  - rewrite posting_snoc, blen_app. by rewrite (item_bytes_agree _ _ x P4).
  - rewrite last_iptr_app, Hip. apply agree_refl, Hx.
  - exists (l ++ [x]). split; [by rewrite <- app_assoc|]. split; [rewrite length_app; cbn; lia|].
    right. rewrite last_iptr_app, Hip. rewrite Hfull in L3.
    destruct L3 as (x' & r' & [= <- <-] & _ & L3).
    split; [done|]. apply agree_refl, Hx.
  - rewrite <- Eapp. split; [done|]. destruct (cmp =? 0); [by apply Forall_tail|done].
  - rewrite <- Eapp. split; [done|]. split; [destruct (cmp =? 0), n; try done; by inversion P7n|].
    cbn [place_stopAppend]. intros Hstop. specialize (P7' Hstop). specialize (Hlt Hstop).
    apply ordered_app in P7' as (_ & _ & Dn). rewrite Eapp in P7. apply ordered_app in P7 as (P7 & _ & _).
    apply ordered_app. split; [done|]. split; [destruct (cmp =? 0), n; try done; by inversion P7n|].
    intros a b Ha Hb. apply in_app_or in Ha as [Ha|[<-|[]]]; [|by apply Hlt].
    apply Dn; [done|]. destruct (cmp =? 0), n; try done. by right.
  - split; [done|]. rewrite posting_snoc, last_iptr_app, blen_app.
    rewrite <- (item_bytes_agree _ _ x P4). lia.
Qed.

(** Placing the next new item, or stopping for lack of space. *)
Lemma place_new_spec items st d r y n :
  placing items st d r (y :: n) -> place_stopAppend st = false ->
  match r with [] => True | x :: _ => order y x = Lt end ->
  exists st', place_new rumstate attnum y st = Some (Ok st') /\
    (place_stopAppend st' = true /\ placing items st' d r (y :: n) /\
     place_curitem st' = place_curitem st /\ place_insertCount st' = place_insertCount st /\
     place_freespace st < blen (bytes_of Min y) \/
     place_stopAppend st' = place_stopAppend st /\ placing items st' (d ++ [y]) r n /\
     place_curitem st' = S (place_curitem st) /\ place_insertCount st' = place_insertCount st + 1).
Proof.
  intros P Hstop Hyx. pose proof P as [[junk P1] P2 P3 P4 L [P6 P6'] (P7 & P7n & P7') [P8 P9]].
  specialize (P7' Hstop).
  assert (good y) as Hy by (by inversion P6').
  assert (Forall good d) as Hd by (by apply Forall_app in P6 as [P6 _]).
  assert (Forall good (d ++ y :: n)) as Hdn by (by apply Forall_app).
  pose proof (ordered_follows d y n Hdn P7') as Hf.
  pose proof (follows_agree _ _ _ P4 Hf) as Hf'.
  unfold place_new. rewrite check_place_size by done.
  set (a := place_ptr st mod MAXIMUM_ALIGNOF). replace (a + _ - a) with (blen (bytes_of (place_iptr st) y)) by lia.
  destruct (Z.leb_spec (blen (bytes_of (place_iptr st) y)) (place_freespace st)) as [Hfit|Hno].
  2: { eexists. split; [reflexivity|]. left. cbn [place_stopAppend place_curitem place_insertCount].
       split; [done|]. split; [destruct P; split; try done; by split|]. do 2 (split; [done|]).
       pose proof (item_size_min (place_iptr st) y Hy Hf'). lia. }
  rewrite place_item by done. cbn [out_bind]. rewrite P3.
  destruct (store_item (place_data st) d junk (place_iptr st) y P1 P4 P2) as (data' & junk' & -> & D1 & D2).
  { pose proof (blen_nonneg (posting (last_iptr Min d) r)). lia. }
  eexists. split; [reflexivity|]. right. split; [done|].
  assert (ordered rumstate attnum ((d ++ [y]) ++ r)) as Hord.
  { assert (ordered rumstate attnum (d ++ [y])) as H1.
    { replace (d ++ y :: n) with ((d ++ [y]) ++ n) in P7' by (by rewrite <- app_assoc).
      apply ordered_app in P7'. apply P7'. }
    apply ordered_app in P7 as (_ & H2 & H3).
    apply ordered_app. split; [done|]. split; [done|].
    intros u v Hu Hv. apply in_app_or in Hu as [Hu|[<-|[]]]; [by apply H3|].
    destruct r as [|x r]; [done|]. destruct Hv as [<-|Hv]; [done|].
    apply (cmp_lt_trans order y x v); [done|]. inversion H2 as [|?? _ H4]; subst.
    rewrite List.Forall_forall in H4. by apply H4. }
  assert (Forall good ((d ++ [y]) ++ r)) as Hgr.
  { apply Forall_app in P6 as [_ P6]. rewrite !Forall_app. repeat split; [done|by constructor|done]. }
  split; [|done].
  split; cbn [place_data place_ptr place_iptr place_off place_copyItemEmpty place_copyPtr place_copyItem
              place_freespace]; try done.
  - by exists junk'.
  - rewrite posting_snoc, blen_app. by rewrite (item_bytes_agree _ _ y P4).
  - rewrite last_iptr_app. apply agree_refl, Hy.
  - split; [done|by inversion P6'].
  - split; [done|]. split; [by inversion P7n|]. intros _. by rewrite <- app_assoc.
  - split; [lia|]. rewrite posting_snoc, last_iptr_app, blen_app.
    rewrite <- (item_bytes_agree _ _ y P4).
    pose proof (posting_size_mono (last_iptr Min d) y r) as Hmono.
    apply Forall_app in P6 as [_ P6]. destruct Hf as [Hw Hle].
    assert (blen (posting (iptr y) r) <= blen (posting (last_iptr Min d) r)).
    { apply Hmono; [done|done|apply Hy|done|]. destruct r as [|c r]; [done|].
      pose proof (ordered_follows (d ++ [y]) c r Hgr Hord) as Hf2. by rewrite last_iptr_app in Hf2. }
    lia.
Qed.

Definition within (rightmost : bool) (bound : RumItem) (items : list RumItem) : Prop :=
  rightmost = true \/ Forall (fun x => order x bound <> Gt) items.

Lemma within_app rightmost bound l r :
  within rightmost bound l -> within rightmost bound r -> within rightmost bound (l ++ r).
Proof. intros [|Hl]; [by left|]. intros [|Hr]; [by left|]. right. by apply Forall_app. Qed.

Lemma merge_old_first x r t :
  good x -> Forall good t -> match t with [] => True | y :: _ => order x y = Lt end ->
  merge t (x :: r) = x :: merge t r.
Proof.
  intros Hx Ht Hlt. destruct t as [|y t]; [by destruct r|]. inversion Ht as [|?? Hy _]; subst.
  rewrite merge_cons. pose proof (compare_cases rumstate attnum y x) as C.
  rewrite (cmp_antisym order x y), Hlt in C. cbn in C. cbn zeta.
  replace (0 <? _) with true; [done|]. symmetry. apply Z.ltb_lt. apply C; [apply Hy|apply Hx].
Qed.

Lemma merge_same x y r t :
  good x -> good y -> order x y = Eq -> merge (y :: t) (x :: r) = x :: merge t r.
Proof.
  intros Hx Hy E. rewrite merge_cons. pose proof (compare_cases rumstate attnum y x) as C.
  rewrite (cmp_antisym order x y), E in C. cbn in C. cbn zeta. rewrite C by (apply Hx || apply Hy). done.
Qed.

Lemma merge_new_first x y r t :
  good x -> good y -> order x y = Gt -> merge (y :: t) (x :: r) = y :: merge t (x :: r).
Proof.
  intros Hx Hy E. rewrite merge_cons. pose proof (compare_cases rumstate attnum y x) as C.
  rewrite (cmp_antisym order x y), E in C. cbn in C. cbn zeta.
  assert (compareRumItem rumstate attnum y x < 0) by (apply C; [apply Hy|apply Hx]).
  by replace (0 <? _) with false by lia; replace (_ =? 0) with false by lia.
Qed.

Lemma drop_cons_lookup {A} k (l : list A) y n : y :: n = drop k l -> l !! k = Some y /\ n = drop (S k) l.
Proof.
  intros E. split.
  - rewrite <- (Nat.add_0_r k), <- lookup_drop, <- E. done.
  - replace (S k) with (k + 1)%nat by lia. by rewrite <- drop_drop, <- E.
Qed.

Lemma drop_nil_lookup {A} k (l : list A) : [] = drop k l -> l !! k = None.
Proof. intros E. rewrite <- (Nat.add_0_r k), <- lookup_drop, <- E. done. Qed.

(** What the loop is given and what it does. *)
Definition placed_all (items : list RumItem) (rightmost : bool) (bound : RumItem)
  (st : PlaceState) (d r n : list RumItem) (res : outcome PlaceState) : Prop :=
  exists t n2 st', n = t ++ n2 /\ res = Some (Ok st') /\
    placing items st' (d ++ merge t r) [] n2 /\
    place_curitem st' = (place_curitem st + length t)%nat /\
    place_insertCount st' = place_insertCount st + Z.of_nat (length (merge t r)) - Z.of_nat (length r) /\
    within rightmost bound (d ++ merge t r) /\
    (place_stopAppend st = true -> t = []) /\
    (t = [] -> place_stopAppend st = false ->
     match n with
     | [] => True
     | y :: _ => place_freespace st < blen (bytes_of Min y) \/ rightmost = false /\ order bound y = Lt
     end).

Section loop.
Context (copy pad : bytes) (items new : list RumItem) (maxoff : Z) (rightmost : bool) (bound : RumItem).
Hypothesis Hcopy : copy = posting Min items ++ pad.
Hypothesis Hg : Forall good items.
Hypothesis Ho : ordered rumstate attnum items.
Hypothesis Hm : maxoff = Z.of_nat (length items).
Hypothesis Hb : wf_iptr (iptr bound).

Abbreviation loop := (place_loop rumstate throw).

Definition loop_correct (fuel : nat) : Prop :=
  forall st d r n,
  placing items st d r n -> n = drop (place_curitem st) new -> within rightmost bound (d ++ r) ->
  (length r + length n + (if place_stopAppend st then 1 else 2) <= fuel)%nat ->
  placed_all items rightmost bound st d r n (loop fuel copy attnum maxoff rightmost bound new st).

(** A round places the next item and goes on. *)
Definition place_step (fuel : nat) (cmp : Z) (st : PlaceState) : outcome PlaceState :=
  out! st := (if cmp <=? 0 then place_old rumstate attnum cmp st
              else match new !! place_curitem st with
                   | Some item => place_new rumstate attnum item st
                   | None => None end) in
  loop fuel copy attnum maxoff rightmost bound new st.

(** Copying the next old item, which comes before the new items left. *)
Lemma copy_step fuel st d x r n cmp :
  loop_correct fuel -> placing items st d (x :: r) n -> n = drop (place_curitem st) new ->
  within rightmost bound (d ++ x :: r) ->
  (S (length r) + length n + (if place_stopAppend st then 1 else 2) <= S fuel)%nat ->
  norm (place_copyItem st) = norm x -> place_copyItemEmpty st = false -> cmp <= 0 ->
  (place_stopAppend st = false -> forall y, In y (if cmp =? 0 then tail n else n) -> order x y = Lt) ->
  (if cmp =? 0 then exists y n', n = y :: n' /\ order x y = Eq /\ place_stopAppend st = false else True) ->
  placed_all items rightmost bound st d (x :: r) n (place_step fuel cmp st).
Proof.
  intros IH P Hn Hw Hfuel Hread Hfull Hcmp Hlt Heq.
  assert (good x) as Hx by (destruct P as [_ _ _ _ _ [P _] _ _]; apply Forall_app in P as [_ P]; by inversion P).
  assert (Hn_good : Forall good n) by (by destruct P as [_ _ _ _ _ [_ ?] _ _]).
  unfold place_step. replace (cmp <=? 0) with true by lia.
  destruct (place_old_spec items st d x r n cmp P Hread Hfull Hlt) as (st' & -> & P' & E1 & E2 & E3 & E4).
  cbn [out_bind]. assert (Eapp : (d ++ [x]) ++ r = d ++ x :: r) by (by rewrite <- app_assoc).
  destruct (IH st' (d ++ [x]) r (if cmp =? 0 then tail n else n))
    as (t & n2 & st2 & T1 & T2 & T3 & T4 & T5 & T6 & T7 & T8);
    [done| |by rewrite Eapp|rewrite E3; destruct n, (cmp =? 0); cbn in *; lia|].
  { rewrite E1. destruct (cmp =? 0) eqn:Ec; [|done]. destruct Heq as (y & n' & -> & _ & _).
    by apply drop_cons_lookup in Hn as [_ ->]. }
  rewrite <- app_assoc in T3, T6. cbn [app] in T3, T6.
  destruct (cmp =? 0) eqn:Ec.
  - destruct Heq as (y & n' & -> & Exy & Hstop). cbn [tail] in *.
    inversion Hn_good as [|?? Hy _]; subst.
    exists (y :: t), n2, st2. rewrite (merge_same x y r t) by done. cbn [length].
    split; [done|]. split; [done|]. split; [done|]. split; [lia|]. split; [lia|].
    split; [done|]. split; [congruence|done].
  - assert (merge t (x :: r) = x :: merge t r) as Em.
    { apply merge_old_first; [done| |].
      - rewrite T1 in Hn_good. by apply Forall_app in Hn_good as [? _].
      - destruct t as [|y t]; [done|]. destruct (place_stopAppend st) eqn:Hstop;
          [by specialize (T7 ltac:(by rewrite E3))|]. apply Hlt; [done|]. rewrite T1. by left. }
    exists t, n2, st2. rewrite Em. cbn [length]. split; [done|]. split; [done|]. split; [done|].
    split; [lia|]. split; [lia|]. split; [done|]. rewrite E3, E4 in *. done.
Qed.

(** Placing the next new item, which comes before the old ones left. *)
Lemma new_step fuel st d r y n cmp :
  loop_correct fuel -> placing items st d r (y :: n) -> y :: n = drop (place_curitem st) new ->
  within rightmost bound (d ++ r) ->
  (length r + S (length n) + 2 <= S fuel)%nat -> 0 < cmp -> place_stopAppend st = false ->
  match r with [] => True | x :: _ => order x y = Gt end -> within rightmost bound [y] ->
  placed_all items rightmost bound st d r (y :: n) (place_step fuel cmp st).
Proof.
  intros IH P Hn Hw Hfuel Hcmp Hstop Hgt Hy. unfold place_step. replace (cmp <=? 0) with false by lia.
  pose proof (drop_cons_lookup _ _ _ _ Hn) as [-> Hn'].
  destruct (place_new_spec items st d r y n P Hstop) as (st' & -> & Hcase).
  { destruct r as [|x r]; [done|]. by apply (cmp_gt_lt order). }
  cbn [out_bind]. destruct Hcase as [(C1 & C2 & C3 & C4 & C5)|(C1 & C2 & C3 & C4)].
  - destruct (IH st' d r (y :: n) C2) as (t & n2 & st2 & T1 & T2 & T3 & T4 & T5 & T6 & T7 & T8);
      [by rewrite C3|done|rewrite C1; cbn; lia|].
    specialize (T7 C1) as ->. exists [], n2, st2. rewrite C3, C4 in *.
    do 6 (split; [done|]). split; [done|]. intros _ _. by left.
  - destruct (IH st' (d ++ [y]) r n C2) as (t & n2 & st2 & T1 & T2 & T3 & T4 & T5 & T6 & T7 & T8);
      [by rewrite C3| |rewrite C1, Hstop; lia|].
    { rewrite <- app_assoc. destruct Hw as [?|Hw]; [by left|]. destruct Hy as [?|Hy]; [by left|].
      right. apply Forall_app in Hw as [Hd Hr]. rewrite !Forall_app. done. }
    assert (merge (y :: t) r = y :: merge t r) as Em.
    { destruct r as [|x r]; [by destruct t|].
      destruct P as [_ _ _ _ _ [Pg Pn] _ _]. apply Forall_app in Pg as [_ Pg].
      inversion Pg; inversion Pn; subst. by apply merge_new_first. }
    rewrite <- app_assoc in T3, T6. cbn [app] in T3, T6.
    exists (y :: t), n2, st2. rewrite Em. cbn [length]. split; [by rewrite T1|]. split; [done|].
    split; [done|]. split; [lia|]. split; [lia|]. split; [done|]. split; [congruence|done].
Qed.

(** Nothing more is placed. *)
Lemma stop_step st d n :
  placing items st d [] n -> within rightmost bound d ->
  (place_stopAppend st = false ->
   match n with [] => True | y :: _ => rightmost = false /\ order bound y = Lt end) ->
  placed_all items rightmost bound st d [] n (Some (Ok st)).
Proof.
  intros P Hw Hstop. exists [], n, st. change (merge [] []) with (@nil RumItem). rewrite !app_nil_r.
  split; [done|]. split; [done|]. split; [done|]. split; [cbn; lia|]. split; [cbn; lia|].
  split; [done|]. split; [done|]. intros _ E. specialize (Hstop E). destruct n; [done|by right].
Qed.

Lemma place_off_end st d r n : placing items st d r n -> (place_off st <=? maxoff) = match r with [] => false | _ => true end.
Proof.
  intros [_ _ _ _ (l & L1 & L2 & _) _ _ _]. rewrite L2, Hm, L1, length_app.
  destruct r; cbn; [apply Z.leb_gt|apply Z.leb_le]; lia.
Qed.

(** One round, after the next old item has been read. *)
Lemma place_round fuel st d r n :
  loop_correct fuel -> placing items st d r n -> n = drop (place_curitem st) new ->
  within rightmost bound (d ++ r) ->
  (length r + length n + (if place_stopAppend st then 1 else 2) <= S fuel)%nat ->
  match r with [] => True | x :: _ => norm (place_copyItem st) = norm x end ->
  (place_copyItemEmpty st = true -> r = []) ->
  placed_all items rightmost bound st d r n
    match place_next rumstate attnum maxoff rightmost bound new st with
    | Some cmp => place_step fuel cmp st
    | None => Some (Ok st)
    end.
Proof.
  intros IH P Hn Hw Hfuel Hread Hempty. unfold place_next. rewrite (place_off_end _ _ _ _ P).
  assert (Hfull : r <> [] -> place_copyItemEmpty st = false).
  { intros Hr. destruct (place_copyItemEmpty st); [by destruct Hr, Hempty|done]. }
  assert (Pn : Forall good n /\ ordered rumstate attnum n).
  { by destruct P as [_ _ _ _ _ [_ ?] (_ & ? & _) _]. }
  destruct Pn as [Pn On]. destruct n as [|y n].
  - rewrite (drop_nil_lookup _ _ Hn). destruct r as [|x r].
    + apply stop_step; [done|by rewrite app_nil_r in Hw|done].
    + by apply copy_step; auto.
  - pose proof (drop_cons_lookup _ _ _ _ Hn) as [-> _]. inversion Pn as [|?? Hy _]; subst.
    destruct r as [|x r].
    + rewrite app_nil_r in Hw. destruct (place_stopAppend st) eqn:Hstop; [apply stop_step; [done|done|congruence]|].
      cbn in Hfuel. set (c := compareRumItem rumstate attnum bound y).
      replace (if rightmost then Some 1 else if 0 <=? c then Some 1 else None)
        with (if rightmost || (0 <=? c) then Some 1 else None) by (by destruct rightmost).
      pose proof (compare_cases rumstate attnum bound y Hb (proj1 Hy)) as C.
      destruct (rightmost || (0 <=? c)) eqn:D.
      * apply new_step; try done; [by rewrite app_nil_r|].
        apply orb_true_iff in D as [D|D]; [by left|right]. constructor; [|done].
        rewrite (cmp_antisym order bound y). destruct (order bound y); cbn; [done| |done]. subst c. lia.
      * apply orb_false_iff in D as [D1 D2]. apply stop_step; [done|done|]. intros _. split; [done|].
        destruct (order bound y); [|done|]; subst c; lia.
    + destruct (place_stopAppend st) eqn:Hstop; cbn in Hfuel.
      * apply copy_step; try done; [by rewrite Hstop|by apply Hfull|congruence].
      * assert (good x) as Hx by (destruct P as [_ _ _ _ _ [P _] _ _]; apply Forall_app in P as [_ P]; by inversion P).
        pose proof (norm_compare _ x y Hread (proj1 Hx) (proj1 Hy)) as C.
        set (c := compareRumItem rumstate attnum (place_copyItem st) y) in *.
        inversion On as [|?? _ Oy]; subst. rewrite List.Forall_forall in Oy. destruct (order x y) eqn:E.
        -- rewrite C. apply copy_step; try done; [by rewrite Hstop|by apply Hfull| |by exists y, n].
           intros _ z Hz. cbn in Hz. rewrite (cmp_eq_l order x y z E). by apply Oy.
        -- apply copy_step; try done; [by rewrite Hstop|by apply Hfull|lia| |];
             replace (c =? 0) with false by lia; [|done].
           intros _ z [<-|Hz]; [done|]. apply (cmp_lt_trans order x y z); [done|by apply Oy].
        -- apply new_step; try done. destruct Hw as [Hw|Hw]; [by left|right].
           constructor; [|done]. apply Forall_app in Hw as [_ Hw]. inversion Hw as [|?? Hxb _]; subst.
           apply (cmp_gt_lt order) in E.
           apply (cmp_le_trans order y x bound); [by apply cmp_lt_le|done].
Qed.

Lemma place_loop_spec fuel : loop_correct fuel.
Proof.
  induction fuel as [|fuel IH]; intros st d r n P Hn Hw Hfuel; [destruct (place_stopAppend st); lia|].
  cbn [place_loop].
  destruct (place_read_spec copy pad items st d r n maxoff Hcopy Hg Ho Hm P)
    as (st1 & -> & P1 & _ & S1 & S2 & S3 & S4 & _ & _ & _ & Hread & Hempty).
  cbn [out_bind]. rewrite <- S1 in Hn. rewrite <- S3 in Hfuel.
  pose proof (place_round fuel st1 d r n IH P1 Hn Hw Hfuel Hread Hempty) as R.
  unfold placed_all in *. rewrite <- S1, <- S2, <- S3, <- S4. exact R.
Qed.
End loop.

(** ** Insertion *)

Lemma merge_prefix l r t y :
  Forall good l -> Forall good (y :: t) -> Forall (fun x => order x y = Lt) l ->
  merge (y :: t) (l ++ r) = l ++ merge (y :: t) r.
Proof.
  intros Hg Ht Hl. induction Hl as [|x l Hx Hl IH]; [done|]. inversion Hg; subst.
  cbn [app]. rewrite merge_old_first by done. by rewrite IH.
Qed.

Lemma leaf_after_revive page :
  RumPageIsLeaf (RumDataPageEntryRevive page) = RumPageIsLeaf page.
Proof.
  unfold RumPageIsLeaf, RumDataPageEntryRevive. cbn [page_flags]. by rewrite <- Z.land_assoc.
Qed.

Definition revived (skip : bool) (page : RumPage) : RumPage :=
  if skip then page else RumDataPageEntryRevive page.

Lemma leaf_page_revived skip page items : leaf_page page items -> leaf_page (revived skip page) items.
Proof. destruct skip; [done|]. intros []. split; try done. by rewrite leaf_after_revive. Qed.

(** The new items start with [y], which may be put on this page. *)
Record inserting (page : RumPage) (items : list RumItem) (btree : RumBtree) (y : RumItem)
  (n : list RumItem) : Prop := {
  ins_page : leaf_page page items;
  ins_within : within (RumPageRightMost page) (page_rightBound page) items;
  ins_bound : wf_iptr (iptr (page_rightBound page));
  ins_attnum : entryAttnum btree = attnum;
  ins_new : drop (curitem btree) (btree_items btree) = y :: n;
  ins_good : Forall good (y :: n);
  ins_ordered : ordered rumstate attnum (y :: n);
}.

(** The start of the loop, at the place of [y]. *)
Lemma placing_start page items btree y n l r p :
  inserting page items btree y n -> items = l ++ r -> placed y l r -> agree p (last_iptr Min l) ->
  placing items
    (mk_place (blen (posting Min l)) (page_data page) p (blen (posting Min l))
       (if Z.of_nat (length l) + 1 <=? Z.of_nat (length items) then mk_item p true 0 else RumItemSetMin)
       true (Z.of_nat (length l) + 1) (curitem btree) (dataPageFreespace page) 0 false)
    l r (y :: n).
Proof.
  intros [[_ Hg Ho Hm [pad Hd] Hs Hfree _ _] _ _ _ _ Hgn Hon] E [Hl Hr] Ha. subst items.
  split; cbn [place_data place_ptr place_iptr place_off place_copyItemEmpty place_copyPtr place_copyItem
              place_freespace place_stopAppend]; try done.
  - eexists. rewrite Hd, posting_bytes_app, <- app_assoc. reflexivity.
  - exists l. split; [done|]. split; [done|]. destruct r as [|x r]; [by left|right]. split; [done|].
    replace (_ <=? _) with true; [done|]. symmetry. apply Z.leb_le. rewrite length_app. cbn. lia.
  - split; [done|]. split; [done|]. intros _. apply ordered_app in Ho as (Ho & _ & _).
    apply ordered_app. split; [done|]. split; [done|]. intros a b Ha' Hb.
    rewrite List.Forall_forall in Hl. specialize (Hl a Ha').
    destruct Hb as [<-|Hb]; [done|]. inversion Hon as [|?? _ Hy]; subst. rewrite List.Forall_forall in Hy.
    apply (cmp_lt_trans order a y b); [done|by apply Hy].
  - rewrite Hfree. rewrite posting_bytes_app, blen_app.
    rewrite Hd, blen_app, posting_bytes_app, blen_app in Hs. pose proof (blen_nonneg pad). lia.
Qed.

(** The page after an insertion that took the new items [t]. *)
Definition inserted (page : RumPage) (items : list RumItem) (btree : RumBtree)
  (t : list RumItem) (page' : RumPage) (btree' : RumBtree) : Prop :=
  leaf_page page' (merge t items) /\
  within (RumPageRightMost page) (page_rightBound page) (merge t items) /\
  page_flags page' = page_flags page /\
  page_rightlink page' = page_rightlink page /\ page_leftlink page' = page_leftlink page /\
  page_rightBound page' = page_rightBound page /\
  btree' = with_split btree (curitem btree + length t) (pitem btree) (rightblkno btree).

Lemma dataPlaceToLeaf_spec page items btree y n :
  inserting page items btree y n ->
  exists t n2 page' btree', y :: n = t ++ n2 /\
    dataPlaceToLeaf rumstate throw btree page = Some (Ok (page', btree')) /\
    inserted page items btree t page' btree' /\
    (t = [] -> dataPageFreespace page < blen (bytes_of Min y) \/
               RumPageRightMost page = false /\ order (page_rightBound page) y = Lt).
Proof.
  intros I. pose proof I as [Hp Hw Hb Ha Hn Hgn Hon]. pose proof Hp as [Hleaf Hg Ho Hm [pad Hd] Hs Hf _ Hc].
  unfold dataPlaceToLeaf. pose proof (drop_cons_lookup _ _ _ _ (eq_sym Hn)) as [-> _]. rewrite Ha.
  destruct (findInLeafPage_spec page items y Hp) as (l & r & p & E & Hpl & Hag & ->); [by inversion Hgn|].
  cbn [out_bind]. rewrite Hm. pose proof (placing_start page items btree y n l r p I E Hpl Hag) as P.
  match goal with |- context [place_loop _ _ ?f _ _ _ _ _ _ ?s] => set (fuel := f); set (st0 := s) in * end.
  destruct (place_loop_spec (page_data page) pad items (btree_items btree) (Z.of_nat (length items))
              (RumPageRightMost page) (page_rightBound page) Hd Hg Ho eq_refl Hb fuel st0 l r (y :: n) P)
    as (t & n2 & st' & T1 & -> & T3 & T4 & T5 & T6 & _ & T8).
  - exact (eq_sym Hn).
  - by rewrite <- E.
  - cbn [st0 place_stopAppend]. subst fuel. apply (f_equal length) in Hn. rewrite length_drop in Hn.
    rewrite Hn, E, length_app. lia.
  - cbn [out_bind]. cbn [st0 place_curitem place_insertCount] in T4, T5.
    assert (merge t items = l ++ merge t r) as Em.
    { rewrite E. rewrite T1 in Hgn. destruct t as [|y' t]; [by destruct r, l|].
      injection T1 as <- _. apply Forall_app in Hgn as [Hgt _]. rewrite E in Hg.
      apply merge_prefix; [by apply Forall_app in Hg as [? _]|done|apply Hpl]. }
    rewrite <- Em in T3, T6. destruct T3 as [[junk Q1] Q2 _ _ _ [Q6 _] [Q7 _] _].
    rewrite app_nil_r in Q6, Q7.
    assert (Hcount : uint16 (Z.of_nat (length items) + place_insertCount st') =
                     Z.of_nat (length (merge t items))).
    { pose proof (posting_count Min (merge t items)) as Hpc. pose proof (blen_nonneg junk).
      rewrite Q1, blen_app in Q2. change RumDataPageSize with 7368 in Q2.
      pose proof (f_equal length Em) as El. pose proof (f_equal length E) as Ei.
      rewrite length_app in El, Ei. rewrite T5, wrap_u_small; lia. }
    destruct (updateItemIndexes_spec
      (with_leaf page (uint16 (Z.of_nat (length items) + place_insertCount st')) (dataPageFreespace page)
         (place_data st') (page_indexes page)) (merge t items) junk) as (free & ixs & -> & Hnew); try done.
    cbn [out_bind]. eexists t, n2, _, _. split; [done|]. split; [reflexivity|].
    split; [|intros ->; exact (T8 eq_refl eq_refl)].
    split; [done|]. split; [done|]. do 4 (split; [done|]). by rewrite T4.
Qed.

Lemma place_leaf skip page items btree y n off :
  inserting page items btree y n ->
  exists t n2 page' btree', y :: n = t ++ n2 /\
    dataPlaceToPage rumstate throw skip btree page off = Some (Ok (page', btree')) /\
    inserted (revived skip page) items (with_split btree (curitem btree) (pitem btree) InvalidBlockNumber) t page' btree' /\
    (t = [] -> dataPageFreespace page < blen (bytes_of Min y) \/
               RumPageRightMost page = false /\ order (page_rightBound page) y = Lt).
Proof.
  intros [Hp Hw Hb Ha Hn Hgn Hon]. unfold dataPlaceToPage, dataPrepareData.
  rewrite (lp_leaf _ _ Hp). cbn [negb andb]. fold (revived skip page).
  pose proof (leaf_page_revived skip page items Hp) as Hp'. rewrite (lp_leaf _ _ Hp').
  assert (inserting (revived skip page) items
            (with_split btree (curitem btree) (pitem btree) InvalidBlockNumber) y n) as I.
  { split; try done; by destruct skip. }
  destruct (dataPlaceToLeaf_spec _ _ _ _ _ I) as (t & n2 & page' & btree' & H1 & H2 & H3 & H4).
  exists t, n2, page', btree'. split; [done|]. split; [done|]. split; [exact H3|]. by destruct skip.
Qed.

(** C21: Insertion into a leaf page.  Whatever ordered new items are to be
    inserted and whatever the page holds, the call returns; it takes some of
    the new items, in order, and the page then holds exactly its old items and
    those, ordered and without duplicates, within its right bound if it has one;
    its search entries and free space are right again, and nothing was written
    outside the page. *)
Theorem leaf_insert_correct skip page items btree y n off :
  inserting page items btree y n ->
  exists t n2 page' btree', y :: n = t ++ n2 /\
    dataPlaceToPage rumstate throw skip btree page off = Some (Ok (page', btree')) /\
    inserted (revived skip page) items (with_split btree (curitem btree) (pitem btree) InvalidBlockNumber) t page' btree'.
Proof.
  intros I. destruct (place_leaf skip page items btree y n off I) as (t & n2 & page' & btree' & H1 & H2 & H3 & _).
  by exists t, n2, page', btree'.
Qed.

(** C24: Insertion makes progress.  If the space check passes and the first new
    item is not above the right bound of the page, the call takes at least that
    item, so that repeated calls insert all of them. *)
Theorem leaf_insert_progress skip page items btree y n off split_size :
  inserting page items btree y n ->
  dataIsEnoughSpace rumstate split_size btree page = Some true ->
  dataIsMoveRight rumstate btree page = Some false ->
  exists page' btree',
    dataPlaceToPage rumstate throw skip btree page off = Some (Ok (page', btree')) /\
    (curitem btree < curitem btree')%nat.
Proof.
  intros I Hspace Hmove.
  destruct (place_leaf skip page items btree y n off I) as (t & n2 & page' & btree' & H1 & H2 & H3 & H4).
  exists page', btree'. split; [done|]. destruct H3 as (_ & _ & _ & _ & _ & _ & ->). cbn.
  destruct t as [|y' t]; [exfalso|cbn; lia]. destruct I as [Hp _ Hb Ha Hn Hgn _].
  pose proof (drop_cons_lookup _ _ _ _ (eq_sym Hn)) as [Hlook _].
  apply Forall_cons in Hgn as [Hy _].
  unfold dataIsEnoughSpace, dataIsMoveRight in *. rewrite (lp_leaf _ _ Hp), Hlook, Ha in Hspace.
  rewrite check_place_size in Hspace by done. injection Hspace as Hspace. apply Z.leb_le in Hspace.
  change (mk_iptr 0 0 0) with Min in Hspace. unfold MAXIMUM_ALIGNOF in Hspace.
  destruct (H4 eq_refl) as [Hlt|[Hr Hlt]]; [lia|]. rewrite Hr, Hlook, Ha in Hmove. injection Hmove as Hmove.
  pose proof (compare_cases rumstate attnum y (page_rightBound page) (proj1 Hy) Hb) as C.
  apply (cmp_gt_lt order) in Hlt. rewrite Hlt in C. lia.
Qed.

(** ** Search and creation *)

Definition same (key x : RumItem) : bool := bool_decide (order key x = Eq).
Definition smaller (key x : RumItem) : bool := bool_decide (order x key = Lt).

Lemma after_place key l r :
  ordered rumstate attnum (l ++ r) -> placed key l r ->
  existsb (same key) (l ++ r) = is_found key r /\ List.filter (smaller key) (l ++ r) = l.
Proof.
  intros Ho [Hl Hr]. rewrite existsb_app, List.filter_app. apply ordered_app in Ho as (_ & Ho & _).
  assert (existsb (same key) l = false /\ List.filter (smaller key) l = l) as [-> ->].
  { clear Hr Ho. induction Hl as [|x l Hx Hl [IH1 IH2]]; [done|]. cbn. rewrite IH1, IH2.
    unfold same, smaller. rewrite Hx. rewrite (cmp_antisym order x key), Hx. done. }
  assert (forall x, In x (tail r) -> order key x = Lt) as Ht.
  { destruct r as [|x r]; [done|]. intros z Hz. cbn in Hz. inversion Ho as [|?? _ Hx]; subst.
    rewrite List.Forall_forall in Hx. specialize (Hx z Hz).
    destruct (order x key) eqn:E; [|done|].
    - apply (cmp_eq_sym order) in E. by rewrite (cmp_eq_l order key x z E).
    - apply (cmp_gt_lt order) in E. by apply (cmp_lt_trans order key x z). }
  assert (existsb (same key) (tail r) = false /\ List.filter (smaller key) (tail r) = []) as [Et1 Et2].
  { clear Hr Ho. induction (tail r) as [|x s IH]; [done|]. cbn.
    destruct IH as [-> ->]; [intros; apply Ht; by right|]. specialize (Ht x (or_introl eq_refl)).
    unfold same, smaller. rewrite Ht, (cmp_antisym order key x), Ht. done. }
  destruct r as [|x r]; [by rewrite app_nil_r|]. cbn [tail] in *. cbn [existsb List.filter is_found].
  rewrite Et1, Et2. unfold smaller at 1. rewrite (bool_decide_false (order x key = Lt)) by done. rewrite orb_false_r, app_nil_r.
  done.
Qed.

Lemma dataLocateLeafItem_spec page items btree key :
  leaf_page page items -> fullScan btree = false -> entryAttnum btree = attnum ->
  btree_items btree !! curitem btree = Some key -> good key ->
  dataLocateLeafItem rumstate throw btree page =
  Some (Ok (existsb (same key) items, Z.of_nat (length (List.filter (smaller key) items)) + 1)).
Proof.
  intros Hp Hf Ha Hk Hg. unfold dataLocateLeafItem. rewrite Hf, Hk, Ha.
  destruct (findInLeafPage_spec page items key Hp Hg) as (l & r & p & E & Hpl & _ & ->).
  cbn [out_bind]. pose proof (lp_ordered _ _ Hp) as Ho. rewrite E in *.
  by destruct (after_place key l r Ho Hpl) as [-> ->].
Qed.

(** Search in a leaf page.  The search entries and the scan together find
    exactly the items that the page holds, and the position of a new item is
    the one after all smaller items. *)
Theorem leaf_search_correct page items btree key :
  leaf_page page items -> fullScan btree = false -> entryAttnum btree = attnum ->
  btree_items btree !! curitem btree = Some key -> good key ->
  dataLocateLeafItem rumstate throw btree page =
  Some (Ok (existsb (same key) items, Z.of_nat (length (List.filter (smaller key) items)) + 1)).
Proof. apply dataLocateLeafItem_spec. Qed.

Lemma create_leaf items :
  Forall good items -> ordered rumstate attnum items ->
  blen (posting Min items) <= RumDataPageSize ->
  exists page, rumCreatePostingTree rumstate throw attnum items = Some (Ok page) /\
    leaf_page page items /\ page_rightlink page = InvalidBlockNumber /\
    page_rightBound page = RumItemSetMin /\ page_flags page = Z.lor 1 RUM_LEAF.
Proof.
  intros Hg Ho Hfit. unfold rumCreatePostingTree. rewrite place_items_bytes by done. cbn [out_bind].
  unfold store. rewrite Z.add_0_l. replace (_ <=? _) with true by (symmetry; by apply Z.leb_le).
  set (page := RumInitPage _). set (rest := drop _ _).
  assert (blen (page_data page) = RumDataPageSize) as Hs.
  { unfold blen, page, RumInitPage. cbn [page_data]. by rewrite length_replicate. }
  assert (uint16 (Z.of_nat (length items)) = Z.of_nat (length items)) as Hc.
  { pose proof (posting_count Min items). change RumDataPageSize with 7368 in Hfit.
    apply wrap_u_small. lia. }
  destruct (updateItemIndexes_spec
    (with_leaf page (uint16 (Z.of_nat (length items))) (dataPageFreespace page)
       (take (Z.to_nat 0) (page_data page) ++ posting Min items ++ rest) (page_indexes page)) items rest)
    as (free & ixs & E & Hp); try done.
  { change (take (Z.to_nat 0) (page_data page)) with (@nil Z). cbn [app page_data with_leaf].
    subst rest. unfold blen in *. rewrite length_app, length_drop. lia. }
  rewrite E. eexists. split; [reflexivity|]. split; [done|]. by split.
Qed.
End leaf.

(** A page with three items, and two new ones. *)
Definition leaf_sample : RumPage :=
  match rumCreatePostingTree (sample_state false) true 1 sample_items with
  | Some (Ok page) => page
  | _ => RumInitPage 0
  end.

Definition insert_sample : RumBtree :=
  mk_btree 1 false true [mk_item (mk_iptr 0 5 2) true 0; mk_item (mk_iptr 0 5 300) true 0] 0
    (mk_pitem 0 RumItemSetMin) InvalidBlockNumber.

Lemma leaf_sample_page : leaf_page (sample_state false) 1 leaf_sample sample_items /\
  RumPageRightMost leaf_sample = true /\ page_rightBound leaf_sample = RumItemSetMin.
Proof.
  destruct (create_leaf (sample_state false) true 1 sample_items) as (page & E & Hp & Hr & Hb & _).
  - apply sample_items_wf.
  - apply sample_items_ordered.
  - vm_compute. discriminate.
  - unfold leaf_sample, RumPageRightMost. rewrite E, Hr. split; [exact Hp|]. split; [reflexivity|exact Hb].
Qed.

Lemma inserting_sample :
  inserting (sample_state false) 1 leaf_sample sample_items insert_sample
    (mk_item (mk_iptr 0 5 2) true 0) [mk_item (mk_iptr 0 5 300) true 0].
Proof.
  destruct leaf_sample_page as (Hp & Hr & Hb). split.
  - exact Hp.
  - left. exact Hr.
  - rewrite Hb. exact min_wf.
  - reflexivity.
  - reflexivity.
  - repeat apply List.Forall_cons; [..|apply List.Forall_nil];
      (split; [split; cbn; lia|]; split; [reflexivity|left; reflexivity]).
  - repeat constructor.
Qed.

Lemma leaf_search_correct_witness :
  dataLocateLeafItem (sample_state false) true insert_sample leaf_sample = Some (Ok (false, 2)).
Proof.
  rewrite (leaf_search_correct (sample_state false) true 1 leaf_sample sample_items insert_sample
             (mk_item (mk_iptr 0 5 2) true 0)).
  - reflexivity.
  - apply leaf_sample_page.
  - reflexivity.
  - reflexivity.
  - reflexivity.
  - split; [split; cbn; lia|]. split; [reflexivity|left; reflexivity].
Defined.

Lemma leaf_insert_correct_witness :
  exists t n2 page' btree', btree_items insert_sample = t ++ n2 /\
    dataPlaceToPage (sample_state false) true false insert_sample leaf_sample 0 = Some (Ok (page', btree')) /\
    leaf_page (sample_state false) 1 page' (rumMergeRumItems (sample_state false) 1 t sample_items).
Proof.
  destruct (leaf_insert_correct (sample_state false) true 1 false leaf_sample sample_items insert_sample
              _ _ 0 inserting_sample) as (t & n2 & page' & btree' & H1 & H2 & H3 & _).
  exists t, n2, page', btree'. split; [exact H1|]. split; [exact H2|exact H3].
Defined.

Lemma leaf_insert_progress_witness :
  exists page' btree',
    dataPlaceToPage (sample_state false) true false insert_sample leaf_sample 0 = Some (Ok (page', btree')) /\
    (0 < curitem btree')%nat.
Proof.
  apply (leaf_insert_progress (sample_state false) true 1 false leaf_sample sample_items insert_sample
           _ _ 0 0 inserting_sample).
  - vm_compute. reflexivity.
  - vm_compute. reflexivity.
Defined.
