(* ===== verification/RumSplit.v ===== *)
(** * The split of a leaf page

    When a leaf page is full, its items and the new ones are distributed over
    two pages by size.  The code first computes the size of everything, then
    places items on the left page until it has half of that size.  The theorem
    shows that both pages fit, that together they hold the old items and the new
    ones in order, and that the parent gets the greatest item of the left page. *)

From stdpp Require Import base numbers list option sorting.
From Stdlib Require Import ZArith Lia.
From S2P Require Import Prelude PgbsonElement RumPosting RumDataPage RumLeafPage.

Section split.
Context (rumstate : RumState) (throw : bool) (attnum : Z) {O : OrderedAddInfo rumstate}.

Abbreviation order := (item_order rumstate attnum).
Abbreviation posting := (posting_bytes rumstate attnum).
Abbreviation bytes_of := (item_bytes rumstate attnum).
Abbreviation good := (wf_item rumstate attnum).
Abbreviation Min := ItemPointerSetMin.

(** ** Sizes of items *)

Lemma block_incr_size_bounds fuel n : (0 < fuel)%nat -> 1 <= block_incr_size fuel n <= Z.of_nat fuel.
Proof.
  revert n. induction fuel as [|fuel IH]; intros n Hf; [lia|]. cbn [block_incr_size].
  destruct (n <? HIGHBIT); [lia|]. destruct fuel as [|fuel]; [cbn; lia|].
  specialize (IH (Z.shiftr n 7) ltac:(lia)). lia.
Qed.

Lemma offset_size_bounds fuel n : 0 <= offset_size fuel n <= Z.of_nat fuel.
Proof.
  revert n. induction fuel as [|fuel IH]; intros n; [cbn; lia|]. cbn [offset_size].
  destruct (n <? SEVENTHBIT); [lia|]. specialize (IH (Z.shiftr n 7)). lia.
Qed.

Lemma addinfo_size x : good x -> blen (addinfo_bytes rumstate attnum x) <= 8.
Proof.
  intros (_ & _ & Hadd). unfold addinfo_bytes. destruct (addInfoIsNull x) eqn:E; [done|].
  destruct Hadd as [?|(attlen & -> & Hlen & _)]; [congruence|]. rewrite blen_le_bytes. lia.
Qed.

Lemma item_size_le p x : good x -> blen (bytes_of p x) <= 16.
Proof.
  intros Hx. unfold item_bytes, rumDataPageLeafWriteItemPointer. rewrite blen_app.
  pose proof (addinfo_size x Hx). destruct (useAlternativeOrder rumstate).
  - unfold iptr_bytes. rewrite !blen_app, !blen_le_bytes. lia.
  - rewrite blen_app, <- block_incr_size_bytes, <- (offset_size_bytes 3).
    pose proof (block_incr_size_bounds 5 (block_incr (iptr x) p)).
    pose proof (offset_size_bounds 3 (ip_posid (iptr x))). lia.
Qed.

(** Another pointer before changes the size by at most four bytes. *)
Lemma item_size_near p q x : blen (bytes_of p x) <= blen (bytes_of q x) + 4.
Proof.
  unfold item_bytes, rumDataPageLeafWriteItemPointer. rewrite !blen_app.
  destruct (useAlternativeOrder rumstate); [lia|].
  rewrite !blen_app, <- !block_incr_size_bytes.
  pose proof (block_incr_size_bounds 5 (block_incr (iptr x) p)).
  pose proof (block_incr_size_bounds 5 (block_incr (iptr x) q)). lia.
Qed.

Lemma posting_size_near p q items : blen (posting p items) <= blen (posting q items) + 4.
Proof.
  destruct items as [|x items]; [cbn; lia|]. cbn [posting_bytes]. rewrite !blen_app.
  pose proof (item_size_near p q x). lia.
Qed.

Lemma posting_app_size l r :
  blen (posting Min (l ++ r)) = blen (posting Min l) + blen (posting (last_iptr Min l) r).
Proof. by rewrite posting_bytes_app, blen_app. Qed.

(** ** The first pass *)

(** An old item read after an arbitrary one: its block number may be wrong, its
    size is right. *)
Lemma read_shifted x prev cur rest size :
  good x -> follows rumstate x prev -> wf_iptr (iptr cur) ->
  exists item, wf_iptr (iptr item) /\
    rumDataPageLeafRead rumstate throw (bytes_of prev x ++ rest) attnum cur = Some (Ok (rest, item)) /\
    rumCheckPlaceToDataPageLeaf rumstate attnum item (iptr cur) size =
      Some (size + blen (bytes_of prev x)).
Proof.
  intros Hx [Hprev Hle] Hcur. destruct (useAlternativeOrder rumstate) eqn:Halt.
  { assert (follows rumstate x (iptr cur)) as Hf by (split; [done|congruence]).
    assert (bytes_of prev x = bytes_of (iptr cur) x) as E.
    { apply item_bytes_agree. split; [done|]. split; [done|congruence]. }
    exists (read_as cur x). rewrite E. split; [apply Hx|]. split; [by apply read_item|].
    assert (good (read_as cur x)) as Hg by (apply (good_norm _ _ _ x); [apply norm_read_as|done]).
    rewrite check_place_size by done. do 2 f_equal.
    by rewrite <- item_bytes_norm, norm_read_as, item_bytes_norm. }
  specialize (Hle eq_refl). pose proof Hx as (Hp & Hvalid & Hadd).
  pose proof (block_range _ Hp). pose proof (block_range _ Hprev). pose proof (block_range _ Hcur).
  set (delta := block (iptr x) - block prev).
  set (p' := set_block ((block (iptr cur) + delta) mod 2 ^ 32) (ip_posid (iptr x))).
  assert (Hb : block p' = (block (iptr cur) + delta) mod 2 ^ 32 /\ wf_iptr p').
  { pose proof (Z.mod_pos_bound (block (iptr cur) + delta) (2 ^ 32)) as Hmod.
    subst p'. set (m := _ mod 2 ^ 32) in *. unfold set_block, block, wf_iptr. cbn [bi_hi bi_lo ip_posid].
    change 0xFFFF with (Z.ones 16). rewrite Z.shiftr_div_pow2, !Z.land_ones by lia.
    assert (0 <= m / 2 ^ 16 < 2 ^ 16) by (split; [apply Z.div_pos|apply Z.div_lt_upper_bound]; lia).
    rewrite (Z.mod_small (m / 2 ^ 16)) by lia. pose proof (Z.div_mod m (2 ^ 16)).
    pose proof (Z.mod_pos_bound m (2 ^ 16)). destruct Hp as (_ & _ & ?). lia. }
  destruct Hb as [Hblock Hwf].
  set (x' := mk_item p' (addInfoIsNull x) (if addInfoIsNull x then addInfo cur else addInfo x)).
  assert (good x') as Hx'.
  { split; [done|]. split; [done|]. unfold wf_addinfo, x' in *. cbn. by destruct (addInfoIsNull x); [left|]. }
  assert (bytes_of (iptr cur) x' = bytes_of prev x) as Ebytes.
  { unfold item_bytes, rumDataPageLeafWriteItemPointer, addinfo_bytes. rewrite Halt.
    subst x'. cbn [iptr addInfoIsNull addInfo ip_posid].
    assert (block_incr p' (iptr cur) = block_incr (iptr x) prev) as ->.
    { rewrite (block_incr_diff (iptr x) prev) by done. unfold block_incr, wrap_u.
      rewrite Zminus_mod, !block_as_int_mod, Hblock, Zminus_mod_idemp_l by done.
      replace (block (iptr cur) + delta - block (iptr cur)) with delta by lia. apply Z.mod_small. lia. }
    by destruct (addInfoIsNull x). }
  exists x'. split; [done|]. rewrite (check_place_size rumstate attnum x'), Ebytes by done. split; [|done].
  unfold rumDataPageLeafRead, item_bytes, rumDataPageLeafWriteItemPointer, rumDataPageLeafReadItemPointerNew.
  rewrite Halt, <- app_assoc, (read_pointer_any rumstate throw attnum) by done. cbn [out_bind].
  rewrite (read_addinfo_any rumstate attnum) by done. subst x' p'. do 4 f_equal.
  rewrite <- (set_block_mod (uint64 _)), uint64_mod32. f_equal.
  rewrite <- Zplus_mod_idemp_l, uint64_mod32, block_as_int_mod by done. done.
Qed.

Fixpoint max_size (p : ItemPointerData) (items : list RumItem) : Z :=
  match items with
  | [] => 0
  | x :: items => Z.max (blen (bytes_of p x)) (max_size (iptr x) items)
  end.

Abbreviation sizes := (size_loop rumstate throw).

Lemma size_loop_past n data new i off off' ptr st :
  off < i -> off' < i -> sizes n data attnum new i off ptr st = sizes n data attnum new i off' ptr st.
Proof.
  revert i ptr st. induction n as [|n IH]; intros i ptr st H1 H2; [done|]. cbn [size_loop].
  replace (i =? off) with false by lia. replace (i =? off') with false by lia.
  destruct (read_at _ _ _ _ _ _) as [[[ptr' item]|]|]; [|done..]. cbn [out_bind].
  destruct (rumCheckPlaceToDataPageLeaf _ _ _ _ _); [|done]. apply IH; lia.
Qed.

(** At the place of the new item, it is counted first. *)
Lemma size_loop_at n data new i ptr st :
  sizes (S n) data attnum new i i ptr st =
  match size_new rumstate attnum new st with
  | None => None
  | Some st => sizes (S n) data attnum new i (i - 1) ptr st
  end.
Proof.
  cbn [size_loop]. rewrite Z.eqb_refl. destruct (size_new _ _ _ _) as [st'|]; [|done].
  replace (i =? i - 1) with false by lia.
  destruct (read_at _ _ _ _ _ _) as [[[ptr' item]|]|]; [|done..]. cbn [out_bind].
  destruct (rumCheckPlaceToDataPageLeaf _ _ _ _ _); [|done]. apply size_loop_past; lia.
Qed.

Lemma read_at_shifted data l x r pad cur size :
  data = posting Min (l ++ x :: r) ++ pad -> Forall good (l ++ x :: r) ->
  ordered rumstate attnum (l ++ x :: r) -> wf_iptr (iptr cur) ->
  exists item, wf_iptr (iptr item) /\
    read_at rumstate throw data (blen (posting Min l)) attnum cur =
      Some (Ok (blen (posting Min (l ++ [x])), item)) /\
    rumCheckPlaceToDataPageLeaf rumstate attnum item (iptr cur) size =
      Some (size + blen (bytes_of (last_iptr Min l) x)) /\
    (iptr cur = last_iptr Min l -> iptr item = iptr x).
Proof.
  intros Hd Hg Ho Hcur. pose proof (ordered_follows _ _ l x r Hg Ho) as Hf.
  assert (good x) as Hx by (apply Forall_app in Hg as [_ Hg]; by inversion Hg).
  destruct (read_shifted x (last_iptr Min l) cur (posting (iptr x) r ++ pad) size Hx Hf Hcur)
    as (item & H1 & H2 & H3).
  exists item. split; [done|]. split; [|split; [done|]].
  - unfold read_at. rewrite Hd, posting_bytes_app, <- app_assoc, drop_blen. cbn [posting_bytes].
    rewrite <- app_assoc, H2. cbn [out_bind]. rewrite posting_snoc, !blen_app. do 4 f_equal. lia.
  - intros E. rewrite <- E in Hf, H2. rewrite read_item in H2 by done. by injection H2 as <-.
Qed.

(** The old items, without a new one between them. *)
Lemma size_loop_old data l r pad st off new :
  data = posting Min (l ++ r) ++ pad -> Forall good (l ++ r) -> ordered rumstate attnum (l ++ r) ->
  wf_iptr (iptr (size_item st)) -> 0 <= size_max st ->
  off < Z.of_nat (length l) + 1 \/ Z.of_nat (length (l ++ r)) < off ->
  exists item,
    sizes (length r) data attnum new (Z.of_nat (length l) + 1) off (blen (posting Min l)) st =
      Some (Ok (mk_size item (size_total st + blen (posting (last_iptr Min l) r))
                  (Z.max (size_max st) (max_size (last_iptr Min l) r)) (size_index st))) /\
    wf_iptr (iptr item) /\
    (iptr (size_item st) = last_iptr Min l -> iptr item = last_iptr Min (l ++ r)).
Proof.
  intros Hd Hg Ho. revert l st Hd Hg Ho. induction r as [|x r IH]; intros l st Hd Hg Ho Hcur Hmax Hoff.
  { exists (size_item st). cbn [length size_loop posting_bytes max_size]. rewrite app_nil_r. split; [|done].
    change (blen []) with 0. rewrite Z.add_0_r, Z.max_l by done. by destruct st. }
  assert ((l ++ [x]) ++ r = l ++ x :: r) as Eapp by (by rewrite <- app_assoc).
  destruct (read_at_shifted data l x r pad (size_item st) (size_total st) Hd Hg Ho Hcur)
    as (item & Hw & Hread & Hcheck & Hexact).
  cbn [length size_loop]. replace (_ =? off) with false; [|symmetry; apply Z.eqb_neq; rewrite length_app in Hoff; cbn in Hoff; lia].
  rewrite Hread. cbn [out_bind]. rewrite Hcheck.
  set (s := blen (bytes_of (last_iptr Min l) x)). replace (size_total st + s - size_total st) with s by lia.
  destruct (IH (l ++ [x]) (mk_size item (size_total st + s) (Z.max (size_max st) s) (size_index st)))
    as (item' & E & W & X); rewrite ?Eapp; cbn [size_item size_max]; try done; [lia|rewrite length_app; cbn; lia|].
  exists item'. rewrite Eapp, last_iptr_app, length_app in *. cbn [length size_total size_max size_index size_item] in *.
  replace (Z.of_nat (length l) + 1 + 1) with (Z.of_nat (length l + 1) + 1) by lia. rewrite E.
  split; [|split; [done|intros Hc; apply X; by apply Hexact]].
  cbn [posting_bytes max_size]. rewrite blen_app. fold s. do 3 f_equal; lia.
Qed.

(** The old items with one new item at its place. *)
Lemma size_loop_insert data l0 l r pad st new y :
  data = posting Min (l0 ++ l ++ r) ++ pad -> Forall good (l0 ++ l ++ r) ->
  ordered rumstate attnum (l0 ++ l ++ r) -> r <> [] -> good y -> new !! size_index st = Some y ->
  iptr (size_item st) = last_iptr Min l0 -> 0 <= size_max st ->
  exists item m,
    sizes (length (l ++ r)) data attnum new (Z.of_nat (length l0) + 1)
      (Z.of_nat (length (l0 ++ l)) + 1) (blen (posting Min l0)) st =
    Some (Ok (mk_size item
                (size_total st + blen (posting (last_iptr Min l0) (l ++ r)) +
                 blen (bytes_of (last_iptr Min (l0 ++ l)) y)) m (S (size_index st)))).
Proof.
  intros Hd Hg Ho Hr Hy Hnew. revert l0 st Hd Hg Ho Hnew.
  induction l as [|x l IH]; intros l0 st Hd Hg Ho Hnew Hcur Hmax.
  - rewrite app_nil_r. cbn [app] in *. destruct r as [|x r]; [done|]. cbn [length].
    rewrite size_loop_at. unfold size_new. rewrite Hnew. cbn [mbind option_bind].
    rewrite check_place_size by done. cbn [mbind option_bind].
    set (s := blen (bytes_of (iptr (size_item st)) y)).
    destruct (size_loop_old data l0 (x :: r) pad (mk_size y (size_total st + s)
                (Z.max (size_max st) (size_total st + s - size_total st)) (S (size_index st)))
                (Z.of_nat (length l0) + 1 - 1) new Hd Hg Ho) as (item & E & _); cbn [size_item size_max];
      [apply Hy|lia|lia|].
    change (S (length r)) with (length (x :: r)). rewrite E. cbn [size_total size_max size_index].
    eexists _, _. do 3 f_equal. subst s. rewrite Hcur. lia.
  - assert ((l0 ++ [x]) ++ l ++ r = l0 ++ x :: l ++ r) as Eapp by (by rewrite <- app_assoc).
    assert (wf_iptr (iptr (size_item st))) as Hw.
    { rewrite Hcur. apply (last_iptr_wf rumstate attnum). by apply Forall_app in Hg as [? _]. }
    destruct (read_at_shifted data l0 x (l ++ r) pad (size_item st) (size_total st) Hd Hg Ho Hw)
      as (item & Hw' & Hread & Hcheck & Hexact).
    cbn [app length size_loop]. replace (_ =? _) with false;
      [|symmetry; apply Z.eqb_neq; rewrite length_app; cbn; lia].
    rewrite Hread. cbn [out_bind]. rewrite Hcheck.
    set (s := blen (bytes_of (last_iptr Min l0) x)). replace (size_total st + s - size_total st) with s by lia.
    destruct (IH (l0 ++ [x]) (mk_size item (size_total st + s) (Z.max (size_max st) s) (size_index st)))
      as (item' & m & E); rewrite ?Eapp, ?last_iptr_app; cbn [size_item size_max]; try done; [by apply Hexact|lia|].
    assert (length (l0 ++ x :: l) = length ((l0 ++ [x]) ++ l)) as El by (by rewrite <- app_assoc).
    assert (last_iptr Min (l0 ++ x :: l) = last_iptr Min ((l0 ++ [x]) ++ l)) as Ep by (by rewrite <- app_assoc).
    rewrite El, Ep. rewrite (length_app l0 [x]) in E. cbn [length] in E.
    replace (Z.of_nat (length l0) + 1 + 1) with (Z.of_nat (length l0 + 1) + 1) by lia. rewrite E.
    cbn [size_total size_index]. exists item', m. do 3 f_equal. rewrite last_iptr_app.
    cbn [posting_bytes]. rewrite blen_app. fold s. lia.
Qed.

(** New items after the last old one: some of them, such that all but the last
    one were counted in the bound that the size respects. *)
Lemma size_append_spec fuel news item prev st rest :
  drop (size_index st) news = rest -> (length rest <= fuel)%nat -> Forall good rest ->
  match rest with [] => True | x :: _ => item = x end -> 0 <= size_max st ->
  exists t rest' st', rest = t ++ rest' /\
    size_append rumstate fuel attnum news item prev st = Some st' /\
    size_index st' = (size_index st + length t)%nat /\
    size_total st' = size_total st + blen (posting prev t) /\
    (t = [] \/ exists t0 z, t = t0 ++ [z] /\
       size_total st' < 2 * RumDataPageSize - 2 * Z.max (size_max st) (max_size prev t0) - 16) /\
    (rest <> [] -> size_total st + 16 < 2 * RumDataPageSize - 2 * size_max st - 16 -> t <> []) /\
    (size_max st <= 16 -> rest' = [] \/ 2 * RumDataPageSize - 64 <= size_total st').
Proof.
  revert item prev st rest. induction fuel as [|fuel IH]; intros item prev st rest Hd Hf Hg Hi Hm.
  { destruct rest; [|cbn in Hf; lia]. eexists [], [], _. split; [done|]. split; [reflexivity|].
    cbn. split; [lia|]. split; [by rewrite Z.add_0_r|]. split; [by left|]. split; [done|by left]. }
  cbn [size_append]. destruct rest as [|x rest].
  { rewrite (drop_nil_lookup _ _ (eq_sym Hd)). eexists [], [], _. split; [done|]. split; [reflexivity|].
    cbn. split; [lia|]. split; [by rewrite Z.add_0_r|]. split; [by left|]. split; [done|by left]. }
  subst item. pose proof (drop_cons_lookup _ _ _ _ (eq_sym Hd)) as [-> Hrest].
  apply Forall_cons in Hg as [Hx Hg]. rewrite check_place_size by done. cbn [mbind option_bind].
  set (s := blen (bytes_of prev x)). pose proof (item_size_le prev x Hx). fold s in H.
  pose proof (blen_nonneg (bytes_of prev x)). fold s in H0. unfold MAXIMUM_ALIGNOF.
  destruct (Z.ltb_spec (size_total st + s) (2 * RumDataPageSize - 2 * size_max st - 2 * 8)) as [Hlt|Hge];
    [|eexists [], (x :: rest), _; split; [done|]; split; [reflexivity|]; cbn;
      split; [lia|]; split; [by rewrite Z.add_0_r|]; split; [by left|]; split; [intros; exfalso; lia|right; lia]].
  set (st1 := mk_size x (size_total st + s) (Z.max (size_max st) (size_total st + s - size_total st)) (S (size_index st))).
  destruct (IH (default x (news !! size_index st1)) (iptr x) st1 rest)
    as (t & rest' & st' & -> & -> & E1 & E2 & E3 & _ & E4); [done|cbn in Hf; lia|done| |cbn; lia|].
  { destruct rest as [|z rest]; [done|]. cbn. by destruct (drop_cons_lookup _ _ _ _ Hrest) as [-> _]. }
  cbn [st1 size_index size_total size_max] in E1, E2, E3, E4.
  replace (size_total st + s - size_total st) with s in E3, E4 by lia.
  exists (x :: t), rest', st'. split; [done|]. split; [done|]. split; [cbn; lia|].
  split; [cbn [posting_bytes]; rewrite blen_app; fold s; lia|]. split; [|split; [done|intros; apply E4; lia]]. right.
  destruct E3 as [->|(t0 & z & -> & E3)].
  - exists [], x. split; [done|]. cbn [max_size]. change (blen (posting (iptr x) [])) with 0 in E2.
    rewrite Z.max_l by lia. lia.
  - exists (x :: t0), z. split; [done|]. cbn [max_size]. fold s. lia.
Qed.

Lemma max_size_nonneg p l : 0 <= max_size p l.
Proof. revert p. induction l as [|x l IH]; intros p; cbn; [lia|]. specialize (IH (iptr x)). lia. Qed.

Lemma max_size_app p l r : max_size p (l ++ r) = Z.max (max_size p l) (max_size (last_iptr p l) r).
Proof.
  revert p. induction l as [|x l IH]; intros p; cbn [app max_size].
  - change (last_iptr p []) with p. pose proof (max_size_nonneg p r). lia.
  - rewrite IH. replace (last_iptr p (x :: l)) with (last_iptr (iptr x) l); [lia|].
    unfold last_iptr. rewrite last_cons. by destruct (last l).
Qed.

Lemma max_size_item p l x r : blen (bytes_of (last_iptr p l) x) <= max_size p (l ++ x :: r).
Proof. rewrite max_size_app. cbn [max_size]. lia. Qed.

(** ** The second pass *)

(** What the first pass establishes for the items [Q] and their size: any
    prefix of at most half the size leaves space for one more item, and so does
    half of the size for the rest. *)
Definition half_fits (Q : list RumItem) (total : Z) : Prop :=
  blen (posting Min Q) <= total /\ total - total / 2 + 3 <= RumDataPageSize /\
  forall A x B, Q = A ++ x :: B -> blen (posting Min A) <= total / 2 ->
    blen (posting Min (A ++ [x])) <= RumDataPageSize.

Lemma half_fits_middle Q total :
  Forall good Q -> blen (posting Min Q) <= total -> total <= RumDataPageSize + 32 -> half_fits Q total.
Proof.
  intros Hg H1 H2. change RumDataPageSize with 7368 in *. split; [done|].
  pose proof (Z.div_mod total 2). pose proof (Z.mod_pos_bound total 2).
  split; [change RumDataPageSize with 7368; lia|].
  intros A x B -> HA. change RumDataPageSize with 7368. rewrite posting_snoc, blen_app.
  assert (good x) as Hx by (apply Forall_app in Hg as [_ Hg]; by inversion Hg).
  pose proof (item_size_le (last_iptr Min A) x Hx). lia.
Qed.

Lemma half_fits_append items t0 z total M :
  Forall good (items ++ t0 ++ [z]) -> total = blen (posting Min (items ++ t0 ++ [z])) ->
  max_size Min (items ++ t0) <= M -> 2 <= M -> total < 2 * RumDataPageSize - 2 * M - 16 ->
  half_fits (items ++ t0 ++ [z]) total.
Proof.
  intros Hg Ht HM HM2 Hlt. change RumDataPageSize with 7368 in *.
  pose proof (Z.div_mod total 2). pose proof (Z.mod_pos_bound total 2).
  split; [lia|]. split; [change RumDataPageSize with 7368; lia|].
  intros A x B E HA. change RumDataPageSize with 7368. rewrite posting_snoc, blen_app.
  assert (good x) as Hx by (rewrite E in Hg; apply Forall_app in Hg as [_ Hg]; by inversion Hg).
  pose proof (item_size_le (last_iptr Min A) x Hx).
  destruct B as [|b B _] using rev_ind.
  - rewrite E, posting_snoc, blen_app in Ht. lia.
  - rewrite app_assoc in E. change (A ++ x :: B ++ [b]) with (A ++ (x :: B) ++ [b]) in E.
    rewrite app_assoc in E. apply app_inj_tail in E as [E _]. rewrite E in HM.
    pose proof (max_size_item Min A x B). lia.
Qed.

(** An area that starts with the items [d]. *)
Definition holds (data : bytes) (d : list RumItem) : Prop :=
  blen data = RumDataPageSize /\ exists junk, data = posting Min d ++ junk.

(** The state after the items [d] have been placed. *)
Definition splitting (total : Z) (d : list RumItem) (st : SplitState) : Prop :=
  if split_onRight st then
    exists A m B, d = A ++ [m] ++ B /\ holds (split_left st) (A ++ [m]) /\ holds (split_right st) B /\
      split_ptr st = blen (posting Min B) /\ split_prev st = last_iptr Min B /\
      split_j st = Z.of_nat (length B) + 1 /\ split_leftMaxoff st = Z.of_nat (length (A ++ [m])) /\
      (exists m', split_maxLeftItem st = Some m' /\ norm m' = norm m) /\
      blen (posting Min A) <= total / 2 < blen (posting Min (A ++ [m]))
  else
    holds (split_left st) d /\ holds (split_right st) [] /\ split_ptr st = blen (posting Min d) /\
    split_prev st = last_iptr Min d /\ split_j st = Z.of_nat (length d) + 1 /\
    blen (posting Min d) <= total / 2.

Lemma store_holds data d x :
  holds data d -> Forall good d -> blen (posting Min (d ++ [x])) <= RumDataPageSize ->
  exists data', store data (blen (posting Min d)) (bytes_of (last_iptr Min d) x) = Some data' /\
    holds data' (d ++ [x]).
Proof.
  intros [Hs [junk E]] Hg Hfit. rewrite posting_snoc, blen_app in Hfit.
  destruct (store_item rumstate attnum data d junk (last_iptr Min d) x) as (data' & junk' & H1 & H2 & H3);
    [done|by apply agree_refl, (last_iptr_wf rumstate attnum)|done|done|].
  exists data'. split; [done|]. split; [done|by exists junk'].
Qed.

Section pass.
Context (Q : list RumItem) (total : Z).
Hypothesis Hgood : Forall good Q.
Hypothesis Hhalf : half_fits Q total.

Lemma split_place_left d x rest item st :
  Q = d ++ x :: rest -> norm item = norm x -> split_onRight st = false -> splitting total d st ->
  exists st', split_place rumstate attnum total st item = Some (Ok st') /\ splitting total (d ++ [x]) st'.
Proof.
  intros E En Hside Hst. unfold splitting in Hst. rewrite Hside in Hst.
  destruct Hst as (HL & HR & Hp & Hprev & Hj & Hle). destruct Hhalf as (_ & _ & Hfit).
  specialize (Hfit d x rest E Hle). rewrite E in Hgood. apply Forall_app in Hgood as [Hgd Hgx].
  apply Forall_cons in Hgx as [Hx _].
  assert (good item) as Hi by (by apply (good_norm _ _ _ x)).
  assert (bytes_of (split_prev st) item = bytes_of (last_iptr Min d) x) as Eb.
  { by rewrite <- item_bytes_norm, En, item_bytes_norm, Hprev. }
  unfold split_place. rewrite (place_item rumstate attnum item) by done. cbn [out_bind].
  rewrite Eb, Hside, Hp.
  destruct (store_holds (split_left st) d x HL Hgd Hfit) as (data & -> & HL').
  cbn [negb]. rewrite andb_true_r.
  assert (blen (posting Min d) + blen (bytes_of (last_iptr Min d) x) = blen (posting Min (d ++ [x]))) as El.
  { by rewrite posting_snoc, blen_app. }
  rewrite El. destruct (Z.ltb_spec (total / 2) (blen (posting Min (d ++ [x])))) as [Hlt|Hge].
  - eexists. split; [reflexivity|]. unfold splitting. cbn.
    exists d, x, []. split; [done|]. split; [done|]. split; [done|]. do 3 (split; [done|]).
    split; [rewrite length_app; cbn; lia|]. split; [by exists item|done].
  - eexists. split; [reflexivity|]. unfold splitting. cbn. split; [done|]. split; [done|]. split; [done|].
    split; [by rewrite last_iptr_app; apply norm_same_iptr|]. split; [rewrite length_app; cbn; lia|done].
Qed.

Lemma split_place_right d x rest item st :
  Q = d ++ x :: rest -> norm item = norm x -> split_onRight st = true -> splitting total d st ->
  exists st', split_place rumstate attnum total st item = Some (Ok st') /\ splitting total (d ++ [x]) st'.
Proof.
  intros E En Hside Hst. unfold splitting in Hst. rewrite Hside in Hst.
  destruct Hst as (A & m & B & Ed & HL & HR & Hp & Hprev & Hj & Hmax & Hm & HA).
  destruct Hhalf as (Htot & Hright & _).
  assert (blen (posting Min (B ++ [x])) <= RumDataPageSize) as Hfit.
  { pose proof (posting_size_near Min (last_iptr Min (A ++ [m])) (B ++ [x])).
    assert (Q = ((A ++ [m]) ++ B ++ [x]) ++ rest) as EQ by (rewrite E, Ed; by simplify_list_eq).
    rewrite EQ, posting_app_size, (posting_app_size (A ++ [m])) in Htot.
    pose proof (blen_nonneg (posting (last_iptr Min ((A ++ [m]) ++ B ++ [x])) rest)). lia. }
  rewrite E, Ed in Hgood. apply Forall_app in Hgood as [Hgd Hgx].
  apply Forall_cons in Hgx as [Hx _]. rewrite app_assoc in Hgd. apply Forall_app in Hgd as [_ HgB].
  assert (good item) as Hi by (by apply (good_norm _ _ _ x)).
  assert (bytes_of (split_prev st) item = bytes_of (last_iptr Min B) x) as Eb.
  { by rewrite <- item_bytes_norm, En, item_bytes_norm, Hprev. }
  unfold split_place. rewrite (place_item rumstate attnum item) by done. cbn [out_bind].
  rewrite Eb, Hside, Hp.
  destruct (store_holds (split_right st) B x HR HgB Hfit) as (data & -> & HR').
  cbn [negb]. rewrite andb_false_r. eexists. split; [reflexivity|]. unfold splitting. cbn.
  exists A, m, (B ++ [x]). split; [rewrite Ed; by simplify_list_eq|]. split; [done|]. split; [done|].
  split; [by rewrite posting_snoc, blen_app|]. split; [by rewrite last_iptr_app; apply norm_same_iptr|].
  split; [rewrite length_app; cbn; lia|]. done.
Qed.

Lemma split_place_spec d x rest item st :
  Q = d ++ x :: rest -> norm item = norm x -> splitting total d st ->
  exists st', split_place rumstate attnum total st item = Some (Ok st') /\ splitting total (d ++ [x]) st'.
Proof.
  intros E En Hst. destruct (split_onRight st) eqn:Hside;
    [by apply (split_place_right d x rest)|by apply (split_place_left d x rest)].
Qed.

Lemma split_places_spec d t rest st :
  Q = d ++ t ++ rest -> splitting total d st ->
  exists st', split_places rumstate attnum total st t = Some (Ok st') /\ splitting total (d ++ t) st'.
Proof.
  revert d st. induction t as [|x t IH]; intros d st E Hst.
  { exists st. rewrite app_nil_r. done. }
  cbn [split_places]. destruct (split_place_spec d x (t ++ rest) x st) as (st1 & -> & H1); [done..|].
  cbn [out_bind]. destruct (IH (d ++ [x]) st1) as (st' & -> & H'); [by rewrite <- app_assoc|done|].
  exists st'. split; [done|]. by rewrite <- app_assoc in H'.
Qed.

Abbreviation places := (distribute_loop rumstate throw).

Lemma distribute_loop_past n data new i off off' ptr item st :
  off < i -> off' < i ->
  places n data attnum total new i off ptr item st = places n data attnum total new i off' ptr item st.
Proof.
  revert i ptr item st. induction n as [|n IH]; intros i ptr item st H1 H2; cbn [distribute_loop];
    replace (i =? off) with false by lia; replace (i =? off') with false by lia; [done|].
  cbn [out_bind]. destruct (read_at _ _ _ _ _ _) as [[[ptr' item']|]|]; [|done..]. cbn [out_bind].
  destruct (split_place _ _ _ _ _) as [[st'|]|]; [|done..]. cbn [out_bind]. apply IH; lia.
Qed.

(** At their place the new items are placed first. *)
Lemma distribute_loop_at n data new i ptr item st :
  places n data attnum total new i i ptr item st =
  (out! st := split_places rumstate attnum total st new in
   places n data attnum total new i (i - 1) ptr item st).
Proof.
  destruct n as [|n]; cbn [distribute_loop]; rewrite Z.eqb_refl; replace (i =? i - 1) with false by lia.
  { by destruct (split_places _ _ _ _ _) as [[st'|]|]. }
  destruct (split_places _ _ _ _ _) as [[st'|]|]; [|done..]. cbn [out_bind].
  destruct (read_at _ _ _ _ _ _) as [[[ptr' item']|]|]; [|done..]. cbn [out_bind].
  destruct (split_place _ _ _ _ _) as [[st''|]|]; [|done..]. cbn [out_bind]. apply distribute_loop_past; lia.
Qed.

(** [o] are the old items that have been read. *)
Definition reading (data : bytes) (o r : list RumItem) (item : RumItem) : Prop :=
  (exists pad, data = posting Min (o ++ r) ++ pad) /\ Forall good (o ++ r) /\
  ordered rumstate attnum (o ++ r) /\ iptr item = last_iptr Min o.

Lemma reading_step data o x r item :
  reading data o (x :: r) item ->
  read_at rumstate throw data (blen (posting Min o)) attnum item =
    Some (Ok (blen (posting Min (o ++ [x])), read_as item x)) /\
  reading data (o ++ [x]) r (read_as item x).
Proof.
  intros ([pad Hd] & Hg & Ho & Hi). split.
  - apply (read_at_item rumstate throw attnum data o x r pad); [done| | |].
    + apply Forall_app in Hg as [_ Hg]. by inversion Hg.
    + by apply (ordered_follows rumstate attnum o x r).
    + rewrite Hi. apply agree_refl, (last_iptr_wf rumstate attnum). by apply Forall_app in Hg as [? _].
  - unfold reading. rewrite <- app_assoc. split; [by exists pad|]. split; [done|]. split; [done|].
    by rewrite last_iptr_app.
Qed.

(** The old items before or after the place of the new ones. *)
Lemma distribute_loop_old data new o r d rest item st off n :
  reading data o (r ++ n) item -> Q = d ++ r ++ rest -> splitting total d st ->
  off < Z.of_nat (length o) + 1 \/ Z.of_nat (length (o ++ r)) < off ->
  exists item' st',
    places (length (r ++ n)) data attnum total new (Z.of_nat (length o) + 1) off (blen (posting Min o)) item st =
    places (length n) data attnum total new (Z.of_nat (length (o ++ r)) + 1) off
      (blen (posting Min (o ++ r))) item' st' /\
    reading data (o ++ r) n item' /\ splitting total (d ++ r) st'.
Proof.
  revert o d item st. induction r as [|x r IH]; intros o d item st Hr E Hst Hoff.
  { exists item, st. by rewrite !app_nil_r. }
  destruct (reading_step data o x (r ++ n) item Hr) as [R1 R2].
  destruct (split_place_spec d x (r ++ rest) (read_as item x) st) as (st1 & P1 & P2);
    [done|apply norm_read_as|done|].
  assert (forall l : list RumItem, l ++ x :: r = (l ++ [x]) ++ r) as Ecat by (intros; by simplify_list_eq).
  destruct (IH (o ++ [x]) (d ++ [x]) (read_as item x) st1 R2) as (item' & st' & I1 & I2 & I3).
  - by rewrite E, <- app_assoc.
  - done.
  - rewrite Ecat in Hoff. rewrite (length_app o [x]). cbn [length] in *. lia.
  - exists item', st'. rewrite !Ecat. split; [|done]. rewrite <- I1. cbn [app length distribute_loop].
    replace (_ =? off) with false; [|symmetry; apply Z.eqb_neq; rewrite length_app in Hoff; cbn in Hoff; lia].
    cbn [out_bind]. rewrite R1. cbn [out_bind]. rewrite P1. cbn [out_bind]. rewrite (length_app o [x]).
    cbn [length]. by replace (Z.of_nat (length o + 1) + 1) with (Z.of_nat (length o) + 1 + 1) by lia.
Qed.

(** The whole pass. *)
Lemma distribute_loop_spec data new l r item st :
  reading data [] (l ++ r) item -> Q = l ++ new ++ r -> splitting total [] st ->
  exists st',
    places (length (l ++ r)) data attnum total new 1 (Z.of_nat (length l) + 1) 0 item st = Some (Ok st') /\
    splitting total Q st'.
Proof.
  intros Hr E Hst.
  destruct (distribute_loop_old data new [] l [] (new ++ r) item st (Z.of_nat (length l) + 1) r Hr E Hst)
    as (item1 & st1 & E1 & R1 & S1); [right; cbn; lia|]. cbn [app length] in E1, R1, S1.
  change (Z.of_nat 0 + 1) with 1 in E1. change (blen (posting Min [])) with 0 in E1. rewrite E1.
  rewrite distribute_loop_at. destruct (split_places_spec l new r st1 E S1) as (st2 & -> & S2). cbn [out_bind].
  destruct (distribute_loop_old data new l r (l ++ new) [] item1 st2 (Z.of_nat (length l) + 1 - 1) [])
    as (item3 & st3 & E3 & _ & S3).
  - by rewrite app_nil_r.
  - by rewrite app_nil_r, <- app_assoc.
  - done.
  - left. lia.
  - exists st3. rewrite app_nil_r in E3. rewrite E3. cbn [length distribute_loop].
    replace (_ =? _) with false; [|symmetry; apply Z.eqb_neq; rewrite length_app; lia].
    split; [done|]. by rewrite <- app_assoc, <- E in S3.
Qed.
End pass.

(** ** The split *)

Lemma max_size_le p l : Forall good l -> max_size p l <= 16.
Proof.
  intros Hg. revert p. induction Hg as [|x l Hx Hg IH]; intros p; cbn [max_size]; [lia|].
  pose proof (item_size_le p x Hx). specialize (IH (iptr x)). lia.
Qed.

Lemma max_size_pos p l : l <> [] -> 2 <= max_size p l.
Proof. destruct l as [|x l]; [done|]. intros _. cbn. pose proof (item_bytes_pos rumstate attnum p x). lia. Qed.

(** A new item between the smaller and the greater ones. *)
Lemma ordered_insert l y x r :
  ordered rumstate attnum (l ++ x :: r) -> Forall (fun a => order a y = Lt) l -> order x y = Gt ->
  ordered rumstate attnum (l ++ [y] ++ x :: r).
Proof.
  intros Ho Hl Hx. apply ordered_app in Ho as (H1 & H2 & H3). apply ordered_app. split; [done|].
  apply (cmp_gt_lt order) in Hx. pose proof (StronglySorted_inv H2) as [_ H4]. split.
  - constructor; [done|]. constructor; [done|]. by apply (before_all rumstate attnum y x).
  - intros a b Ha' [<-|Hb]; [rewrite List.Forall_forall in Hl; by apply Hl|by apply H3].
Qed.

(** The new items [t] go between [l] and [r], and their size is known. *)
Definition sized_for (btree : RumBtree) (l t r : list RumItem) (sized : SizeState) : Prop :=
  t <> [] /\ size_index sized = (curitem btree + length t)%nat /\
  half_fits (l ++ t ++ r) (size_total sized) /\
  size_total sized <= blen (posting Min (l ++ t ++ r)) + 4.

Section passes.
Context (page : RumPage) (items : list RumItem) (btree : RumBtree) (y : RumItem) (n : list RumItem).
Hypothesis Hins : inserting rumstate attnum page items btree y n.

Lemma sizes_middle l x r rightmost :
  items = l ++ x :: r -> Forall (fun a => order a y = Lt) l -> order x y = Gt ->
  exists sized,
    split_sizes rumstate throw btree (page_data page) (dataPageMaxoff page)
      (Z.of_nat (length l) + 1) rightmost = Some (Ok sized) /\
    sized_for btree l [y] (x :: r) sized.
Proof.
  intros E Hl Hx. destruct Hins as [[_ Hg Ho Hm [pad Hd] Hs _ _ _] _ _ Ha Hn Hgn _].
  apply Forall_cons in Hgn as [Hy _]. pose proof (drop_cons_lookup _ _ _ _ (eq_sym Hn)) as [Hlook _].
  rewrite E in Hg, Ho, Hm, Hd.
  destruct (size_loop_insert (page_data page) [] l (x :: r) pad (mk_size RumItemSetMin 0 0 (curitem btree))
              (btree_items btree) y Hd Hg Ho) as (item & m & E1); [done|done|done|done|done|].
  cbn [app length size_total size_index] in E1. change (Z.of_nat 0 + 1) with FirstOffsetNumber in E1.
  change (blen (posting Min [])) with 0 in E1. change (last_iptr Min []) with Min in E1.
  unfold split_sizes. rewrite Hm, Ha, Nat2Z.id, E1. cbn [out_bind].
  replace (_ =? _) with false; [|symmetry; apply Z.eqb_neq; rewrite length_app; cbn; lia].
  eexists. split; [reflexivity|]. split; [done|]. cbn [size_index size_total]. split; [cbn; lia|].
  rewrite posting_app_size. cbn [app posting_bytes]. rewrite posting_app_size in *.
  assert (Forall good (l ++ [y] ++ x :: r)) as HgQ.
  { apply Forall_app in Hg as [??]. apply Forall_app. split; [done|]. by constructor. }
  assert (ordered rumstate attnum (l ++ [y] ++ x :: r)) as HoQ by (by apply ordered_insert).
  pose proof (ordered_follows rumstate attnum l y (x :: r) HgQ HoQ) as [Hw Hb].
  assert (follows rumstate x (iptr y)) as Hf.
  { replace (iptr y) with (last_iptr Min (l ++ [y])) by apply last_iptr_app.
    apply (ordered_follows rumstate attnum _ x r); by rewrite <- app_assoc. }
  assert (Forall good (x :: r)) as Hgr by (by apply Forall_app in Hg as [_ ?]).
  pose proof (posting_size_mono rumstate attnum (last_iptr Min l) y (x :: r) Hgr Hw (proj1 Hy) Hb Hf) as Hmono.
  pose proof (posting_size_near (last_iptr Min l) (iptr y) (x :: r)) as Hnear.
  pose proof (item_size_le (last_iptr Min l) y Hy) as Hsize.
  rewrite Hd, blen_app, posting_app_size in Hs. pose proof (blen_nonneg pad).
  cbn [posting_bytes] in *. rewrite !blen_app in *. split; [|lia].
  apply half_fits_middle; [done| |]; [|lia].
  rewrite posting_app_size. cbn [app posting_bytes]. rewrite !blen_app. lia.
Qed.

Lemma sizes_append :
  items <> [] ->
  exists t n2 sized, y :: n = t ++ n2 /\
    split_sizes rumstate throw btree (page_data page) (dataPageMaxoff page)
      (Z.of_nat (length items) + 1) true = Some (Ok sized) /\
    sized_for btree items t [] sized /\
    (n2 = [] \/ 2 * RumDataPageSize - 64 <= size_total sized).
Proof.
  intros Hne. destruct Hins as [[_ Hg Ho Hm [pad Hd] Hs _ _ _] _ _ Ha Hn Hgn _].
  pose proof (drop_cons_lookup _ _ _ _ (eq_sym Hn)) as [Hlook _].
  destruct (size_loop_old (page_data page) [] items pad (mk_size RumItemSetMin 0 0 (curitem btree))
              (Z.of_nat (length items) + 1) (btree_items btree) Hd Hg Ho) as (item & E1 & _ & E2);
    [apply min_wf|done|right; cbn; lia|].
  cbn [app length size_total size_index size_max size_item] in E1, E2.
  change (Z.of_nat 0 + 1) with FirstOffsetNumber in E1. change (blen (posting Min [])) with 0 in E1.
  change (last_iptr Min []) with Min in E1, E2. specialize (E2 eq_refl). rewrite Z.add_0_l in E1.
  unfold split_sizes. rewrite Hm, Ha, Nat2Z.id, E1. cbn [out_bind]. rewrite Z.eqb_refl. cbn [size_index].
  rewrite Hlook. cbn [mbind option_bind size_item].
  set (st := mk_size item _ _ _). pose proof (max_size_le Min items Hg). pose proof (max_size_pos Min items Hne).
  destruct (size_append_spec (length (btree_items btree)) (btree_items btree) y (iptr item) st (y :: n))
    as (t & n2 & sized & T1 & -> & T3 & T4 & T5 & T6 & T7).
  - done.
  - rewrite <- Hn, length_drop. lia.
  - done.
  - done.
  - cbn. lia.
  - cbn [st size_index size_total size_max] in T3, T4, T5, T6. rewrite Z.max_r in T5, T6 by lia.
    rewrite Hd, blen_app in Hs. pose proof (blen_nonneg pad). change RumDataPageSize with 7368 in Hs, T6.
    rewrite E2, <- posting_app_size in T4.
    assert (t <> []) as Htne by (apply T6; [done|lia]).
    exists t, n2, sized. split; [done|]. split; [done|]. split; [|apply T7; cbn; lia].
    split; [done|]. split; [done|]. rewrite app_nil_r. split; [|lia]. destruct T5 as [->|(t0 & z & -> & T5)]; [done|]. rewrite E2, <- max_size_app in T5.
    apply (half_fits_append items t0 z _ (max_size Min (items ++ t0))); [|done|done|rewrite max_size_app; lia|done].
    rewrite T1 in Hgn. apply Forall_app in Hgn as [Hgn _]. by apply Forall_app.
Qed.
End passes.

Abbreviation merge := (rumMergeRumItems rumstate attnum).

(** One of the two new pages. *)
Lemma build_page (skip : bool) flags d data bound cycle :
  Z.land flags RUM_LEAF <> 0 -> Forall good d -> ordered rumstate attnum d -> holds data d ->
  let fresh := if skip then RumInitPage flags else RumDataPageEntryRevive (RumInitPage flags) in
  exists page',
    updateItemIndexes rumstate throw
      (with_bound (with_leaf fresh (Z.of_nat (length d)) 0 data (page_indexes fresh)) bound cycle) attnum =
      Some (Ok page') /\
    leaf_page rumstate attnum page' d /\ page_rightBound page' = bound /\ page_flags page' = page_flags fresh.
Proof.
  intros Hf Hg Ho [Hs [junk Hd]] fresh.
  destruct (updateItemIndexes_spec rumstate throw attnum
    (with_bound (with_leaf fresh (Z.of_nat (length d)) 0 data (page_indexes fresh)) bound cycle) d junk)
    as (free & ixs & E & Hp); try done.
  - assert (RumPageIsLeaf fresh = true) as Hleaf; [|exact Hleaf].
    assert (RumPageIsLeaf (RumInitPage flags) = true).
    { unfold RumPageIsLeaf. cbn. apply negb_true_iff. by apply Z.eqb_neq. }
    subst fresh. destruct skip; [done|]. by rewrite leaf_after_revive.
  - by destruct skip.
  - rewrite E. eexists. by split; [reflexivity|].
Qed.

Lemma initial_holds (skip : bool) flags :
  holds (page_data (if skip then RumInitPage flags else RumDataPageEntryRevive (RumInitPage flags))) [].
Proof.
  assert (page_data (if skip then RumInitPage flags else RumDataPageEntryRevive (RumInitPage flags)) =
          replicate (Z.to_nat RumDataPageSize) 0) as -> by (by destruct skip).
  split; [|by eexists]. unfold blen. by rewrite length_replicate.
Qed.

(** Where the two pages meet. *)
Lemma splitting_end total Q st :
  half_fits Q total -> total <= blen (posting Min Q) + 4 -> 40 < total -> Forall good Q ->
  splitting total Q st ->
  exists A m B m', Q = (A ++ [m]) ++ B /\ B <> [] /\ holds (split_left st) (A ++ [m]) /\
    holds (split_right st) B /\ split_j st - 1 = Z.of_nat (length B) /\
    split_leftMaxoff st = Z.of_nat (length (A ++ [m])) /\ split_maxLeftItem st = Some m' /\ norm m' = norm m.
Proof.
  intros (Htot & _) Hnear Hbig Hg Hst. unfold splitting in Hst.
  pose proof (Z.div_mod total 2). pose proof (Z.mod_pos_bound total 2). destruct (split_onRight st).
  - destruct Hst as (A & m & B & -> & HL & HR & _ & _ & Hj & Hmax & (m' & Hm & En) & HA).
    exists A, m, B, m'. rewrite app_assoc. split; [done|]. split; [|repeat (split; [done || lia|]); done].
    intros ->. rewrite app_nil_r in *. apply Forall_app in Hg as [_ Hgm]. apply Forall_cons in Hgm as [Hgm _].
    rewrite (posting_snoc rumstate attnum A m), blen_app in *.
    pose proof (item_size_le (last_iptr Min A) m Hgm). lia.
  - destruct Hst as (_ & _ & _ & _ & _ & Hle). lia.
Qed.

(** What the split gives when the new items [t] are distributed. *)
Definition split_result (skip : bool) (page : RumPage) (items : list RumItem) (btree : RumBtree) (lblkno rblkno : Z)
  (t : list RumItem) (left right : RumPage) (btree' : RumBtree) : Prop :=
  exists A m B bound, merge t items = (A ++ [m]) ++ B /\ B <> [] /\
    leaf_page rumstate attnum left (A ++ [m]) /\ leaf_page rumstate attnum right B /\
    page_flags left = page_flags (revived skip page) /\ page_flags right = page_flags (revived skip page) /\
    norm bound = norm m /\ page_rightBound left = bound /\ page_rightBound right = page_rightBound page /\
    btree' = with_split btree (curitem btree + length t) (mk_pitem lblkno bound) rblkno.

Section whole.
Context (skip bulk : bool) (cycle : Z).
Context (page : RumPage) (items : list RumItem) (btree : RumBtree) (y : RumItem) (n : list RumItem).
Hypothesis Hins : inserting rumstate attnum page items btree y n.

Lemma split_pages l r t n2 lblkno rblkno sized :
  items = l ++ r -> y :: n = t ++ n2 -> merge t items = l ++ t ++ r ->
  ordered rumstate attnum (l ++ t ++ r) -> 40 < size_total sized ->
  split_sizes rumstate throw btree (page_data page) (dataPageMaxoff page) (Z.of_nat (length l) + 1) true =
    Some (Ok sized) ->
  sized_for btree l t r sized ->
  exists left right btree',
    dataSplitPage rumstate throw skip bulk cycle btree lblkno rblkno page (Z.of_nat (length l) + 1) =
      Some (Ok (left, right, btree')) /\
    split_result skip page items btree lblkno rblkno t left right btree'.
Proof.
  intros E Et Em HoQ Hbig Hsizes (Hne & Hix & Hhalf & Hnear).
  destruct Hins as [[Hleaf Hg Ho Hm [pad Hd] Hs _ _ _] _ _ Ha Hn Hgn _].
  assert (Forall good (l ++ t ++ r)) as HgQ.
  { rewrite E in Hg. rewrite Et in Hgn. apply Forall_app in Hgn as [? _]. apply Forall_app in Hg as [??].
    by repeat (apply Forall_app; split). }
  unfold dataSplitPage. rewrite Hleaf. unfold dataSplitPageLeaf, dataPrepareData. rewrite Hleaf. cbn [negb andb].
  set (fresh := if skip then _ else _).
  assert (RumPageRightMost fresh = true) as -> by (by destruct skip).
  unfold split_sizes in *. cbn [entryAttnum btree_items curitem with_split] in *. rewrite Hsizes. cbn [out_bind].
  rewrite Hix, Hn, Et, Nat.add_comm, Nat.add_sub, take_app_length, Ha.
  assert (reading (page_data page) [] (l ++ r)
    (mk_item Min (addInfoIsNull (size_item sized)) (addInfo (size_item sized)))) as Hread.
  { rewrite <- E. split; [by exists pad|]. done. }
  assert (splitting (size_total sized) []
    (mk_splitstate (page_data fresh) (page_data fresh) false 0 FirstOffsetNumber Min 0 None)) as Hstart.
  { unfold splitting. cbn [split_onRight split_left split_right split_ptr split_prev split_j].
    pose proof (initial_holds skip (page_flags page)) as Hinit. fold fresh in Hinit.
    repeat (split; [done|]). apply Z.div_pos; lia. }
  destruct (distribute_loop_spec (l ++ t ++ r) (size_total sized) HgQ Hhalf (page_data page) t l r _ _ Hread eq_refl Hstart)
    as (st & Hloop & Hst).
  rewrite <- E in Hloop. rewrite Hm, Nat2Z.id. change FirstOffsetNumber with 1 in *. rewrite Hloop.
  cbn [out_bind].
  destruct (splitting_end _ _ _ Hhalf Hnear Hbig HgQ Hst) as (A & m & B & m' & EQ & HB & HL & HR & -> & -> & -> & Enm).
  rewrite EQ in HgQ, HoQ. apply Forall_app in HgQ as [HgA HgB]. apply ordered_app in HoQ as (HoA & HoB & _).
  assert (Z.land (page_flags page) RUM_LEAF <> 0) as Hflags.
  { unfold RumPageIsLeaf in Hleaf. apply negb_true_iff, Z.eqb_neq in Hleaf. done. }
  destruct (build_page skip (page_flags page) (A ++ [m]) (split_left st) m' (if bulk then cycle else 0)
              Hflags HgA HoA HL) as (left & HLU & HLp & HLb & HLf). fold fresh in HLU. rewrite HLU. cbn [out_bind].
  destruct (build_page skip (page_flags page) B (split_right st) (page_rightBound page) (if bulk then cycle else 0)
              Hflags HgB HoB HR) as (right & HRU & HRp & HRb & HRf). fold fresh in HRU. rewrite HRU. cbn [out_bind].
  eexists left, right, _. split; [reflexivity|]. exists A, m, B, m'. rewrite Em.
  assert (page_flags fresh = page_flags (revived skip page)) as Hfresh by (by destruct skip).
  fold fresh in HLf, HRf. rewrite HLf, HRf, Hfresh. repeat (split; [done|]). by rewrite Nat.add_comm.
Qed.
End whole.

(** Nearly all of the old size is there again. *)
Lemma split_size l t r :
  blen (posting Min (l ++ r)) - 4 <= blen (posting Min (l ++ t ++ r)).
Proof.
  rewrite !posting_app_size, (posting_bytes_app rumstate attnum _ t r), blen_app.
  pose proof (posting_size_near (last_iptr Min l) (last_iptr (last_iptr Min l) t) r).
  pose proof (blen_nonneg (posting (last_iptr Min l) t)). lia.
Qed.

Lemma space_left page items btree y n split_size :
  inserting rumstate attnum page items btree y n ->
  dataIsEnoughSpace rumstate split_size btree page =
  Some (blen (bytes_of Min y) + 8 <=? 7368 - blen (posting Min items)).
Proof.
  intros [[Hleaf _ _ _ _ _ Hfree _ _] _ _ Ha Hn Hgn _].
  pose proof (drop_cons_lookup _ _ _ _ (eq_sym Hn)) as [Hlook _]. apply Forall_cons in Hgn as [Hy _].
  unfold dataIsEnoughSpace. by rewrite Hleaf, Hlook, Ha, check_place_size, Hfree by done.
Qed.

Lemma no_space page items btree y n split_size :
  inserting rumstate attnum page items btree y n ->
  dataIsEnoughSpace rumstate split_size btree page = Some false -> 7344 < blen (posting Min items).
Proof.
  intros I Hspace. rewrite (space_left _ _ _ _ _ _ I) in Hspace. injection Hspace as Hspace.
  apply Z.leb_gt in Hspace. destruct I as [_ _ _ _ _ Hgn _]. apply Forall_cons in Hgn as [Hy _].
  pose proof (item_size_le Min y Hy). lia.
Qed.

Lemma posting_size_le p l : Forall good l -> blen (posting p l) <= 16 * Z.of_nat (length l).
Proof.
  intros Hg. revert p. induction Hg as [|x l Hx Hg IH]; intros p; cbn [posting_bytes length]; [done|].
  rewrite blen_app. pose proof (item_size_le p x Hx). specialize (IH (iptr x)). lia.
Qed.

(** New items above all old ones. *)
Lemma ordered_append l y t :
  ordered rumstate attnum l -> ordered rumstate attnum (y :: t) -> Forall (fun a => order a y = Lt) l ->
  ordered rumstate attnum (l ++ y :: t).
Proof.
  intros Ho Hon Hl. apply ordered_app. split; [done|]. split; [done|]. intros a b Ha' Hb.
  rewrite List.Forall_forall in Hl. specialize (Hl a Ha'). destruct Hb as [<-|Hb]; [done|].
  pose proof (StronglySorted_inv Hon) as [_ Hy]. rewrite List.Forall_forall in Hy.
  apply (cmp_lt_trans order a y b); [done|by apply Hy].
Qed.

Section cases.
Context (skip bulk : bool) (cycle lblkno rblkno : Z).
Context (page : RumPage) (items : list RumItem) (btree : RumBtree) (y : RumItem) (n : list RumItem).
Hypothesis Hins : inserting rumstate attnum page items btree y n.
Hypothesis Hbig : 7344 < blen (posting Min items).

(** The split at an offset takes the new items [t] and gives two pages. *)
Definition splits (off : Z) (t : list RumItem) : Prop :=
  t <> [] /\ exists left right btree',
    dataSplitPage rumstate throw skip bulk cycle btree lblkno rblkno page off =
      Some (Ok (left, right, btree')) /\
    split_result skip page items btree lblkno rblkno t left right btree'.

(** A few new items, say four hundred, are all taken. *)
Lemma split_append :
  Forall (fun a => order a y = Lt) items ->
  exists t n2, y :: n = t ++ n2 /\ splits (Z.of_nat (length items) + 1) t /\
    ((length (y :: n) <= 400)%nat -> n2 = []).
Proof.
  intros Hl. pose proof Hins as [Hp _ _ _ _ Hgn Hon].
  destruct (sizes_append page items btree y n Hins) as (t & n2 & sized & Et & Hsz & Hfor & Hall).
  { intros E. rewrite E in Hbig. change (blen (posting Min [])) with 0 in Hbig. lia. }
  pose proof Hfor as (Htne & _ & (Htot & _) & Hnear). rewrite app_nil_r in Htot, Hnear. rewrite Et in Hgn, Hon.
  destruct t as [|y' t]; [done|]. injection Et as <- Et.
  apply Forall_app in Hgn as [Hgn _]. apply ordered_app in Hon as (Hon & _ & _).
  destruct (split_pages skip bulk cycle page items btree y n Hins items [] (y :: t) n2 lblkno rblkno sized)
    as (left & right & btree' & H1 & H2); [by rewrite app_nil_r|by rewrite Et| | | |done|done|].
  - rewrite <- (app_nil_r items) at 1. pose proof (lp_good _ _ _ _ Hp).
    by rewrite merge_prefix, merge_nil_r, app_nil_r by done.
  - rewrite app_nil_r. apply ordered_append; [apply Hp|done|done].
  - pose proof (split_size items (y :: t) []) as Hsize. rewrite !app_nil_r in Hsize. lia.
  - exists (y :: t), n2. rewrite Et. split; [done|]. split; [split; [done|by exists left, right, btree']|].
    intros Hshort. destruct Hall as [|Hall]; [done|exfalso].
    pose proof Hp as [_ _ _ _ [pad Hd] Hs _ _ _]. rewrite Hd, blen_app in Hs. pose proof (blen_nonneg pad).
    change RumDataPageSize with 7368 in *. rewrite posting_app_size in Hnear.
    pose proof (posting_size_le (last_iptr Min items) (y :: t) Hgn). cbn [length] in *.
    rewrite length_app in Hshort. lia.
Qed.

Lemma split_middle l x r :
  items = l ++ x :: r -> Forall (fun a => order a y = Lt) l -> order x y = Gt ->
  splits (Z.of_nat (length l) + 1) [y].
Proof.
  intros E Hl Hx. pose proof Hins as [Hp _ _ _ _ Hgn Hon].
  destruct (sizes_middle page items btree y n Hins l x r true E Hl Hx) as (sized & Hsz & Hfor).
  pose proof Hfor as (_ & _ & (Htot & _) & _). apply Forall_cons in Hgn as [Hy _].
  pose proof (lp_good _ _ _ _ Hp) as Hg. pose proof (lp_ordered _ _ _ _ Hp) as Ho. rewrite E in Hg, Ho, Hbig.
  apply Forall_app in Hg as [Hgl Hgr]. apply Forall_cons in Hgr as [Hgx _].
  destruct (split_pages skip bulk cycle page items btree y n Hins l (x :: r) [y] n lblkno rblkno sized)
    as (left & right & btree' & H1 & H2); [done|done| | | |done|done|].
  - rewrite E, merge_prefix by (done || by constructor). f_equal. by rewrite merge_new_first.
  - by apply ordered_insert.
  - pose proof (split_size l [y] (x :: r)). lia.
  - split; [done|]. by exists left, right, btree'.
Qed.
End cases.

Lemma split_leaf skip bulk cycle split_size page items btree y n off lblkno rblkno :
  inserting rumstate attnum page items btree y n -> fullScan btree = false ->
  dataIsEnoughSpace rumstate split_size btree page = Some false ->
  dataLocateLeafItem rumstate throw btree page = Some (Ok (false, off)) ->
  exists t n2 left right btree', y :: n = t ++ n2 /\ t <> [] /\
    dataSplitPage rumstate throw skip bulk cycle btree lblkno rblkno page off =
      Some (Ok (left, right, btree')) /\
    split_result skip page items btree lblkno rblkno t left right btree'.
Proof.
  intros I Hf Hspace Hloc. pose proof (no_space _ _ _ _ _ _ I Hspace) as Hbig.
  pose proof I as [Hp _ _ Ha Hn Hgn _]. pose proof (drop_cons_lookup _ _ _ _ (eq_sym Hn)) as [Hlook _].
  unfold dataLocateLeafItem in Hloc. rewrite Hf, Hlook, Ha in Hloc.
  destruct (findInLeafPage_spec rumstate throw attnum page items y Hp) as (l & r & p & E & [Hl Hr] & _ & Hfind);
    [by inversion Hgn|].
  rewrite Hfind in Hloc. cbn [out_bind] in Hloc. injection Hloc as Hfound <-. destruct r as [|x r].
  - rewrite app_nil_r in E. subst l.
    destruct (split_append skip bulk cycle lblkno rblkno page items btree y n I Hbig Hl)
      as (t & n2 & Et & [Ht (left & right & btree' & H1 & H2)] & _).
    by exists t, n2, left, right, btree'.
  - cbn in Hfound. apply bool_decide_eq_false in Hfound. 
    destruct (split_middle skip bulk cycle lblkno rblkno page items btree y n I Hbig l x r E Hl)
      as [Ht (left & right & btree' & H1 & H2)]; [|by exists [y], n, left, right, btree'].
    destruct (order x y) eqn:Exy; [|done|done]. destruct Hfound. by apply (cmp_eq_sym order).
Qed.

(** C22: The split of a leaf page.  When a page has no space for a new item, the
    split returns, writes nothing outside of its two pages and takes at least
    that item.  The two pages are well-formed and not empty, together they hold
    exactly the old items and the new ones taken, in order; the parent gets the
    left page with its greatest item, which is its right bound, and the right
    page keeps the bound of the page that was split. *)
Theorem leaf_split_correct skip bulk cycle split_size page items btree y n off lblkno rblkno :
  inserting rumstate attnum page items btree y n -> fullScan btree = false ->
  dataIsEnoughSpace rumstate split_size btree page = Some false ->
  dataLocateLeafItem rumstate throw btree page = Some (Ok (false, off)) ->
  exists t n2 left right btree', y :: n = t ++ n2 /\ t <> [] /\
    dataSplitPage rumstate throw skip bulk cycle btree lblkno rblkno page off =
      Some (Ok (left, right, btree')) /\
    split_result skip page items btree lblkno rblkno t left right btree'.
Proof. apply split_leaf. Qed.

(** The code asks whether the page is the rightmost one after the page has been
    initialized, when it always is: at the end of a full page with a right
    neighbour the split takes also new items above the right bound of the page,
    and puts them on the right page, which keeps that bound. *)
Lemma split_passes_right_bound skip bulk cycle split_size page items btree y n lblkno rblkno :
  inserting rumstate attnum page items btree y n ->
  dataIsEnoughSpace rumstate split_size btree page = Some false ->
  Forall (fun a => order a y = Lt) items -> (length (y :: n) <= 400)%nat ->
  exists left right btree' B,
    dataSplitPage rumstate throw skip bulk cycle btree lblkno rblkno page (Z.of_nat (length items) + 1) =
      Some (Ok (left, right, btree')) /\
    leaf_page rumstate attnum right B /\ last B = last (y :: n) /\
    page_rightBound right = page_rightBound page.
Proof.
  intros I Hspace Hl Hshort. pose proof (no_space _ _ _ _ _ _ I Hspace) as Hbig.
  destruct (split_append skip bulk cycle lblkno rblkno page items btree y n I Hbig Hl)
    as (t & n2 & Et & [Ht (left & right & btree' & H1 & H2)] & Hall).
  rewrite Hall, app_nil_r in Et by done. subst t.
  destruct H2 as (A & m & B & bound & Em & HB & _ & HpB & _ & _ & _ & _ & Hbound & _).
  exists left, right, btree', B. do 2 (split; [done|]). split; [|done].
  pose proof I as [Hp _ _ _ _ Hgn _]. pose proof (lp_good _ _ _ _ Hp) as Hg.
  rewrite <- (app_nil_r items), merge_prefix, merge_nil_r in Em by done. apply (f_equal last) in Em.
  rewrite !last_app in Em. rewrite last_cons in Em at 1.
  destruct (last B) as [b|] eqn:EB; [|destruct HB; by apply last_None in EB].
  rewrite last_cons. by destruct (last n).
Qed.
End split.

(** ** A full page *)

Definition spread_item (i : nat) : RumItem := mk_item (mk_iptr (64 * Z.of_nat i) 0 100) false 7.

Definition full_items : list RumItem := map spread_item (seq 1 735).

Lemma spread_good i : (i <= 1000)%nat -> wf_item (sample_state false) 1 (spread_item i).
Proof.
  intros Hi. split; [split; cbn; lia|]. split; [reflexivity|]. right. exists 4.
  split; [reflexivity|]. split; [lia|vm_compute; reflexivity].
Qed.

Lemma spread_good_all s k : (s + k <= 1000)%nat -> Forall (wf_item (sample_state false) 1) (map spread_item (seq s k)).
Proof.
  revert s. induction k as [|k IH]; intros s Hs; [constructor|].
  cbn [seq map]. apply List.Forall_cons; [apply spread_good; lia|apply IH; lia].
Qed.

Lemma spread_ordered s k : ordered (sample_state false) 1 (map spread_item (seq s k)).
Proof.
  revert s. induction k as [|k IH]; intros s; [constructor|]. cbn [seq map]. constructor; [apply IH|].
  apply List.Forall_forall. intros x Hx. apply in_map_iff in Hx as (i & <- & Hi). apply in_seq in Hi.
  unfold before, item_order. cbn [sample_state useAlternativeOrder andb].
  unfold cmp_on, iptr_order, cmp_lex, cmp_on, block. cbn [spread_item iptr bi_hi bi_lo].
  destruct (Z.compare_spec (64 * Z.of_nat s * 2 ^ 16 + 0) (64 * Z.of_nat i * 2 ^ 16 + 0)); [lia|done|lia].
Qed.

Definition created (r : outcome RumPage) : RumPage :=
  match r with Some (Ok page) => page | _ => RumInitPage 0 end.

Definition full_page : RumPage := created (rumCreatePostingTree (sample_state false) true 1 full_items).

Lemma full_page_leaf : leaf_page (sample_state false) 1 full_page full_items /\
  RumPageRightMost full_page = true /\ page_rightBound full_page = RumItemSetMin /\
  page_flags full_page = Z.lor 1 RUM_LEAF.
Proof.
  destruct (create_leaf (sample_state false) true 1 full_items) as (page & E & Hp & Hr & Hb & Hf).
  - apply spread_good_all. lia.
  - apply spread_ordered.
  - vm_compute. discriminate.
  - unfold full_page. rewrite E. unfold created, RumPageRightMost. rewrite Hr. split; [exact Hp|]. split; [reflexivity|]. split; [exact Hb|exact Hf].
Qed.

(** New items, one of them in the middle of the page. *)
Definition split_btree (items : list RumItem) : RumBtree :=
  mk_btree 1 false true items 0 (mk_pitem 0 RumItemSetMin) InvalidBlockNumber.

Definition middle_item : RumItem := mk_item (mk_iptr 20000 5 100) false 7.

Lemma far_good hi lo : 0 <= hi < 2 ^ 16 -> 0 <= lo < 2 ^ 16 ->
  wf_item (sample_state false) 1 (mk_item (mk_iptr hi lo 100) false 7).
Proof.
  intros H1 H2. split; [split; cbn; lia|]. split; [reflexivity|]. right. exists 4.
  split; [reflexivity|]. split; [lia|vm_compute; reflexivity].
Qed.

Lemma inserting_full :
  inserting (sample_state false) 1 full_page full_items (split_btree [middle_item]) middle_item [].
Proof.
  destruct full_page_leaf as (Hp & Hr & Hb & _). split.
  - exact Hp.
  - left. exact Hr.
  - rewrite Hb. exact min_wf.
  - reflexivity.
  - reflexivity.
  - apply List.Forall_cons; [apply far_good; lia|apply List.Forall_nil].
  - repeat constructor.
Qed.

Lemma leaf_split_correct_witness :
  exists t n2 left right btree', [middle_item] = t ++ n2 /\ t <> [] /\
    dataSplitPage (sample_state false) true false false 0 (split_btree [middle_item]) 10 11 full_page 313 =
      Some (Ok (left, right, btree')) /\
    split_result (sample_state false) 1 false full_page full_items (split_btree [middle_item]) 10 11 t
      left right btree'.
Proof.
  apply (leaf_split_correct (sample_state false) true 1 false false 0 0).
  - exact inserting_full.
  - reflexivity.
  - rewrite (space_left _ _ _ _ _ _ _ _ inserting_full). vm_compute. reflexivity.
  - rewrite (dataLocateLeafItem_spec (sample_state false) true 1 full_page full_items _ middle_item).
    + vm_compute. reflexivity.
    + apply full_page_leaf.
    + reflexivity.
    + reflexivity.
    + reflexivity.
    + apply far_good; lia.
Defined.

(** ** A page with a right neighbour *)

(** The full page, with a right neighbour from block 48000 * 65536 on. *)
Definition right_bound : RumItem := mk_item (mk_iptr 48000 0 100) false 7.

Definition with_neighbour (page : RumPage) (right : Z) (bound : RumItem) : RumPage :=
  mk_page (page_flags page) (page_leftlink page) right (dataPageMaxoff page) (dataPageFreespace page)
    (page_cycleId page) bound (page_data page) (page_indexes page) (page_items page).

Lemma leaf_with_neighbour rumstate attnum page items right bound :
  leaf_page rumstate attnum page items -> leaf_page rumstate attnum (with_neighbour page right bound) items.
Proof. intros []. by split. Qed.

Definition bounded_page : RumPage := with_neighbour full_page 12 right_bound.

Definition below_bound : RumItem := mk_item (mk_iptr 47500 0 100) false 7.
Definition above_bound : RumItem := mk_item (mk_iptr 50000 0 100) false 7.

Lemma full_below hi : 47040 < hi ->
  Forall (fun a => item_order (sample_state false) 1 a (mk_item (mk_iptr hi 0 100) false 7) = Lt) full_items.
Proof.
  intros Hhi. apply List.Forall_forall. intros x Hx. apply in_map_iff in Hx as (i & <- & Hi). apply in_seq in Hi.
  unfold item_order. cbn [sample_state useAlternativeOrder andb].
  unfold cmp_on, iptr_order, cmp_lex, cmp_on, block. cbn [spread_item iptr bi_hi bi_lo].
  destruct (Z.compare_spec (64 * Z.of_nat i * 2 ^ 16 + 0) (hi * 2 ^ 16 + 0)); [lia|done|lia].
Qed.

(** The first new item belongs on the page, the second one on its neighbour; the
    split puts both on the new right page. *)
Example split_passes_bound_48000 :
  dataIsMoveRight (sample_state false) (split_btree [above_bound]) bounded_page = Some true /\
  exists left right btree' B,
    dataSplitPage (sample_state false) true false false 0 (split_btree [below_bound; above_bound])
      10 11 bounded_page 736 = Some (Ok (left, right, btree')) /\
    leaf_page (sample_state false) 1 right B /\ last B = Some above_bound /\
    page_rightBound right = right_bound.
Proof.
  assert (inserting (sample_state false) 1 bounded_page full_items (split_btree [below_bound; above_bound])
            below_bound [above_bound]) as I.
  { split.
    - apply leaf_with_neighbour, full_page_leaf.
    - right. change (page_rightBound bounded_page) with right_bound. apply (Forall_impl _ _ _ (full_below 48000 ltac:(lia))). intros x Hx E.
      unfold right_bound in E. rewrite Hx in E. discriminate.
    - change (page_rightBound bounded_page) with right_bound. split; cbn; lia.
    - reflexivity.
    - reflexivity.
    - apply List.Forall_cons; [apply far_good; lia|]. apply List.Forall_cons; [apply far_good; lia|].
      apply List.Forall_nil.
    - repeat constructor. }
  split; [reflexivity|].
  apply (split_passes_right_bound (sample_state false) true 1 false false 0 0 bounded_page full_items _ _ _ 10 11 I).
  - rewrite (space_left _ _ _ _ _ _ _ _ I). vm_compute. reflexivity.
  - apply full_below. lia.
  - cbn. lia.
Qed.
