(* ===== verification/RumInner.v ===== *)
(** * Inner pages of the posting tree

    An inner page is an array of children, each with the greatest item below it;
    the last child takes everything above.  Shown are the binary search, the
    entry of the two halves of a child that was split, the split of an inner page
    and the search for the pointer to a child.  The statements are about where
    the search for a key descends. *)

From stdpp Require Import base numbers list option sorting.
From Stdlib Require Import ZArith Lia.
From S2P Require Import Prelude PgbsonElement RumPosting RumDataPage RumLeafPage RumSplit.

Section inner.
Context (rumstate : RumState) (throw : bool) (attnum : Z) {O : OrderedAddInfo rumstate}.

Abbreviation order := (item_order rumstate attnum).

(** The greatest items of all children but the last are in order. *)
Definition separated (children : list RumPostingItem) : Prop :=
  ordered rumstate attnum (removelast (map pitem_item children)).

Record inner_page (page : RumPage) (children : list RumPostingItem) : Prop := {
  ip_inner : RumPageIsLeaf page = false;
  ip_children : page_items page = children;
  ip_maxoff : dataPageMaxoff page = Z.of_nat (length children);
  ip_wf : Forall (fun c => wf_iptr (iptr (pitem_item c))) children;
  ip_some : children <> [];
  ip_fits : 0 <= RumDataPageGetFreeSpace page;
  ip_separated : separated children;
}.

(** The place where the search for a key descends: the first child whose
    greatest item is not smaller, or the last one. *)
Fixpoint route (key : RumItem) (children : list RumPostingItem) : nat :=
  match children with
  | [] | [_] => 0
  | c :: children => match order key (pitem_item c) with Gt => S (route key children) | _ => 0 end
  end.

Lemma route_cons key c d children :
  route key (c :: d :: children) =
  match order key (pitem_item c) with Gt => S (route key (d :: children)) | _ => 0%nat end.
Proof. done. Qed.

Lemma route_lt key children : children <> [] -> (route key children < length children)%nat.
Proof.
  induction children as [|c [|d children] IH]; intros Hne; [done|cbn; lia|].
  rewrite route_cons. cbn [length] in *. destruct (order key (pitem_item c)); try lia.
  specialize (IH ltac:(done)). lia.
Qed.

(** The route is the only position with what is known at the end of the search. *)
Lemma route_unique key children k :
  (k < length children)%nat ->
  (forall i c, (i < k)%nat -> children !! i = Some c -> order key (pitem_item c) = Gt) ->
  (k = (length children - 1)%nat \/ exists c, children !! k = Some c /\ order key (pitem_item c) <> Gt) ->
  route key children = k.
Proof.
  revert k. induction children as [|c [|d children] IH]; intros k Hk Hbefore Hat; [cbn in Hk; lia|cbn in *; lia|].
  rewrite route_cons. destruct k as [|k].
  - destruct Hat as [Hat|(c' & [= <-] & Hat)]; [cbn in Hat; lia|]. by destruct (order key (pitem_item c)).
  - rewrite (Hbefore 0%nat c) by (lia || done). f_equal. apply IH; [cbn in *; lia| |].
    + intros i e Hi He. apply (Hbefore (S i)); [lia|done].
    + destruct Hat as [Hat|Hat]; [left; cbn in *; lia|right; exact Hat].
Qed.

Lemma removelast_lookup {A} (l : list A) i x :
  l !! i = Some x -> (i < length l - 1)%nat -> removelast l !! i = Some x.
Proof.
  revert i. induction l as [|a [|b l] IH]; intros i Hi Hlt; [done|cbn in Hlt; lia|].
  destruct i as [|i]; [done|]. change (removelast (a :: b :: l)) with (a :: removelast (b :: l)).
  cbn in *. apply IH; [done|lia].
Qed.

Lemma ordered_lookup l i j x y :
  ordered rumstate attnum l -> l !! i = Some x -> l !! j = Some y -> (i < j)%nat -> order x y = Lt.
Proof.
  intros Ho Hi Hj Hij. rewrite <- (take_drop (S i) l) in Ho. apply ordered_app in Ho as (_ & _ & Ho).
  apply Ho; apply list_elem_of_In.
  - apply (list_elem_of_lookup_2 _ i). rewrite lookup_take_lt by lia. done.
  - apply (list_elem_of_lookup_2 _ (j - S i)). rewrite lookup_drop. by replace (S i + (j - S i))%nat with j by lia.
Qed.

Lemma separated_lt children i k c d :
  separated children -> children !! i = Some c -> children !! k = Some d ->
  (i < k)%nat -> (k < length children - 1)%nat -> order (pitem_item c) (pitem_item d) = Lt.
Proof.
  intros Hs Hi Hk Hik Hlast.
  assert (forall n e, children !! n = Some e -> (n < length children - 1)%nat ->
    removelast (map pitem_item children) !! n = Some (pitem_item e)) as Hget.
  { intros n' e He Hn. apply removelast_lookup; [|by rewrite length_map].
    change (map pitem_item children) with (pitem_item <$> children). by rewrite list_lookup_fmap, He. }
  apply (ordered_lookup _ i k _ _ Hs); [apply Hget; [done|lia]|by apply Hget|done].
Qed.

(** A key that is not below a child is above all children before it. *)
Lemma separated_before key children i k c d :
  separated children -> children !! i = Some c -> children !! k = Some d ->
  (i < k)%nat -> (k < length children - 1)%nat ->
  order key (pitem_item d) <> Lt -> order key (pitem_item c) = Gt.
Proof.
  intros Hs Hi Hk Hik Hlast Hd. pose proof (separated_lt _ _ _ _ _ Hs Hi Hk Hik Hlast) as Hcd.
  apply (cmp_gt_lt order). destruct (order key (pitem_item d)) eqn:E; [|done|].
  - apply (cmp_eq_sym order) in E. by rewrite (cmp_eq_r order _ _ _ E) in Hcd.
  - apply (cmp_gt_lt order) in E. by apply (cmp_lt_trans order _ (pitem_item d)).
Qed.

(** ** The binary search *)

Lemma locate_loop_spec key children fuel low high :
  wf_iptr (iptr key) -> Forall (fun c => wf_iptr (iptr (pitem_item c))) children -> separated children ->
  1 <= low <= high -> low <= Z.of_nat (length children) -> high <= Z.of_nat (length children) + 1 ->
  high - low <= Z.of_nat fuel ->
  (forall i c, Z.of_nat i < low - 1 -> children !! i = Some c -> order key (pitem_item c) = Gt) ->
  (high = Z.of_nat (length children) + 1 \/ high = Z.of_nat (length children) \/
   exists c, children !! Z.to_nat (high - 1) = Some c /\ order key (pitem_item c) <> Gt) ->
  locate_loop rumstate fuel attnum key children (Z.of_nat (length children)) low high =
  Some (Z.of_nat (route key children) + 1).
Proof.
  intros Hkey Hwf Hs. revert low high. induction fuel as [|fuel IH]; intros low high Hlh Hl Hh Hf Hbefore Hat;
    cbn [locate_loop].
  all: destruct (Z.ltb_spec low high) as [Hlt|Hge].
  all: try (assert (low = high) as <- by lia; rewrite (route_unique key children (Z.to_nat (low - 1)));
    [f_equal; lia|lia|intros i c Hi; apply Hbefore; lia|
     destruct Hat as [Hat|[Hat|Hat]]; [lia|left; lia|right; exact Hat]]).
  set (mid := low + (high - low) / 2). pose proof (Z.div_mod (high - low) 2). pose proof (Z.mod_pos_bound (high - low) 2).
  assert (low <= mid < high) as Hmid by lia.
  destruct (lookup_lt_is_Some_2 children (Z.to_nat (mid - 1))) as [p Hp]; [lia|]. rewrite Hp.
  pose proof (Forall_lookup_1 _ _ _ _ Hwf Hp) as Hwp. cbn in Hwp.
  destruct (Z.eqb_spec mid (Z.of_nat (length children))) as [Hlast|Hlast].
  { cbn. apply IH; try lia. done. }
  pose proof (compare_cases rumstate attnum key (pitem_item p) Hkey Hwp) as C.
  destruct (order key (pitem_item p)) eqn:Ec.
  - rewrite C. cbn. f_equal.
    rewrite (route_unique key children (Z.to_nat (mid - 1))); [lia|lia| |right; exists p; by rewrite Ec].
    intros i c Hi Hc. by apply (separated_before key children i (Z.to_nat (mid - 1)) c p); [..|lia|rewrite Ec].
  - replace (_ =? 0) with false by lia. replace (0 <? _) with false by lia.
    apply IH; try lia; [done|]. right. right. exists p. by rewrite Ec.
  - replace (_ =? 0) with false by lia. replace (0 <? _) with true by lia.
    apply IH; try lia; [|done]. intros i c Hi Hc.
    destruct (decide (i = Z.to_nat (mid - 1))) as [->|]; [congruence|].
    by apply (separated_before key children i (Z.to_nat (mid - 1)) c p); [..|lia|lia|rewrite Ec].
Qed.

(** A descent for a key. *)
Record search_for (search : RumBtree) (key : RumItem) : Prop := {
  sf_scan : fullScan search = false;
  sf_attnum : entryAttnum search = attnum;
  sf_key : btree_items search !! curitem search = Some key;
  sf_wf : wf_iptr (iptr key);
}.

Lemma dataLocateItem_spec page children search key :
  inner_page page children -> search_for search key ->
  exists c, children !! route key children = Some c /\
    dataLocateItem rumstate search page = Some (child_blkno c, Z.of_nat (route key children) + 1).
Proof.
  intros [_ Hc Hm Hwf Hne _ Hs] [H1 H2 H3 H4]. unfold dataLocateItem. rewrite H1, H2, H3, Hm, Hc.
  cbn [mbind option_bind]. pose proof (route_lt key children Hne) as Hr.
  destruct (lookup_lt_is_Some_2 _ _ Hr) as [c Hlook]. exists c. split; [done|].
  change FirstOffsetNumber with 1. destruct children as [|d children]; [done|].
  rewrite locate_loop_spec; try done; [|cbn [length]; lia..|lia|by left].
  cbn [mbind option_bind]. replace (Z.to_nat _) with (route key (d :: children)) by lia. by rewrite Hlook.
Qed.

Lemma route_step key c children :
  children <> [] ->
  route key (c :: children) = match order key (pitem_item c) with Gt => S (route key children) | _ => 0%nat end.
Proof. by destruct children. Qed.

Lemma route_splits key children :
  children <> [] ->
  exists l c r, children = l ++ c :: r /\ route key children = length l /\
    Forall (fun d => order (pitem_item d) key = Lt) l /\ (r = [] \/ order key (pitem_item c) <> Gt).
Proof.
  induction children as [|c children IH]; intros Hne; [done|]. destruct children as [|d children].
  { exists [], c, []. do 2 (split; [done|]). split; [constructor|by left]. }
  rewrite route_step by done. destruct (order key (pitem_item c)) eqn:E.
  1, 2: exists [], c, (d :: children); do 2 (split; [done|]); split; [constructor|right; congruence].
  destruct (IH ltac:(done)) as (l & e & r & -> & -> & Hl & Hr). exists (c :: l), e, r.
  do 2 (split; [done|]). split; [|done]. constructor; [by apply (cmp_gt_lt order)|done].
Qed.

(** C36: Search in an inner page.  The binary search ends, within the number of
    children, at the first child whose greatest item is not smaller than the key,
    or at the last child, and returns that child and its position. *)
Theorem inner_search_correct page children search key :
  inner_page page children -> search_for search key ->
  exists l c r, children = l ++ c :: r /\
    dataLocateItem rumstate search page = Some (child_blkno c, Z.of_nat (length l) + 1) /\
    Forall (fun d => order (pitem_item d) key = Lt) l /\ (r = [] \/ order key (pitem_item c) <> Gt).
Proof.
  intros Hp Hk. destruct (dataLocateItem_spec page children search key Hp Hk) as (c & Hc & ->).
  destruct (route_splits key children (ip_some _ _ Hp)) as (l & c' & r & -> & Hr & H1 & H2).
  rewrite Hr, list_lookup_middle in Hc by done. injection Hc as ->. rewrite Hr. by exists l, c, r.
Qed.

(** ** The two halves of a child *)

(** The new child goes before the old one, which becomes the right half. *)
Lemma route_replace key l p c c' r :
  pitem_item c' = pitem_item c -> (r = [] \/ order (pitem_item p) (pitem_item c) = Lt) ->
  route key (l ++ p :: c' :: r) =
  let k := route key (l ++ c :: r) in
  if (k <? length l)%nat then k
  else if (k =? length l)%nat
       then match order key (pitem_item p) with Gt => S k | _ => k end
       else S k.
Proof.
  intros Ec Hr. induction l as [|d l IH]; cbn [app length].
  - cbn zeta. rewrite route_step by done. destruct r as [|e r]; [done|].
    destruct Hr as [|Hr]; [done|]. rewrite (route_step key c'), (route_step key c), Ec by done.
    destruct (order key (pitem_item c)) eqn:E; [by destruct (order key (pitem_item p))..|].
    assert (order key (pitem_item p) = Gt) as ->.
    { apply (cmp_gt_lt order). apply (cmp_gt_lt order) in E. by apply (cmp_lt_trans order _ (pitem_item c)). }
    done.
  - cbn zeta in *. rewrite !(route_step key d) by (by destruct l). destruct (order key (pitem_item d)); [done..|].
    rewrite IH. set (k := route key (l ++ c :: r)).
    change (S k <? S (length l))%nat with (k <? length l)%nat. change (S k =? S (length l))%nat with (k =? length l)%nat.
    destruct (k <? length l)%nat; [done|]. destruct (k =? length l)%nat; [|done].
    by destruct (order key (pitem_item p)).
Qed.

Lemma removelast_app_cons {A} (l : list A) x r : removelast (l ++ x :: r) = l ++ removelast (x :: r).
Proof. apply removelast_app. done. Qed.

Lemma separated_replace l p c c' r :
  separated (l ++ c :: r) -> pitem_item c' = pitem_item c ->
  Forall (fun d => order (pitem_item d) (pitem_item p) = Lt) l ->
  (r = [] \/ order (pitem_item p) (pitem_item c) = Lt) ->
  separated (l ++ p :: c' :: r).
Proof.
  unfold separated. rewrite !map_app. cbn [map]. rewrite !removelast_app_cons. intros Hs Ec Hl Hr.
  assert (Forall (fun x => order x (pitem_item p) = Lt) (map pitem_item l)) as Hl'.
  { apply List.Forall_map. done. }
  rewrite Ec. destruct r as [|e r].
  - cbn in *. rewrite app_nil_r in Hs. apply (ordered_append rumstate attnum); [done|repeat constructor|done].
  - destruct Hr as [|Hr]; [done|]. apply (cmp_gt_lt order) in Hr.
    change (removelast (pitem_item p :: pitem_item c :: map pitem_item (e :: r)))
      with ([pitem_item p] ++ pitem_item c :: removelast (map pitem_item (e :: r))).
    by apply (ordered_insert rumstate attnum).
Qed.

(** A child [c] after [l] has been split: the parent gets its left half, with
    the greatest item there. *)
Record child_split (page : RumPage) (btree : RumBtree) (l : list RumPostingItem) (c : RumPostingItem)
  (r : list RumPostingItem) : Prop := {
  cs_page : inner_page page (l ++ c :: r);
  cs_right : rightblkno btree <> InvalidBlockNumber;
  cs_wf : wf_iptr (iptr (pitem_item (pitem btree)));
  cs_above : Forall (fun d => order (pitem_item d) (pitem_item (pitem btree)) = Lt) l;
  cs_below : r = [] \/ order (pitem_item (pitem btree)) (pitem_item c) = Lt;
}.

Definition right_half (btree : RumBtree) (c : RumPostingItem) : RumPostingItem :=
  mk_pitem (rightblkno btree) (pitem_item c).

Lemma prepare_inner page btree l c r :
  child_split page btree l c r ->
  dataPrepareData btree page (Z.of_nat (length l) + 1) =
  Some (with_items page (l ++ right_half btree c :: r),
        with_split btree (curitem btree) (pitem btree) InvalidBlockNumber).
Proof.
  intros [[Hi Hc _ _ _ _ _] Hr _ _ _]. unfold dataPrepareData. rewrite Hi, Hc. cbn [negb andb].
  replace (rightblkno btree =? InvalidBlockNumber) with false by (symmetry; by apply Z.eqb_neq). cbn [negb].
  replace (Z.to_nat (Z.of_nat (length l) + 1 - 1)) with (length l) by lia.
  rewrite list_lookup_middle by done. by rewrite insert_app_r_alt, Nat.sub_diag by lia.
Qed.

Lemma children_replaced page btree l c r :
  child_split page btree l c r ->
  Forall (fun c => wf_iptr (iptr (pitem_item c))) (l ++ pitem btree :: right_half btree c :: r) /\
  separated (l ++ pitem btree :: right_half btree c :: r).
Proof.
  intros [[_ _ _ Hwf _ _ Hs] _ Hm Hl Hr]. split; [|by apply (separated_replace l _ c)].
  apply Forall_app in Hwf as [Hwl Hwr]. apply Forall_cons in Hwr as [Hwc Hwr].
  apply Forall_app. split; [done|]. constructor; [done|]. by constructor.
Qed.

Lemma inner_after_revive (skip : bool) page :
  RumPageIsLeaf (if skip then page else RumDataPageEntryRevive page) = RumPageIsLeaf page.
Proof. destruct skip; [done|]. apply leaf_after_revive. Qed.

(** Where a key goes on the page with both halves. *)
Definition redirect (btree : RumBtree) (off : Z) (key : RumItem) (found : Z * Z) : Z * Z :=
  let '(blkno, o) := found in
  if o <? off then (blkno, o)
  else if o =? off then
    match order key (pitem_item (pitem btree)) with
    | Gt => (rightblkno btree, off + 1)
    | _ => (child_blkno (pitem btree), off)
    end
  else (blkno, o + 1).

Lemma locate_redirected page page' btree l c r search key :
  child_split page btree l c r ->
  inner_page page' (l ++ pitem btree :: right_half btree c :: r) -> search_for search key ->
  dataLocateItem rumstate search page' =
  redirect btree (Z.of_nat (length l) + 1) key <$> dataLocateItem rumstate search page.
Proof.
  intros Hcs Hp' Hk. pose proof Hcs as [Hp _ _ _ Hr].
  destruct (dataLocateItem_spec page _ search key Hp Hk) as (a & Ha & ->).
  destruct (dataLocateItem_spec page' _ search key Hp' Hk) as (b & Hb & ->).
  rewrite (route_replace key l (pitem btree) c (right_half btree c) r eq_refl Hr) in Hb |- *. cbn zeta in *.
  set (k := route key (l ++ c :: r)) in *. cbn [fmap option_fmap option_map redirect].
  destruct (Nat.ltb_spec k (length l)) as [Hlt|Hge].
  { replace (_ <? _) with true by lia. rewrite lookup_app_l in Ha, Hb by lia. congruence. }
  replace (_ <? _) with false by lia. destruct (Nat.eqb_spec k (length l)) as [->|Hne].
  - rewrite Z.eqb_refl. rewrite list_lookup_middle in Ha by done. injection Ha as <-.
    destruct (order key (pitem_item (pitem btree))).
    1, 2: rewrite list_lookup_middle in Hb by done; by injection Hb as <-.
    rewrite lookup_app_r in Hb by lia. replace (S (length l) - length l)%nat with 1%nat in Hb by lia.
    injection Hb as <-. cbn. do 2 f_equal. lia.
  - replace (_ =? _) with false by lia. rewrite lookup_app_r in Ha, Hb by lia.
    replace (S k - length l)%nat with (S (S (k - length l - 1))) in Hb by lia.
    replace (k - length l)%nat with (S (k - length l - 1)) in Ha by lia. cbn in Ha, Hb.
    assert (Some a = Some b) as [= ->] by (etransitivity; [symmetry; exact Ha|exact Hb]). do 2 f_equal. lia.
Qed.

Lemma place_inner skip split_size page btree l c r :
  child_split page btree l c r ->
  dataIsEnoughSpace rumstate split_size btree page = Some true ->
  exists page',
    dataPlaceToPage rumstate throw skip btree page (Z.of_nat (length l) + 1) =
      Some (Ok (page', with_split btree (curitem btree) (pitem btree) InvalidBlockNumber)) /\
    inner_page page' (l ++ pitem btree :: right_half btree c :: r) /\
    page_flags page' = page_flags (revived skip page) /\
    page_rightlink page' = page_rightlink page /\ page_rightBound page' = page_rightBound page.
Proof.
  intros Hcs Hspace. pose proof (children_replaced _ _ _ _ _ Hcs) as [Hwf Hsep].
  unfold dataPlaceToPage. rewrite (prepare_inner _ _ _ _ _ Hcs). pose proof Hcs as [[Hi _ Hm _ _ _ _] _ _ _ _].
  set (page1 := if skip then _ else _).
  assert (RumPageIsLeaf page1 = false) as Hleaf by (subst page1; by rewrite inner_after_revive).
  assert (page_items page1 = l ++ right_half btree c :: r) as Hitems by (subst page1; by destruct skip).
  assert (dataPageMaxoff page1 = Z.of_nat (length (l ++ c :: r))) as Hmax.
  { subst page1. rewrite !length_app in *. destruct skip; cbn; rewrite length_app; cbn; lia. }
  assert (SIZEOF_RumPostingItem <= RumDataPageGetFreeSpace page) as Hfree.
  { unfold dataIsEnoughSpace in Hspace. rewrite Hi in Hspace. destruct (_ && _); [done|].
    injection Hspace as Hspace. by apply Z.leb_le. }
  rewrite Hleaf. unfold RumDataPageAddItem. rewrite Hitems.
  replace (Z.of_nat (length l) + 1 =? InvalidOffsetNumber) with false
    by (symmetry; apply Z.eqb_neq; unfold InvalidOffsetNumber; lia).
  replace (Z.to_nat (Z.of_nat (length l) + 1 - 1)) with (length l) by lia.
  replace (length l <=? _)%nat with true by (symmetry; apply Nat.leb_le; rewrite length_app; lia).
  replace (SIZEOF_RumPostingItem <=? RumDataPageGetFreeSpace page1) with true;
    [|symmetry; apply Z.leb_le; unfold RumDataPageGetFreeSpace in *; by rewrite Hmax, <- Hm].
  cbn [andb]. rewrite take_app_length, drop_app_length. eexists. split; [reflexivity|].
  match goal with |- inner_page ?p _ /\ _ => assert (inner_page p (l ++ pitem btree :: right_half btree c :: r)) as Hp' end.
  { split; [done|done|done|done|by destruct l| |done].
    unfold RumDataPageGetFreeSpace in *. cbn [with_items dataPageMaxoff]. rewrite Hm in Hfree.
    rewrite !length_app in *. cbn [length] in *. unfold SIZEOF_RumPostingItem in *. lia. }
  split; [done|]. by destruct skip.
Qed.

(** C23: Insertion into an inner page.  When a child has been split and the page
    has space, the call puts both halves into the page, which stays well-formed
    and within its space, and forgets the unfinished split.  Every later search
    for a key that would have gone to the child goes to its left half if the key
    is not above the greatest item there and to its right half otherwise; all
    other keys go where they went. *)
Theorem inner_insert_correct skip split_size page btree l c r :
  child_split page btree l c r ->
  dataIsEnoughSpace rumstate split_size btree page = Some true ->
  exists page' btree',
    dataPlaceToPage rumstate throw skip btree page (Z.of_nat (length l) + 1) = Some (Ok (page', btree')) /\
    inner_page page' (l ++ pitem btree :: right_half btree c :: r) /\
    rightblkno btree' = InvalidBlockNumber /\ curitem btree' = curitem btree /\
    forall search key, search_for search key ->
      dataLocateItem rumstate search page' =
      redirect btree (Z.of_nat (length l) + 1) key <$> dataLocateItem rumstate search page.
Proof.
  intros Hcs Hspace. destruct (place_inner skip split_size page btree l c r Hcs Hspace) as (page' & E & Hp' & _).
  eexists page', _. split; [exact E|]. do 3 (split; [done|]).
  intros search key Hk. by apply (locate_redirected page _ btree l c r).
Qed.

(** ** The split of an inner page *)

Lemma ordered_removelast l : ordered rumstate attnum l -> ordered rumstate attnum (removelast l).
Proof.
  intros Ho. rewrite removelast_firstn_len. rewrite <- (take_drop (Nat.pred (length l)) l) in Ho.
  by apply ordered_app in Ho as (Ho & _).
Qed.

Lemma separated_app A B :
  B <> [] -> separated (A ++ B) ->
  separated A /\ separated B /\ ordered rumstate attnum (map pitem_item A).
Proof.
  unfold separated. intros HB Ho. rewrite map_app, removelast_app in Ho by (by destruct B).
  apply ordered_app in Ho as (H1 & H2 & _). split; [by apply ordered_removelast|done].
Qed.

(** Below the greatest item of the left page a key goes where it goes there. *)
Lemma route_app key A a B :
  B <> [] -> separated ((A ++ [a]) ++ B) ->
  ((A ++ [a]) ++ B) !! route key ((A ++ [a]) ++ B) =
  match order key (pitem_item a) with
  | Gt => B !! route key B
  | _ => (A ++ [a]) !! route key (A ++ [a])
  end.
Proof.
  intros HB Hs. apply separated_app in Hs as (_ & _ & Ho); [|done]. induction A as [|d A IH]; cbn [app].
  { rewrite route_step by done. by destruct (order key (pitem_item a)). }
  cbn [map app] in Ho. pose proof (StronglySorted_inv Ho) as [Ho' Hd].
  rewrite !(route_step key d) by (by destruct A). specialize (IH Ho').
  assert (order (pitem_item d) (pitem_item a) = Lt) as Hda.
  { rewrite List.Forall_forall in Hd. apply Hd. rewrite map_app. apply in_or_app. right. by left. }
  destruct (order key (pitem_item d)) eqn:E; [| |done].
  - by rewrite (cmp_eq_l order _ _ _ E), Hda.
  - by rewrite (cmp_lt_trans order key (pitem_item d) (pitem_item a)).
Qed.

Lemma full_children page children :
  inner_page page children -> RumDataPageGetFreeSpace page < SIZEOF_RumPostingItem -> length children = 339%nat.
Proof.
  intros [_ _ Hm _ _ Hf _] Hfull. unfold RumDataPageGetFreeSpace in *. rewrite Hm in *.
  change (BLCKSZ - MAXALIGN SizeOfPageHeaderData - MAXALIGN SIZEOF_RumItem) with 8152 in *.
  change (MAXALIGN SIZEOF_RumPageOpaqueData) with 16 in *. unfold SIZEOF_RumPostingItem in *. lia.
Qed.

(** The number of children on the left page. *)
Lemma split_separator page children :
  inner_page page children ->
  isBuild rumstate && RumPageRightMost page = false \/ RumDataPageGetFreeSpace page < SIZEOF_RumPostingItem ->
  let total := Z.of_nat (length children) + 1 in
  let separator :=
    if isBuild rumstate && RumPageRightMost page
    then RumDataPageGetFreeSpace (RumInitPage (page_flags page)) / SIZEOF_RumPostingItem else total / 2 in
  1 <= separator < total /\ separator * 24 <= 8136 /\ (total - separator) * 24 <= 8136.
Proof.
  intros Hp Hcase total separator. pose proof (ip_fits _ _ Hp) as Hf. unfold RumDataPageGetFreeSpace in Hf.
  change (BLCKSZ - MAXALIGN SizeOfPageHeaderData - MAXALIGN SIZEOF_RumItem) with 8152 in Hf.
  change (MAXALIGN SIZEOF_RumPageOpaqueData) with 16 in Hf. unfold SIZEOF_RumPostingItem in Hf.
  rewrite (ip_maxoff _ _ Hp) in Hf. pose proof (ip_some _ _ Hp) as Hne.
  assert (0 < length children)%nat by (destruct children; [done|cbn; lia]). subst separator.
  change (RumDataPageGetFreeSpace (RumInitPage (page_flags page)) / SIZEOF_RumPostingItem) with 339.
  destruct (isBuild rumstate && RumPageRightMost page).
  - destruct Hcase as [|Hfull]; [done|]. pose proof (full_children page children Hp Hfull). lia.
  - pose proof (Z.div_mod total 2). pose proof (Z.mod_pos_bound total 2). lia.
Qed.

(** A list cut in two nonempty parts. *)
Lemma cut_list {A} (v : list A) k :
  (0 < k < length v)%nat -> exists l x, take k v = l ++ [x] /\ drop k v <> [] /\ last (take k v) = Some x.
Proof.
  intros Hk. assert (length (take k v) = k) as Hlen by (apply length_take_le; lia).
  destruct (exists_last (l := take k v)) as (l & x & E); [intros E; rewrite E in Hlen; cbn in Hlen; lia|].
  exists l, x. split; [done|]. split; [|by rewrite E, last_snoc].
  intros E'. apply (f_equal length) in E'. rewrite length_drop in E'. cbn in E'. lia.
Qed.

Lemma inner_built (skip : bool) flags bound cycle children :
  RumPageIsLeaf (RumInitPage flags) = false ->
  Forall (fun c => wf_iptr (iptr (pitem_item c))) children -> separated children -> children <> [] ->
  Z.of_nat (length children) * 24 <= 8136 ->
  inner_page
    (with_bound (with_items (if skip then RumInitPage flags else RumDataPageEntryRevive (RumInitPage flags))
                   children) bound cycle) children.
Proof.
  intros Hf Hwf Hs Hne Hfit. split; try done.
  - pose proof (inner_after_revive skip (RumInitPage flags)) as E. rewrite Hf in E. exact E.
  - unfold RumDataPageGetFreeSpace. cbn [with_bound with_items dataPageMaxoff].
    change (BLCKSZ - MAXALIGN SizeOfPageHeaderData - MAXALIGN SIZEOF_RumItem) with 8152.
    change (MAXALIGN SIZEOF_RumPageOpaqueData) with 16. unfold SIZEOF_RumPostingItem. lia.
Qed.

Lemma split_inner skip bulk cycle page btree l c r lblkno rblkno :
  child_split page btree l c r ->
  isBuild rumstate && RumPageRightMost page = false \/ RumDataPageGetFreeSpace page < SIZEOF_RumPostingItem ->
  exists left right A a B,
    dataSplitPage rumstate throw skip bulk cycle btree lblkno rblkno page (Z.of_nat (length l) + 1) =
      Some (Ok (left, right, with_split btree (curitem btree) (mk_pitem lblkno (pitem_item a)) rblkno)) /\
    l ++ pitem btree :: right_half btree c :: r = (A ++ [a]) ++ B /\ B <> [] /\
    inner_page left (A ++ [a]) /\ inner_page right B /\
    page_flags left = page_flags (revived skip page) /\ page_flags right = page_flags (revived skip page) /\
    page_rightBound left = pitem_item a /\ page_rightBound right = page_rightBound page.
Proof.
  intros Hcs Hcase. set (children := l ++ pitem btree :: right_half btree c :: r). pose proof (children_replaced _ _ _ _ _ Hcs) as [Hwf Hsep]. fold children in Hwf, Hsep.
  pose proof Hcs as [Hp _ _ _ _]. pose proof (split_separator page _ Hp Hcase) as Hsplit. cbn zeta in Hsplit.
  unfold dataSplitPage, dataSplitPageInternal. rewrite (ip_inner _ _ Hp), (prepare_inner _ _ _ _ _ Hcs).
  cbn [mbind option_bind with_items page_items page_flags dataPageMaxoff page_rightlink].
  change (RumPageRightMost (with_items page (l ++ right_half btree c :: r))) with (RumPageRightMost page).
  replace (Z.to_nat (Z.of_nat (length l) + 1 - 1)) with (length l) by lia.
  rewrite take_app_length, drop_app_length. change (pitem (with_split _ _ ?p _)) with p. fold children.
  replace (Z.of_nat (length (l ++ right_half btree c :: r)) + 1) with (Z.of_nat (length (l ++ c :: r)) + 1)
    by (rewrite !length_app; done).
  set (separator := if isBuild rumstate && RumPageRightMost page then _ else _) in *.
  assert (length children = S (length (l ++ c :: r))) as Hlen by (subst children; rewrite !length_app; cbn; lia).
  replace (_ <? separator) with false by lia.
  destruct (cut_list children (Z.to_nat separator)) as (A & a & EA & HB & ->); [lia|]. cbn [mbind option_bind].
  pose proof (take_drop (Z.to_nat separator) children) as Ecut. rewrite EA in Ecut |- *.
  set (B := drop (Z.to_nat separator) children) in *.
  assert (length (A ++ [a]) = Z.to_nat separator) as HlA by (rewrite <- EA; apply length_take_le; lia).
  assert (length B = (length children - Z.to_nat separator)%nat) as HlB by (apply length_drop).
  rewrite <- Ecut in Hwf, Hsep. apply Forall_app in Hwf as [HwA HwB].
  pose proof (separated_app _ _ HB Hsep) as (HsA & HsB & _).
  assert (RumPageIsLeaf (RumInitPage (page_flags page)) = false) as Hflags by apply (ip_inner _ _ Hp).
  eexists _, _, A, a, B. split; [reflexivity|]. split; [done|]. split; [done|].
  match goal with |- inner_page ?x _ /\ inner_page ?y _ /\ _ => set (left := x); set (right := y) end.
  assert (inner_page left (A ++ [a])) as HL by (apply inner_built; [done..|by destruct A|lia]).
  assert (inner_page right B) as HR by (apply inner_built; [done..|lia]).
  do 2 (split; [done|]). by destruct skip.
Qed.


(** ** The pointer to a child *)

Definition points_to (blkno : Z) (c : RumPostingItem) : bool := child_blkno c =? blkno.

Lemma find_child_spec blkno l n r k :
  length l = k ->
  match find_child (length n) (l ++ n ++ r) (Z.of_nat k + 1) blkno with
  | Some i => exists j c, i = Z.of_nat k + Z.of_nat j + 1 /\ n !! j = Some c /\ points_to blkno c = true
  | None => existsb (points_to blkno) n = false
  end.
Proof.
  revert l k. induction n as [|c n IH]; intros l k Hk; [done|]. cbn [length find_child app].
  replace (Z.to_nat (Z.of_nat k + 1 - 1)) with k by lia. rewrite (list_lookup_middle l) by done.
  cbn [existsb]. unfold points_to at 2. destruct (child_blkno c =? blkno) eqn:E.
  - exists 0%nat, c. split; [lia|]. done.
  - specialize (IH (l ++ [c]) (S k)). rewrite length_app in IH. specialize (IH ltac:(cbn; lia)).
    rewrite <- app_assoc in IH. cbn [app] in IH.
    replace (Z.of_nat (S k) + 1) with (Z.of_nat k + 1 + 1) in IH by lia.
    destruct (find_child _ _ _ _) as [i|]; [|done]. destruct IH as (j & d & -> & Hj & Hd).
    exists (S j), d. split; [lia|]. done.
Qed.

(** A result of the search in the middle part is a pointer to the child. *)
Lemma found_child blkno l n r :
  match find_child (length n) (l ++ n ++ r) (Z.of_nat (length l) + 1) blkno with
  | Some i => 1 <= i <= Z.of_nat (length (l ++ n ++ r)) /\
      child_blkno <$> (l ++ n ++ r) !! Z.to_nat (i - 1) = Some blkno
  | None => existsb (points_to blkno) n = false
  end.
Proof.
  pose proof (find_child_spec blkno l n r (length l) eq_refl) as H.
  destruct (find_child _ _ _ _) as [i|]; [|done]. destruct H as (j & c & -> & Hj & Hc).
  pose proof (lookup_lt_Some _ _ _ Hj). rewrite !length_app. split; [lia|].
  rewrite lookup_app_r by lia. rewrite lookup_app_l by lia.
  replace (Z.to_nat (Z.of_nat (length l) + Z.of_nat j + 1 - 1) - length l)%nat with j by lia.
  rewrite Hj. cbn. f_equal. by apply Z.eqb_eq.
Qed.

Definition pointer_ok (children : list RumPostingItem) (blkno i : Z) : Prop :=
  if existsb (points_to blkno) children
  then 1 <= i <= Z.of_nat (length children) /\ child_blkno <$> children !! Z.to_nat (i - 1) = Some blkno
  else i = InvalidOffsetNumber.

Lemma pointer_found children blkno i :
  1 <= i <= Z.of_nat (length children) -> child_blkno <$> children !! Z.to_nat (i - 1) = Some blkno ->
  pointer_ok children blkno i.
Proof.
  intros Hi Hc. unfold pointer_ok. replace (existsb _ _) with true; [done|]. symmetry. apply existsb_exists.
  destruct (children !! _) as [c|] eqn:E; [|done]. injection Hc as Hc. exists c.
  split; [apply list_elem_of_In; by apply (list_elem_of_lookup_2 _ _ _ E)|by apply Z.eqb_eq].
Qed.

Lemma last_chance_ok l r blkno :
  existsb (points_to blkno) r = false ->
  pointer_ok (l ++ r) blkno
    (default InvalidOffsetNumber (find_child (length l) (l ++ r) FirstOffsetNumber blkno)).
Proof.
  intros Hr. pose proof (found_child blkno [] l r) as F. cbn [app length] in F.
  change (Z.of_nat 0 + 1) with FirstOffsetNumber in F.
  destruct (find_child _ _ _ _) as [i|]; [destruct F; by apply pointer_found|]. unfold pointer_ok.
  by rewrite existsb_app, F, Hr.
Qed.

Lemma find_pointer page children blkno storedOff :
  inner_page page children -> pointer_ok children blkno (dataFindChildPtr page blkno storedOff).
Proof.
  intros [_ Hc Hm _ _ _ _]. unfold dataFindChildPtr. rewrite Hc, Hm. destruct (_ && _) eqn:Hstored.
  - apply andb_true_iff in Hstored as [H1 H2]. apply Z.leb_le in H1, H2. unfold FirstOffsetNumber in H1.
    set (l := take (Z.to_nat (storedOff - 1)) children). set (n := drop (Z.to_nat (storedOff - 1)) children).
    assert (children = l ++ n) as E by (symmetry; apply take_drop).
    assert (length l = Z.to_nat (storedOff - 1)) as Hl by (apply length_take_le; lia).
    assert (length n = Z.to_nat (Z.of_nat (length children) - storedOff + 1)) as Hn by (subst n; rewrite length_drop; lia).
    pose proof (found_child blkno l n []) as F. rewrite app_nil_r, <- E, Hl, Hn in F.
    replace (Z.of_nat (Z.to_nat (storedOff - 1)) + 1) with storedOff in F by lia.
    destruct (find_child _ _ storedOff _) as [i|]; [destruct F; by apply pointer_found|].
    rewrite <- Hl, E. by apply last_chance_ok.
  - rewrite Nat2Z.id. rewrite <- (app_nil_r children) at 1 3. by apply last_chance_ok.
Qed.

(** The pointer to a child.  Whatever position was remembered, the search
    finds a pointer to the child if the page has one, and says so if not. *)
Theorem child_pointer_correct page children blkno storedOff :
  inner_page page children ->
  if existsb (points_to blkno) children
  then 1 <= dataFindChildPtr page blkno storedOff <= Z.of_nat (length children) /\
       child_blkno <$> children !! Z.to_nat (dataFindChildPtr page blkno storedOff - 1) = Some blkno
  else dataFindChildPtr page blkno storedOff = InvalidOffsetNumber.
Proof. apply find_pointer. Qed.
End inner.

(** ** A page with three children *)

Definition sample_child (blkno lo : Z) : RumPostingItem := mk_pitem blkno (mk_item (mk_iptr 0 lo 1) true 0).

Definition inner_sample : RumPage :=
  with_items (RumInitPage 1) [sample_child 10 100; sample_child 11 200; sample_child 12 300].

Definition inner_btree (lo rightblkno : Z) : RumBtree :=
  mk_btree 1 false true [mk_item (mk_iptr 0 lo 1) true 0] 0 (sample_child 11 150) rightblkno.

Lemma inner_sample_page :
  inner_page (sample_state false) 1 inner_sample
    [sample_child 10 100; sample_child 11 200; sample_child 12 300].
Proof.
  split; [reflexivity|reflexivity|reflexivity| |discriminate|vm_compute; discriminate|].
  - repeat apply List.Forall_cons; [split; cbn; lia..|apply List.Forall_nil].
  - repeat constructor.
Qed.

Lemma inner_sample_split :
  child_split (sample_state false) 1 inner_sample (inner_btree 170 13)
    [sample_child 10 100] (sample_child 11 200) [sample_child 12 300].
Proof.
  split; [apply inner_sample_page|discriminate|split; cbn; lia|repeat constructor|right; reflexivity].
Qed.

Lemma inner_search : search_for 1 (inner_btree 170 13) (mk_item (mk_iptr 0 170 1) true 0).
Proof. split; [reflexivity|reflexivity|reflexivity|split; cbn; lia]. Qed.

Lemma inner_search_correct_witness :
  exists l c r, [sample_child 10 100; sample_child 11 200; sample_child 12 300] = l ++ c :: r /\
    dataLocateItem (sample_state false) (inner_btree 170 13) inner_sample =
      Some (child_blkno c, Z.of_nat (length l) + 1).
Proof.
  destruct (inner_search_correct (sample_state false) 1 _ _ _ _ inner_sample_page inner_search)
    as (l & c & r & H1 & H2 & _).
  exists l, c, r. split; [exact H1|exact H2].
Defined.

Lemma inner_insert_correct_witness :
  exists page' btree',
    dataPlaceToPage (sample_state false) true false (inner_btree 170 13) inner_sample 2 =
      Some (Ok (page', btree')) /\
    dataLocateItem (sample_state false) (inner_btree 170 13) page' = Some (13, 3).
Proof.
  destruct (inner_insert_correct (sample_state false) true 1 false 0 _ _ _ _ _ inner_sample_split)
    as (page' & btree' & H1 & _ & _ & _ & H2); [vm_compute; reflexivity|].
  exists page', btree'. split; [exact H1|]. rewrite (H2 _ _ inner_search). vm_compute. reflexivity.
Defined.


Lemma child_pointer_correct_witness :
  dataFindChildPtr inner_sample 99 2 = InvalidOffsetNumber.
Proof.
  exact (child_pointer_correct (sample_state false) 1 inner_sample _ 99 2 inner_sample_page).
Defined.

(** ** A split before the page is full *)

(** With a configured number of children a page that is not full is split.  In
    an index build, the number of children of the left page is the number that
    fits on a page, which a page that is not full does not have: the code reads
    past the children and its count for the right page wraps around. *)
Definition build_state : RumState :=
  mk_rumstate true false 2 1 (fun _ => Some 4) (fun _ a b => int32 a - int32 b).

Example build_split_reads_past_children :
  dataIsEnoughSpace build_state 2 (inner_btree 170 13) inner_sample = Some false /\
  SIZEOF_RumPostingItem <= RumDataPageGetFreeSpace inner_sample /\
  dataSplitPage build_state true false false 0 (inner_btree 170 13) 20 21 inner_sample 2 = None.
Proof. split; [reflexivity|]. split; [vm_compute; discriminate|reflexivity]. Qed.
