(* ===== verification/RumTree.v ===== *)
(** * The posting tree: [pg_documentdb_extended_rum/core/src/rumbtree.c]

    The pages of the index are a finite map from block numbers to pages.  A
    descent keeps the path from the root as a stack; an insertion places items
    on a leaf, or splits it and enters the new page into its parent, and so on
    up to the root, which keeps its block number when it is split.

    Modelled is what one backend does while no other one changes the tree.
    Buffers, locks and the log are left out.  Finishing a split that another
    backend left behind ([rumFinishOldSplit]) and the search for a parent that is
    no longer where the stack says ([rumFindParents]) are [None]; the theorems
    show that they are not needed on a tree without unfinished splits. *)

From stdpp Require Import base numbers list option sorting gmap.
From Stdlib Require Import ZArith Lia.
From S2P Require Import Prelude PgbsonElement RumPosting RumDataPage.

Definition RUM_DATA : Z := 1.
Definition RUM_DELETED : Z := 4.
Definition RUM_META : Z := 8.
Definition RUM_INCOMPLETE_SPLIT : Z := 128.
Definition RUM_METAPAGE_BLKNO : Z := 0.

Definition RumPageIsData (page : RumPage) : bool := negb (Z.land (page_flags page) RUM_DATA =? 0).
Definition RumPageIsDeleted (page : RumPage) : bool := negb (Z.land (page_flags page) RUM_DELETED =? 0).
Definition RumPageIsIncompleteSplit (page : RumPage) : bool :=
  negb (Z.land (page_flags page) RUM_INCOMPLETE_SPLIT =? 0).
Definition RumDataPageEntryIsDead (page : RumPage) : bool :=
  negb (Z.land (page_flags page) RUM_PAGE_IS_DEAD_ROWS =? 0).

Definition with_flags (page : RumPage) (flags : Z) : RumPage :=
  mk_page flags (page_leftlink page) (page_rightlink page) (dataPageMaxoff page)
    (dataPageFreespace page) (page_cycleId page) (page_rightBound page) (page_data page)
    (page_indexes page) (page_items page).

Definition with_links (page : RumPage) (left right : Z) : RumPage :=
  mk_page (page_flags page) left right (dataPageMaxoff page)
    (dataPageFreespace page) (page_cycleId page) (page_rightBound page) (page_data page)
    (page_indexes page) (page_items page).

Abbreviation Pages := (gmap Z RumPage).

(** The block of a new page comes from the free space map of the index, or from
    its extension. *)
Class NewBuffer : Type := RumNewBuffer : Pages -> Z.

(** A block that a page of a tree may have. *)
Definition tree_block (blkno : Z) : Prop := blkno <> InvalidBlockNumber /\ blkno <> RUM_METAPAGE_BLKNO.

Class NewBufferLaws (N : NewBuffer) : Prop := {
  new_buffer_free pages : pages !! RumNewBuffer pages = None;
  new_buffer_valid pages : tree_block (RumNewBuffer pages);
}.

(** One level of a descent. *)
Record RumBtreeStack : Set := mk_stack {
  stack_blkno : Z;
  stack_off : Z;
}.

Section tree.
Context (rumstate : RumState) (RumThrowErrorOnInvalidDataPage RumSkipResetOnDeadEntryPage : bool).
Context (RumEnableNewBulkDelete : bool) (RumDataPageIntermediateSplitSize vacuum_cycleId : Z).
Context (RumFixIncompleteSplit : bool) {N : NewBuffer}.

(** A link leads to a page of a tree.  A block without a page is not in the map. *)
Definition rumCheckTreePage (blkno : Z) (page : RumPage) : result unit :=
  if (blkno =? RUM_METAPAGE_BLKNO) || negb (Z.land (page_flags page) RUM_META =? 0)
  then Err ERRCODE_INDEX_CORRUPTED else Ok tt.

(** A step to the right neighbour, with the test that it is of the same kind. *)
Definition rumStepForInsert (pages : Pages) (page : RumPage) : outcome (Z * RumPage) :=
  let blkno := page_rightlink page in
  match pages !! blkno with
  | None => None
  | Some next =>
      out! _ := Some (rumCheckTreePage blkno next) in
      if xorb (RumPageIsLeaf page) (RumPageIsLeaf next) || xorb (RumPageIsData page) (RumPageIsData next)
      then Some (Err ERRCODE_INDEX_CORRUPTED)
      else if RumPageIsDeleted next then Some (Err ERRCODE_INDEX_CORRUPTED)
      else Some (Ok (blkno, next))
  end.

(** Right until the key is not above the page. *)
Fixpoint move_right (fuel : nat) (pages : Pages) (btree : RumBtree) (rootBlkno blkno : Z) (page : RumPage)
  : outcome (Z * RumPage) :=
  match fuel with
  | O => None
  | S fuel =>
      if RumFixIncompleteSplit && RumPageIsIncompleteSplit page then None
      else
        match (if fullScan btree || (blkno =? rootBlkno) then Some false
               else dataIsMoveRight rumstate btree page) with
        | None => None
        | Some false => Some (Ok (blkno, page))
        | Some true =>
            if page_rightlink page =? InvalidBlockNumber then Some (Ok (blkno, page))
            else out! (blkno, page) := rumStepForInsert pages page in
                 move_right fuel pages btree rootBlkno blkno page
        end
  end.

(** From a page down to the leaf; the stack has the leaf first. *)
Fixpoint rumFindLeafPage (fuel : nat) (pages : Pages) (btree : RumBtree) (rootBlkno blkno : Z)
  (parents : list RumBtreeStack) : outcome (list RumBtreeStack) :=
  match fuel with
  | O => None
  | S fuel =>
      match pages !! blkno with
      | None => None
      | Some page =>
          out! _ := Some (rumCheckTreePage blkno page) in
          if negb (RumPageIsData page) then Some (Err ERRCODE_INDEX_CORRUPTED)
          else
            out! (blkno, page) := move_right (S fuel) pages btree rootBlkno blkno page in
            if RumPageIsLeaf page then Some (Ok (mk_stack blkno InvalidOffsetNumber :: parents))
            else
              match dataLocateItem rumstate btree page with
              | None => None
              | Some (child, off) =>
                  if (child =? InvalidBlockNumber) || (child =? blkno)
                  then Some (Err ERRCODE_INDEX_CORRUPTED)
                  else rumFindLeafPage fuel pages btree rootBlkno child (mk_stack blkno off :: parents)
              end
      end
  end.

(** The child's split is finished. *)
Definition resetIncompleteSplitOnChild (pages : Pages) (childbuf : option Z) : Pages :=
  match childbuf with
  | None => pages
  | Some blkno =>
      alter (fun page => with_flags page (Z.land (page_flags page) (Z.lnot RUM_INCOMPLETE_SPLIT))) blkno pages
  end.

(** The left link of a neighbour. *)
Definition relink (pages : Pages) (blkno left : Z) : Pages :=
  if blkno =? InvalidBlockNumber then pages
  else alter (fun p => with_links p left (page_rightlink p)) blkno pages.

(** The insertion into one page; [false] if the page was split and its parent
    has to be updated. *)
Definition rumPlaceToPage (pages : Pages) (btree : RumBtree) (blkno off : Z) (isRoot : bool)
  (childbuf : option Z) : outcome (Pages * RumBtree * bool) :=
  match pages !! blkno with
  | None => None
  | Some page =>
      match dataIsEnoughSpace rumstate RumDataPageIntermediateSplitSize btree page with
      | None => None
      | Some true =>
          out! (page, btree) :=
            dataPlaceToPage rumstate RumThrowErrorOnInvalidDataPage RumSkipResetOnDeadEntryPage
              btree page off in
          Some (Ok (resetIncompleteSplitOnChild (<[blkno := page]> pages) childbuf, btree, true))
      | Some false =>
          let rblkno := RumNewBuffer pages in
          out! (newlpage, rpage, btree) :=
            dataSplitPage rumstate RumThrowErrorOnInvalidDataPage RumSkipResetOnDeadEntryPage
              RumEnableNewBulkDelete vacuum_cycleId btree blkno rblkno page off in
          if isRoot then
            let lblkno := RumNewBuffer (<[rblkno := rpage]> pages) in
            let rpage := with_links rpage lblkno InvalidBlockNumber in
            let newlpage := with_links newlpage InvalidBlockNumber rblkno in
            let root := RumInitPage (Z.land (page_flags newlpage) (Z.lnot RUM_LEAF)) in
            match rumDataFillRoot root lblkno rblkno newlpage rpage with
            | None => None
            | Some root =>
                Some (Ok (resetIncompleteSplitOnChild
                            (<[blkno := root]> (<[lblkno := newlpage]> (<[rblkno := rpage]> pages))) childbuf,
                          btree, true))
            end
          else
            let rpage := with_links rpage blkno (page_rightlink page) in
            let newlpage :=
              with_flags (with_links newlpage (page_leftlink page) rblkno)
                (Z.lor (page_flags newlpage) RUM_INCOMPLETE_SPLIT) in
            let pages := relink pages (page_rightlink page) rblkno in
            Some (Ok (resetIncompleteSplitOnChild
                        (<[blkno := newlpage]> (<[rblkno := rpage]> pages)) childbuf, btree, false))
      end
  end.

(** The parent on its level, from the one on the stack to the right. *)
Fixpoint find_parent (fuel : nat) (pages : Pages) (child blkno off : Z) (page : RumPage) : outcome (Z * Z) :=
  match fuel with
  | O => None
  | S fuel =>
      if RumFixIncompleteSplit && RumPageIsIncompleteSplit page then None
      else
        let off := dataFindChildPtr page child off in
        if off =? InvalidOffsetNumber then
          if page_rightlink page =? InvalidBlockNumber then None
          else out! (blkno, page) := rumStepForInsert pages page in
               find_parent fuel pages child blkno off page
        else Some (Ok (blkno, off))
  end.

Fixpoint rumFinishSplit (fuel : nat) (pages : Pages) (btree : RumBtree) (child : Z)
  (parents : list RumBtreeStack) : outcome (Pages * RumBtree) :=
  match fuel, parents with
  | S fuel, parent :: parents =>
      match pages !! stack_blkno parent with
      | None => None
      | Some page =>
          out! (blkno, off) := find_parent (S fuel) pages child (stack_blkno parent) (stack_off parent) page in
          out! (pages, btree, done) :=
            rumPlaceToPage pages btree blkno off (match parents with [] => true | _ => false end)
              (Some child) in
          if done then Some (Ok (pages, btree))
          else rumFinishSplit fuel pages btree blkno parents
      end
  | _, _ => None
  end.

Definition rumInsertValue (fuel : nat) (pages : Pages) (btree : RumBtree) (stack : list RumBtreeStack)
  : outcome (Pages * RumBtree) :=
  match stack with
  | [] => None
  | top :: parents =>
      match pages !! stack_blkno top with
      | None => None
      | Some page =>
          if RumFixIncompleteSplit && RumPageIsIncompleteSplit page then None
          else
            out! (pages, btree, done) :=
              rumPlaceToPage pages btree (stack_blkno top) (stack_off top)
                (match parents with [] => true | _ => false end) None in
            if done then Some (Ok (pages, btree))
            else rumFinishSplit fuel pages btree (stack_blkno top) parents
      end
  end.

(** One round of [rumInsertItemPointers]: the descent for the current item and
    its insertion, unless it is there. *)
Definition insert_round (fuel : nat) (pages : Pages) (btree : RumBtree) (rootBlkno : Z)
  : outcome (Pages * RumBtree) :=
  out! stack := rumFindLeafPage fuel pages btree rootBlkno rootBlkno [] in
  match stack with
  | [] => None
  | top :: parents =>
      match pages !! stack_blkno top with
      | None => None
      | Some page =>
          out! (found, off) := dataLocateLeafItem rumstate RumThrowErrorOnInvalidDataPage btree page in
          if found : bool then
            let btree := with_split btree (S (curitem btree)) (pitem btree) (rightblkno btree) in
            if negb RumSkipResetOnDeadEntryPage && RumDataPageEntryIsDead page
            then Some (Ok (<[stack_blkno top := RumDataPageEntryRevive page]> pages, btree))
            else Some (Ok (pages, btree))
          else rumInsertValue fuel pages btree (mk_stack (stack_blkno top) off :: parents)
      end
  end.

Fixpoint insert_loop (rounds fuel : nat) (pages : Pages) (btree : RumBtree) (rootBlkno : Z)
  : outcome (Pages * RumBtree) :=
  if (curitem btree <? length (btree_items btree))%nat then
    match rounds with
    | O => None
    | S rounds =>
        out! (pages, btree) := insert_round fuel pages btree rootBlkno in
        insert_loop rounds fuel pages btree rootBlkno
    end
  else Some (Ok (pages, btree)).

(** Each round takes at least one item. *)
Definition rumInsertItemPointers (fuel : nat) (pages : Pages) (btree : RumBtree) (rootBlkno : Z)
  (items : list RumItem) : outcome Pages :=
  out! (pages, _) :=
    insert_loop (length items) fuel pages
      (mk_btree (entryAttnum btree) (fullScan btree) (scanForward btree) items 0 (pitem btree)
         (rightblkno btree)) rootBlkno in
  Some (Ok pages).
End tree.
