(* ===== verification/RumTreeInsert.v ===== *)
(** * Insertion into a posting tree

    A posting tree represents the ordered list of the items in its leaves.  The
    invariant gives every page a range of keys: a leaf holds items of its range,
    the children of an inner page divide its range, and the right bound of a
    page is the upper end of its range.  The theorems show that the descent finds
    the leaf for a key and that the insertion of an item, with all splits up to
    the root, yields a tree that represents the list with that item. *)

From stdpp Require Import base numbers list option sorting gmap.
From Stdlib Require Import ZArith Lia.
From S2P Require Import Prelude PgbsonElement RumPosting RumDataPage RumLeafPage RumSplit RumInner RumTree.

Section tree.
Context (rumstate : RumState) (throw : bool) (attnum : Z) {OA : OrderedAddInfo rumstate}.

Abbreviation order := (item_order rumstate attnum).
Abbreviation good := (wf_item rumstate attnum).
Abbreviation merge := (rumMergeRumItems rumstate attnum).

(** ** Ranges *)

(** The ends of a range; [None] is no end. *)
Definition bound : Type := option RumItem.

Definition above (lo : bound) (x : RumItem) : Prop :=
  match lo with None => True | Some s => order s x = Lt end.
Definition below (hi : bound) (x : RumItem) : Prop :=
  match hi with None => True | Some s => order x s <> Gt end.
Definition nonempty (lo hi : bound) : Prop :=
  match lo, hi with Some a, Some b => order a b = Lt | _, _ => True end.

Lemma nonempty_trans lo s hi : nonempty lo (Some s) -> nonempty (Some s) hi -> nonempty lo hi.
Proof.
  destruct lo as [a|], hi as [b|]; cbn; intros H1 H2; try done. by apply (cmp_lt_trans order a s b).
Qed.

Lemma above_trans lo s x : nonempty lo (Some s) -> above (Some s) x -> above lo x.
Proof. destruct lo as [a|]; cbn; [|done]. intros H1 H2. by apply (cmp_lt_trans order a s x). Qed.

Lemma below_trans s hi x : nonempty (Some s) hi -> below (Some s) x -> below hi x.
Proof.
  destruct hi as [b|]; cbn; [|done]. intros H1 H2 H3. destruct (order x s) eqn:E; [| |done].
  - rewrite (cmp_eq_l order _ _ _ E), H1 in H3. done.
  - by rewrite (cmp_lt_trans order x s b E H1) in H3.
Qed.

Lemma below_above s x y : below (Some s) x -> above (Some s) y -> order x y = Lt.
Proof.
  cbn. intros H1 H2. destruct (order x s) eqn:E; [| |done].
  - by rewrite (cmp_eq_l order _ _ _ E).
  - by apply (cmp_lt_trans order x s y).
Qed.

(** ** The invariant *)

(** A page that is part of a tree, for a range that ends at [hi]. *)
Definition sound_page (page : RumPage) (hi : bound) : Prop :=
  Z.land (page_flags page) (Z.lor RUM_DATA RUM_META) = RUM_DATA /\ RumPageIsIncompleteSplit page = false /\
  wf_iptr (iptr (page_rightBound page)) /\
  match hi with
  | None => page_rightlink page = InvalidBlockNumber
  | Some s => page_rightlink page <> InvalidBlockNumber /\ page_rightBound page = s
  end.

(** Children that divide a range, given what a child is. *)
Fixpoint forest (T : Z -> bound -> bound -> list RumItem -> list Z -> Prop) (children : list RumPostingItem)
  (lo hi : bound) (items : list RumItem) (blocks : list Z) : Prop :=
  match children with
  | [] => False
  | c :: rest =>
      match rest with
      | [] => T (child_blkno c) lo hi items blocks
      | _ => exists i1 i2 b1 b2, items = i1 ++ i2 /\ blocks = b1 ++ b2 /\
               T (child_blkno c) lo (Some (pitem_item c)) i1 b1 /\
               forest T rest (Some (pitem_item c)) hi i2 b2
      end
  end.

(** What a page of height [h] holds, on the page or in the blocks below it. *)
Definition content (T : Z -> bound -> bound -> list RumItem -> list Z -> Prop) (isLeaf : bool)
  (page : RumPage) (lo hi : bound) (items : list RumItem) (blocks : list Z) : Prop :=
  if isLeaf
  then blocks = [] /\ leaf_page rumstate attnum page items /\ Forall (above lo) items /\ Forall (below hi) items
  else exists children, inner_page rumstate attnum page children /\ forest T children lo hi items blocks.

Fixpoint subtree (pages : Pages) (h : nat) (blkno : Z) (lo hi : bound) (items : list RumItem)
  (blocks : list Z) : Prop :=
  exists page rest, pages !! blkno = Some page /\ tree_block blkno /\
    sound_page page hi /\ nonempty lo hi /\ blocks = blkno :: rest /\
    content (match h with S h' => subtree pages h' | _ => fun _ _ _ _ _ => False end)
      (match h with S _ => false | _ => true end) page lo hi items rest.

(** A tree holds each block once. *)
Definition tree (pages : Pages) (root : Z) (h : nat) (items : list RumItem) : Prop :=
  exists blocks, subtree pages h root None None items blocks /\ NoDup blocks.

Abbreviation T_of pages h :=
  (match h with S h' => subtree pages h' | _ => fun _ _ _ _ _ => False end).
Abbreviation is_leaf_level h := (match h with S _ => false | _ => true end).

Lemma subtree_unfold pages h blkno lo hi items blocks :
  subtree pages h blkno lo hi items blocks <->
  exists page rest, pages !! blkno = Some page /\ tree_block blkno /\
    sound_page page hi /\ nonempty lo hi /\ blocks = blkno :: rest /\
    content (T_of pages h) (is_leaf_level h) page lo hi items rest.
Proof. by destruct h. Qed.

(** ** Lists of children *)

Section forests.
Context (T : Z -> bound -> bound -> list RumItem -> list Z -> Prop).

Lemma forest_cons c d cs lo hi items blocks :
  forest T (c :: d :: cs) lo hi items blocks <->
  exists i1 i2 b1 b2, items = i1 ++ i2 /\ blocks = b1 ++ b2 /\
    T (child_blkno c) lo (Some (pitem_item c)) i1 b1 /\ forest T (d :: cs) (Some (pitem_item c)) hi i2 b2.
Proof. done. Qed.

(** A list of children is divided like its range. *)
Lemma forest_app A a B lo hi items blocks :
  B <> [] ->
  forest T ((A ++ [a]) ++ B) lo hi items blocks <->
  exists i1 i2 b1 b2, items = i1 ++ i2 /\ blocks = b1 ++ b2 /\
    forest T (A ++ [a]) lo (Some (pitem_item a)) i1 b1 /\ forest T B (Some (pitem_item a)) hi i2 b2.
Proof.
  intros HB. revert lo items blocks. induction A as [|c A IH]; intros lo items blocks.
  { destruct B as [|b B]; [done|]. apply forest_cons. }
  assert (exists d cs, A ++ [a] = d :: cs) as (d & cs & Ed) by (destruct A; eauto).
  change ((c :: A) ++ [a]) with (c :: (A ++ [a])). rewrite Ed in *. cbn [app] in *. rewrite forest_cons. split.
  - intros (i1 & i2 & b1 & b2 & -> & -> & H1 & H2). apply IH in H2 as (i3 & i4 & b3 & b4 & -> & -> & H3 & H4).
    exists (i1 ++ i3), i4, (b1 ++ b3), b4. rewrite !app_assoc. do 2 (split; [done|]). split; [|done].
    apply forest_cons. by exists i1, i3, b1, b3.
  - intros (i1 & i2 & b1 & b2 & -> & -> & H1 & H2). apply forest_cons in H1 as (i3 & i4 & b3 & b4 & -> & -> & H3 & H4).
    exists i3, (i4 ++ i2), b3, (b4 ++ b2). rewrite !app_assoc. do 2 (split; [done|]). split; [done|].
    apply IH. by exists i4, i2, b4, b2.
Qed.

Lemma forest_ne children lo hi items blocks : forest T children lo hi items blocks -> children <> [].
Proof. by destruct children. Qed.

(** The children before and after a place. *)
Fixpoint lefts (children : list RumPostingItem) (lo mid : bound) (items : list RumItem) (blocks : list Z) : Prop :=
  match children with
  | [] => mid = lo /\ items = [] /\ blocks = []
  | c :: rest => exists i1 i2 b1 b2, items = i1 ++ i2 /\ blocks = b1 ++ b2 /\
      T (child_blkno c) lo (Some (pitem_item c)) i1 b1 /\ lefts rest (Some (pitem_item c)) mid i2 b2
  end.

Definition rights (s : RumItem) (children : list RumPostingItem) (mid hi : bound) (items : list RumItem)
  (blocks : list Z) : Prop :=
  match children with
  | [] => mid = hi /\ items = [] /\ blocks = []
  | _ => mid = Some s /\ forest T children mid hi items blocks
  end.

Lemma forest_prepend l cs lo mid hi il i bl b :
  lefts l lo mid il bl -> forest T cs mid hi i b -> forest T (l ++ cs) lo hi (il ++ i) (bl ++ b).
Proof.
  revert lo il bl. induction l as [|c l IH]; intros lo il bl Hl Hf.
  { by destruct Hl as (-> & -> & ->). }
  destruct Hl as (i1 & i2 & b1 & b2 & -> & -> & H1 & H2). specialize (IH _ _ _ H2 Hf).
  cbn [app]. pose proof (forest_ne _ _ _ _ _ IH). destruct (l ++ cs) as [|d ds]; [done|].
  apply forest_cons. exists i1, (i2 ++ i), b1, (b2 ++ b). by rewrite !app_assoc.
Qed.

(** New children in place of some. *)
Lemma forest_plug l cs a r lo hi m1 m2 il ic ir bl bc br :
  lefts l lo m1 il bl -> forest T (cs ++ [a]) m1 m2 ic bc -> rights (pitem_item a) r m2 hi ir br ->
  forest T (l ++ (cs ++ [a]) ++ r) lo hi (il ++ ic ++ ir) (bl ++ bc ++ br).
Proof.
  intros Hl Hf Hr. apply (forest_prepend l _ lo m1); [done|]. destruct r as [|d r].
  - destruct Hr as (-> & -> & ->). by rewrite !app_nil_r.
  - destruct Hr as (-> & Hr). apply forest_app; [done|]. by exists ic, ir, bc, br.
Qed.

Lemma forest_focus l c r lo hi items blocks :
  forest T (l ++ c :: r) lo hi items blocks ->
  exists m1 m2 il ic ir bl bc br, items = il ++ ic ++ ir /\ blocks = bl ++ bc ++ br /\
    lefts l lo m1 il bl /\ T (child_blkno c) m1 m2 ic bc /\ rights (pitem_item c) r m2 hi ir br.
Proof.
  revert lo items blocks. induction l as [|d l IH]; intros lo items blocks Hf; cbn [app] in Hf.
  - destruct r as [|e r].
    + exists lo, hi, [], items, [], [], blocks, []. rewrite !app_nil_r. by repeat split.
    + apply forest_cons in Hf as (i1 & i2 & b1 & b2 & -> & -> & H1 & H2).
      exists lo, (Some (pitem_item c)), [], i1, i2, [], b1, b2. by repeat split.
  - assert (exists e cs, l ++ c :: r = e :: cs) as (e & cs & E) by (destruct l; eauto).
    rewrite E in Hf. apply forest_cons in Hf as (i1 & i2 & b1 & b2 & -> & -> & H1 & H2). rewrite <- E in H2.
    apply IH in H2 as (m1 & m2 & il & ic & ir & bl & bc & br & -> & -> & H2 & H3 & H4).
    exists m1, m2, (i1 ++ il), ic, ir, (b1 ++ bl), bc, br. rewrite <- !app_assoc.
    do 2 (split; [done|]). split; [|done]. by exists i1, il, b1, bl.
Qed.

(** The ends of the range of the place. *)
Lemma lefts_end l lo mid items blocks :
  lefts l lo mid items blocks -> mid = match last l with None => lo | Some c => Some (pitem_item c) end.
Proof.
  revert lo items blocks. induction l as [|c l IH]; intros lo items blocks; [by intros (-> & _)|].
  intros (i1 & i2 & b1 & b2 & _ & _ & _ & H). rewrite (IH _ _ _ H), last_cons. by destruct (last l).
Qed.

Lemma rights_end s r mid hi items blocks :
  rights s r mid hi items blocks -> r = [] /\ mid = hi \/ r <> [] /\ mid = Some s.
Proof. destruct r; cbn; intros (-> & _); [by left|by right]. Qed.

(** ** Blocks *)

Section every_block.
Context (P : Z -> Prop).
Hypothesis T_blocks : forall b lo hi i bs, T b lo hi i bs -> Forall P bs.

Lemma forest_blocks cs lo hi items blocks : forest T cs lo hi items blocks -> Forall P blocks.
Proof.
  revert lo items blocks. induction cs as [|c [|d cs] IH]; intros lo items blocks Hf; [done|by eapply T_blocks|].
  apply forest_cons in Hf as (i1 & i2 & b1 & b2 & -> & -> & H1 & H2).
  apply Forall_app. split; [by eapply T_blocks|by eapply IH].
Qed.

Lemma lefts_blocks l lo mid items blocks : lefts l lo mid items blocks -> Forall P blocks.
Proof.
  revert lo items blocks. induction l as [|c l IH]; intros lo items blocks; [by intros (_ & _ & ->)|].
  intros (i1 & i2 & b1 & b2 & -> & -> & H1 & H2). apply Forall_app. split; [by eapply T_blocks|by eapply IH].
Qed.

Lemma rights_blocks s r mid hi items blocks : rights s r mid hi items blocks -> Forall P blocks.
Proof. destruct r as [|c r]; [by intros (_ & _ & ->)|]. intros [_ H]. by eapply forest_blocks. Qed.
End every_block.

Section blocks.
Hypothesis T_head : forall b lo hi i bs, T b lo hi i bs -> exists rest, bs = b :: rest.

Lemma forest_heads children lo hi items blocks :
  forest T children lo hi items blocks -> NoDup blocks ->
  NoDup (map child_blkno children) /\ forall c, c ∈ children -> child_blkno c ∈ blocks.
Proof.
  revert lo items blocks. induction children as [|c [|d cs] IH]; intros lo items blocks Hf Hnd; [done| |].
  - apply T_head in Hf as [rest ->]. split; [apply NoDup_singleton|].
    intros e He. apply list_elem_of_singleton in He as ->. apply list_elem_of_here.
  - apply forest_cons in Hf as (i1 & i2 & b1 & b2 & _ & -> & H1 & H2). apply NoDup_app in Hnd as (N1 & N2 & N3).
    destruct (IH _ _ _ H2 N3) as [I1 I2]. apply T_head in H1 as [rest ->]. split.
    + change (map child_blkno (c :: d :: cs)) with (child_blkno c :: map child_blkno (d :: cs)).
      apply NoDup_cons. split; [|done]. intros Hin.
      apply list_elem_of_In, in_map_iff in Hin as (e & Ee & He). apply (N2 (child_blkno c)); [apply list_elem_of_here|].
      rewrite <- Ee. apply I2. by apply list_elem_of_In.
    + intros e He. apply elem_of_app. apply elem_of_cons in He as [->|He]; [left; apply list_elem_of_here|right; by apply I2].
Qed.
End blocks.
End forests.

Section mono.
Context (T T' : Z -> bound -> bound -> list RumItem -> list Z -> Prop) (P : Z -> Prop).
Hypothesis T_mono : forall b lo hi i bs, T b lo hi i bs -> Forall P bs -> T' b lo hi i bs.

Lemma forest_mono cs lo hi items blocks :
  forest T cs lo hi items blocks -> Forall P blocks -> forest T' cs lo hi items blocks.
Proof.
  revert lo items blocks. induction cs as [|c [|d cs] IH]; intros lo items blocks Hf HP; [done|by apply T_mono|].
  apply forest_cons in Hf as (i1 & i2 & b1 & b2 & -> & -> & H1 & H2). apply Forall_app in HP as [P1 P2].
  apply forest_cons. exists i1, i2, b1, b2. do 2 (split; [done|]). split; [by apply T_mono|by apply IH].
Qed.

Lemma lefts_mono l lo mid items blocks :
  lefts T l lo mid items blocks -> Forall P blocks -> lefts T' l lo mid items blocks.
Proof.
  revert lo items blocks. induction l as [|c l IH]; intros lo items blocks; [done|].
  intros (i1 & i2 & b1 & b2 & -> & -> & H1 & H2) HP. apply Forall_app in HP as [P1 P2].
  exists i1, i2, b1, b2. do 2 (split; [done|]). split; [by apply T_mono|by apply IH].
Qed.

Lemma rights_mono s r mid hi items blocks :
  rights T s r mid hi items blocks -> Forall P blocks -> rights T' s r mid hi items blocks.
Proof. destruct r as [|c r]; [done|]. intros [-> H] HP. split; [done|]. by apply forest_mono. Qed.
End mono.

(** ** Ranges of items *)

Definition in_range (lo hi : bound) (items : list RumItem) : Prop :=
  nonempty lo hi /\ Forall (above lo) items /\ Forall (below hi) items /\
  ordered rumstate attnum items /\ Forall good items.

Lemma in_range_app lo s hi a b :
  in_range lo (Some s) a -> in_range (Some s) hi b -> in_range lo hi (a ++ b).
Proof.
  intros (N1 & A1 & B1 & O1 & G1) (N2 & A2 & B2 & O2 & G2). split; [by apply (nonempty_trans lo s)|].
  split; [|split; [|split]].
  - apply Forall_app. split; [done|]. apply (Forall_impl _ _ _ A2). intros x. by apply above_trans.
  - apply Forall_app. split; [|done]. apply (Forall_impl _ _ _ B1). intros x. by apply below_trans.
  - apply ordered_app. split; [done|]. split; [done|]. intros x y Hx Hy.
    rewrite List.Forall_forall in B1, A2. by apply (below_above s x y); [apply B1|apply A2].
  - by apply Forall_app.
Qed.

Lemma forest_range T cs lo hi items blocks :
  (forall b lo hi i bs, T b lo hi i bs -> in_range lo hi i) ->
  forest T cs lo hi items blocks -> in_range lo hi items.
Proof.
  intros HT. revert lo items blocks. induction cs as [|c [|d cs] IH]; intros lo items blocks Hf; [done|by eapply HT|].
  apply forest_cons in Hf as (i1 & i2 & b1 & b2 & -> & -> & H1 & H2).
  apply (in_range_app lo (pitem_item c)); [by eapply HT|by eapply IH].
Qed.

Lemma subtree_range pages h blkno lo hi items blocks :
  subtree pages h blkno lo hi items blocks -> in_range lo hi items.
Proof.
  revert blkno lo hi items blocks. induction h as [|h IH]; intros blkno lo hi items blocks H;
    apply subtree_unfold in H as (page & rest & _ & _ & _ & Hn & _ & Hc).
  - destruct Hc as (_ & Hp & HA & HB). destruct Hp. done.
  - destruct Hc as (cs & _ & Hf). by apply (forest_range (subtree pages h) cs lo hi items rest).
Qed.

Lemma subtree_head pages h blkno lo hi items blocks :
  subtree pages h blkno lo hi items blocks -> exists rest, blocks = blkno :: rest.
Proof. intros H. apply subtree_unfold in H as (page & rest & _ & _ & _ & _ & -> & _). eauto. Qed.

(** ** Changes that a tree does not see *)

(** The same items or children, whatever the links and the other flags. *)
Definition same_content (p q : RumPage) : Prop :=
  RumPageIsLeaf q = RumPageIsLeaf p /\ dataPageMaxoff q = dataPageMaxoff p /\
  dataPageFreespace q = dataPageFreespace p /\ page_data q = page_data p /\
  page_indexes q = page_indexes p /\ page_items q = page_items p.

Lemma content_same T isLeaf p q lo hi items blocks :
  same_content p q -> content T isLeaf p lo hi items blocks -> content T isLeaf q lo hi items blocks.
Proof.
  intros (E1 & E2 & E3 & E4 & E5 & E6). destruct isLeaf; cbn.
  - intros (Hb & [] & HA & HB). split; [done|]. split; [|done]. split; congruence || (rewrite ?E4; done) || idtac.
    all: rewrite ?E5; done.
  - intros (cs & [] & Hf). exists cs. split; [|done]. split; try congruence.
    unfold RumDataPageGetFreeSpace in *. by rewrite E2.
Qed.

(** A block whose page differs in its left link only. *)
Definition leftlink_only (pages pages' : Pages) (b : Z) : Prop :=
  exists page left, pages !! b = Some page /\ pages' !! b = Some (with_links page left (page_rightlink page)).

Lemma leftlink_same (pages : Pages) b page : pages !! b = Some page -> leftlink_only pages pages b.
Proof. intros E. exists page, (page_leftlink page). by destruct page. Qed.

Lemma subtree_frame pages pages' h blkno lo hi items blocks :
  subtree pages h blkno lo hi items blocks -> Forall (leftlink_only pages pages') blocks ->
  subtree pages' h blkno lo hi items blocks.
Proof.
  revert blkno lo hi items blocks. induction h as [|h IH]; intros blkno lo hi items blocks H HP;
    apply subtree_unfold in H as (page & rest & Hp & Hv & Hs & Hn & -> & Hc);
    apply Forall_cons in HP as [(page' & left & Hp1 & Hp2) HP];
    assert (page' = page) as -> by congruence; apply subtree_unfold;
    exists (with_links page left (page_rightlink page)), rest; (do 5 (split; [done|])).
  - by apply (content_same _ _ page).
  - apply (content_same _ _ page); [done|]. destruct Hc as (cs & Hi & Hf). exists cs. split; [done|].
    by apply (forest_mono (subtree pages h) _ (leftlink_only pages pages')).
Qed.

(** ** The path to a place in the tree *)

(** [path root h stack blkno lo hi L R blocks]: the pages of [stack] lead from
    [root] to the block [blkno] at height [h], which is for the keys between [lo]
    and [hi]; [L] and [R] are the items of the tree before and after it, and
    [blocks] the other blocks of the tree. *)
Inductive path (pages : Pages) (root : Z)
  : nat -> list RumBtreeStack -> Z -> bound -> bound -> list RumItem -> list RumItem -> list Z -> Prop :=
| path_top h : path pages root h [] root None None [] [] []
| path_down h stack blkno off page l c r lo hi m1 m2 L R il ir bs bl br :
    path pages root (S h) stack blkno lo hi L R bs ->
    pages !! blkno = Some page -> tree_block blkno -> sound_page page hi -> nonempty lo hi ->
    inner_page rumstate attnum page (l ++ c :: r) ->
    lefts (subtree pages h) l lo m1 il bl -> rights (subtree pages h) (pitem_item c) r m2 hi ir br ->
    path pages root h (mk_stack blkno off :: stack) (child_blkno c) m1 m2 (L ++ il) (ir ++ R)
      (bs ++ blkno :: bl ++ br).

Lemma path_frame pages pages' root h stack blkno lo hi L R bs :
  path pages root h stack blkno lo hi L R bs -> Forall (leftlink_only pages pages') bs ->
  path pages' root h stack blkno lo hi L R bs.
Proof.
  induction 1 as [h|h stack blkno off page l c r lo hi m1 m2 L R il ir bs bl br Hpath IH Hp Hv Hs Hn Hi Hl Hr];
    intros HP; [constructor|].
  apply Forall_app in HP as [P1 P2]. apply Forall_cons in P2 as [(page' & left & E1 & E2) P2].
  assert (page' = page) as -> by congruence. apply Forall_app in P2 as [P3 P4].
  assert (forall b lo hi i bs, subtree pages h b lo hi i bs -> Forall (leftlink_only pages pages') bs ->
    subtree pages' h b lo hi i bs) as Hmono by (intros; by apply (subtree_frame pages)).
  apply (path_down pages' root h stack blkno off (with_links page left (page_rightlink page)) l c r lo hi m1 m2);
    try done.
  - by apply IH.
  - by destruct Hi.
  - by apply (lefts_mono (subtree pages h) _ _ Hmono).
  - by apply (rights_mono (subtree pages h) _ _ Hmono).
Qed.

(** A path and the subtree at its end are a tree. *)
Lemma path_plug pages root h stack blkno lo hi L R bs items bt :
  path pages root h stack blkno lo hi L R bs -> subtree pages h blkno lo hi items bt ->
  exists h' blocks, subtree pages h' root None None (L ++ items ++ R) blocks /\ blocks ≡ₚ bs ++ bt.
Proof.
  intros Hpath. revert items bt.
  induction Hpath as [h|h stack blkno off page l c r lo hi m1 m2 L R il ir bs bl br Hpath IH Hp Hv Hs Hn Hi Hl Hr];
    intros items bt Ht.
  { exists h, bt. by rewrite app_nil_r. }
  destruct (IH (il ++ items ++ ir) (blkno :: bl ++ bt ++ br)) as (h' & blocks & H1 & H2).
  - apply subtree_unfold. exists page, (bl ++ bt ++ br). do 5 (split; [done|]). exists (l ++ c :: r). split; [done|].
    change (l ++ c :: r) with (l ++ ([] ++ [c]) ++ r). by apply (forest_plug _ l [] c r lo hi m1 m2).
  - exists h', blocks. rewrite <- !app_assoc in *. split; [done|]. rewrite H2. solve_Permutation.
Qed.

(** The items before a place are not above its range, those after it are. *)
Definition left_of (lo : bound) (L : list RumItem) : Prop :=
  match lo with None => L = [] | Some _ => Forall (below lo) L end.
Definition right_of (hi : bound) (R : list RumItem) : Prop :=
  match hi with None => R = [] | Some _ => Forall (above hi) R end.

Lemma lefts_range T l lo mid items blocks :
  (forall b lo hi i bs, T b lo hi i bs -> in_range lo hi i) ->
  lefts T l lo mid items blocks ->
  mid = lo /\ items = [] \/ exists s, mid = Some s /\ in_range lo (Some s) items.
Proof.
  intros HT. revert lo items blocks. induction l as [|c l IH]; intros lo items blocks H;
    [left; by destruct H as (-> & -> & _)|right].
  destruct H as (i1 & i2 & b1 & b2 & -> & -> & H1 & H2). apply HT in H1.
  destruct (IH _ _ _ H2) as [(-> & ->)|(s & -> & H3)].
  - exists (pitem_item c). by rewrite app_nil_r.
  - exists s. split; [done|]. by apply (in_range_app lo (pitem_item c)).
Qed.

Lemma path_sides pages root h stack blkno lo hi L R bs :
  path pages root h stack blkno lo hi L R bs -> left_of lo L /\ right_of hi R.
Proof.
  induction 1 as [h|h stack blkno off page l c r lo hi m1 m2 L R il ir bs bl br Hpath [IL IR] Hp Hv Hs Hn Hi Hl Hr];
    [done|]. split.
  - apply (lefts_range _ _ _ _ _ _ (subtree_range pages h)) in Hl as [[-> ->]|(s & -> & N1 & _ & B1 & _)];
      [by rewrite app_nil_r|].
    apply Forall_app. split; [|done]. destruct lo as [a|]; cbn in IL; [|by subst L].
    apply (Forall_impl _ _ _ IL). intros x. by apply below_trans.
  - destruct r as [|d r]; unfold rights in Hr; [by destruct Hr as (-> & -> & _)|]. destruct Hr as [-> Hr].
    apply (forest_range _ _ _ _ _ _ (subtree_range pages h)) in Hr as (N1 & A1 & _).
    apply Forall_app. split; [done|]. destruct hi as [b|]; cbn in IR; [|by subst R].
    apply (Forall_impl _ _ _ IR). intros x. by apply above_trans.
Qed.

(** ** The descent *)

Context (fix_split : bool).

Lemma tree_page blkno page hi :
  tree_block blkno -> sound_page page hi -> rumCheckTreePage blkno page = Ok tt /\ RumPageIsData page = true.
Proof.
  intros [_ Hb] (Hkind & _). unfold rumCheckTreePage, RumPageIsData.
  replace (blkno =? RUM_METAPAGE_BLKNO) with false by (symmetry; by apply Z.eqb_neq).
  assert (forall bit, Z.land (Z.lor RUM_DATA RUM_META) bit = bit ->
    Z.land (page_flags page) bit = Z.land RUM_DATA bit) as Hbit.
  { intros bit E. rewrite <- E at 1. by rewrite Z.land_assoc, Hkind. }
  by rewrite !Hbit.
Qed.

Lemma no_move fuel pages btree root blkno page hi key :
  sound_page page hi -> search_for attnum btree key -> below hi key ->
  move_right rumstate fix_split (S fuel) pages btree root blkno page = Some (Ok (blkno, page)).
Proof.
  intros (Hd & Hinc & Hwf & Hhi) [H1 H2 H3 H4] Hb. cbn [move_right]. rewrite Hinc, andb_false_r, H1. cbn [orb].
  destruct (blkno =? root); [done|]. unfold dataIsMoveRight, RumPageRightMost. destruct hi as [s|].
  - destruct Hhi as [Hr <-]. replace (page_rightlink page =? InvalidBlockNumber) with false
      by (symmetry; by apply Z.eqb_neq).
    rewrite H2, H3. pose proof (compare_cases rumstate attnum key (page_rightBound page) H4 Hwf) as C.
    replace (0 <? _) with false; [done|]. symmetry. apply Z.ltb_ge. cbn in Hb.
    destruct (order key (page_rightBound page)); [lia|lia|done].
  - rewrite Hhi. by rewrite Z.eqb_refl.
Qed.

(** The range of the child to which a key goes. *)
Lemma route_range T key l c r lo hi m1 m2 il ir bl br :
  lefts T l lo m1 il bl -> rights T (pitem_item c) r m2 hi ir br ->
  Forall (fun d => order (pitem_item d) key = Lt) l -> (r = [] \/ order key (pitem_item c) <> Gt) ->
  above lo key -> below hi key -> above m1 key /\ below m2 key.
Proof.
  intros Hl Hr Hbefore Hat Hlo Hhi. apply lefts_end in Hl. apply rights_end in Hr. split.
  - subst m1. destruct (last l) as [d|] eqn:E; [|done]. apply last_Some_elem_of in E.
    rewrite Forall_forall in Hbefore. by apply Hbefore.
  - destruct Hr as [[-> ->]|[Hne ->]]; [done|]. by destruct Hat.
Qed.

(** What is known of the leaf for a key. *)
Definition leaf_found (pages : Pages) (root : Z) (key : RumItem) (items : list RumItem)
  (stack : list RumBtreeStack) (blkno : Z) : Prop :=
  exists lo hi L R bs it bt, path pages root 0 stack blkno lo hi L R bs /\
    subtree pages 0 blkno lo hi it bt /\ items = L ++ it ++ R /\ NoDup (bs ++ bt) /\
    above lo key /\ below hi key.

Lemma find_leaf pages root btree key h : forall fuel stack blkno lo hi L R bs items bt,
  search_for attnum btree key ->
  path pages root h stack blkno lo hi L R bs -> subtree pages h blkno lo hi items bt -> NoDup (bs ++ bt) ->
  above lo key -> below hi key -> (h < fuel)%nat ->
  exists stack' blkno',
    rumFindLeafPage rumstate fix_split fuel pages btree root blkno stack =
      Some (Ok (mk_stack blkno' InvalidOffsetNumber :: stack')) /\
    leaf_found pages root key (L ++ items ++ R) stack' blkno' /\ length stack' = (h + length stack)%nat.
Proof.
  induction h as [|h IH]; intros [|fuel] stack blkno lo hi L R bs items bt Hkey Hpath Ht Hnd Hlo Hhi Hf; try lia;
    pose proof Ht as Ht'; apply subtree_unfold in Ht' as (page & rest & Hp & Hv & Hs & Hn & -> & Hc);
    cbn [rumFindLeafPage]; rewrite Hp; destruct (tree_page blkno page hi Hv Hs) as [-> Hd]; cbn [out_bind]; rewrite Hd; cbn [negb];
    rewrite (no_move fuel pages btree root blkno page hi key Hs Hkey Hhi); cbn [out_bind].
  - destruct Hc as (_ & Hleaf & _). rewrite (lp_leaf _ _ _ _ Hleaf). exists stack, blkno. split; [done|].
    split; [|done]. by exists lo, hi, L, R, bs, items, (blkno :: rest).
  - destruct Hc as (children & Hi & Hforest). rewrite (ip_inner _ _ _ _ Hi).
    destruct (route_splits rumstate attnum key children (ip_some _ _ _ _ Hi)) as (l & c & r & -> & Hroute & Hb & Ha).
    destruct (dataLocateItem_spec rumstate attnum page _ btree key Hi Hkey) as (c' & Hc' & ->).
    rewrite Hroute, list_lookup_middle in Hc' by done. injection Hc' as <-.
    apply forest_focus in Hforest as (m1 & m2 & il & ic & ir & bl & bc & br & -> & -> & Hl & Hsub & Hr).
    pose proof Hsub as Hchild. apply subtree_unfold in Hchild as (cp & cr & Hcp & Hcv & _ & _ & Ebc & _).
    assert (child_blkno c <> blkno) as Hne.
    { intros E. apply NoDup_app in Hnd as (_ & _ & Hnd). apply NoDup_cons in Hnd as [Hnd _]. apply Hnd.
      rewrite Ebc, E. apply elem_of_app. right. apply elem_of_app. left. apply list_elem_of_here. }
    replace (child_blkno c =? InvalidBlockNumber) with false by (symmetry; apply Z.eqb_neq, Hcv).
    replace (child_blkno c =? blkno) with false by (symmetry; by apply Z.eqb_neq). cbn [orb].
    destruct (route_range _ key l c r lo hi m1 m2 il ir bl br Hl Hr Hb Ha Hlo Hhi) as [Hm1 Hm2].
    destruct (IH fuel (mk_stack blkno (Z.of_nat (route rumstate attnum key (l ++ c :: r)) + 1) :: stack) (child_blkno c) m1 m2
                (L ++ il) (ir ++ R) (bs ++ blkno :: bl ++ br) ic bc Hkey) as (stack' & blkno' & E & Hfound & Hlen);
      [by apply (path_down pages root h stack blkno _ page l c r lo hi)|done| |done|done|lia|].
    + eapply NoDup_Permutation_proper; [|exact Hnd]. solve_Permutation.
    + exists stack', blkno'. split; [done|]. split; [|cbn in Hlen; lia].
      replace (L ++ (il ++ ic ++ ir) ++ R) with ((L ++ il) ++ ic ++ ir ++ R) by (by rewrite <- !app_assoc).
      done.
Qed.

(** ** Flags *)

Lemma land_revived skip page bit :
  Z.land (Z.lnot RUM_PAGE_IS_DEAD_ROWS) bit = bit ->
  Z.land (page_flags (revived skip page)) bit = Z.land (page_flags page) bit.
Proof.
  intros E. destruct skip; [done|]. cbn [revived RumDataPageEntryRevive page_flags].
  by rewrite <- Z.land_assoc, E.
Qed.

Lemma land_reset flags bit :
  Z.land (Z.lnot RUM_INCOMPLETE_SPLIT) bit = bit -> Z.land RUM_INCOMPLETE_SPLIT bit = 0 ->
  Z.land (Z.land (Z.lor flags RUM_INCOMPLETE_SPLIT) (Z.lnot RUM_INCOMPLETE_SPLIT)) bit = Z.land flags bit.
Proof. intros E1 E2. by rewrite <- Z.land_assoc, E1, Z.land_lor_distr_l, E2, Z.lor_0_r. Qed.

Lemma land_reset_incomplete flags :
  Z.land (Z.land flags (Z.lnot RUM_INCOMPLETE_SPLIT)) RUM_INCOMPLETE_SPLIT = 0.
Proof. rewrite <- Z.land_assoc. change (Z.land (Z.lnot RUM_INCOMPLETE_SPLIT) RUM_INCOMPLETE_SPLIT) with 0. apply Z.land_0_r. Qed.

(** ** The store *)

Abbreviation reset := resetIncompleteSplitOnChild.

Lemma reset_ne pages child b : child <> Some b -> reset pages child !! b = pages !! b.
Proof. intros Hne. destruct child as [c|]; [|done]. apply lookup_alter_ne. congruence. Qed.

Lemma reset_insert pages child b page c :
  c <> b -> reset (<[b := page]> pages) child !! c = reset pages child !! c.
Proof.
  intros Hne. destruct child as [d|]; cbn; [|by rewrite lookup_insert_ne].
  destruct (decide (d = c)) as [->|Hd].
  - by rewrite !lookup_alter_eq, lookup_insert_ne.
  - by rewrite !lookup_alter_ne, lookup_insert_ne.
Qed.

Lemma reset_present pages child b : is_Some (reset pages child !! b) <-> is_Some (pages !! b).
Proof.
  destruct child as [d|]; cbn; [|done]. destruct (decide (d = b)) as [->|Hd].
  - rewrite lookup_alter_eq. apply fmap_is_Some.
  - by rewrite lookup_alter_ne.
Qed.

Lemma relink_lookup pages blkno left b :
  relink pages blkno left !! b = pages !! b \/
  exists page, pages !! b = Some page /\
    relink pages blkno left !! b = Some (with_links page left (page_rightlink page)).
Proof.
  unfold relink. destruct (blkno =? InvalidBlockNumber); [by left|].
  destruct (decide (blkno = b)) as [->|Hne].
  - rewrite lookup_alter_eq. destruct (pages !! b) as [page|] eqn:E; [right; by exists page|by left].
  - left. by rewrite lookup_alter_ne.
Qed.

Lemma relink_present pages blkno left b : is_Some (relink pages blkno left !! b) <-> is_Some (pages !! b).
Proof.
  destruct (relink_lookup pages blkno left b) as [->|(page & E1 & E2)]; [done|]. rewrite E1, E2. split; by eexists.
Qed.

Lemma leftlink_relink pages child blkno left b :
  is_Some (pages !! b) ->
  leftlink_only (reset pages child) (reset (relink pages blkno left) child) b.
Proof.
  intros [page E]. destruct child as [d|]; cbn.
  - destruct (decide (d = b)) as [->|Hne].
    + unfold leftlink_only. rewrite !lookup_alter_eq, E. cbn.
      destruct (relink_lookup pages blkno left b) as [E2|(page' & E1 & E2)]; rewrite E2, ?E; cbn.
      * exists (with_flags page (Z.land (page_flags page) (Z.lnot RUM_INCOMPLETE_SPLIT))), (page_leftlink page).
        by destruct page.
      * assert (page' = page) as -> by congruence.
        exists (with_flags page (Z.land (page_flags page) (Z.lnot RUM_INCOMPLETE_SPLIT))), left. done.
    + unfold leftlink_only. rewrite !lookup_alter_ne by congruence.
      destruct (relink_lookup pages blkno left b) as [E2|(page' & E1 & E2)]; rewrite E2.
      * exists page, (page_leftlink page). rewrite E. by destruct page.
      * by exists page', left.
  - unfold leftlink_only. destruct (relink_lookup pages blkno left b) as [E2|(page' & E1 & E2)]; rewrite E2.
    + exists page, (page_leftlink page). rewrite E. by destruct page.
    + by exists page', left.
Qed.

Definition present (pages : Pages) (blocks : list Z) : Prop := Forall (fun b => is_Some (pages !! b)) blocks.

Lemma subtree_present pages h blkno lo hi items blocks :
  subtree pages h blkno lo hi items blocks -> present pages blocks.
Proof.
  revert blkno lo hi items blocks. induction h as [|h IH]; intros blkno lo hi items blocks H;
    apply subtree_unfold in H as (page & rest & Hp & _ & _ & _ & -> & Hc); (apply Forall_cons; split; [by eexists|]).
  - by destruct Hc as (-> & _).
  - destruct Hc as (cs & _ & Hf). by apply (forest_blocks _ _ IH) in Hf.
Qed.

(** ** A split and the levels above it *)

Context (skip bulk : bool) (split_size cycle : Z) {N : NewBuffer} {NL : NewBufferLaws N}.

Abbreviation place := (rumPlaceToPage rumstate throw skip bulk split_size cycle).
Abbreviation finish := (rumFinishSplit rumstate throw skip bulk split_size cycle fix_split).

(** Placement on a page, and the update of its parents if the page was split. *)
Definition place_up (fuel : nat) (pages : Pages) (btree : RumBtree) (blkno off : Z)
  (parents : list RumBtreeStack) (child : option Z) : outcome (Pages * RumBtree) :=
  out! (pages, btree, done) :=
    place pages btree blkno off (match parents with [] => true | _ => false end) child in
  if done : bool then Some (Ok (pages, btree)) else finish fuel pages btree blkno parents.

(** The call ends with a tree that holds [items]. *)
Definition ends_with (root : Z) (btree : RumBtree) (cur : nat) (items : list RumItem)
  (r : outcome (Pages * RumBtree)) : Prop :=
  exists pages' p rb h, r = Some (Ok (pages', with_split btree cur p rb)) /\ tree pages' root h items.

(** A split page at [blkno] with its right half at [rblkno], before the parent
    knows.  The flag of the unfinished split is not part of the tree. *)
Record halves (pages : Pages) (root : Z) (h : nat) (stack : list RumBtreeStack) (blkno rblkno : Z)
  (m : RumItem) (iA iB : list RumItem) (items : list RumItem) : Prop := {
  hv_wf : wf_iptr (iptr m);
  hv_tree : exists lo hi L R bs bA bB, path pages root h stack blkno lo hi L R bs /\
    subtree (reset pages (Some blkno)) h blkno lo (Some m) iA bA /\
    subtree (reset pages (Some blkno)) h rblkno (Some m) hi iB bB /\
    NoDup (bs ++ bA ++ bB) /\ items = L ++ (iA ++ iB) ++ R;
}.

(** The parents of a split page are updated correctly. *)
Definition finishes (stack : list RumBtreeStack) : Prop :=
  forall fuel pages root h blkno rblkno m iA iB items btree,
    halves pages root h stack blkno rblkno m iA iB items -> stack <> [] ->
    pitem btree = mk_pitem blkno m -> rightblkno btree = rblkno -> (length stack <= fuel)%nat ->
    ends_with root btree (curitem btree) items (finish fuel pages btree blkno stack).

(** What the split of a page gives: two pages that divide its range at [m].
    The blocks below them are those of a store in which the split of the child is
    finished. *)
Record page_split (pages : Pages) (child : option Z) (h : nat) (page left right : RumPage) (lo hi : bound)
  (m : RumItem) (iA iB : list RumItem) (bA bB : list Z) : Prop := {
  ps_wf : wf_iptr (iptr m);
  ps_left : page_rightBound left = m;
  ps_right : page_rightBound right = page_rightBound page;
  ps_flags : page_flags left = page_flags (revived skip page) /\
             page_flags right = page_flags (revived skip page);
  ps_lo : nonempty lo (Some m);
  ps_hi : nonempty (Some m) hi;
  ps_contentA : content (T_of (reset pages child) h) (is_leaf_level h) left lo (Some m) iA bA;
  ps_contentB : content (T_of (reset pages child) h) (is_leaf_level h) right (Some m) hi iB bB;
}.

Lemma content_frame pages pages' h page lo hi items blocks :
  content (T_of pages h) (is_leaf_level h) page lo hi items blocks ->
  Forall (leftlink_only pages pages') blocks ->
  content (T_of pages' h) (is_leaf_level h) page lo hi items blocks.
Proof.
  destruct h as [|h]; [done|]. intros (cs & Hi & Hf) HP. exists cs. split; [done|].
  apply (forest_mono (subtree pages h) _ (leftlink_only pages pages')); [|done|done].
  intros. by apply (subtree_frame pages).
Qed.

Lemma content_present pages h page lo hi items blocks :
  content (T_of pages h) (is_leaf_level h) page lo hi items blocks -> present pages blocks.
Proof.
  destruct h as [|h]; [intros (-> & _); constructor|]. intros (cs & _ & Hf).
  by apply (forest_blocks _ _ (subtree_present pages h)) in Hf.
Qed.

(** A page of the split, at its block and with its links. *)
Lemma half_subtree pages pages' h blkno page lo hi items blocks :
  pages' !! blkno = Some page -> tree_block blkno -> sound_page page hi -> nonempty lo hi ->
  content (T_of pages h) (is_leaf_level h) page lo hi items blocks ->
  Forall (leftlink_only pages pages') blocks ->
  subtree pages' h blkno lo hi items (blkno :: blocks).
Proof.
  intros Hp Hv Hs Hn Hc HP. apply subtree_unfold. exists page, blocks. do 5 (split; [done|]).
  by apply (content_frame pages).
Qed.

Lemma sound_links page hi hi' left right bound skip' flags :
  sound_page page hi -> wf_iptr (iptr bound) ->
  Z.land flags (Z.lor RUM_DATA RUM_META) = Z.land (page_flags (revived skip' page)) (Z.lor RUM_DATA RUM_META) ->
  Z.land flags RUM_INCOMPLETE_SPLIT = Z.land (page_flags (revived skip' page)) RUM_INCOMPLETE_SPLIT ->
  match hi' with None => right = InvalidBlockNumber | Some s => right <> InvalidBlockNumber /\ bound = s end ->
  forall q, page_flags q = flags -> page_rightBound q = bound ->
  sound_page (with_links q left right) hi'.
Proof.
  intros (Hd & Hi & _) Hwf E1 E2 Hhi q Eq1 Eq2. unfold sound_page, RumPageIsIncompleteSplit in *.
  cbn [with_links page_flags page_rightBound page_rightlink]. rewrite Eq1, Eq2, E1, E2.
  rewrite !land_revived by reflexivity. split; [done|]. split; [done|]. split; [done|].
  destruct hi'; [|done]. destruct Hhi. split; congruence.
Qed.

(** The child whose split is finished is in the store, and not the page itself. *)
Definition child_ok (pages : Pages) (blkno : Z) (child : option Z) : Prop :=
  forall b, child = Some b -> b <> blkno /\ is_Some (pages !! b).

Lemma child_not pages blkno child b :
  child_ok pages blkno child -> pages !! b = None \/ b = blkno -> child <> Some b.
Proof.
  intros Hc Hb E. destruct (Hc b E) as [H1 [page H2]]. destruct Hb as [Hb|Hb]; congruence.
Qed.

(** Blocks of the store, and new ones. *)
Lemma present_reset pages child blocks : present (reset pages child) blocks <-> present pages blocks.
Proof. unfold present. by setoid_rewrite reset_present. Qed.

Lemma fresh_notin pages blocks b : present pages blocks -> pages !! b = None -> b ∉ blocks.
Proof.
  unfold present. rewrite Forall_forall. intros Hp Hb Hin. destruct (Hp b Hin) as [page E]. congruence.
Qed.

Lemma frame_same pages child blocks :
  present pages blocks -> Forall (leftlink_only (reset pages child) (reset pages child)) blocks.
Proof.
  intros Hp. apply (present_reset _ child) in Hp. apply (Forall_impl _ _ _ Hp). intros b [page E].
  by apply (leftlink_same _ b page).
Qed.

Lemma frame_insert pages base child blocks b page :
  Forall (leftlink_only (reset pages child) (reset base child)) blocks -> b ∉ blocks ->
  Forall (leftlink_only (reset pages child) (reset (<[b := page]> base) child)) blocks.
Proof.
  rewrite !Forall_forall. intros H Hb c Hc. destruct (H c Hc) as (p & left & E1 & E2).
  exists p, left. rewrite reset_insert by congruence. done.
Qed.

(** A new root over two pages. *)
Lemma root_page flags lblkno rblkno lpage rpage :
  Z.land flags (Z.lor RUM_DATA RUM_META) = RUM_DATA -> Z.land flags RUM_INCOMPLETE_SPLIT = 0 ->
  wf_iptr (iptr (page_rightBound lpage)) -> wf_iptr (iptr (page_rightBound rpage)) ->
  exists root,
    rumDataFillRoot (RumInitPage (Z.land flags (Z.lnot RUM_LEAF))) lblkno rblkno lpage rpage = Some root /\
    inner_page rumstate attnum root
      [mk_pitem lblkno (page_rightBound lpage); mk_pitem rblkno (page_rightBound rpage)] /\
    sound_page root None.
Proof.
  intros Hd Hi Hl Hr.
  set (cs := [mk_pitem lblkno (page_rightBound lpage); mk_pitem rblkno (page_rightBound rpage)]).
  exists (with_items (RumInitPage (Z.land flags (Z.lnot RUM_LEAF))) cs). split; [reflexivity|]. split.
  - split; [|done|done| |done|vm_compute; done|].
    + unfold RumPageIsLeaf. cbn. rewrite <- Z.land_assoc. change (Z.land (Z.lnot RUM_LEAF) RUM_LEAF) with 0.
      by rewrite Z.land_0_r.
    + constructor; [done|]. constructor; [done|]. constructor.
    + unfold separated. cbn. repeat constructor.
  - unfold sound_page, RumPageIsIncompleteSplit. cbn. rewrite <- !Z.land_assoc.
    change (Z.land (Z.lnot RUM_LEAF) (Z.lor RUM_DATA RUM_META)) with (Z.lor RUM_DATA RUM_META).
    change (Z.land (Z.lnot RUM_LEAF) RUM_INCOMPLETE_SPLIT) with RUM_INCOMPLETE_SPLIT. rewrite Hi.
    split; [done|]. split; [done|]. split; [apply min_wf|done].
Qed.

(** The store after the split of the root. *)
Lemma root_store pages child root l r rootp lp rp blocks :
  child_ok pages root child -> pages !! l = None -> pages !! r = None -> l <> root -> r <> root -> r <> l ->
  present pages blocks -> root ∉ blocks -> l ∉ blocks -> r ∉ blocks ->
  let pages' := reset (<[root := rootp]> (<[l := lp]> (<[r := rp]> pages))) child in
  pages' !! root = Some rootp /\ pages' !! l = Some lp /\ pages' !! r = Some rp /\
  Forall (leftlink_only (reset pages child) pages') blocks.
Proof.
  intros Hchild Fl Fr Hl Hr Hrl Hpres Nroot Nl Nr pages'. subst pages'.
  split; [|split; [|split]]; [rewrite reset_ne by (apply (child_not pages root); auto)..|].
  - by rewrite lookup_insert_eq.
  - by rewrite lookup_insert_ne, lookup_insert_eq by done.
  - by rewrite !lookup_insert_ne, lookup_insert_eq by done.
  - do 3 (apply frame_insert; [|done]). by apply frame_same.
Qed.

Lemma split_root fuel pages btree root page off child h left right m cur iA iB bA bB :
  pages !! root = Some page -> tree_block root -> sound_page page None -> child_ok pages root child ->
  dataIsEnoughSpace rumstate split_size btree page = Some false ->
  dataSplitPage rumstate throw skip bulk cycle btree root (RumNewBuffer pages) page off =
    Some (Ok (left, right, with_split btree cur (mk_pitem root m) (RumNewBuffer pages))) ->
  page_split pages child h page left right None None m iA iB bA bB -> NoDup (root :: bA ++ bB) ->
  ends_with root btree cur (iA ++ iB) (place_up fuel pages btree root off [] child).
Proof.
  intros Hp Hv Hs Hchild Hspace Hsplit [Hwf HL HR [FL FR] _ _ CA CB] Hnd.
  unfold place_up, rumPlaceToPage. rewrite Hp, Hspace, Hsplit. cbn [out_bind].
  set (r := RumNewBuffer pages). set (l := RumNewBuffer (<[r := right]> pages)).
  set (rp := with_links right l InvalidBlockNumber). set (lp := with_links left InvalidBlockNumber r).
  pose proof (new_buffer_free pages : pages !! r = None) as Fr. pose proof (new_buffer_valid pages : tree_block r) as Vr. pose proof (proj1 Vr) as Ir.
  pose proof (new_buffer_free (<[r := right]> pages) : _ !! l = None) as Fl.
  pose proof (new_buffer_valid (<[r := right]> pages) : tree_block l) as Vl.
  apply lookup_insert_None in Fl as [Fl Hrl].
  assert (l <> root) as Hl by congruence. assert (r <> root) as Hr by congruence.
  pose proof Hs as (Hd & Hinc & Hb & _). unfold RumPageIsIncompleteSplit in Hinc.
  apply negb_false_iff, Z.eqb_eq in Hinc.
  destruct (root_page (page_flags lp) l r lp rp) as (rootp & -> & Hri & Hrs).
  { cbn. by rewrite FL, land_revived. }
  { cbn. by rewrite FL, land_revived. }
  { cbn. by rewrite HL. }
  { cbn. by rewrite HR. }
  set (pages' := reset _ child). exists pages', (mk_pitem root m), r, (S h). split; [done|].
  assert (present pages (bA ++ bB)) as Hpres.
  { apply (present_reset _ child). apply Forall_app. split; by eapply content_present. }
  pose proof (fresh_notin _ _ _ Hpres Fl) as Nl. pose proof (fresh_notin _ _ _ Hpres Fr) as Nr.
  pose proof Hnd as Hnd'. apply NoDup_cons in Hnd' as [Nroot _].
  destruct (root_store pages child root l r rootp lp rp (bA ++ bB) Hchild Fl Fr Hl Hr Hrl Hpres Nroot Nl Nr)
    as (Eroot & El & Er & [FA FB]%Forall_app).
  exists (root :: (l :: bA) ++ (r :: bB)). split.
  - apply subtree_unfold. exists rootp, ((l :: bA) ++ (r :: bB)). do 5 (split; [done|]).
    exists [mk_pitem l (page_rightBound lp); mk_pitem r (page_rightBound rp)]. split; [done|].
    apply forest_cons. exists iA, iB, (l :: bA), (r :: bB). do 2 (split; [done|]). cbn [child_blkno pitem_item].
    cbn [lp page_rightBound with_links]. rewrite HL. split.
    + apply (half_subtree (reset pages child) pages' h l lp); [done|done| |done|by apply (content_same _ _ left)|done].
      by apply (sound_links page None (Some m) _ _ m skip (page_flags left)); rewrite ?FL.
    + apply (half_subtree (reset pages child) pages' h r rp); [done|done| |done|by apply (content_same _ _ right)|done].
      by apply (sound_links page None None _ _ (page_rightBound page) skip (page_flags right)); rewrite ?FR.
  - assert (root :: (l :: bA) ++ (r :: bB) ≡ₚ l :: r :: root :: bA ++ bB) as -> by solve_Permutation.
    apply NoDup_cons. split; [rewrite !not_elem_of_cons; done|]. apply NoDup_cons. split; [|done].
    rewrite not_elem_of_cons. done.
Qed.

Lemma path_present pages root h stack blkno lo hi L R bs :
  path pages root h stack blkno lo hi L R bs -> present pages bs.
Proof.
  induction 1 as [h|h stack blkno off page l c r lo hi m1 m2 L R il ir bs bl br Hpath IH Hp Hv Hs Hn Hi Hl Hr];
    [constructor|].
  apply Forall_app. split; [done|]. apply Forall_cons. split; [by eexists|].
  apply (lefts_blocks _ _ (subtree_present pages h)) in Hl.
  apply (rights_blocks _ _ (subtree_present pages h)) in Hr. by apply Forall_app.
Qed.

(** Blocks that the reset of the child's flag does not touch. *)
Lemma frame_unreset pages child Q blocks :
  (forall b, child = Some b -> b ∉ blocks) -> Forall (leftlink_only (reset pages child) Q) blocks ->
  Forall (leftlink_only pages Q) blocks.
Proof.
  intros Hc. rewrite !Forall_forall. intros H b Hb. destruct (H b Hb) as (page & left & E1 & E2).
  exists page, left. rewrite reset_ne in E1; [done|]. intros E. by apply (Hc b E).
Qed.

Lemma frame_reset pages Q b blocks :
  b ∉ blocks -> Forall (leftlink_only pages Q) blocks -> Forall (leftlink_only pages (reset Q (Some b))) blocks.
Proof.
  intros Hb. rewrite !Forall_forall. intros H c Hc. destruct (H c Hc) as (page & left & E1 & E2).
  exists page, left. rewrite reset_ne; [done|]. congruence.
Qed.

Lemma frame_relink pages child blkno left blocks :
  present pages blocks ->
  Forall (leftlink_only (reset pages child) (reset (relink pages blkno left) child)) blocks.
Proof. intros H. apply (Forall_impl _ _ _ H). intros b. apply leftlink_relink. Qed.

(** The left half with its flag reset. *)
Lemma left_half_reset q left right page :
  page_flags q = page_flags (revived skip page) ->
  let q1 := with_flags (with_links q left right) (Z.lor (page_flags q) RUM_INCOMPLETE_SPLIT) in
  let q2 := with_flags q1 (Z.land (page_flags q1) (Z.lnot RUM_INCOMPLETE_SPLIT)) in
  same_content q q2 /\ q2 = with_links (with_flags q (page_flags q2)) left right /\
  Z.land (page_flags q2) (Z.lor RUM_DATA RUM_META) = Z.land (page_flags (revived skip page)) (Z.lor RUM_DATA RUM_META) /\
  Z.land (page_flags q2) RUM_INCOMPLETE_SPLIT = 0.
Proof.
  intros E q1 q2. split; [|split; [done|split]].
  - split; [|done]. unfold RumPageIsLeaf. cbn [q2 q1 with_flags page_flags]. by rewrite land_reset.
  - cbn [q2 q1 with_flags page_flags]. rewrite land_reset by reflexivity. by rewrite E.
  - cbn [q2 q1 with_flags page_flags]. apply land_reset_incomplete.
Qed.

(** The store after the split of another page, before and after the reset of its
    own flag. *)
Lemma level_store pages child blkno r nb lp rp bs bt :
  child_ok pages blkno child -> pages !! r = None -> is_Some (pages !! blkno) -> present pages (bs ++ bt) ->
  blkno ∉ bs ++ bt ->
  let pages' := reset (<[blkno := lp]> (<[r := rp]> (relink pages nb r))) child in
  reset pages' (Some blkno) !! blkno = Some (with_flags lp (Z.land (page_flags lp) (Z.lnot RUM_INCOMPLETE_SPLIT))) /\
  reset pages' (Some blkno) !! r = Some rp /\
  Forall (leftlink_only (reset pages child) pages') bs /\
  Forall (leftlink_only (reset pages child) (reset pages' (Some blkno))) bt.
Proof.
  intros Hchild Fr [page Hp] Hpres Nb pages'. assert (r <> blkno) as Hr by congruence.
  pose proof (fresh_notin _ _ _ Hpres Fr) as Nr.
  assert (Forall (leftlink_only (reset pages child) pages') (bs ++ bt)) as [Fbs Fbt]%Forall_app.
  { subst pages'. do 2 (apply frame_insert; [|done]). by apply frame_relink. }
  split; [|split; [|split; [done|]]].
  - cbn. rewrite lookup_alter_eq. subst pages'. rewrite reset_ne by (apply (child_not pages blkno); eauto).
    by rewrite lookup_insert_eq.
  - rewrite reset_ne by congruence. subst pages'. rewrite reset_ne by (apply (child_not pages blkno); eauto).
    by rewrite lookup_insert_ne, lookup_insert_eq by done.
  - apply frame_reset; [|done]. intros Hin. apply Nb, elem_of_app. by right.
Qed.

Lemma split_level fuel pages btree root h parent rest blkno page off child left right m cur
  lo hi L R bs iA iB bA bB :
  finishes (parent :: rest) -> path pages root h (parent :: rest) blkno lo hi L R bs ->
  pages !! blkno = Some page -> tree_block blkno -> sound_page page hi -> child_ok pages blkno child ->
  (forall b, child = Some b -> b ∉ bs) ->
  dataIsEnoughSpace rumstate split_size btree page = Some false ->
  dataSplitPage rumstate throw skip bulk cycle btree blkno (RumNewBuffer pages) page off =
    Some (Ok (left, right, with_split btree cur (mk_pitem blkno m) (RumNewBuffer pages))) ->
  page_split pages child h page left right lo hi m iA iB bA bB -> NoDup (bs ++ blkno :: bA ++ bB) ->
  (length (parent :: rest) <= fuel)%nat ->
  ends_with root btree cur (L ++ (iA ++ iB) ++ R) (place_up fuel pages btree blkno off (parent :: rest) child).
Proof.
  intros Hfin Hpath Hp Hv Hs Hchild Hcbs Hspace Hsplit [Hwf HL HR [FL FR] Hlo Hhi CA CB] Hnd Hfuel.
  unfold place_up, rumPlaceToPage. rewrite Hp, Hspace, Hsplit. cbn [out_bind].
  set (r := RumNewBuffer pages). set (rp := with_links right blkno (page_rightlink page)).
  set (lp := with_flags _ _). set (base := relink pages _ r). set (pages' := reset _ child).
  pose proof (new_buffer_free pages : pages !! r = None) as Fr. pose proof (new_buffer_valid pages : tree_block r) as Vr. pose proof (proj1 Vr) as Ir.
  assert (r <> blkno) as Hr by congruence.
  destruct (left_half_reset left (page_leftlink page) r page FL) as (Hsame & Elq & Hdata & Hinc). fold lp in Hsame, Elq, Hdata, Hinc.
  set (lq := with_flags lp (Z.land (page_flags lp) (Z.lnot RUM_INCOMPLETE_SPLIT))) in *.
  assert (present pages (bs ++ bA ++ bB)) as Hpres.
  { apply Forall_app. split; [by eapply path_present|]. apply (present_reset _ child). apply Forall_app.
    split; by eapply content_present. }
  pose proof (fresh_notin _ _ _ Hpres Fr) as Nr.
  assert (blkno ∉ bs ++ bA ++ bB) as Nb.
  { assert (bs ++ blkno :: bA ++ bB ≡ₚ blkno :: bs ++ bA ++ bB) as Eperm by solve_Permutation.
    rewrite Eperm in Hnd. by apply NoDup_cons in Hnd as [? _]. }
  destruct (level_store pages child blkno r (page_rightlink page) lp rp bs (bA ++ bB) Hchild Fr)
    as (El & Er & Fbs & [FA FB]%Forall_app); [by eexists|done|done|]. fold base pages' lq in El, Er, Fbs, FA, FB.
  assert (halves pages' root h (parent :: rest) blkno r m iA iB (L ++ (iA ++ iB) ++ R)) as Hhalves.
  { split; [done|]. exists lo, hi, L, R, bs, (blkno :: bA), (r :: bB). split; [|split; [|split; [|split]]].
    - apply (path_frame pages); [done|]. by apply (frame_unreset pages child).
    - apply (half_subtree (reset pages child) _ h blkno lq); [done|done| |done|by apply (content_same _ _ left)|done].
      rewrite Elq. apply (sound_links page hi (Some m) _ _ m skip (page_flags lq)); try done.
      rewrite Hinc, land_revived by reflexivity. destruct Hs as (_ & Hi & _). unfold RumPageIsIncompleteSplit in Hi.
      by apply negb_false_iff, Z.eqb_eq in Hi.
    - apply (half_subtree (reset pages child) _ h r rp); [done|done| |done|by apply (content_same _ _ right)|done].
      apply (sound_links page hi hi _ _ (page_rightBound page) skip (page_flags right)); rewrite ?FR; try done;
        apply Hs.
    - assert (bs ++ (blkno :: bA) ++ r :: bB ≡ₚ r :: bs ++ blkno :: bA ++ bB) as -> by solve_Permutation.
      apply NoDup_cons. split; [|done]. rewrite elem_of_app, elem_of_cons.
      intros [Hin|[Hin|Hin]]; [|done|]; apply Nr, elem_of_app; [by left|by right].
    - done. }
  destruct (Hfin fuel pages' root h blkno r m iA iB _ (with_split btree cur (mk_pitem blkno m) r) Hhalves)
    as (pages2 & p & rb & h2 & E & Ht); [done|done|done|done|]. by exists pages2, p, rb, h2.
Qed.

Lemma place_split fuel pages btree root h stack blkno page off child left right m cur
  lo hi L R bs iA iB bA bB :
  finishes stack -> path pages root h stack blkno lo hi L R bs ->
  pages !! blkno = Some page -> tree_block blkno -> sound_page page hi -> child_ok pages blkno child ->
  (forall b, child = Some b -> b ∉ bs) ->
  dataIsEnoughSpace rumstate split_size btree page = Some false ->
  dataSplitPage rumstate throw skip bulk cycle btree blkno (RumNewBuffer pages) page off =
    Some (Ok (left, right, with_split btree cur (mk_pitem blkno m) (RumNewBuffer pages))) ->
  page_split pages child h page left right lo hi m iA iB bA bB -> NoDup (bs ++ blkno :: bA ++ bB) ->
  (length stack <= fuel)%nat ->
  ends_with root btree cur (L ++ (iA ++ iB) ++ R) (place_up fuel pages btree blkno off stack child).
Proof.
  intros Hfin Hpath. destruct stack as [|parent rest].
  - inversion Hpath; subst. intros. rewrite app_nil_r. cbn [app] in *. by eapply split_root.
  - intros. by eapply split_level.
Qed.

(** The children of the parent, with both halves. *)
Lemma halves_forest pages h l c r b rb m lo hi m1 m2 il ir bl br iA iB bA bB :
  lefts (subtree pages h) l lo m1 il bl -> rights (subtree pages h) (pitem_item c) r m2 hi ir br ->
  subtree (reset pages (Some b)) h b m1 (Some m) iA bA ->
  subtree (reset pages (Some b)) h rb (Some m) m2 iB bB -> b ∉ bl ++ br ->
  forest (subtree (reset pages (Some b)) h) (l ++ mk_pitem b m :: mk_pitem rb (pitem_item c) :: r) lo hi
    (il ++ (iA ++ iB) ++ ir) (bl ++ (bA ++ bB) ++ br).
Proof.
  intros Hl Hr HA HB Hb.
  assert (forall b' lo hi i bs, subtree pages h b' lo hi i bs -> Forall (fun x => x <> b) bs ->
    subtree (reset pages (Some b)) h b' lo hi i bs) as Hmono.
  { intros b' lo' hi' i bs Ht Hne. apply (subtree_frame pages); [done|].
    pose proof (subtree_present _ _ _ _ _ _ _ Ht) as Hpres. clear -Hpres Hne. apply Forall_forall. intros x Hx.
    rewrite Forall_forall in Hne. unfold present in Hpres. rewrite Forall_forall in Hpres. destruct (Hpres x Hx) as [q Hq].
    exists q, (page_leftlink q). rewrite reset_ne by (intros [= E]; by apply (Hne x)). rewrite Hq. by destruct q. }
  assert (Forall (fun x => x <> b) (bl ++ br)) as Hne.
  { apply Forall_forall. intros x Hx E. by subst x. }
  apply Forall_app in Hne as [Nl Nr].
  change (l ++ mk_pitem b m :: mk_pitem rb (pitem_item c) :: r)
    with (l ++ ([mk_pitem b m] ++ [mk_pitem rb (pitem_item c)]) ++ r).
  apply (forest_plug _ l [mk_pitem b m] (mk_pitem rb (pitem_item c)) r lo hi m1 m2).
  - by apply (lefts_mono _ _ _ Hmono).
  - apply forest_cons. by exists iA, iB, bA, bB.
  - by apply (rights_mono _ _ _ Hmono).
Qed.

(** The pointer to the split child is where it was. *)
Lemma child_position page l c r b off :
  inner_page rumstate attnum page (l ++ c :: r) -> child_blkno c = b -> NoDup (map child_blkno (l ++ c :: r)) ->
  dataFindChildPtr page b off = Z.of_nat (length l) + 1.
Proof.
  intros Hi Hc Hnd. pose proof (find_pointer rumstate attnum page _ b off Hi) as Hptr. unfold pointer_ok in Hptr.
  replace (existsb (points_to b) (l ++ c :: r)) with true in Hptr.
  2:{ symmetry. apply existsb_exists. exists c. split; [apply in_or_app; right; by left|]. by apply Z.eqb_eq. }
  set (i := dataFindChildPtr page b off) in *. destruct Hptr as [Hrange Hlook].
  assert (map child_blkno (l ++ c :: r) !! Z.to_nat (i - 1) = Some b) as H1.
  { change (map child_blkno (l ++ c :: r)) with (child_blkno <$> (l ++ c :: r)). by rewrite list_lookup_fmap. }
  assert (map child_blkno (l ++ c :: r) !! length l = Some b) as H2.
  { change (map child_blkno (l ++ c :: r)) with (child_blkno <$> (l ++ c :: r)).
    rewrite list_lookup_fmap, list_lookup_middle by done. cbn. by rewrite Hc. }
  pose proof (NoDup_lookup _ _ _ _ Hnd H1 H2). lia.
Qed.

(** The separators around the split child. *)
Lemma split_child_split pages h page btree l c r b rb m lo hi m1 m2 il ir bl br :
  inner_page rumstate attnum page (l ++ c :: r) ->
  lefts (subtree pages h) l lo m1 il bl -> rights (subtree pages h) (pitem_item c) r m2 hi ir br ->
  nonempty m1 (Some m) -> nonempty (Some m) m2 -> wf_iptr (iptr m) -> rb <> InvalidBlockNumber ->
  pitem btree = mk_pitem b m -> rightblkno btree = rb ->
  child_split rumstate attnum page btree l c r.
Proof.
  intros Hi Hl Hr N1 N2 Hwf Hrb Ep Er. split; [done|by rewrite Er|by rewrite Ep| |]; rewrite Ep; cbn [pitem_item].
  - apply lefts_end in Hl. destruct l as [|z l _] using rev_ind; [constructor|]. rewrite last_snoc in Hl. subst m1.
    cbn in N1. pose proof (ip_separated _ _ _ _ Hi) as Hsep. rewrite <- app_assoc in Hsep.
    unfold separated in Hsep. rewrite !map_app in Hsep. cbn [map app] in Hsep.
    rewrite removelast_app_cons in Hsep.
    assert (removelast (pitem_item z :: pitem_item c :: map pitem_item r) =
            pitem_item z :: removelast (pitem_item c :: map pitem_item r)) as Erl by done.
    rewrite Erl in Hsep. apply ordered_app in Hsep as (_ & _ & Hsep).
    apply Forall_app. split; [|by constructor]. apply Forall_forall. intros d Hd.
    apply (cmp_lt_trans order _ (pitem_item z)); [|done]. apply Hsep; [|by left].
    apply in_map. by apply list_elem_of_In.
  - apply rights_end in Hr as [[-> _]|[_ ->]]; [by left|by right].
Qed.

(** Splits before the page is full are not configured, or the index is not being
    built. *)
Hypothesis Hbuild : isBuild rumstate = false \/ split_size <= 1.

Lemma inner_full page btree children :
  inner_page rumstate attnum page children -> dataIsEnoughSpace rumstate split_size btree page = Some false ->
  isBuild rumstate && RumPageRightMost page = false \/ RumDataPageGetFreeSpace page < SIZEOF_RumPostingItem.
Proof.
  intros Hi Hspace. destruct Hbuild as [->|Hs]; [by left|right]. unfold dataIsEnoughSpace in Hspace.
  rewrite (ip_inner _ _ _ _ Hi) in Hspace. replace (1 <? split_size) with false in Hspace by lia. cbn [andb] in Hspace.
  injection Hspace as Hspace. by apply Z.leb_gt.
Qed.

Lemma sound_kept page page' hi :
  sound_page page hi -> page_flags page' = page_flags (revived skip page) ->
  page_rightlink page' = page_rightlink page -> page_rightBound page' = page_rightBound page ->
  sound_page page' hi.
Proof.
  unfold sound_page, RumPageIsIncompleteSplit. intros (H1 & H2 & H3 & H4) -> -> ->.
  by rewrite !land_revived.
Qed.

(** A page with space. *)
Lemma page_placed fuel pages btree root h stack blkno page page' off child cur p rb lo hi L R bs items bt :
  path pages root h stack blkno lo hi L R bs -> pages !! blkno = Some page -> tree_block blkno ->
  sound_page page hi -> nonempty lo hi -> child_ok pages blkno child -> (forall b, child = Some b -> b ∉ bs) ->
  dataIsEnoughSpace rumstate split_size btree page = Some true ->
  dataPlaceToPage rumstate throw skip btree page off = Some (Ok (page', with_split btree cur p rb)) ->
  page_flags page' = page_flags (revived skip page) -> page_rightlink page' = page_rightlink page ->
  page_rightBound page' = page_rightBound page ->
  content (T_of (reset pages child) h) (is_leaf_level h) page' lo hi items bt -> NoDup (bs ++ blkno :: bt) ->
  ends_with root btree cur (L ++ items ++ R) (place_up fuel pages btree blkno off stack child).
Proof.
  intros Hpath Hp Hv Hs Hn Hchild Hcbs Hspace Hplace E1 E2 E3 Hc Hnd.
  unfold place_up, rumPlaceToPage. rewrite Hp, Hspace, Hplace. cbn [out_bind].
  set (pages' := reset _ child).
  assert (present pages (bs ++ bt)) as Hpres.
  { apply Forall_app. split; [by eapply path_present|]. apply (present_reset _ child). by eapply content_present. }
  assert (blkno ∉ bs ++ bt) as Nb.
  { assert (bs ++ blkno :: bt ≡ₚ blkno :: bs ++ bt) as Eperm by solve_Permutation.
    rewrite Eperm in Hnd. by apply NoDup_cons in Hnd as [? _]. }
  assert (Forall (leftlink_only (reset pages child) pages') (bs ++ bt)) as Hframe.
  { subst pages'. apply frame_insert; [|done]. by apply frame_same. }
  apply Forall_app in Hframe as [Fbs Fbt].
  destruct (path_plug pages' root h stack blkno lo hi L R bs items (blkno :: bt)) as (h' & blocks & Ht & Hblocks).
  - apply (path_frame pages); [done|]. by apply (frame_unreset pages child).
  - apply (half_subtree (reset pages child) _ h blkno page'); [|done| |done|done|done].
    + subst pages'. rewrite reset_ne by (apply (child_not pages blkno); auto). by rewrite lookup_insert_eq.
    + by apply (sound_kept page).
  - exists pages', p, rb, h'. split; [done|]. exists blocks. split; [done|]. by rewrite Hblocks.
Qed.

Lemma nodup_halves (f : RumPostingItem -> Z) l c p q r :
  f p = f c -> NoDup (map f (l ++ p :: q :: r)) -> NoDup (map f (l ++ c :: r)).
Proof.
  intros E. rewrite !map_app. cbn [map]. rewrite E. intros H.
  assert (map f l ++ f c :: f q :: map f r ≡ₚ f q :: map f l ++ f c :: map f r) as Eperm by solve_Permutation.
  rewrite Eperm in H. by apply NoDup_cons in H as [_ ?].
Qed.

Lemma finishes_all stack : finishes stack.
Proof.
  induction stack as [|parent rest IH]; intros fuel pages root h blkno rblkno m iA iB items btree Hh Hne Ep Er Hf; [done|].
  destruct Hh as [Hwf (lo & hi & L & R & bs & bA & bB & Hpath & HA & HB & Hnd & ->)].
  destruct fuel as [|fuel]; [cbn in Hf; lia|]. cbn in Hf.
  inversion Hpath as [|? ? pblk off page l c r lo0 hi0 m1 m2 L0 R0 il ir bs0 bl br Hpath0 Hp Hv Hs Hn Hi Hl Hr]; subst.
  set (b := child_blkno c) in *. set (rb := rightblkno btree) in *.
  destruct (subtree_head _ _ _ _ _ _ _ HA) as [restA EA].
  assert ((b ∉ bs0) /\ (b ∉ bl ++ br) /\ b <> pblk) as (Nbs & Nlr & Npb).
  { rewrite EA in Hnd. apply NoDup_app in Hnd as (_ & Hnd & _). repeat split; [| |intros E]; try intros Hin;
      apply (Hnd b); rewrite ?elem_of_app, ?elem_of_cons; rewrite ?elem_of_app in *; tauto. }
  pose proof (halves_forest pages h l c r b rb m lo0 hi0 lo hi il ir bl br iA iB bA bB Hl Hr HA HB Nlr) as Hforest.
  assert (NoDup (bl ++ (bA ++ bB) ++ br) /\ NoDup (bs0 ++ pblk :: bl ++ (bA ++ bB) ++ br)) as [Nd1 Nd2].
  { assert ((bs0 ++ pblk :: bl ++ br) ++ bA ++ bB ≡ₚ bs0 ++ pblk :: bl ++ (bA ++ bB) ++ br) as Eperm by solve_Permutation.
    rewrite Eperm in Hnd. split; [|done]. apply NoDup_app in Hnd as (_ & _ & Hnd). by apply NoDup_cons in Hnd as [_ ?]. }
  destruct (forest_heads _ (subtree_head _ h) _ _ _ _ _ Hforest Nd1) as [Nheads _].
  apply (nodup_halves child_blkno l c) in Nheads; [|done].
  pose proof (subtree_range _ _ _ _ _ _ _ HA) as (N1 & _). pose proof (subtree_range _ _ _ _ _ _ _ HB) as (N2 & _).
  assert (rb <> InvalidBlockNumber) as Vrb by (by apply subtree_unfold in HB as (? & ? & _ & [? _] & _)).
  pose proof (split_child_split pages h page btree l c r b rb m lo0 hi0 lo hi il ir bl br Hi Hl Hr N1 N2 Hwf Vrb Ep eq_refl) as Hcs.
  assert (child_ok pages pblk (Some b)) as Hchild.
  { intros x [= <-]. split; [done|]. apply (reset_present pages (Some b)). pose proof (subtree_present _ _ _ _ _ _ _ HA) as Pr.
    rewrite EA in Pr. by apply Forall_cons in Pr as [? _]. }
  cbn [rumFinishSplit stack_blkno stack_off find_parent]. rewrite Hp. pose proof Hs as (_ & Hinc & _). rewrite Hinc, andb_false_r.
  rewrite (child_position page l c r b off Hi eq_refl Nheads).
  replace (Z.of_nat (length l) + 1 =? InvalidOffsetNumber) with false
    by (symmetry; apply Z.eqb_neq; unfold InvalidOffsetNumber; lia).
  cbn [out_bind]. fold (place_up fuel pages btree pblk (Z.of_nat (length l) + 1) rest (Some b)).
  replace ((L0 ++ il) ++ (iA ++ iB) ++ ir ++ R0) with (L0 ++ (il ++ (iA ++ iB) ++ ir) ++ R0) by (by rewrite <- !app_assoc).
  destruct (dataIsEnoughSpace rumstate split_size btree page) as [[|]|] eqn:Hspace.
  - destruct (place_inner rumstate throw attnum skip split_size page btree l c r Hcs Hspace)
      as (page' & Hplace & Hi' & E1 & E2 & E3). unfold right_half in Hi'. rewrite Ep in Hi'.
    eapply (page_placed fuel pages btree root (S h) rest pblk page page'); try done; [intros x [= <-]; done|].
    eexists. split; [exact Hi'|exact Hforest].
  - destruct (split_inner rumstate throw attnum skip bulk cycle page btree l c r pblk (RumNewBuffer pages) Hcs
                (inner_full page btree _ Hi Hspace))
      as (left & right & A & a & B & Hsplit & Ecut & HneB & HL & HR & F1 & F2 & B1 & B2).
    unfold right_half in Ecut. rewrite Ep in Ecut. fold rb in Ecut. rewrite Ecut in Hforest.
    apply forest_app in Hforest as (i1 & i2 & b1 & b2 & Ei & Eb & G1 & G2); [|done].
    rewrite Ei. rewrite Eb in Nd2.
    pose proof (forest_range _ _ _ _ _ _ (subtree_range _ h) G1) as (R1 & _).
    pose proof (forest_range _ _ _ _ _ _ (subtree_range _ h) G2) as (R2 & _).
    eapply (place_split fuel pages btree root (S h) rest pblk page _ (Some b) left right (pitem_item a)); try done;
      [intros x [= <-]; done| |lia].
    split; try done; [|by eexists|by eexists].
    pose proof (ip_wf _ _ _ _ HL) as Hw. apply Forall_app in Hw as [_ Hw]. by apply Forall_cons in Hw as [? _].
  - unfold dataIsEnoughSpace in Hspace. rewrite (ip_inner _ _ _ _ Hi) in Hspace. by destruct (_ && _).
Qed.

(** ** Insertion of an item *)

(** The place of a new item in the list of a tree. *)
Lemma merge_sides y L it R lo hi :
  good y -> Forall good (L ++ it ++ R) -> left_of lo L -> right_of hi R -> above lo y -> below hi y ->
  merge [y] (L ++ it ++ R) = L ++ merge [y] it ++ R.
Proof.
  intros Hy Hg HL HR Hlo Hhi. apply Forall_app in Hg as [GL Hg]. apply Forall_app in Hg as [Git GR].
  assert (Forall (fun x => order x y = Lt) L) as HLy.
  { destruct lo as [s|]; cbn in HL; [|by subst L]. apply (Forall_impl _ _ _ HL). intros x Hx. by apply (below_above s). }
  assert (Forall good [y]) as Gy by (by constructor).
  rewrite (merge_prefix rumstate attnum L (it ++ R) [] y) by done. f_equal.
  assert (merge [y] R = y :: R) as ER.
  { destruct R as [|x R]; [by rewrite merge_nil_r|]. apply Forall_cons in GR as [Gx _].
    rewrite (merge_new_first rumstate attnum); [done|done|done|]. destruct hi as [s|]; cbn in HR; [|done].
    apply Forall_cons in HR as [Hx _]. apply (cmp_gt_lt order). by apply (below_above s). }
  assert (forall b, merge [] b = b) as Enil by (by intros []). clear -Git Gy ER Hy OA Enil. induction it as [|x it IH]; [by rewrite merge_nil_r|].
  apply Forall_cons in Git as [Gx Git]. cbn [app]. destruct (order x y) eqn:E.
  - rewrite !merge_same by done. by rewrite !Enil.
  - rewrite !merge_old_first by done. cbn [app]. by rewrite IH.
  - rewrite !merge_new_first by done. by rewrite !Enil.
Qed.

Lemma order_norm_r x a b : norm a = norm b -> order x a = order x b.
Proof. intros E. by rewrite <- (item_order_norm rumstate attnum x a), E, item_order_norm. Qed.

Lemma order_norm_l x a b : norm a = norm b -> order a x = order b x.
Proof. intros E. by rewrite <- (item_order_norm rumstate attnum a x), E, item_order_norm. Qed.

Lemma merge_forall (P : RumItem -> Prop) y it :
  good y -> Forall good it -> ordered rumstate attnum it -> P y -> Forall P it -> Forall P (merge [y] it).
Proof.
  intros Hy Hg Ho HP HF. apply List.Forall_forall. intros x Hx.
  assert (pointers_ok [y] /\ pointers_ok it) as [P1 P2].
  { split; apply List.Forall_forall; intros z Hz.
    - destruct Hz as [<-|[]]. apply Hy.
    - rewrite List.Forall_forall in Hg. by apply Hg. }
  apply (merge_in rumstate attnum [y] it x) in Hx; [|repeat constructor|done|done|done].
  rewrite List.Forall_forall in HF. destruct Hx as [Hx|[Hx _]]; [by apply HF|]. by destruct Hx as [<-|[]].
Qed.

(** The leaf for an item, as a page to insert into. *)
Lemma leaf_inserting pages blkno lo hi it bt btree y :
  subtree pages 0 blkno lo hi it bt -> good y -> entryAttnum btree = attnum ->
  drop (curitem btree) (btree_items btree) = [y] ->
  exists page, pages !! blkno = Some page /\ tree_block blkno /\ sound_page page hi /\
    nonempty lo hi /\ bt = [blkno] /\ Forall (above lo) it /\ Forall (below hi) it /\
    inserting rumstate attnum page it btree y [].
Proof.
  intros Ht Hy Ha Hn. apply subtree_unfold in Ht as (page & rest & Hp & Hv & Hs & Hne & -> & -> & Hl & HA & HB).
  exists page. do 4 (split; [done|]). do 3 (split; [done|]). pose proof Hs as (_ & _ & Hwf & Hhi).
  split; try done; [|by constructor|repeat constructor]. unfold within, RumPageRightMost. destruct hi as [s|].
  - right. destruct Hhi as [_ ->]. done.
  - left. rewrite Hhi. apply Z.eqb_refl.
Qed.

Lemma place_leaf_one pages btree root stack blkno page it y off lo hi L R bs fuel :
  path pages root 0 stack blkno lo hi L R bs -> pages !! blkno = Some page -> tree_block blkno ->
  sound_page page hi -> nonempty lo hi -> inserting rumstate attnum page it btree y [] ->
  Forall (above lo) it -> Forall (below hi) it -> above lo y -> below hi y -> NoDup (bs ++ [blkno]) ->
  dataIsEnoughSpace rumstate split_size btree page = Some true ->
  ends_with root btree (S (curitem btree)) (L ++ merge [y] it ++ R) (place_up fuel pages btree blkno off stack None).
Proof.
  intros Hpath Hp Hv Hs Hne I HA HB Hlo Hhi Hnd Hspace. pose proof I as [Hl _ Hwf _ _ Hgn _].
  apply Forall_cons in Hgn as [Hy _]. destruct Hl as [_ Hg Ho _ _ _ _ _ _].
  destruct (place_leaf rumstate throw attnum skip page it btree y [] off I) as (t & n2 & page' & btree' & Et & Hplace & Hins & Hprog).
  assert (t = [y]) as ->.
  { destruct t as [|y' t]; [exfalso|injection Et as <- Et; by destruct t].
    pose proof (space_left rumstate attnum page it btree y [] split_size I) as Hsp. rewrite Hspace in Hsp.
    injection Hsp as Hsp. symmetry in Hsp. apply Z.leb_le in Hsp. destruct (Hprog eq_refl) as [Hlt|[Hr Hlt]].
    - destruct I as [Hl _ _ _ _ _ _]. rewrite (lp_free _ _ _ _ Hl) in Hlt. change RumDataPageSize with 7368 in Hlt. lia.
    - destruct Hs as (_ & _ & _ & Hhi'). destruct hi as [s|].
      + destruct Hhi' as [_ <-]. cbn in Hhi. by apply (cmp_gt_lt order) in Hlt.
      + unfold RumPageRightMost in Hr. by rewrite Hhi', Z.eqb_refl in Hr. }
  destruct Hins as (Hleaf' & _ & E1 & E2 & _ & E4 & ->). cbn [length curitem with_split] in Hplace.
  rewrite Nat.add_1_r in Hplace. cbn [pitem rightblkno with_split] in Hplace.
  apply (page_placed fuel pages btree root 0 stack blkno page page' off None (S (curitem btree)) (pitem btree) InvalidBlockNumber lo hi L R bs (merge [y] it) []
           Hpath Hp Hv Hs Hne); try done.
  - by rewrite E2; destruct skip.
  - by rewrite E4; destruct skip.
  - split; [done|]. split; [done|]. split; by apply merge_forall.
Qed.

Lemma split_leaf_one pages btree root stack blkno page it y off lo hi L R bs fuel :
  path pages root 0 stack blkno lo hi L R bs -> pages !! blkno = Some page -> tree_block blkno ->
  sound_page page hi -> inserting rumstate attnum page it btree y [] -> fullScan btree = false ->
  Forall (above lo) it -> Forall (below hi) it -> above lo y -> below hi y -> NoDup (bs ++ [blkno]) ->
  dataIsEnoughSpace rumstate split_size btree page = Some false ->
  dataLocateLeafItem rumstate throw btree page = Some (Ok (false, off)) -> (length stack <= fuel)%nat ->
  ends_with root btree (S (curitem btree)) (L ++ merge [y] it ++ R) (place_up fuel pages btree blkno off stack None).
Proof.
  intros Hpath Hp Hv Hs I Hf HA HB Hlo Hhi Hnd Hspace Hloc Hfuel. pose proof I as [Hl _ Hwf _ _ Hgn _].
  apply Forall_cons in Hgn as [Hy _]. destruct Hl as [_ Hg Ho _ _ _ _ _ _].
  destruct (split_leaf rumstate throw attnum skip bulk cycle split_size page it btree y [] off blkno (RumNewBuffer pages) I Hf Hspace Hloc)
    as (t & n2 & left & right & btree' & Et & Htne & Hsplit & A & m & B & bnd & Em & HB' & HL & HR & F1 & F2 & En & B1 & B2 & ->).
  destruct t as [|y' t]; [done|]. injection Et as <- Et. assert (t = []) as -> by (by destruct t). clear Et Htne.
  cbn [length] in Hsplit. rewrite Nat.add_1_r in Hsplit. rewrite Em.
  assert (Forall (above lo) ((A ++ [m]) ++ B) /\ Forall (below hi) ((A ++ [m]) ++ B)) as [GA GB].
  { rewrite <- Em. split; by apply merge_forall. }
  apply Forall_app in GA as [GA1 GA2]. apply Forall_app in GB as [GB1 GB2].
  assert (ordered rumstate attnum ((A ++ [m]) ++ B)) as HoQ.
  { rewrite <- Em. apply (merge_ordered rumstate attnum); [repeat constructor|done| |].
    - apply List.Forall_forall. intros z [<-|[]]. apply Hy.
    - apply (Forall_impl _ _ _ Hg). intros z Hz. apply Hz. }
  apply ordered_app in HoQ as (HoA & _ & HoAB). apply ordered_app in HoA as (_ & _ & HoAm).
  pose proof (lp_good _ _ _ _ HL) as GL. apply Forall_app in GL as [_ GL]. apply Forall_cons in GL as [Gm _].
  assert (Forall (above (Some bnd)) B) as HaB.
  { apply List.Forall_forall. intros b Hb. cbn. rewrite (order_norm_l b _ _ En). apply HoAB; [|done]. apply in_or_app. right. by left. }
  assert (above lo m) as Hlom by (apply Forall_app in GA1 as [_ GA1]; by apply Forall_cons in GA1 as [? _]).
  assert (Forall (below (Some bnd)) (A ++ [m])) as HbA.
  { apply List.Forall_forall. intros x Hx. cbn. rewrite (order_norm_r x _ _ En).
    apply in_app_or in Hx as [Hx|[<-|[]]]; [by rewrite (HoAm x m Hx (or_introl eq_refl))|by rewrite (cmp_refl order)]. }
  eapply (place_split fuel pages btree root 0 stack blkno page off None left right bnd (S (curitem btree))
            lo hi L R bs (A ++ [m]) B [] [] (finishes_all stack) Hpath Hp Hv Hs); try done.
  split; try done.
  - rewrite (norm_same_iptr _ _ En). apply Gm.
  - destruct lo as [s|]; [|done]. cbn in *. by rewrite (order_norm_r s _ _ En).
  - destruct B as [|b B]; [done|]. apply Forall_cons in HaB as [Hb _]. apply Forall_cons in GB2 as [Hb2 _].
    destruct hi as [s|]; [|done]. cbn in *. destruct (order b s) eqn:E; [|by apply (cmp_lt_trans order _ b)|done].
    by rewrite <- (cmp_eq_r order bnd _ _ E).
Qed.

Lemma merge_present y it :
  good y -> Forall good it -> ordered rumstate attnum it -> existsb (same rumstate attnum y) it = true ->
  merge [y] it = it.
Proof.
  intros Hy Hg Ho. induction it as [|x it IH]; [done|]. apply Forall_cons in Hg as [Hx Hg].
  unfold ordered in Ho. apply StronglySorted_inv in Ho as [Ho Hmin]. cbn [existsb]. intros Hex. destruct (order x y) eqn:E.
  - rewrite merge_same by done. by destruct it.
  - rewrite (merge_old_first rumstate attnum) by (done || by constructor). f_equal. apply IH; [done|done|].
    apply orb_true_iff in Hex as [Hex|Hex]; [|done]. apply bool_decide_eq_true in Hex.
    by rewrite (cmp_antisym order), E in Hex.
  - exfalso. apply orb_true_iff in Hex as [Hex|Hex].
    + apply bool_decide_eq_true in Hex. by rewrite (cmp_antisym order), E in Hex.
    + apply existsb_exists in Hex as (z & Hz & Ez). apply bool_decide_eq_true in Ez.
      rewrite List.Forall_forall in Hmin. specialize (Hmin z Hz). unfold before in Hmin.
      rewrite <- (cmp_eq_r order x _ _ Ez), E in Hmin. done.
Qed.

Lemma existsb_sides y L it R lo hi :
  left_of lo L -> right_of hi R -> above lo y -> below hi y ->
  existsb (same rumstate attnum y) (L ++ it ++ R) = existsb (same rumstate attnum y) it.
Proof.
  intros HL HR Hlo Hhi. rewrite !existsb_app.
  replace (existsb _ L) with false; [replace (existsb _ R) with false; [by rewrite orb_false_r|]|].
  - symmetry. destruct hi as [s|]; [|by rewrite HR]. apply not_true_iff_false. intros Hex.
    apply existsb_exists in Hex as (x & Hx & Ex). apply bool_decide_eq_true in Ex. cbn [right_of] in HR.
    rewrite List.Forall_forall in HR. by rewrite (below_above s y x Hhi (HR x Hx)) in Ex.
  - symmetry. destruct lo as [s|]; [|by rewrite HL]. apply not_true_iff_false. intros Hex.
    apply existsb_exists in Hex as (x & Hx & Ex). apply bool_decide_eq_true in Ex. cbn [left_of] in HL.
    rewrite List.Forall_forall in HL. pose proof (below_above s x y (HL x Hx) Hlo) as E.
    by rewrite (cmp_antisym order), E in Ex.
Qed.

(** The leaf keeps its items. *)
Lemma leaf_kept pages root stack blkno page page' it lo hi L R bs :
  path pages root 0 stack blkno lo hi L R bs -> NoDup (bs ++ [blkno]) -> tree_block blkno ->
  nonempty lo hi -> sound_page page' hi -> leaf_page rumstate attnum page' it ->
  Forall (above lo) it -> Forall (below hi) it -> pages !! blkno = Some page ->
  exists h, tree (<[blkno := page']> pages) root h (L ++ it ++ R).
Proof.
  intros Hpath Hnd Hv Hn Hs Hl HA HB Hp.
  destruct (path_plug (<[blkno := page']> pages) root 0 stack blkno lo hi L R bs it [blkno]) as (h & blocks & Ht & Hb).
  - apply (path_frame pages); [done|]. apply (frame_insert pages pages None); [|].
    + apply (frame_same pages None). by eapply path_present.
    + apply NoDup_app in Hnd as (_ & Hnd & _). intros Hin. apply (Hnd blkno Hin), list_elem_of_here.
  - apply subtree_unfold. exists page', []. rewrite lookup_insert_eq. by repeat (split; [done|]).
  - exists h, blocks. split; [done|]. by rewrite Hb.
Qed.

Abbreviation round := (insert_round rumstate throw skip bulk split_size cycle fix_split).

(** One round: the item is there, or it is put on its leaf. *)
Lemma round_inserts pages btree root y h items fuel :
  tree pages root h items -> good y -> entryAttnum btree = attnum -> fullScan btree = false ->
  drop (curitem btree) (btree_items btree) = [y] -> (h < fuel)%nat ->
  ends_with root btree (S (curitem btree)) (merge [y] items) (round fuel pages btree root).
Proof.
  intros (bt & Ht & Hnd) Hy Ha Hf Hn Hfuel. pose proof (subtree_range _ _ _ _ _ _ _ Ht) as (_ & _ & _ & _ & Hgood).
  destruct (drop_cons_lookup _ _ _ _ (eq_sym Hn)) as [Hlook _].
  destruct (find_leaf pages root btree y h fuel [] root None None [] [] [] items bt)
    as (stack & blkno & Hfind & (lo & hi & L & R & bs & it & bt' & Hpath & Hsub & Ei & Hnd' & Hlo & Hhi) & Hlen);
    [split; try done; apply Hy|constructor|done|done|done|done|done|].
  rewrite app_nil_r in Ei. cbn [app length] in Ei, Hlen. subst items.
  destruct (path_sides _ _ _ _ _ _ _ _ _ _ Hpath) as [SL SR]. rewrite (merge_sides y L it R lo hi) by done.
  destruct (leaf_inserting _ _ _ _ _ _ _ _ Hsub Hy Ha Hn) as (page & Hp & Hv & Hs & Hne & -> & HA & HB & I).
  pose proof I as [Hl _ _ _ _ _ _]. pose proof (lp_good _ _ _ _ Hl) as Hg. pose proof (lp_ordered _ _ _ _ Hl) as Ho.
  unfold insert_round. rewrite Hfind. cbn [out_bind stack_blkno]. rewrite Hp.
  pose proof (dataLocateLeafItem_spec rumstate throw attnum page it btree y Hl Hf Ha Hlook Hy) as Hloc.
  destruct (existsb (same rumstate attnum y) it) eqn:Hex; rewrite Hloc; cbn [out_bind].
  - rewrite merge_present by done.
    assert (exists h', tree pages root h' (L ++ it ++ R)) as [h1 Hkept].
    { destruct (leaf_kept pages root stack blkno page page it lo hi L R bs) as [h1 H1]; try done.
      exists h1. by rewrite insert_id in H1. }
    destruct (leaf_kept pages root stack blkno page (revived skip page) it lo hi L R bs) as [h2 Hrev]; try done;
      [by apply (sound_kept page); destruct skip|by apply leaf_page_revived|].
    destruct skip; cbn [negb andb]; [by exists pages, (pitem btree), (rightblkno btree), h1|].
    destruct (RumDataPageEntryIsDead page); [|by exists pages, (pitem btree), (rightblkno btree), h1].
    by exists (<[blkno := RumDataPageEntryRevive page]> pages), (pitem btree), (rightblkno btree), h2.
  - unfold rumInsertValue. cbn [stack_blkno stack_off]. rewrite Hp. pose proof Hs as (_ & Hinc & _). rewrite Hinc, andb_false_r.
    set (off := _ + 1). fold (place_up fuel pages btree blkno off stack None).
    destruct (dataIsEnoughSpace rumstate split_size btree page) as [[|]|] eqn:Hspace.
    + by apply (place_leaf_one pages btree root stack blkno page it y off lo hi L R bs).
    + apply (split_leaf_one pages btree root stack blkno page it y off lo hi L R bs); try done. lia.
    + by rewrite (space_left rumstate attnum page it btree y [] split_size I) in Hspace.
Qed.


(** C20: Search in a posting tree.  The descent for a key returns a leaf without
    changing the tree, and the search of that leaf finds the key exactly if it is
    one of the items of the whole tree. *)
Theorem posting_tree_search pages btree root key h items fuel :
  tree pages root h items -> good key -> search_for attnum btree key -> (h < fuel)%nat ->
  exists leaf parents page off,
    rumFindLeafPage rumstate fix_split fuel pages btree root root [] = Some (Ok (leaf :: parents)) /\
    length parents = h /\ pages !! stack_blkno leaf = Some page /\
    dataLocateLeafItem rumstate throw btree page =
      Some (Ok (existsb (same rumstate attnum key) items, off)).
Proof.
  intros (bt & Ht & Hnd) Hy Hkey Hfuel.
  destruct (find_leaf pages root btree key h fuel [] root None None [] [] [] items bt)
    as (stack & blkno & Hfind & (lo & hi & L & R & bs & it & bt' & Hpath & Hsub & Ei & Hnd' & Hlo & Hhi) & Hlen);
    [done|constructor|done|done|done|done|done|].
  rewrite app_nil_r in Ei. cbn [app length] in Ei, Hlen. subst items.
  destruct (path_sides _ _ _ _ _ _ _ _ _ _ Hpath) as [SL SR]. rewrite (existsb_sides key L it R lo hi) by done.
  apply subtree_unfold in Hsub as (page & rest & Hp & _ & _ & _ & _ & _ & Hl & _). destruct Hkey as [H1 H2 H3 H4].
  exists (mk_stack blkno InvalidOffsetNumber), stack, page. eexists. split; [done|]. split; [lia|]. split; [done|].
  by apply (dataLocateLeafItem_spec rumstate throw attnum page it).
Qed.
End tree.

(** ** Extension of the index *)

(** The block after the last one. *)
#[export] Instance extend_index : NewBuffer := fun pages =>
  let last := map_fold (fun b _ m => Z.max m (b + 1)) 1 pages in
  if last =? InvalidBlockNumber then last + 1 else last.

#[export] Instance extend_index_laws : NewBufferLaws extend_index.
Proof.
  assert (forall pages : Pages, let m := map_fold (fun b _ m => Z.max m (b + 1)) 1 pages in
    1 <= m /\ forall b, is_Some (pages !! b) -> b < m) as Hlast.
  { intros pages. apply (map_fold_weak_ind (fun m (pages : Pages) => 1 <= m /\ forall b, is_Some (pages !! b) -> b < m)).
    - split; [lia|]. intros b. rewrite lookup_empty. by intros [].
    - intros b p m r _ [H1 IH]. split; [lia|]. intros c Hc. destruct (decide (b = c)) as [->|Hne]; [lia|].
      rewrite lookup_insert_ne in Hc by done. specialize (IH _ Hc). lia. }
  split; intros pages; unfold RumNewBuffer, extend_index; destruct (Hlast pages) as [H1 H2];
    set (m := map_fold _ _ _) in *; destruct (Z.eqb_spec m InvalidBlockNumber) as [E|E].
  - apply eq_None_not_Some. intros H. apply H2 in H. lia.
  - apply eq_None_not_Some. intros H. apply H2 in H. lia.
  - rewrite E. unfold tree_block, InvalidBlockNumber, RUM_METAPAGE_BLKNO. lia.
  - split; [done|]. unfold RUM_METAPAGE_BLKNO. lia.
Qed.

(** A new posting tree is its root page. *)
Lemma tree_created rumstate attnum `{OrderedAddInfo rumstate} page items root :
  leaf_page rumstate attnum page items -> RumPageRightMost page = true ->
  page_rightBound page = RumItemSetMin -> page_flags page = Z.lor 1 RUM_LEAF -> tree_block root ->
  tree rumstate attnum {[root := page]} root 0 items.
Proof.
  intros Hp Hr%Z.eqb_eq Hb Hf Hv. exists [root]. split; [|apply NoDup_singleton]. exists page, []. rewrite lookup_singleton_eq.
  do 2 (split; [done|]). split; [|split; [done|split; [done|]]].
  - unfold sound_page, RumPageIsIncompleteSplit. rewrite Hf, Hr, Hb. do 2 (split; [done|]). split; [exact min_wf|done].
  - split; [done|]. split; [done|]. split; apply Forall_true; done.
Qed.

Lemma full_tree : tree (sample_state false) 1 {[7 := full_page]} 7 0 full_items.
Proof.
  destruct full_page_leaf as (Hp & Hr & Hb & Hf).
  apply (tree_created _ _ _ _ _ Hp Hr Hb Hf). unfold tree_block, InvalidBlockNumber, RUM_METAPAGE_BLKNO. lia.
Qed.


Lemma posting_tree_search_witness :
  exists leaf parents page off,
    rumFindLeafPage (sample_state false) true 1 {[7 := full_page]} (split_btree [middle_item]) 7 7 [] =
      Some (Ok (leaf :: parents)) /\
    length parents = 0%nat /\ ({[7 := full_page]} : Pages) !! stack_blkno leaf = Some page /\
    dataLocateLeafItem (sample_state false) true (split_btree [middle_item]) page =
      Some (Ok (existsb (same (sample_state false) 1 middle_item) full_items, off)).
Proof.
  apply (posting_tree_search (sample_state false) true 1 true).
  - exact full_tree.
  - apply far_good; lia.
  - split; [reflexivity|reflexivity|reflexivity|]. split; cbn; lia.
  - lia.
Defined.
