(* ===== verification/MaxMinN.v ===== *)
(** * The accumulators $maxN and $minN: [pg_documentdb/src/aggregation/bson_aggregates.c]

    The aggregate keeps the N best values seen so far in a heap whose top is
    the worst of them.  PostgreSQL passes the state between the calls as a
    byte array: every transition reads it, changes the heap and writes it
    back, into the same array when it fits.  Parallel workers' states are
    combined.  The theorems follow the state through any sequence of
    transitions and combinations: the final function delivers the N largest
    (smallest) values in descending (ascending) order. *)

From stdpp Require Import base numbers list option sorting.
From Stdlib Require Import ZArith Lia.
From S2P Require Import Prelude Heap Binary64 Bson PgbsonElement StringView Decimal128.
From S2P Require Import Collation BsonCompare.

(** ** The state *)

Definition of_memory {A} (r : read A) : outcome A :=
  match r with
  | Done a => Some (Ok a)
  | Fails => Some (Err ERRCODE_INTERNAL_ERROR)
  | OutOfBounds => None
  end.

Record DynamicHeapState : Type := mk_state {
  heap : BinaryHeap bson_value;
  isMaxN : bool;
  maxElements : Z;
  currentSizeWritten : Z;
}.

(** [sizeof(bson_value_t)] on a 64-bit machine. *)
Definition sizeof_bson_value : Z := 32.
Definition BSON_MAX_ALLOWED_SIZE_INTERMEDIATE : Z := 100 * 1024 * 1024.
Definition MaxAllocSize : Z := 0x3fffffff.
Definition HeapType_Extended : Z := 1.

Definition CheckAggregateIntermediateResultSize (size : Z) : result unit :=
  if BSON_MAX_ALLOWED_SIZE_INTERMEDIATE <? uint32 size
  then Err ERRCODE_DOCUMENTDB_INTERMEDIATERESULTTOOLARGE else Ok tt.

Section aggregate.
Context {L : BidLib} {I : Icu} (EnableCollation : bool).
Context (bson_iter_init_from_data : bytes -> option bson_doc).

(** For $maxN the heap has its smallest value on top. *)
Definition HeapSortComparatorMaxN (first second : bson_value) : result bool :=
  let! (cmp, _) := CompareBsonValueAndType first second in Ok (cmp <? 0).

Definition HeapSortComparatorMinN (first second : bson_value) : result bool :=
  let! (cmp, _) := CompareBsonValueAndType first second in Ok (0 <? cmp).

Definition comparator_of (isMaxN : bool) : bson_value -> bson_value -> result bool :=
  if isMaxN then HeapSortComparatorMaxN else HeapSortComparatorMinN.

(** The number of values to keep, as a 64-bit integer. *)
Definition ValidateElementForNGroupAccumulators (elementsToFetch : bson_value) : result bson_value :=
  match elementsToFetch with
  | V_Int32 _ | V_Int64 _ | V_Double _ | V_Decimal128 _ =>
      let! nan := IsBsonValueNaN elementsToFetch in
      if nan : bool then Err ERRCODE_DOCUMENTDB_LOCATION31109
      else
        let! infinity := IsBsonValueInfinity elementsToFetch in
        if negb (infinity =? 0) then Err ERRCODE_DOCUMENTDB_LOCATION31109
        else
          let! fixed := IsBsonValueFixedInteger elementsToFetch in
          if negb fixed then Err ERRCODE_DOCUMENTDB_LOCATION5787903
          else
            let! z := BsonValueAsInt64WithRoundingMode elementsToFetch
                        ConversionRoundingMode_Floor true in
            if z <=? 0 then Err ERRCODE_DOCUMENTDB_LOCATION5787908 else Ok (V_Int64 z)
  | _ => Err ERRCODE_DOCUMENTDB_LOCATION5787902
  end.

(** ** The state as bytes (the contents after the length word) *)

(** A value as a document with an empty key, with its length word. *)
Definition BsonValueToDocumentPgbson (value : bson_value) : bytes :=
  let document := doc_bytes [([], value)] in
  le_bytes 4 (Z.shiftl (blen document + 4) 2) ++ document.

Definition state_bytes (state : DynamicHeapState) : bytes :=
  [Z.b2z (isMaxN state)] ++ int64_bytes (maxElements state) ++
  int32_bytes (currentSizeWritten state) ++ int32_bytes HeapType_Extended ++
  int64_bytes (heapSize (heap state)) ++ int64_bytes (heapSpace (heap state)) ++
  int64_bytes (maximumHeapSpace (heap state)) ++
  flat_map BsonValueToDocumentPgbson (heapNodes (heap state)).

(** The array is reused when it is large enough, and keeps its tail. *)
Definition SerializeBinaryHeapState (state : DynamicHeapState) (byteArray : option bytes)
  : result bytes :=
  let heapNodesSize := int32 (blen (flat_map BsonValueToDocumentPgbson (heapNodes (heap state)))) in
  let requiredByteSize := int32 (4 + 1 + 8 + 4 + 4 + 8 + 8 + 8 + heapNodesSize) in
  let existingByteSize := match byteArray with None => 0 | Some b => 4 + blen b end in
  let content := state_bytes state in
  if requiredByteSize <=? existingByteSize
  then Ok (content ++ drop (length content) (default [] byteArray))
  else if MaxAllocSize <? uint64 requiredByteSize then Err ERRCODE_INTERNAL_ERROR
  else Ok content.

Definition PgbsonToSinglePgbsonElement (bson : bytes) : result bson_field :=
  let! iterator := PgbsonInitIterator bson_iter_init_from_data bson in
  BsonIterToSinglePgbsonElement EnableCollation iterator.

Fixpoint read_nodes (n : nat) (data : bytes) : outcome (list bson_value) :=
  match n with
  | O => Some (Ok [])
  | S n' =>
      out! (header, _) := of_memory (read_u32 data) in
      let pgbsonSize := Z.land (Z.shiftr header 2) 0x3FFFFFFF in
      out! (pgbsonValue, rest) := of_memory (read_n pgbsonSize data) in
      out! element := Some (PgbsonToSinglePgbsonElement (drop 4 pgbsonValue)) in
      out! nodes := read_nodes n' rest in
      Some (Ok (element.2 :: nodes))
  end.

Definition DeserializeBinaryHeapState (data : bytes) : outcome DynamicHeapState :=
  out! (b, data) := of_memory (read_n 1 data) in
  out! (elements, data) := of_memory (read_i64 data) in
  out! (size, data) := of_memory (read_u32 data) in
  out! (_, data) := of_memory (read_i32 data) in
  out! (count, data) := of_memory (read_i64 data) in
  out! (space, data) := of_memory (read_i64 data) in
  out! (maximum, data) := of_memory (read_i64 data) in
  if space <? count then None
  else
    out! nodes := read_nodes (Z.to_nat count) data in
    Some (Ok (mk_state (mk_heap nodes space maximum) (negb (le_value b =? 0)) elements (int32 size))).

(** ** Transition, combination, final *)

(** Keep the value, or replace the worst one kept, or drop the value. *)
Definition add_value (state : DynamicHeapState) (value : bson_value) : outcome DynamicHeapState :=
  let comparator := comparator_of (isMaxN state) in
  if heapSize (heap state) <? maxElements state then
    let size := int32 (currentSizeWritten state + sizeof_bson_value) in
    out! _ := Some (CheckAggregateIntermediateResultSize size) in
    out! h := PushToDynamicHeap comparator (heap state) value in
    Some (Ok (mk_state h (isMaxN state) (maxElements state) size))
  else
    match TopHeap (heap state) with
    | None => None
    | Some topHeap =>
        out! before := Some (comparator value topHeap) in
        if before : bool then Some (Ok state)
        else
          let size := int32 (currentSizeWritten state - sizeof_bson_value + sizeof_bson_value) in
          out! _ := Some (CheckAggregateIntermediateResultSize size) in
          out! (_, h) := PopFromDynamicHeap comparator (heap state) in
          out! h := PushToDynamicHeap comparator h value in
          Some (Ok (mk_state h (isMaxN state) (maxElements state) size))
    end.

(** The last fields named "input" and "n". *)
Definition input_key : bytes := [105; 110; 112; 117; 116].
Definition n_key : bytes := [110].

Definition parse_argument (fields : bson_doc) : bson_value * bson_value :=
  fold_left
    (fun acc f =>
       if strcmp f.1 input_key =? 0 then (f.2, acc.2)
       else if strcmp f.1 n_key =? 0 then (acc.1, f.2) else acc)
    fields (V_Eod, V_Eod).

Definition bson_maxminn_transition (isMaxN : bool) (state : option bytes) (currentValue : bytes)
  : outcome bytes :=
  out! element := Some (PgbsonToSinglePgbsonElement currentValue) in
  out! fields :=
    match element.2 with
    | V_Document fs | V_Array fs => Some (Ok fs)
    | _ => None
    end in
  let '(input, elementBsonValue) := parse_argument fields in
  out! elementBsonValue := Some (ValidateElementForNGroupAccumulators elementBsonValue) in
  out! element := Some (BsonValueAsInt64WithRoundingMode elementBsonValue
                          ConversionRoundingMode_Floor true) in
  out! currentState :=
    match state with
    | None => Some (Ok (mk_state (AllocateDynamicHeap 64 element) isMaxN element 0))
    | Some data => DeserializeBinaryHeapState data
    end in
  out! currentState :=
    if IsExpressionResultNullOrUndefined input then Some (Ok currentState)
    else add_value currentState input in
  Some (SerializeBinaryHeapState currentState state).

(** The loop of the final function: each pop goes to the last free cell of the
    array.  (The order in which the index and the call are evaluated is
    unspecified in C; the model takes the index first.) *)
Fixpoint drain (fuel : nat) (isMaxN : bool) (h : BinaryHeap bson_value)
  (valueArray : list bson_value) : outcome (list bson_value) :=
  match heapNodes h, fuel with
  | [], _ => Some (Ok valueArray)
  | _, O => None
  | _, S fuel' =>
      out! (value, h) := PopFromDynamicHeap (comparator_of isMaxN) h in
      drain fuel' isMaxN h (value :: valueArray)
  end.

(** The elements of the array that is written. *)
Definition bson_maxminn_final (state : option bytes) : outcome (list bson_value) :=
  match state with
  | None => Some (Ok [])
  | Some data =>
      out! maxNState := DeserializeBinaryHeapState data in
      drain (length (heapNodes (heap maxNState))) (isMaxN maxNState) (heap maxNState) []
  end.

(** The body of the loop of [bson_maxminn_combine], up to the pop from the left
    state: the right state and the size of the left one. *)
Definition merge_value (left right : DynamicHeapState) (leftValue : bson_value)
  : outcome (DynamicHeapState * Z) :=
  if heapSize (heap right) <? maxElements right then
    out! h := PushToDynamicHeap (comparator_of (isMaxN right)) (heap right) leftValue in
    out! _ := Some (CheckAggregateIntermediateResultSize
                      (currentSizeWritten right + sizeof_bson_value)) in
    Some (Ok (mk_state h (isMaxN right) (maxElements right)
                (int32 (currentSizeWritten right + sizeof_bson_value)),
              int32 (currentSizeWritten left - sizeof_bson_value)))
  else
    match TopHeap (heap right) with
    | None => None
    | Some rightValue =>
        out! before := Some (comparator_of (isMaxN left) leftValue rightValue) in
        if before : bool then Some (Ok (right, currentSizeWritten left))
        else
          let size := int32 (currentSizeWritten right - sizeof_bson_value) in
          out! (_, h) := PopFromDynamicHeap (comparator_of (isMaxN right)) (heap right) in
          out! _ := Some (CheckAggregateIntermediateResultSize (size + sizeof_bson_value)) in
          out! h := PushToDynamicHeap (comparator_of (isMaxN right)) h leftValue in
          Some (Ok (mk_state h (isMaxN right) (maxElements right)
                      (int32 (size + sizeof_bson_value)), currentSizeWritten left))
    end.

(** The left state is emptied into the right one. *)
Fixpoint combine_loop (fuel : nat) (left right : DynamicHeapState) : outcome DynamicHeapState :=
  match TopHeap (heap left), fuel with
  | None, _ => Some (Ok right)
  | _, O => None
  | Some leftValue, S fuel' =>
      out! (right, leftSize) := merge_value left right leftValue in
      out! (_, h) := PopFromDynamicHeap (comparator_of (isMaxN left)) (heap left) in
      combine_loop fuel'
        (mk_state h (isMaxN left) (maxElements left)
           (int32 (leftSize - sizeof_bson_value))) right
  end.

Definition bson_maxminn_combine (left right : option bytes) : outcome (option bytes) :=
  match left, right with
  | None, None => Some (Ok None)
  | None, Some _ => Some (Ok right)
  | Some _, None => Some (Ok left)
  | Some bytesLeft, Some bytesRight =>
      out! currentLeftState := DeserializeBinaryHeapState bytesLeft in
      out! currentRightState := DeserializeBinaryHeapState bytesRight in
      out! state := combine_loop (length (heapNodes (heap currentLeftState)))
                      currentLeftState currentRightState in
      out! b := Some (SerializeBinaryHeapState state (Some bytesRight)) in
      Some (Ok (Some b))
  end.
End aggregate.

(** ** Correctness *)

Section correctness.
Context {L : BidLib} {BL : BidLaws L} {I : Icu} {IL : IcuLaws I} (EnableCollation : bool).
Context (init : bytes -> option bson_doc) {R : DocumentReader init}.

(** The nesting depth of the values, and their size as documents. *)
Context (D : nat) (B : Z).

Definition value_ok (v : bson_value) : Prop :=
  wf_value v = true /\ storable v = true /\ (depth v <= D)%nat /\
  blen (BsonValueToDocumentPgbson v) <= B.

(** The values fit the limits on the state: 100 MB, counting 32 bytes a value,
    and 1 GB for its bytes. *)
Definition within_limits (N : Z) : Prop :=
  1 <= N /\ 0 <= B /\ sizeof_bson_value * N <= BSON_MAX_ALLOWED_SIZE_INTERMEDIATE /\
  45 + N * B <= MaxAllocSize.

(** The order in which values are dropped: smallest first for $maxN. *)
Definition drop_order (maxN : bool) : bson_value -> bson_value -> comparison :=
  if maxN then bson_order D None else cmp_opp (bson_order D None).

#[local] Instance drop_order_total maxN : TotalCmp (drop_order maxN).
Proof. unfold drop_order. destruct maxN; apply _. Qed.

Lemma comparator_decides maxN a b :
  value_ok a -> value_ok b ->
  comparator_of maxN a b = Ok (match drop_order maxN a b with Lt => true | _ => false end).
Proof.
  intros (Wa & _ & Da & _) (Wb & _ & _ & _). unfold comparator_of, drop_order.
  destruct (compare_and_type_refines D None a b Da Wa Wb) as (z & Ez & Sz).
  rewrite <- compare_and_type_none in Ez.
  destruct maxN; unfold HeapSortComparatorMaxN, HeapSortComparatorMinN, cmp_opp; rewrite Ez, <- Sz;
    cbn [result_bind]; f_equal; unfold sgn_cmp; by destruct z.
Qed.

(** *** The best values *)

Section filters.
Context {A : Type} (P : A -> Prop) `{!forall x, Decision (P x)}.

Lemma filter_all l : Forall P l -> filter P l = l.
Proof. induction 1 as [|x l Hx _ IH]; [done|]. by rewrite filter_cons, decide_True, IH. Qed.

Lemma filter_none l : Forall (fun x => ~ P x) l -> filter P l = [].
Proof. induction 1 as [|x l Hx _ IH]; [done|]. by rewrite filter_cons, decide_False. Qed.
End filters.

Section best.
Context (maxN : bool) (n : nat).
Abbreviation le := (cmp_le (drop_order maxN)).

(** [kept] is a selection of [n] best values among [vs], the rest is [dropped]. *)
Definition best (vs kept dropped : list bson_value) : Prop :=
  vs ≡ₚ kept ++ dropped /\ (length kept <= n)%nat /\ (dropped = [] \/ length kept = n) /\
  forall d k, d ∈ dropped -> k ∈ kept -> le d k.

Lemma best_nil : best [] [] [].
Proof. split_and!; [done|simpl; lia|by left|]. intros d k Hd. by apply not_elem_of_nil in Hd. Qed.

(** A new value is kept while there is room. *)
Lemma best_keep vs kept dropped kept' v :
  best vs kept dropped -> (length kept < n)%nat -> kept' ≡ₚ v :: kept ->
  best (v :: vs) kept' dropped.
Proof.
  intros (Hp & Hl & Hd & Hle) Hn Hk.
  assert (dropped = []) as -> by (destruct Hd; [done|lia]).
  split_and!.
  - by rewrite Hk, Hp.
  - rewrite Hk. simpl. lia.
  - by left.
  - intros d k Hdd. by apply not_elem_of_nil in Hdd.
Qed.

(** A full selection drops the value, or its own worst value. *)
Lemma best_drop_new vs kept dropped top v :
  best vs kept dropped -> length kept = n -> Forall (le top) kept -> le v top ->
  best (v :: vs) kept (v :: dropped).
Proof.
  intros (Hp & Hl & Hd & Hle) Hn Ht Hv. split_and!; [|done|by right|].
  - by rewrite Hp, Permutation_middle.
  - intros d k [-> | Hdd]%elem_of_cons Hk; [|by apply Hle].
    apply (cmp_le_trans _ v top k); [done|]. rewrite Forall_forall in Ht. by apply Ht.
Qed.

Lemma best_replace vs kept dropped top rest kept' v :
  best vs kept dropped -> length kept = n -> kept ≡ₚ top :: rest -> Forall (le top) kept ->
  le top v -> kept' ≡ₚ v :: rest -> best (v :: vs) kept' (top :: dropped).
Proof.
  intros (Hp & Hl & Hd & Hle) Hn Hk Ht Hv Hk'. split_and!.
  - rewrite Hk', Hp, Hk. simpl. apply perm_skip, Permutation_middle.
  - rewrite Hk'. rewrite Hk in Hn. simpl in *. lia.
  - right. rewrite Hk'. rewrite Hk in Hn. simpl in *. lia.
  - assert (forall k, k ∈ kept' -> le top k) as Htop.
    { intros k. rewrite Hk', elem_of_cons. intros [-> | Hr]; [done|].
      rewrite Forall_forall in Ht. apply Ht. rewrite Hk. by apply list_elem_of_further. }
    intros d k [-> | Hdd]%elem_of_cons Hkk; [by apply Htop|].
    apply (cmp_le_trans _ d top k); [|by apply Htop].
    apply Hle; [done|]. rewrite Hk. apply list_elem_of_here.
Qed.

(** The order of the values does not matter. *)
#[global] Instance best_proper : Proper (Permutation ==> Permutation ==> eq ==> iff) best.
Proof.
  intros vs vs' Hv kept kept' Hk dropped ? <-. unfold best. rewrite Hv, Hk.
  assert ((forall d k, d ∈ dropped -> k ∈ kept -> le d k) <->
          (forall d k, d ∈ dropped -> k ∈ kept' -> le d k)) as ->; [|done].
  split; intros H d k; [rewrite <- Hk|rewrite Hk]; auto.
Qed.

(** Values that a full selection dropped may join those that a selection among
    its kept values and others dropped: counting the values at or above one of
    them shows that no worse value was kept. *)
Lemma best_combine vs1 kept1 dropped1 vs2 kept dropped :
  best vs1 kept1 dropped1 -> best (kept1 ++ vs2) kept dropped ->
  best (vs1 ++ vs2) kept (dropped1 ++ dropped).
Proof.
  intros (Hp1 & Hl1 & Hd1 & Hle1) (Hp & Hl & Hd & Hle).
  destruct Hd1 as [->|Hfull].
  { simpl. split_and!; [|done..]. rewrite <- Hp, Hp1. by rewrite app_nil_r. }
  assert (forall d k, d ∈ dropped1 -> k ∈ kept -> le d k) as Hnew.
  { intros d k Hdd Hk Hgt.
    assert (forall x, Decision (le d x)) as Hdec by (intros x; unfold cmp_le; apply _).
    assert (length (filter (le d) kept1) = length kept1) as Hc1.
    { rewrite filter_all; [done|]. apply Forall_forall. intros x Hx. by apply Hle1. }
    assert (filter (le d) dropped = []) as Hc2.
    { apply filter_none. apply Forall_forall. intros x Hx Hdx.
      assert (le d k) as Hdk by by apply (cmp_le_trans _ d x k), Hle. by apply Hdk. }
    assert (length (filter (le d) kept) < length kept)%nat as Hc3.
    { apply (length_filter_lt (le d) kept k); [done|]. intros Hdk. by apply Hdk. }
    assert (length (filter (le d) (kept ++ dropped)) = length (filter (le d) (kept1 ++ vs2))) as Hc
      by by rewrite Hp.
    rewrite !filter_app, !length_app, Hc2, Hc1 in Hc. simpl in Hc. lia. }
  assert (length kept = n) as Hkn.
  { destruct Hd as [->|?]; [|done]. rewrite app_nil_r in Hp.
    apply Permutation_length in Hp. rewrite length_app in Hp. lia. }
  split_and!; [|done|by right|].
  - rewrite Hp1, <- (app_assoc kept1), (Permutation_app_comm dropped1), app_assoc, Hp.
    by rewrite <- app_assoc, (Permutation_app_comm dropped).
  - intros d k [H|H]%elem_of_app Hk; auto.
Qed.
End best.

(** *** The state *)

(** The state after the values [vs]: the heap holds a selection of best ones. *)
Definition state_ok (maxN : bool) (N : Z) (vs : list bson_value) (st : DynamicHeapState) : Prop :=
  wf_heap (drop_order maxN) value_ok (heap st) /\ isMaxN st = maxN /\ maxElements st = N /\
  maximumHeapSpace (heap st) = N /\ 1 <= N < 2 ^ 63 /\ heapSpace (heap st) <= 2 ^ 23 /\
  currentSizeWritten st = sizeof_bson_value * heapSize (heap st) /\
  currentSizeWritten st <= BSON_MAX_ALLOWED_SIZE_INTERMEDIATE /\
  exists dropped, best maxN (Z.to_nat N) vs (heapNodes (heap st)) dropped.

(** The next value fits the limit on the size of the state. *)
Definition has_room (st : DynamicHeapState) : Prop :=
  heapSize (heap st) < maxElements st ->
  currentSizeWritten st + sizeof_bson_value <= BSON_MAX_ALLOWED_SIZE_INTERMEDIATE.

Lemma check_size z :
  0 <= z <= BSON_MAX_ALLOWED_SIZE_INTERMEDIATE -> CheckAggregateIntermediateResultSize z = Ok tt.
Proof.
  unfold CheckAggregateIntermediateResultSize, BSON_MAX_ALLOWED_SIZE_INTERMEDIATE. intros Hz.
  rewrite uint32_small by lia. by rewrite (proj2 (Z.ltb_ge _ _)) by lia.
Qed.

Lemma check_size_too_large z :
  BSON_MAX_ALLOWED_SIZE_INTERMEDIATE < z < 2 ^ 32 ->
  CheckAggregateIntermediateResultSize z = Err ERRCODE_DOCUMENTDB_INTERMEDIATERESULTTOOLARGE.
Proof.
  unfold CheckAggregateIntermediateResultSize, BSON_MAX_ALLOWED_SIZE_INTERMEDIATE. intros Hz.
  rewrite uint32_small by lia. by rewrite (proj2 (Z.ltb_lt _ _)) by lia.
Qed.

Lemma state_perm maxN N vs vs' st : vs ≡ₚ vs' -> state_ok maxN N vs st -> state_ok maxN N vs' st.
Proof.
  intros Hp (H1 & H2 & H3 & H4 & H5 & H6 & H7 & H8 & dropped & Hb).
  do 8 (split; [done|]). exists dropped. by rewrite <- Hp.
Qed.

Lemma push_state maxN N vs st v :
  state_ok maxN N vs st -> value_ok v -> heapSize (heap st) < N ->
  currentSizeWritten st + sizeof_bson_value <= BSON_MAX_ALLOWED_SIZE_INTERMEDIATE ->
  exists h', PushToDynamicHeap (comparator_of maxN) (heap st) v = Some (Ok h') /\
    state_ok maxN N (v :: vs)
      (mk_state h' maxN N (currentSizeWritten st + sizeof_bson_value)).
Proof.
  intros (Hw & _ & HmaxE & Hmax & HN & Hsp & Hsz & Hlim & dropped & Hb) Hv Hlt Hroom.
  destruct (push_ok (comparator_of maxN) (drop_order maxN) value_ok (comparator_decides maxN)
    (heap st) v) as (h' & E & Hw' & Hp & Hm' & Hs'); [done|done|lia|lia|].
  exists h'. split; [done|]. unfold state_ok. cbn [heap isMaxN maxElements currentSizeWritten].
  assert (heapSize h' = heapSize (heap st) + 1) as Hsize.
  { unfold heapSize. rewrite Hp. simpl. lia. }
  unfold sizeof_bson_value, BSON_MAX_ALLOWED_SIZE_INTERMEDIATE in *.
  split_and!; try done; try lia. exists dropped. apply (best_keep _ _ vs (heapNodes (heap st))); [done| |done].
  unfold heapSize in Hlt. lia.
Qed.

Lemma full_state maxN N vs st v :
  state_ok maxN N vs st -> value_ok v -> N <= heapSize (heap st) ->
  exists top, TopHeap (heap st) = Some top /\ value_ok top /\
    (drop_order maxN v top = Lt -> state_ok maxN N (v :: vs) st) /\
    (drop_order maxN v top <> Lt ->
     exists h1 h2,
       PopFromDynamicHeap (comparator_of maxN) (heap st) = Some (Ok (top, h1)) /\
       PushToDynamicHeap (comparator_of maxN) h1 v = Some (Ok h2) /\
       state_ok maxN N (v :: vs) (mk_state h2 maxN N (currentSizeWritten st))).
Proof.
  intros (Hw & Hmx & HmaxE & Hmax & HN & Hsp & Hsz & Hlim & dropped & Hb) Hv Hge.
  pose proof (comparator_decides maxN) as Hdec.
  assert (heapNodes (heap st) <> []) as Hne.
  { intros E. unfold heapSize in Hge. rewrite E in Hge. simpl in Hge. lia. }
  destruct (pop_ok _ _ _ Hdec (heap st) Hw Hne)
    as (top & h1 & Epop & Hw1 & Etop & Hp & Hle & Hm1 & Hs1).
  assert (length (heapNodes (heap st)) = Z.to_nat N) as Hlen.
  { destruct Hb as (_ & Hl & _). unfold heapSize in Hge. lia. }
  assert (value_ok top) as Hvt.
  { destruct Hw as (_ & Hall & _). rewrite Hp in Hall. by inversion Hall. }
  exists top. split_and!; [done|done| |].
  - intros Hlt. split_and!; try done; try lia. exists (v :: dropped).
    apply (best_drop_new _ _ _ _ _ top); [done|done|done|by apply cmp_lt_le].
  - intros Hnlt.
    assert (heapSize h1 = heapSize (heap st) - 1) as Hz1.
    { unfold heapSize. rewrite Hp. simpl. lia. }
    destruct (push_ok _ _ _ Hdec h1 v) as (h2 & Epush & Hw2 & Hp2 & Hm2 & Hs2);
      [done|done|unfold heapSize in *; lia|lia|].
    assert (heapSize h2 = heapSize h1 + 1) as Hz2.
    { unfold heapSize. rewrite Hp2. simpl. lia. }
    exists h1, h2. split_and!; [done|done|].
    unfold state_ok. cbn [heap isMaxN maxElements currentSizeWritten].
    unfold sizeof_bson_value, BSON_MAX_ALLOWED_SIZE_INTERMEDIATE in *.
    split_and!; try done; try lia. exists (top :: dropped).
    apply (best_replace _ _ vs (heapNodes (heap st)) dropped top (heapNodes h1)); try done.
    apply cmp_not_lt_le; [apply _|done].
Qed.

Lemma state_size maxN N vs st :
  state_ok maxN N vs st ->
  0 <= currentSizeWritten st <= BSON_MAX_ALLOWED_SIZE_INTERMEDIATE /\
  forall k, 0 <= k <= 64 -> int32 (currentSizeWritten st + k) = currentSizeWritten st + k.
Proof.
  intros (_ & _ & _ & _ & _ & _ & Hsz & Hlim & _).
  assert (0 <= heapSize (heap st)) by (unfold heapSize; lia).
  unfold sizeof_bson_value, BSON_MAX_ALLOWED_SIZE_INTERMEDIATE in *.
  split; [lia|]. intros k Hk. apply int32_small. lia.
Qed.

(** A transition keeps the state a selection of the best values, or reports
    that the state became too large. *)
Lemma add_value_ok maxN N vs st v :
  state_ok maxN N vs st -> value_ok v ->
  (has_room st -> exists st', add_value st v = Some (Ok st') /\ state_ok maxN N (v :: vs) st') /\
  (~ has_room st -> add_value st v = Some (Err ERRCODE_DOCUMENTDB_INTERMEDIATERESULTTOOLARGE)).
Proof.
  intros Hst Hv. pose proof (state_size _ _ _ _ Hst) as [Hs Hi].
  pose proof Hst as (_ & Hmx & HmaxE & _).
  unfold add_value, has_room. rewrite Hmx, HmaxE. unfold sizeof_bson_value in *.
  rewrite !Hi by lia.
  destruct (Z.ltb_spec (heapSize (heap st)) N) as [Hlt|Hge].
  - split; intros Hroom.
    + destruct (push_state maxN N vs st v) as (h' & -> & Hst'); [done|done|done|by apply Hroom|].
      rewrite check_size by (split; [lia|by apply Hroom]). cbn [out_bind]. eauto.
    + rewrite check_size_too_large; [done|].
      unfold BSON_MAX_ALLOWED_SIZE_INTERMEDIATE in *. split; [|lia].
      apply Z.nle_gt. intros Hle. by apply Hroom.
  - split; [intros _|intros Hroom; exfalso; apply Hroom; lia].
    destruct (full_state maxN N vs st v) as (top & -> & Hvt & Hkeep & Hrep); [done|done|done|].
    rewrite comparator_decides by done. cbn [out_bind].
    replace (currentSizeWritten st - 32 + 32) with (currentSizeWritten st + 0) by lia.
    rewrite Hi, Z.add_0_r by lia.
    destruct (drop_order maxN v top) eqn:E.
    2:{ exists st. auto. }
    all: destruct Hrep as (h1 & h2 & -> & E2 & Hst'); [congruence|];
      rewrite check_size by lia; cbn [out_bind]; rewrite E2; cbn [out_bind]; eauto.
Qed.

(** *** The state as bytes *)

Lemma node_size v : 9 <= blen (BsonValueToDocumentPgbson v).
Proof.
  unfold BsonValueToDocumentPgbson. rewrite blen_app, blen_le_bytes, blen_doc.
  pose proof (blen_nonneg (flat_map element_bytes [([], v)])). lia.
Qed.

Lemma nodes_size nodes :
  Forall value_ok nodes ->
  0 <= blen (flat_map BsonValueToDocumentPgbson nodes) <= Z.of_nat (length nodes) * B.
Proof.
  induction 1 as [|v nodes (_ & _ & _ & Hv) _ IH]; [done|].
  cbn [flat_map length]. rewrite blen_app. pose proof (node_size v). lia.
Qed.

Lemma read_node v rest n :
  value_ok v -> B <= MaxAllocSize ->
  read_nodes EnableCollation init (S n) (BsonValueToDocumentPgbson v ++ rest) =
  out! nodes := read_nodes EnableCollation init n rest in Some (Ok (v :: nodes)).
Proof.
  intros (Hw & Hst & _ & Hb) HB. cbn [read_nodes].
  pose proof (node_size v) as H9. unfold BsonValueToDocumentPgbson in *.
  set (document := doc_bytes [([], v)]) in *. rewrite blen_app, blen_le_bytes in Hb, H9.
  unfold MaxAllocSize in HB.
  assert (0 <= Z.shiftl (blen document + 4) 2 < 2 ^ 32) as Hsh.
  { rewrite Z.shiftl_mul_pow2 by lia. lia. }
  rewrite <- app_assoc, read_u32_app by done. cbn [of_memory out_bind].
  rewrite Z.shiftr_shiftl_l, Z.sub_diag, Z.shiftl_0_r by lia.
  change 0x3FFFFFFF with (Z.ones 30). rewrite Z.land_ones, Z.mod_small by lia.
  rewrite app_assoc, read_n_app by (rewrite blen_app, blen_le_bytes; lia). cbn [of_memory out_bind].
  rewrite (drop_app_length' _ document) by by rewrite le_bytes_length.
  unfold PgbsonToSinglePgbsonElement, PgbsonInitIterator, document.
  rewrite reader_inverts; [done|simpl; by rewrite Hw|simpl; by rewrite Hst|fold document; lia].
Qed.

Lemma read_nodes_bytes nodes rest :
  Forall value_ok nodes -> B <= MaxAllocSize ->
  read_nodes EnableCollation init (length nodes)
    (flat_map BsonValueToDocumentPgbson nodes ++ rest) = Some (Ok nodes).
Proof.
  intros Hv HB. induction Hv as [|v nodes Hv _ IH]; [done|].
  cbn [flat_map length]. rewrite <- app_assoc, read_node, IH by done. done.
Qed.

(** A serialized state is read back, whatever follows it in the array. *)
Lemma deserialize_state maxN N vs st rest :
  state_ok maxN N vs st -> within_limits N ->
  DeserializeBinaryHeapState EnableCollation init (state_bytes st ++ rest) = Some (Ok st).
Proof.
  intros Hst (HN1 & HB0 & _ & HB). pose proof (state_size _ _ _ _ Hst) as [Hs _].
  destruct Hst as ((_ & Hv & Hsp1 & Hfit) & Hmx & HmaxE & Hmax & HN & Hsp & _).
  assert (B <= MaxAllocSize) by nia.
  destruct st as [[nodes space maximum] mx elements size].
  unfold heapSize in *. cbn [heap isMaxN maxElements currentSizeWritten heapNodes heapSpace maximumHeapSpace] in *.
  unfold state_bytes, heapSize. cbn [heap isMaxN maxElements currentSizeWritten heapNodes heapSpace maximumHeapSpace].
  unfold BSON_MAX_ALLOWED_SIZE_INTERMEDIATE in Hs.
  rewrite <- !app_assoc. unfold DeserializeBinaryHeapState.
  rewrite read_n_app by done. cbn [of_memory out_bind].
  rewrite read_i64_app by lia. cbn [of_memory out_bind].
  unfold int32_bytes at 1. rewrite uint32_small, read_u32_app by lia. cbn [of_memory out_bind].
  rewrite read_i32_app by done. cbn [of_memory out_bind].
  rewrite !read_i64_app by lia. cbn [of_memory out_bind].
  rewrite read_i64_app by lia. cbn [of_memory out_bind].
  rewrite read_i64_app by lia. cbn [of_memory out_bind].
  rewrite (proj2 (Z.ltb_ge _ _)) by lia. rewrite Nat2Z.id, read_nodes_bytes by done.
  cbn [out_bind]. rewrite int32_small by lia. by destruct mx.
Qed.

Lemma serialize_state maxN N vs st previous :
  state_ok maxN N vs st -> within_limits N ->
  exists rest, SerializeBinaryHeapState st previous = Ok (state_bytes st ++ rest).
Proof.
  intros ((_ & Hv & _) & _ & _ & _ & _ & _ & _ & _ & dropped & Hb) (HN1 & HB0 & _ & HB).
  destruct Hb as (_ & Hl & _). pose proof (nodes_size _ Hv) as Hn.
  assert (blen (flat_map BsonValueToDocumentPgbson (heapNodes (heap st))) <= N * B) by nia.
  unfold SerializeBinaryHeapState, MaxAllocSize in *.
  rewrite (int32_small (blen _)), int32_small by lia.
  destruct (_ <=? _); [by eexists|].
  rewrite wrap_u_small, (proj2 (Z.ltb_ge _ _)) by lia. exists []. by rewrite app_nil_r.
Qed.

(** *** The calls *)

(** The byte array is the state after the values [vs]. *)
Definition holds (maxN : bool) (N : Z) (vs : list bson_value) (data : bytes) : Prop :=
  exists st rest, state_ok maxN N vs st /\ data = state_bytes st ++ rest.

Lemma serialize_holds maxN N vs st previous :
  state_ok maxN N vs st -> within_limits N ->
  exists data, SerializeBinaryHeapState st previous = Ok data /\ holds maxN N vs data.
Proof.
  intros Hst HN. destruct (serialize_state _ _ _ _ previous Hst HN) as [rest E].
  exists (state_bytes st ++ rest). split; [done|]. by exists st, rest.
Qed.

Lemma room maxN N vs st : state_ok maxN N vs st -> within_limits N -> has_room st.
Proof.
  intros (_ & _ & HmaxE & _ & _ & _ & Hsz & _) (_ & _ & Hlim & _) Hlt.
  unfold sizeof_bson_value in *. lia.
Qed.

(** The argument of a transition: the value of "input" and the number "n". *)
Definition argument (currentValue : bytes) (input : bson_value) (N : Z) : Prop :=
  exists key fields n,
    PgbsonToSinglePgbsonElement EnableCollation init currentValue = Ok (key, V_Document fields) /\
    parse_argument fields = (input, n) /\
    ValidateElementForNGroupAccumulators n = Ok (V_Int64 N).

Definition acceptable (input : bson_value) : Prop :=
  IsExpressionResultNullOrUndefined input = true \/ value_ok input.

(** The values that count: null and undefined do not. *)
Definition counted (input : bson_value) : list bson_value :=
  if IsExpressionResultNullOrUndefined input then [] else [input].

Lemma initial_heap_state maxN N :
  within_limits N -> state_ok maxN N [] (mk_state (AllocateDynamicHeap 64 N) maxN N 0).
Proof.
  intros (HN & _ & Hlim & _). unfold state_ok, wf_heap, sizeof_bson_value, AllocateDynamicHeap, InitHeapFields in *.
  unfold BSON_MAX_ALLOWED_SIZE_INTERMEDIATE in *. simpl. split_and!; try done; try lia.
  exists []. apply best_nil.
Qed.

Lemma transition_ok maxN N N' vs state currentValue input :
  within_limits N -> acceptable input -> argument currentValue input N' ->
  match state with
  | None => vs = [] /\ N' = N
  | Some data => holds maxN N vs data
  end ->
  exists data,
    bson_maxminn_transition EnableCollation init maxN state currentValue = Some (Ok data) /\
    holds maxN N (counted input ++ vs) data.
Proof.
  intros HN Hin (key & fields & n & Earg & Eparse & Evalid) Hstate.
  unfold bson_maxminn_transition. rewrite Earg. cbn [out_bind snd]. rewrite Eparse, Evalid.
  cbn [out_bind]. change (BsonValueAsInt64WithRoundingMode (V_Int64 N') _ _) with (Ok N').
  cbn [out_bind].
  assert (exists st, match state with
    | None => Some (Ok (mk_state (AllocateDynamicHeap 64 N') maxN N' 0))
    | Some data => DeserializeBinaryHeapState EnableCollation init data
    end = Some (Ok st) /\ state_ok maxN N vs st) as (st & -> & Hst).
  { destruct state as [data|].
    - destruct Hstate as (st & rest & Hst & ->). exists st. split; [|done].
      by apply (deserialize_state maxN N vs).
    - destruct Hstate as [-> ->]. eexists. split; [done|]. by apply initial_heap_state. }
  cbn [out_bind].
  assert (exists st', (if IsExpressionResultNullOrUndefined input return outcome DynamicHeapState
                       then Some (Ok st) else add_value st input) = Some (Ok st') /\
    state_ok maxN N (counted input ++ vs) st') as (st' & -> & Hst').
  { unfold counted. destruct Hin as [Hin|Hin].
    - rewrite Hin. eauto.
    - destruct (IsExpressionResultNullOrUndefined input); [eauto|].
      apply (add_value_ok maxN N vs st input); [done|done|by apply (room maxN N vs)]. }
  cbn [out_bind]. destruct (serialize_holds _ _ _ _ state Hst' HN) as (data & -> & Hd). eauto.
Qed.

(** The final function empties the heap, the worst value first. *)
Lemma drain_ok maxN fuel h acc :
  wf_heap (drop_order maxN) value_ok h -> (length (heapNodes h) <= fuel)%nat ->
  exists out, drain fuel maxN h acc = Some (Ok (out ++ acc)) /\ out ≡ₚ heapNodes h /\
    StronglySorted (fun a b => cmp_le (drop_order maxN) b a) out.
Proof.
  revert h acc. induction fuel as [|fuel IH]; intros h acc Hw Hf.
  { exists []. cbn [drain]. destruct (heapNodes h) as [|x l] eqn:E; [|simpl in Hf; lia].
    split_and!; [done|done|constructor]. }
  cbn [drain]. destruct (heapNodes h) as [|x l] eqn:E.
  { exists []. split_and!; [done|done|constructor]. }
  destruct (pop_ok _ _ _ (comparator_decides maxN) h Hw) as (top & h' & -> & Hw' & _ & Hp & Hle & _);
    [by rewrite E|].
  cbn [out_bind]. assert (length (heapNodes h) = S (length (heapNodes h'))) as Hl by by rewrite Hp.
  destruct (IH h' (top :: acc) Hw') as (out & -> & Hpo & Hs).
  { rewrite E in Hl. simpl in *. lia. }
  exists (out ++ [top]). rewrite <- app_assoc. split_and!; [done| |].
  - rewrite <- E, Hp, Hpo. by rewrite Permutation_app_comm.
  - apply StronglySorted_app_2; [|done|by repeat constructor].
    intros a b Ha Hb%list_elem_of_singleton. subst b. rewrite Forall_forall in Hle. apply Hle.
    rewrite Hp, <- Hpo. by apply list_elem_of_further.
Qed.

Lemma merge_value_ok maxN N left right vs v :
  within_limits N -> isMaxN left = maxN -> state_ok maxN N vs right -> value_ok v ->
  exists st size, merge_value left right v = Some (Ok (st, size)) /\ state_ok maxN N (v :: vs) st.
Proof.
  intros HN Hmx Hst Hv. pose proof (state_size _ _ _ _ Hst) as [Hs Hi].
  pose proof (room _ _ _ _ Hst HN) as Hroom. pose proof Hst as (_ & Hmr & HmaxE & _).
  unfold merge_value, has_room, sizeof_bson_value in *. rewrite Hmx, Hmr, HmaxE in *.
  destruct (Z.ltb_spec (heapSize (heap right)) N) as [Hlt|Hge].
  - destruct (push_state maxN N vs right v) as (h' & -> & Hst'); [done|done|done|by apply Hroom|].
    cbn [out_bind]. rewrite check_size by (split; [lia|by apply Hroom]). cbn [out_bind].
    rewrite Hi by lia. eauto.
  - destruct (full_state maxN N vs right v) as (top & -> & Hvt & Hkeep & Hrep); [done|done|done|].
    rewrite comparator_decides by done. cbn [out_bind].
    destruct (drop_order maxN v top) eqn:E.
    2:{ eexists _, _. auto. }
    all: destruct Hrep as (h1 & h2 & -> & E2 & Hst'); [congruence|]; cbn [out_bind].
    all: unfold BSON_MAX_ALLOWED_SIZE_INTERMEDIATE in Hs.
    all: rewrite (int32_small (currentSizeWritten right - 32)), Z.sub_add by lia.
    all: rewrite check_size by done; cbn [out_bind]; rewrite E2; cbn [out_bind].
    all: rewrite int32_small by lia; eauto.
Qed.

Lemma combine_loop_ok maxN N fuel left right vs :
  within_limits N -> wf_heap (drop_order maxN) value_ok (heap left) -> isMaxN left = maxN ->
  state_ok maxN N vs right -> (length (heapNodes (heap left)) <= fuel)%nat ->
  exists st, combine_loop fuel left right = Some (Ok st) /\
    state_ok maxN N (heapNodes (heap left) ++ vs) st.
Proof.
  intros HN. revert left right vs. induction fuel as [|fuel IH]; intros left right vs Hw Hmx Hst Hf.
  { cbn [combine_loop]. unfold TopHeap.
    destruct (heapNodes (heap left)) as [|x l]; [eauto|simpl in Hf; lia]. }
  cbn [combine_loop]. unfold TopHeap at 1.
  destruct (heapNodes (heap left)) as [|v l] eqn:E; [eauto|]. cbn [lookup list_lookup].
  destruct (pop_ok _ _ _ (comparator_decides maxN) (heap left) Hw)
    as (top & h' & Epop & Hw' & Etop & Hp & _); [by rewrite E|].
  assert (top = v) as -> by (unfold TopHeap in Etop; rewrite E in Etop; by simplify_eq/=).
  assert (value_ok v) as Hv by (destruct Hw as (_ & Hall & _); rewrite E in Hall; by inversion Hall).
  destruct (merge_value_ok maxN N left right vs v HN Hmx Hst Hv) as (st & size & -> & Hst1).
  cbn [out_bind]. rewrite Hmx, Epop. cbn [out_bind].
  assert (length (heapNodes (heap left)) = S (length (heapNodes h'))) as Hl by by rewrite Hp.
  edestruct (IH (mk_state h' maxN (maxElements left) (int32 (size - sizeof_bson_value))) st)
    as (st' & Est & Hst'); [done|done|exact Hst1|cbn [heap]; rewrite E in Hl; simpl in *; lia|].
  exists st'. split; [done|]. cbn [heap] in Hst'. rewrite E in Hp.
  apply (state_perm _ _ (heapNodes h' ++ v :: vs)); [|done].
  by rewrite Hp, <- Permutation_middle.
Qed.

Lemma combine_ok maxN N vs1 vs2 left right :
  within_limits N -> holds maxN N vs1 left -> holds maxN N vs2 right ->
  exists data,
    bson_maxminn_combine EnableCollation init (Some left) (Some right) = Some (Ok (Some data)) /\
    holds maxN N (vs1 ++ vs2) data.
Proof.
  intros HN (l & rl & Hl & ->) (r & rr & Hr & ->). unfold bson_maxminn_combine.
  rewrite (deserialize_state maxN N vs1), (deserialize_state maxN N vs2) by done. cbn [out_bind].
  pose proof Hl as (Hw & Hmx & _ & _ & _ & _ & _ & _ & dropped1 & Hb1).
  destruct (combine_loop_ok maxN N (length (heapNodes (heap l))) l r vs2) as (st & -> & Hst); [done..|].
  cbn [out_bind]. assert (state_ok maxN N (vs1 ++ vs2) st) as Hst'.
  { destruct Hst as (H1 & H2 & H3 & H4 & H5 & H6 & H7 & H8 & dropped & Hb).
    do 8 (split; [done|]). exists (dropped1 ++ dropped).
    by apply (best_combine _ _ _ (heapNodes (heap l))). }
  destruct (serialize_holds _ _ _ _ (Some (state_bytes r ++ rr)) Hst' HN) as (data & -> & Hd). eauto.
Qed.

(** The states that the calls of an aggregate over the values [vs] reach, in any
    order of transitions and combinations.  The number kept is that of the
    first call of each partial aggregate. *)
Inductive aggregates (maxN : bool) (N : Z) : list bson_value -> option bytes -> Prop :=
| agg_empty : aggregates maxN N [] None
| agg_transition vs state currentValue input N' data :
    aggregates maxN N vs state -> acceptable input -> argument currentValue input N' ->
    (state = None -> N' = N) ->
    bson_maxminn_transition EnableCollation init maxN state currentValue = Some (Ok data) ->
    aggregates maxN N (counted input ++ vs) (Some data)
| agg_combine vs1 vs2 left right state :
    aggregates maxN N vs1 left -> aggregates maxN N vs2 right ->
    bson_maxminn_combine EnableCollation init left right = Some (Ok state) ->
    aggregates maxN N (vs1 ++ vs2) state.

Lemma aggregates_hold maxN N vs state :
  within_limits N -> aggregates maxN N vs state ->
  match state with None => vs = [] | Some data => holds maxN N vs data end.
Proof.
  intros HN. induction 1 as [|vs state currentValue input N' data _ IH Hin Harg Hfirst E
                             |vs1 vs2 left right state _ IH1 _ IH2 E]; [done| |].
  - destruct (transition_ok maxN N N' vs state currentValue input) as (data' & E' & Hd); [done..| |].
    { destruct state; [done|]. split; [done|by apply Hfirst]. }
    rewrite E in E'. by simplify_eq.
  - destruct left as [l|], right as [r|]; cbn [bson_maxminn_combine] in E; simplify_eq; try done.
    + destruct (combine_ok maxN N vs1 vs2 l r HN IH1 IH2) as (data & E' & Hd).
      unfold bson_maxminn_combine in E'. rewrite E in E'. by simplify_eq.
    + by rewrite app_nil_r.
Qed.

(** C5: $maxN and $minN select the best values.  Whatever the order in which
    PostgreSQL runs transitions and combines partial states (within the size
    limits), the final function returns the N largest values seen (all of them
    when there are fewer) in descending order for $maxN, the N smallest in
    ascending order for $minN, ignoring null and undefined: the result together
    with the values left out is a permutation of the input, and no value left
    out is better than one returned. *)
Theorem maxminn_selects_best maxN N vs state :
  within_limits N -> aggregates maxN N vs state ->
  exists out dropped,
    bson_maxminn_final EnableCollation init state = Some (Ok out) /\
    best maxN (Z.to_nat N) vs out dropped /\
    StronglySorted (fun a b => cmp_le (drop_order maxN) b a) out.
Proof.
  intros HN Hagg. pose proof (aggregates_hold _ _ _ _ HN Hagg) as H. destruct state as [data|].
  - destruct H as (st & rest & Hst & ->). unfold bson_maxminn_final.
    rewrite (deserialize_state maxN N vs) by done. cbn [out_bind].
    destruct Hst as (Hw & Hmx & _ & _ & _ & _ & _ & _ & dropped & Hb). rewrite Hmx.
    destruct (drain_ok maxN (length (heapNodes (heap st))) (heap st) [] Hw) as (out & -> & Ho & Hs);
      [done|].
    exists out, dropped. rewrite app_nil_r. split_and!; [done|by rewrite Ho|done].
  - subst vs. exists [], []. split_and!; [done| |constructor]. apply best_nil.
Qed.

(** The calls of the accumulators $maxN and $minN are safe.  In every state
    that an aggregate reaches, within the size limits, the next transition and
    the combination of two states return a state: no cell outside the heap's
    array and no byte outside the state is accessed, and no error is raised. *)
Theorem maxminn_calls_safe maxN N vs state :
  within_limits N -> aggregates maxN N vs state ->
  (forall currentValue input N',
     acceptable input -> argument currentValue input N' -> (state = None -> N' = N) ->
     exists data,
       bson_maxminn_transition EnableCollation init maxN state currentValue = Some (Ok data)) /\
  (forall vs' state', aggregates maxN N vs' state' ->
     exists result, bson_maxminn_combine EnableCollation init state state' = Some (Ok result)).
Proof.
  intros HN Hagg. pose proof (aggregates_hold _ _ _ _ HN Hagg) as H. split.
  - intros currentValue input N' Hin Harg Hfirst.
    destruct (transition_ok maxN N N' vs state currentValue input) as (data & E & _); [done..| |].
    { destruct state; [done|]. split; [done|by apply Hfirst]. }
    eauto.
  - intros vs' state' Hagg'. pose proof (aggregates_hold _ _ _ _ HN Hagg') as H'.
    destruct state as [l|], state' as [r|]; try (by eexists).
    destruct (combine_ok maxN N vs vs' l r HN H H') as (data & -> & _). eauto.
Qed.
End correctness.

(** ** Concrete aggregates *)

Section examples.
Import ExactBid FoldCase.

(** { "" : { "input" : v, "n" : 2 } } *)
Definition two_best (v : bson_value) : bytes :=
  doc_bytes [([], V_Document [(input_key, v); (n_key, V_Int32 2)])].

Abbreviation transition := (bson_maxminn_transition true read_document true).
Abbreviation aggregate := (aggregates true read_document 3 1000 true 2).

Definition state_after (state : option bytes) (v : bson_value) : bytes :=
  match transition state (two_best v) with Some (Ok data) => data | _ => [] end.
Definition state1 : bytes := state_after None (V_Int32 4).
Definition state2 : bytes := state_after (Some state1) (V_Utf8 [97]).
Definition state3 : bytes := state_after (Some state2) (V_Int64 5).
Definition other : bytes := state_after None (V_Bool false).

Lemma two_best_argument v :
  wf_value v = true -> storable v = true -> blen (two_best v) < 2 ^ 31 ->
  argument true read_document (two_best v) v 2.
Proof.
  intros Hw Hs Hb. eexists _, _, _. unfold PgbsonToSinglePgbsonElement, PgbsonInitIterator, two_best.
  rewrite reader_inverts; [|simpl; by rewrite Hw|simpl; by rewrite Hs|done].
  split_and!; reflexivity.
Qed.

Lemma aggregate_values :
  aggregate [V_Int64 5; V_Utf8 [97]; V_Int32 4] (Some state3) /\ aggregate [V_Bool false] (Some other).
Proof.
  assert (forall vs state v,
    aggregate vs state -> value_ok 3 1000 v -> blen (two_best v) < 2 ^ 31 ->
    transition state (two_best v) = Some (Ok (state_after state v)) ->
    aggregate (counted v ++ vs) (Some (state_after state v))) as step.
  { intros vs state v Ha Hv Hb E. apply (agg_transition _ _ _ _ _ _ _ state (two_best v) v 2);
      [done|by right| |done|done].
    apply two_best_argument; [apply Hv|apply Hv|done]. }
  assert (value_ok 3 1000 (V_Int32 4) /\ value_ok 3 1000 (V_Utf8 [97]) /\
          value_ok 3 1000 (V_Int64 5) /\ value_ok 3 1000 (V_Bool false)) as (H1 & H2 & H3 & H4).
  { unfold value_ok. split_and!; vm_compute; first [done | discriminate | lia]. }
  split.
  - apply (step [V_Utf8 [97]; V_Int32 4] (Some state2) (V_Int64 5)); [|done|done|vm_compute; reflexivity].
    apply (step [V_Int32 4] (Some state1) (V_Utf8 [97])); [|done|done|vm_compute; reflexivity].
    apply (step [] None (V_Int32 4)); [constructor|done|done|vm_compute; reflexivity].
  - apply (step [] None (V_Bool false)); [constructor|done|done|vm_compute; reflexivity].
Qed.

Lemma maxminn_selects_best_witness :
  exists out dropped,
    bson_maxminn_final true read_document (Some state3) = Some (Ok out) /\
    best 3 true 2 [V_Int64 5; V_Utf8 [97]; V_Int32 4] out dropped /\
    StronglySorted (fun a b => cmp_le (drop_order 3 true) b a) out.
Proof.
  apply (maxminn_selects_best true read_document 3 1000 true 2).
  - split_and!; vm_compute; discriminate.
  - apply aggregate_values.
Defined.

Lemma maxminn_calls_safe_witness :
  exists result,
    bson_maxminn_combine true read_document (Some state3) (Some other) = Some (Ok result).
Proof.
  refine (proj2 (maxminn_calls_safe true read_document 3 1000 true 2
    [V_Int64 5; V_Utf8 [97]; V_Int32 4] (Some state3) _ _) [V_Bool false] (Some other) _).
  - split_and!; vm_compute; discriminate.
  - apply aggregate_values.
  - apply aggregate_values.
Defined.

(** The two largest values, the largest first. *)
Example maxn_final :
  bson_maxminn_final true read_document (Some state3) = Some (Ok [V_Utf8 [97]; V_Int64 5]).
Proof. vm_compute. reflexivity. Qed.
End examples.
